(** * Sogni n8n node: a shallow embedding of [Sogni.node.ts]

  The development follows the node implementation: the module-level helpers
  ([promiseWithTimeout], [safeDisconnect], [normalizeAppId],
  [generateUniqueAppId], [sniffMimeType], [extensionFromMime]), the three
  [loadOptions] methods and the per-item branches of [execute].

  JavaScript values are modelled by [jsval]; strings are sequences of code
  units below 256 ([ascii]), and a literal of the source is kept as the
  bytes it has in the source file; numbers are [NaN], the two infinities
  or a rational, and arithmetic rounds its exact result to the nearest
  IEEE 754 double ([binary64]).  Asynchronous code is written in a small
  state and exception monad [M]; its state holds a logical clock
  (milliseconds), the trace of the calls made to the outside world, the
  random source and the array [returnData] of [execute].  What the language
  and the n8n host provide is kept behind two interfaces, [JsRuntime] and
  [Host]. *)

From stdpp Require Import gmap strings list.
From Stdlib Require Import ZArith QArith Qround Qabs Lia Lqa Ascii String DecimalString DecimalNat.
From Stdlib.Strings Require Import Byte.
#[global] Set Warnings "-register-all".
Close Scope Q_scope.
Open Scope Z_scope.

(* ===================================================================== *)
(** ** JavaScript values *)
(* ===================================================================== *)

Module Js.

(** A JavaScript number. A finite value is kept as the rational it
    denotes; the code only meets doubles, and the arithmetic below rounds
    to them. Negative zero is not told apart from zero. *)
Inductive number : Type :=
| NaN
| Infinity (negative : bool)
| Finite (q : Q).

Inductive jsval : Type :=
| JUndefined
| JNull
| JBool (b : bool)
| JNum (n : number)
| JStr (s : string)
| JBuf (bytes : list byte)
| JArr (elems : list jsval)
| JObj (fields : list (string * jsval)).

Definition num (z : Z) : jsval := JNum (Finite (inject_Z z)).

(** [Number.isNaN] *)
Definition Number_isNaN (v : jsval) : bool :=
  match v with JNum NaN => true | _ => false end.

(** [Number.isFinite] on a number. *)
Definition Number_isFinite (n : number) : bool :=
  match n with Finite _ => true | _ => false end.

(** [typeof v === 'number'] *)
Definition typeof_number (v : jsval) : bool :=
  match v with JNum _ => true | _ => false end.

(** [typeof v === 'number' && !Number.isNaN(v)], the guard the node uses
    in front of every derived default. *)
Definition is_real_number (v : jsval) : bool :=
  typeof_number v && negb (Number_isNaN v).

(** Truthiness ([!!v]). *)
Definition truthy (v : jsval) : bool :=
  match v with
  | JUndefined | JNull => false
  | JBool b => b
  | JNum NaN => false
  | JNum (Infinity _) => true
  | JNum (Finite q) => negb (Qeq_bool q 0)
  | JStr s => negb (String.eqb s "")
  | JBuf _ | JArr _ | JObj _ => true
  end.

(** [v === s] for a string literal [s]. *)
Definition is_str (v : jsval) (s : string) : bool :=
  match v with JStr s' => String.eqb s' s | _ => false end.

(** [a ?? b] *)
Definition nullish (a b : jsval) : jsval :=
  match a with JUndefined | JNull => b | _ => a end.

(** [a || b] *)
Definition or_else (a b : jsval) : jsval := if truthy a then a else b.

(** Lookup in the own properties of an object literal. *)
Fixpoint assoc (k : string) (fs : list (string * jsval)) : jsval :=
  match fs with
  | [] => JUndefined
  | (k', v) :: fs' => if String.eqb k k' then v else assoc k fs'
  end.

(** [o.k] for a truthy receiver [o]: primitives have no such own
    property, so the read gives [undefined]. *)
Definition prop (o : jsval) (k : string) : jsval :=
  match o with JObj fs => assoc k fs | _ => JUndefined end.

(** [o?.k] *)
Definition opt_prop (o : jsval) (k : string) : jsval := prop o k.

(** Nearest integer, a tie going to the even neighbour. *)
Definition round_even (q : Q) : Z :=
  let f := Qfloor q in
  match (q - inject_Z f ?= 1 # 2)%Q with
  | Lt => f
  | Gt => f + 1
  | Eq => if Z.even f then f else f + 1
  end.

(** The double nearest to a rational (IEEE 754 binary64, round to nearest,
    ties to even). [t] is the value in units of the smallest subnormal
    [2^-1074]; doubles near [t] are [2^e] units apart and have at most 53
    significant bits; a result of [2^1024] or more is an infinity. *)
Definition binary64 (q : Q) : number :=
  let t := (q * inject_Z (2 ^ 1074))%Q in
  let e := Z.max 0 (Z.log2 (Qfloor (Qabs t)) - 52) in
  let m := round_even (t / inject_Z (2 ^ e)) in
  if 2 ^ 2098 <=? Z.abs m * 2 ^ e then Infinity (m <? 0)
  else Finite (Qred (inject_Z (m * 2 ^ e) / inject_Z (2 ^ 1074))).

Arguments binary64 : simpl never.

(** [n - c], [n / c], [n * c] and [n + c] for a positive constant [c],
    [op] being the exact operation: the result of a finite operand is
    rounded, an infinity and [NaN] stay what they are. *)
Definition rounded (op : Q -> Q) (n : number) : number :=
  match n with
  | Finite q => binary64 (op q)
  | other => other
  end.

(** [Math.round] on a rational: nearest integer, a tie going towards plus
    infinity. *)
Definition Math_round (x : Q) : Z := Qfloor (x + (1 # 2))%Q.

(** [Math.round(n)]; the nearest integer of a double is a double. *)
Definition Math_round_number (n : number) : number :=
  match n with
  | Finite q => Finite (inject_Z (Math_round q))
  | other => other
  end.

(** [Math.max(a, n)] for a finite constant [a]. *)
Definition Math_max (a : Q) (n : number) : number :=
  match n with
  | NaN => NaN
  | Infinity false => Infinity false
  | Infinity true => Finite a
  | Finite q => Finite (if Qle_bool q a then a else q)
  end.

(** Code units treated as white space by [String.prototype.trim]. *)
Definition is_whitespace (c : ascii) : bool :=
  let n := nat_of_ascii c in
  ((9 <=? n)%nat && (n <=? 13)%nat) || (n =? 32)%nat || (n =? 160)%nat.

Fixpoint trimStart (s : string) : string :=
  match s with
  | String c s' => if is_whitespace c then trimStart s' else s
  | EmptyString => EmptyString
  end.

Fixpoint trimEnd (s : string) : string :=
  match s with
  | String c s' =>
      match trimEnd s' with
      | EmptyString => if is_whitespace c then EmptyString else String c EmptyString
      | t => String c t
      end
  | EmptyString => EmptyString
  end.

(** [s.trim()] *)
Definition trim (s : string) : string := trimEnd (trimStart s).

Definition lower_char (c : ascii) : ascii :=
  let n := nat_of_ascii c in
  if ((65 <=? n)%nat && (n <=? 90)%nat)
     || ((192 <=? n)%nat && (n <=? 222)%nat && negb (n =? 215)%nat)
  then ascii_of_nat (n + 32) else c.

(** [s.toLowerCase()] *)
Fixpoint toLowerCase (s : string) : string :=
  match s with
  | String c s' => String (lower_char c) (toLowerCase s')
  | EmptyString => EmptyString
  end.

(** [s.startsWith(p)] *)
Definition startsWith (s p : string) : bool := String.prefix p s.

(** Does [needle] occur in [s]?  ([s.includes(needle)]) *)
Fixpoint includes (s needle : string) : bool :=
  String.prefix needle s ||
  match s with
  | String _ s' => includes s' needle
  | EmptyString => false
  end.

(** The double quote character, as a string. *)
Definition dq : string := String (ascii_of_nat 34) EmptyString.

(** Decimal rendering of an index inside a template literal. *)
Definition show_nat (n : nat) : string :=
  NilEmpty.string_of_uint (Nat.to_uint n).

(** Decimal rendering of an integer number inside a template literal. *)
Definition show_Z (z : Z) : string :=
  NilZero.string_of_int (Z.to_int z).

End Js.
Export Js.

(* ===================================================================== *)
(** ** Frame quantisation for the LTX-2 family (video generate branch) *)
(* ===================================================================== *)

Module Frames.

(** [videoModelId.toLowerCase().startsWith('ltx2-')] *)
Definition isLtx2Model (videoModelId : string) : bool :=
  startsWith (toLowerCase videoModelId) "ltx2-".

(** [Math.max(9, Math.round((requestedFrames - 1) / 8) * 8 + 1)] on a
    number, every operation rounding as the language does. *)
Definition quantizeNumber (requestedFrames : number) : number :=
  Math_max 9
    (rounded (fun q => q + 1)%Q
       (rounded (fun q => q * 8)%Q
          (Math_round_number
             (rounded (fun q => q / 8)%Q
                (rounded (fun q => q - 1)%Q requestedFrames))))).

Arguments quantizeNumber : simpl never.

(** The same on an integer frame count. *)
Definition quantize (requestedFrames : Z) : number :=
  quantizeNumber (Finite (inject_Z requestedFrames)).

(** [const frames = isLtx2Model ? Math.max(...) : requestedFrames] on an
    integer frame count. *)
Definition resolveFrames (videoModelId : string) (requestedFrames : Z) : number :=
  if isLtx2Model videoModelId then quantize requestedFrames
  else Finite (inject_Z requestedFrames).

(** The smallest value of the form [8n+1] that is not below [f], written
    from the wording of the specification (rounding up). *)
Definition roundUp_8n1 (f : Z) : Z := 8 * ((f + 6) / 8) + 1.

End Frames.

(* ===================================================================== *)
(** ** Effects: thrown values, completions, the world and the monad [M] *)
(* ===================================================================== *)

Module Eff.

(** Values that reach a [catch] clause.  [ErrorObj] stands for every
    instance of [Error] with a string as its message, other than the host's
    [NodeOperationError].  [ErrorWith message text] is an instance of
    [Error] whose [message] is no string: [text] is what a template literal
    makes of it, a string or the value thrown by the conversion (a symbol,
    an object whose [toString] throws).  [NonError shown] is any other
    thrown value that [String(v)] converts, [shown] being the result;
    [Unshowable raised] is one for which [String(v)] throws [raised] (an
    object created by [Object.create(null)], for one). *)
Inductive thrown : Type :=
| ErrorObj (message : string)
| NodeOperationError (message : string) (itemIndex : nat)
| ErrorWith (message : jsval) (text : string + thrown)
| NonError (shown : string)
| Unshowable (raised : thrown).

(** [err instanceof Error] *)
Definition instanceof_Error (e : thrown) : bool :=
  match e with
  | ErrorObj _ | NodeOperationError _ _ | ErrorWith _ _ => true
  | NonError _ | Unshowable _ => false
  end.

(** [error.message] of an instance of [Error]. *)
Definition messageOf (e : thrown) : jsval :=
  match e with
  | ErrorObj m | NodeOperationError m _ => JStr m
  | ErrorWith message _ => message
  | NonError _ | Unshowable _ => JUndefined
  end.

Inductive completion (A : Type) : Type :=
| Normal (a : A)
| Throw (e : thrown).
Arguments Normal {A} a.
Arguments Throw {A} e.

Definition cbind {A B} (c : completion A) (k : A -> completion B) : completion B :=
  match c with Normal a => k a | Throw e => Throw e end.

Definition is_normal {A} (c : completion A) : bool :=
  match c with Normal _ => true | Throw _ => false end.

(** [`${err instanceof Error ? err.message : String(err)}`], the text the
    [catch] clauses of [safeDisconnect] put into their log line: the
    conversion is not guarded and may itself throw. *)
Definition describe (e : thrown) : completion string :=
  match e with
  | ErrorObj m | NodeOperationError m _ => Normal m
  | ErrorWith _ (inl shown) | NonError shown => Normal shown
  | ErrorWith _ (inr raised) | Unshowable raised => Throw raised
  end.

(** Calls that leave the node. *)
Inductive event : Type :=
| EvConsoleLog (line : string)
| EvConsoleError (line : string) (err : thrown)
| EvNewClient (appId : string)
| EvClientDisconnect
| EvSocketClose
| EvSocketTerminate
| EvSocketRemoveAllListeners
| EvGetAvailableModels (args : jsval)
| EvCreateImageProject (config : jsval)
| EvCreateImageEditProject (config : jsval)
| EvCreateVideoProject (config : jsval)
| EvEstimateVideoCost (params : jsval)
| EvGetModel (modelId : string)
| EvGetBalance
| EvFetch (url : jsval).

(** One element of [returnData]. *)
Record Output : Type := {
  out_json : jsval;
  out_binary : option (gmap string jsval);
}.

(** A character of a UUID in its canonical form: a digit, a letter from
    [a] to [f], or the hyphen. *)
Definition is_uuid_char (c : ascii) : bool :=
  let n := nat_of_ascii c in
  ((48 <=? n)%nat && (n <=? 57)%nat) || ((97 <=? n)%nat && (n <=? 102)%nat) || (n =? 45)%nat.

(** The source [randomUUID] draws from: [draw k] is the value of the
    [k]-th call made in the process.  The values are cryptographically
    random, with 122 random bits each; the source is idealised as one that
    never gives the same value twice. *)
Record RandomSource : Type := {
  draw :> nat -> string;
  draw_fresh : forall j k, draw j = draw k -> j = k;
  draw_uuid : forall k, forallb is_uuid_char (list_ascii_of_string (draw k)) = true;
}.

(** The part of the process the node observes or changes: a logical clock
    in milliseconds, the calls made so far (oldest first), the raw value of
    the environment variable [SOGNI_N8N_DEBUG_APPID], the source
    [randomUUID] draws from together with the number of draws made, and the
    array [returnData] that [execute] fills. *)
Record world : Type := World {
  clock : Z;
  trace : list event;
  env_debug : option string;
  entropy : RandomSource;
  drawn : nat;
  returnData : list Output;
}.

Definition M (A : Type) : Type := world -> world * completion A.

Definition ret {A} (a : A) : M A := fun w => (w, Normal a).

Definition throw {A} (e : thrown) : M A := fun w => (w, Throw e).

Definition bind {A B} (m : M A) (k : A -> M B) : M B :=
  fun w =>
    match m w with
    | (w', Normal a) => k a w'
    | (w', Throw e) => (w', Throw e)
    end.

(** [try { m } catch (err) { handler err }] *)
Definition try_catch {A} (m : M A) (handler : thrown -> M A) : M A :=
  fun w =>
    match m w with
    | (w', Normal a) => (w', Normal a)
    | (w', Throw e) => handler e w'
    end.

(** [try { m } finally { cleanup }]: the cleanup runs on both exits, and an
    exception of the cleanup replaces the outcome of [m]. *)
Definition try_finally {A} (m : M A) (cleanup : M unit) : M A :=
  fun w =>
    match m w with
    | (w', r) =>
        match cleanup w' with
        | (w'', Normal _) => (w'', r)
        | (w'', Throw e) => (w'', Throw e)
        end
    end.

(** A synchronous result (a property read, a call) used as a step. *)
Definition lift {A} (c : completion A) : M A := fun w => (w, c).

(** The world after one more recorded call. *)
Definition record (e : event) (w : world) : world :=
  World (clock w) (trace w ++ [e]) (env_debug w) (entropy w) (drawn w) (returnData w).

Definition emit (e : event) : M unit := fun w => (record e w, Normal tt).

(** Let [ms] milliseconds pass. *)
Definition sleep (ms : Z) : M unit :=
  fun w => (World (clock w + ms) (trace w) (env_debug w) (entropy w) (drawn w)
              (returnData w),
            Normal tt).

(** [randomUUID()] from [crypto]. *)
Definition randomUUID : M string :=
  fun w => (World (clock w) (trace w) (env_debug w) (entropy w) (S (drawn w))
              (returnData w),
            Normal (entropy w (drawn w))).

(** The world after [returnData.push(o)]. *)
Definition pushed (o : Output) (w : world) : world :=
  World (clock w) (trace w) (env_debug w) (entropy w) (drawn w) (returnData w ++ [o]).

(** [const returnData = []] *)
Definition newReturnData : M unit :=
  fun w => (World (clock w) (trace w) (env_debug w) (entropy w) (drawn w) [], Normal tt).

(** [returnData.push(o)] *)
Definition push (o : Output) : M unit := fun w => (pushed o w, Normal tt).

(** [returnData], read. *)
Definition getReturnData : M (list Output) := fun w => (w, Normal (returnData w)).

Definition getenv_debug : M (option string) := fun w => (w, Normal (env_debug w)).

End Eff.
Export Eff.

(** Both [completion] and [M] are used through stdpp's monad notations:
    [x ← m; k] and [m;; k]. *)
#[global] Instance completion_ret : MRet completion := fun A a => Normal a.
#[global] Instance completion_bind : MBind completion := fun A B k c => cbind c k.
#[global] Instance M_ret : MRet M := fun A a => ret a.
#[global] Instance M_bind : MBind M := fun A B k m => bind m k.

(* ===================================================================== *)
(** ** Session shutdown: [promiseWithTimeout] and [safeDisconnect] *)
(* ===================================================================== *)

Module Session.

(** What a promise does once it has been created: it settles after some
    delay, or it stays pending for ever. *)
Inductive promise (A : Type) : Type :=
| Settles (after : N) (outcome : completion A)
| Pending.
Arguments Settles {A} after outcome.
Arguments Pending {A}.

(** A property that is expected to hold a method: either it is not a
    function, or calling it has the given outcome. For [disconnect] the
    outcome is a synchronous exception or the promise handed to
    [Promise.resolve]; a returned value that is no promise is
    [Settles 0 (Normal tt)]. *)
Inductive method (R : Type) : Type :=
| NotAFunction
| Function (call : completion R).
Arguments NotAFunction {R}.
Arguments Function {R} call.

(** A property that is expected to hold an object. *)
Inductive field (A : Type) : Type :=
| Nullish
| Falsy
| Truthy (a : A).
Arguments Nullish {A}.
Arguments Falsy {A}.
Arguments Truthy {A} a.

(** The transport handle, as far as [safeDisconnect] looks at it.  Every
    property read may throw (a getter, a proxy). *)
Record Socket : Type := {
  ws_readyState : completion jsval;
  ws_close : completion (method unit);
  ws_terminate : completion (method unit);
  ws_removeAllListeners : completion (method unit);
}.

(** [client.client] *)
Record Inner : Type := {
  in_socket : completion (field Socket);
  in_ws : completion (field Socket);
  in_websocket : completion (field Socket);
}.

(** The wrapper object, as far as the node looks at it: [disconnect], the
    fields probed for a transport handle, and the SDK calls. *)
Record Client : Type := {
  c_disconnect : completion (method (promise unit));
  c_socket : completion (field Socket);
  c_ws : completion (field Socket);
  c_websocket : completion (field Socket);
  c__socket : completion (field Socket);
  c__ws : completion (field Socket);
  c__websocket : completion (field Socket);
  c_client : completion (field Inner);
  c_getAvailableModels : jsval -> completion jsval;
  c_createImageProject : jsval -> completion jsval;
  c_createImageEditProject : jsval -> completion jsval;
  c_createVideoProject : jsval -> completion jsval;
  c_estimateVideoCost : jsval -> completion jsval;
  c_getModel : string -> completion jsval;
  c_getBalance : completion jsval;
}.

(** The second argument of [safeDisconnect]. *)
Record Context : Type := {
  label : string;
  appId : option string;
  timeoutMs : option Z;
}.

(** [isAppIdDebugEnabled] *)
Definition isAppIdDebugEnabled : M bool :=
  v ← getenv_debug;
  let raw := toLowerCase (trim (match v with Some s => s | None => "" end)) in
  mret (String.eqb raw "1" || String.eqb raw "true"
        || String.eqb raw "yes" || String.eqb raw "on").

(** [debugLogAppId] *)
Definition debugLogAppId (message : string) : M unit :=
  enabled ← isAppIdDebugEnabled;
  if enabled : bool then emit (EvConsoleLog ("[Sogni] " +:+ message)) else mret tt.

(** The delay of [setTimeout(f, timeoutMs)] for an integer [timeoutMs]:
    a delay below 1 or above [2^31 - 1] is replaced by 1. *)
Definition timerDelay (timeoutMs : Z) : Z :=
  if (timeoutMs <? 1) || (2147483647 <? timeoutMs) then 1 else timeoutMs.

(** [promiseWithTimeout]: the promise is raced against a timer; the
    promise exists before the timer is set, so when both are due at the
    same instant the promise wins. The message names [timeoutMs] as it was
    given. *)
Definition promiseWithTimeout {A} (p : promise A) (timeoutMs : Z) (label : string) : M A :=
  let timedOut :=
    sleep (timerDelay timeoutMs);;
    throw (ErrorObj (label +:+ " timed out after " +:+ show_Z timeoutMs +:+ "ms")) in
  match p with
  | Settles after outcome =>
      if Z.of_N after <=? timerDelay timeoutMs
      then sleep (Z.of_N after);; lift outcome
      else timedOut
  | Pending => timedOut
  end.

(** [a ?? b] on probed fields, [b] being evaluated only when needed. *)
Definition coalesce {A} (a : completion (field A)) (b : completion (field A))
  : completion (field A) :=
  match a with
  | Normal Nullish => b
  | other => other
  end.

(** [client.client?.f] *)
Definition inner_read (c : Client) (f : Inner -> completion (field Socket))
  : completion (field Socket) :=
  match c_client c with
  | Throw e => Throw e
  | Normal (Truthy i) => f i
  | Normal _ => Normal Nullish
  end.

(** The chain [client.socket ?? client.ws ?? ... ?? client.client?.websocket]. *)
Definition probeSocket (c : Client) : completion (field Socket) :=
  coalesce (c_socket c)
  (coalesce (c_ws c)
  (coalesce (c_websocket c)
  (coalesce (c__socket c)
  (coalesce (c__ws c)
  (coalesce (c__websocket c)
  (coalesce (inner_read c in_socket)
  (coalesce (inner_read c in_ws)
            (inner_read c in_websocket)))))))).

(** [if (typeof ws.m === 'function') ws.m()] *)
Definition callIfFunction (read : completion (method unit)) (ev : event) : M unit :=
  m ← lift read;
  match m with
  | Function call => emit ev;; lift call
  | NotAFunction => mret tt
  end.

(** [readyState === 3] *)
Definition strict_eq_3 (readyState : jsval) : bool :=
  match readyState with
  | JNum (Finite q) => Qeq_bool q 3
  | _ => false
  end.

(** The transport calls among recorded events. *)
Definition is_socket_call (e : event) : bool :=
  match e with
  | EvSocketClose | EvSocketTerminate | EvSocketRemoveAllListeners => true
  | _ => false
  end.

Definition socket_calls (l : list event) : list event := List.filter is_socket_call l.

Definition swallow (m : M unit) : M unit := try_catch m (fun _ => mret tt).

Definition resolveTimeoutMs (context : Context) : Z :=
  match timeoutMs context with
  | Some t => if 0 <? t then t else 5000
  | None => 5000
  end.

Definition tagOf (context : Context) : string :=
  label context +:+
  match appId context with
  | Some a => if String.eqb a "" then "" else " appId=" +:+ a
  | None => ""
  end.

(** Step 1 of [safeDisconnect]: the graceful disconnect of the wrapper.
    The [catch] clause builds its log line before it calls
    [debugLogAppId], so the conversion of [err] happens, and may throw,
    whether or not debugging is on. *)
Definition gracefulDisconnect (c : Client) (context : Context) : M unit :=
  let tag := tagOf context in
  try_catch
    (m ← lift (c_disconnect c);
     match m with
     | Function call =>
         debugLogAppId ("disconnect:start (" +:+ tag +:+ ")");;
         emit EvClientDisconnect;;
         p ← lift call;
         promiseWithTimeout p (resolveTimeoutMs context) ("disconnect (" +:+ tag +:+ ")");;
         debugLogAppId ("disconnect:done (" +:+ tag +:+ ")")
     | NotAFunction => mret tt
     end)
    (fun err =>
       text ← lift (describe err);
       debugLogAppId ("disconnect:error (" +:+ tag +:+ ") " +:+ text)).

(** Step 2 of [safeDisconnect]: the hard close of the probed handle. *)
Definition hardClose (c : Client) (context : Context) : M unit :=
  let tag := tagOf context in
  try_catch
    (ws ← lift (probeSocket c);
     match ws with
     | Truthy ws =>
         rs ← lift (ws_readyState ws);
         let readyState := if typeof_number rs then rs else JUndefined in
         let isClosed := strict_eq_3 readyState in
         (if isClosed then mret tt
          else swallow (callIfFunction (ws_close ws) EvSocketClose);;
               swallow (callIfFunction (ws_terminate ws) EvSocketTerminate));;
         swallow (callIfFunction (ws_removeAllListeners ws) EvSocketRemoveAllListeners);;
         debugLogAppId ("disconnect:hard-close attempted (" +:+ tag +:+ ")")
     | _ => mret tt
     end)
    (fun err =>
       text ← lift (describe err);
       debugLogAppId ("disconnect:hard-close error (" +:+ tag +:+ ") " +:+ text)).

(** [safeDisconnect(client, context)]; [None] is a falsy [client]. *)
Definition safeDisconnect (client : option Client) (context : Context) : M unit :=
  match client with
  | None => mret tt
  | Some c => gracefulDisconnect c context;; hardClose c context
  end.

End Session.

(* ===================================================================== *)
(** ** Identity allocation: [normalizeAppId] and [generateUniqueAppId] *)
(* ===================================================================== *)

Module Identity.

(** [normalizeAppId]; a value that is not a string gives [undefined]. *)
Definition normalizeAppId (appId : jsval) : option string :=
  match appId with
  | JStr s =>
      let trimmed := trim s in
      if (String.length trimmed =? 0)%nat then None else Some trimmed
  | _ => None
  end.

(** [generateUniqueAppId] *)
Definition generateUniqueAppId (prefix : string) : M string :=
  uuid ← randomUUID;
  mret (prefix +:+ "-" +:+ uuid).

(** The identity used by [execute]:
    [normalizeAppId(credentials.appId) ?? generateUniqueAppId('n8n-sogni')]. *)
Definition executionAppId (credentials : jsval) : M string :=
  match normalizeAppId (prop credentials "appId") with
  | Some userProvidedAppId => mret userProvidedAppId
  | None => generateUniqueAppId "n8n-sogni"
  end.

End Identity.

(* ===================================================================== *)
(** ** The language runtime and the n8n host, as interfaces *)
(* ===================================================================== *)

Module Runtime.

(** Conversions and built-ins of the language that the node relies on and
    that are not spelled out here. *)
Class JsRuntime : Type := {
  StringToNumber : string -> number;
  NumberToString : number -> string;
  ObjectToNumber : jsval -> completion number;
  ObjectToString : jsval -> completion string;
  JSON_parse : string -> completion jsval;
  decodeURIComponent : string -> completion string;
  (** first capture of the extended (RFC 5987, UTF-8) filename pattern *)
  match_filename_star : string -> option string;
  (** first capture of the quoted basic filename pattern *)
  match_filename_quoted : string -> option string;
  (** first capture of the unquoted basic filename pattern *)
  match_filename_basic : string -> option string;
}.

Section Coercions.
Context `{JsRuntime}.

(** [Number(v)] *)
Definition ToNumber (v : jsval) : completion number :=
  match v with
  | JUndefined => Normal NaN
  | JNull => Normal (Finite 0)
  | JBool b => Normal (Finite (if b then 1 else 0))
  | JNum n => Normal n
  | JStr s => Normal (StringToNumber s)
  | JBuf _ | JArr _ | JObj _ => ObjectToNumber v
  end.

(** [String(v)], also the conversion inside a template literal. *)
Definition ToString (v : jsval) : completion string :=
  match v with
  | JUndefined => Normal "undefined"
  | JNull => Normal "null"
  | JBool b => Normal (if b then "true" else "false")
  | JNum n => Normal (NumberToString n)
  | JStr s => Normal s
  | JBuf _ | JArr _ | JObj _ => ObjectToString v
  end.

(** [v > k] and [v >= k] for a finite constant [k]. *)
Definition gt_const (v : jsval) (k : Q) : completion bool :=
  n ← ToNumber v;
  mret (match n with
        | NaN => false
        | Infinity negative => negb negative
        | Finite q => negb (Qle_bool q k)
        end).

Definition ge_const (v : jsval) (k : Q) : completion bool :=
  n ← ToNumber v;
  mret (match n with
        | NaN => false
        | Infinity negative => negb negative
        | Finite q => Qle_bool k q
        end).

End Coercions.

(** [o.k] where [o] may be nullish, in which case the read throws. *)
Definition get (o : jsval) (k : string) : completion jsval :=
  match o with
  | JUndefined =>
      Throw (ErrorObj ("Cannot read properties of undefined (reading '" +:+ k +:+ "')"))
  | JNull =>
      Throw (ErrorObj ("Cannot read properties of null (reading '" +:+ k +:+ "')"))
  | _ => Normal (prop o k)
  end.

(** [v.trim()] where [v] is expected to be a string. *)
Definition call_trim (v : jsval) : completion string :=
  match v with
  | JStr s => Normal (trim s)
  | _ => Throw (ErrorObj "trim is not a function")
  end.

(** [v.toLowerCase()] where [v] is expected to be a string. *)
Definition call_toLowerCase (v : jsval) : completion string :=
  match v with
  | JStr s => Normal (toLowerCase s)
  | _ => Throw (ErrorObj "toLowerCase is not a function")
  end.

(** [(v as any[])], for [map], [filter] and [forEach]. *)
Definition as_array (v : jsval) : completion (list jsval) :=
  match v with
  | JArr l => Normal l
  | _ => Throw (ErrorObj "value is not iterable as an array")
  end.

(** [xs.filter(p)] where the predicate may throw. *)
Fixpoint filterM (p : jsval -> completion bool) (xs : list jsval) : completion (list jsval) :=
  match xs with
  | [] => Normal []
  | x :: xs' =>
      keep ← p x;
      rest ← filterM p xs';
      mret (if keep : bool then x :: rest else rest)
  end.

(** [xs.map(f)] where the callback may throw. *)
Fixpoint mapM {A} (f : jsval -> completion A) (xs : list jsval) : completion (list A) :=
  match xs with
  | [] => Normal []
  | x :: xs' =>
      y ← f x;
      rest ← mapM f xs';
      mret (y :: rest)
  end.

End Runtime.
Export Runtime.

Module HostApi.
Import Session.

(** One input item: its JSON part and its named binaries. *)
Record Item : Type := {
  item_json : jsval;
  item_binary : option (gmap string (list byte));
}.

(** A [fetch] response. [resp_headers] are the entries [resp.headers.forEach]
    visits, in the order it visits them: [fetch] has lower-cased the
    names and joined the values of a repeated name by then. *)
Record Response : Type := {
  resp_ok : bool;
  resp_status : Z;
  resp_statusText : string;
  resp_headers : list (string * string);
  resp_arrayBuffer : completion (list byte);
}.

(** What [this] offers inside [execute] and the [loadOptions] methods,
    together with the wrapper constructor and the global [fetch].
    [getBinaryDataBuffer] is [this.helpers.getBinaryDataBuffer], code of the
    host: it is given the item index and the property name as the node
    passes them, and what it returns or throws is not decided here. *)
Class Host : Type := {
  getCredentials : completion jsval;
  getCurrentNodeParameter : string -> completion jsval;
  getNodeParameter : string -> nat -> completion jsval;
  getInputData : list Item;
  getNodeName : string;
  continueOnFail : bool;
  newClient : jsval -> Client;
  fetch : jsval -> completion Response;
  prepareBinaryData : list byte -> string -> string -> completion jsval;
  getBinaryDataBuffer : nat -> jsval -> completion (list byte);
}.

(** The names every object has through [Object.prototype]; reading one of
    them gives a function (for [__proto__], the prototype), hence a truthy
    value. *)
Definition inheritedNames : list string :=
  ["constructor"; "hasOwnProperty"; "isPrototypeOf"; "propertyIsEnumerable";
   "toLocaleString"; "toString"; "valueOf";
   "__defineGetter__"; "__defineSetter__"; "__lookupGetter__"; "__lookupSetter__";
   "__proto__"].

(** The named binary among the own entries of a store. *)
Definition storeEntry (items : list Item) (i : nat) (propertyName : string)
  : option (list byte) :=
  item ← items !! i;
  store ← item_binary item;
  store !! propertyName.

(** A helper that hands out the own entries of the items' stores and
    fails for every other name; the hosts of the examples use it. *)
Definition storeBuffer (items : list Item) (i : nat) (propertyName : jsval)
  : completion (list byte) :=
  match propertyName with
  | JStr name =>
      match storeEntry items i name with
      | Some buffer => Normal buffer
      | None => Throw (ErrorObj ("no binary data property " +:+ name))
      end
  | _ => Throw (ErrorObj "no binary data property")
  end.

Section HostHelpers.
Context `{JsRuntime} `{Host}.

(** [this.getNodeParameter(name, i, fallback)] *)
Definition getNodeParameterOr (name : string) (i : nat) (fallback : jsval) : completion jsval :=
  v ← getNodeParameter name i;
  mret (match v with JUndefined => fallback | _ => v end).

(** The named binary among the own entries of the store of item [i]. *)
Definition binaryOf (i : nat) (propertyName : string) : option (list byte) :=
  storeEntry getInputData i propertyName.

(** [items[i].binary?.[propertyName]] as the guards test it: is the value
    read truthy? [items[i]] must be an item; without a store the optional
    chain stops before the key is looked at; with a store the key is
    converted to a string, and the read finds the own entries, which are
    binary data objects, and the members inherited from
    [Object.prototype]. *)
Definition binaryDataOf (i : nat) (propertyName : jsval) : completion bool :=
  match getInputData !! i with
  | None => Throw (ErrorObj "Cannot read properties of undefined (reading 'binary')")
  | Some item =>
      match item_binary item with
      | None => Normal false
      | Some store =>
          key ← ToString propertyName;
          mret (bool_decide (is_Some (store !! key))
                || bool_decide (key ∈ inheritedNames))
      end
  end.

(** [{ username: credentials.username, password: credentials.password,
       appId, autoConnect: true, debug: false }] *)
Definition clientOptions (credentials : jsval) (appId : string) : jsval :=
  JObj [("username", prop credentials "username");
        ("password", prop credentials "password");
        ("appId", JStr appId);
        ("autoConnect", JBool true);
        ("debug", JBool false)].

(** [new SogniClientWrapper({ ... })] *)
Definition constructClient (credentials : jsval) (appId : string) : M Client :=
  emit (EvNewClient appId);;
  mret (newClient (clientOptions credentials appId)).

End HostHelpers.

End HostApi.
Export HostApi.

(* ===================================================================== *)
(** ** Model option lookups: the three [loadOptions] methods *)
(* ===================================================================== *)

Module LoadOptions.
Import Session Identity.

Section LoadOptions.
Context `{JsRuntime} `{Host}.

(** [model.workerCount ?? model.workers ?? 0] *)
Definition workersOf (model : jsval) : jsval :=
  nullish (prop model "workerCount") (nullish (prop model "workers") (num 0)).

Definition healthyOf (model workers : jsval) : completion bool :=
  if is_str (prop model "health") "healthy" then Normal true
  else if is_str (prop model "status") "healthy" then Normal true
  else match prop model "healthy" with
       | JBool b => Normal b
       | _ => gt_const workers 0
       end.

(** [healthy && workers >= 5] *)
Definition recommendedOf (model workers : jsval) : completion bool :=
  healthy ← healthyOf model workers;
  if healthy : bool then ge_const workers 5 else Normal false.

(** [workers ? ` ... ${workers} workers` : ''], the separator being the
    bytes that stand between the two blanks in the source file. *)
Definition badgeOf (workers : jsval) : completion string :=
  if truthy workers
  then w ← ToString workers; mret (" â€¢ " +:+ w +:+ " workers")
  else Normal "".

(** The callback of [models.map] in [getModelOptions] and
    [getVideoModelOptions]. *)
Definition optionOf (model : jsval) : completion jsval :=
  _ ← get model "workerCount";
  let workers := workersOf model in
  recommended ← recommendedOf model workers;
  badge ← badgeOf workers;
  title ← ToString (or_else (prop model "name") (prop model "id"));
  mret (JObj [("name", JStr (title +:+ badge +:+
                             (if recommended : bool then " (recommended)" else "")));
              ("value", prop model "id");
              ("description", or_else (prop model "description") JUndefined)]).

(** The callback of [imageEditModels.map] in [getImageEditModelOptions]. *)
Definition editOptionOf (model : jsval) : completion jsval :=
  _ ← get model "workerCount";
  let workers := workersOf model in
  recommended ← recommendedOf model workers;
  badge ← badgeOf workers;
  modelId ← call_toLowerCase (or_else (prop model "id") (JStr ""));
  let isLightning := includes modelId "lightning" in
  let stepRecommendation :=
    if isLightning then " (4 steps recommended)" else " (20 steps recommended)" in
  title ← ToString (or_else (prop model "name") (prop model "id"));
  mret (JObj [("name", JStr (title +:+ badge +:+ stepRecommendation +:+
                             (if recommended : bool then " â˜…" else "")));
              ("value", prop model "id");
              ("description",
               or_else (prop model "description")
                 (JStr ("Qwen Image Edit model" +:+
                        (if isLightning then " - Fast lightning variant" else ""))))]).

(** The predicate of [models.filter] in [getVideoModelOptions]. *)
Definition isVideoModel (model : jsval) : completion bool :=
  _ ← get model "id";
  id ← call_toLowerCase (or_else (prop model "id") (JStr ""));
  name ← call_toLowerCase
           (or_else (or_else (prop model "name") (prop model "id")) (JStr ""));
  description ← call_toLowerCase (or_else (prop model "description") (JStr ""));
  let haystack := id +:+ " " +:+ name +:+ " " +:+ description in
  mret (startsWith id "wan_"
        || startsWith id "ltx2-"
        || includes haystack "video"
        || includes haystack "vid"
        || includes haystack "animation"
        || includes haystack "motion"
        || includes haystack "animate").

(** The predicate of [models.filter] in [getImageEditModelOptions]. *)
Definition isImageEditModel (model : jsval) : completion bool :=
  _ ← get model "id";
  modelId ← call_toLowerCase (or_else (prop model "id") (JStr ""));
  name ← call_toLowerCase
           (or_else (or_else (prop model "name") (prop model "id")) (JStr ""));
  mret ((includes modelId "qwen" && includes modelId "image_edit")
        || (includes name "qwen" && includes name "image edit")).

(** The argument of [client.getAvailableModels] in the lookups. *)
Definition lookupArgs (search : jsval) : jsval :=
  JObj [("sortByWorkers", JBool true);
        ("minWorkers", num 0);
        ("search", or_else search JUndefined);
        ("filter", or_else search JUndefined);
        ("limit", num 100)].

(** [client.getAvailableModels(...)] preceded by the read of the search box. *)
Definition fetchModels (client : Client) (searchParameter : string) : M (list jsval) :=
  p ← lift (getCurrentNodeParameter searchParameter);
  let search := or_else p (JStr "") in
  let args := lookupArgs search in
  emit (EvGetAvailableModels args);;
  models ← lift (c_getAvailableModels client args);
  lift (as_array models).

(** The context handed to [safeDisconnect] by a lookup. *)
Definition lookupContext (label : string) (appId : string) : Context :=
  {| label := label; appId := Some appId; timeoutMs := Some 2000 |}.

Definition getModelOptions : M jsval :=
  credentials ← lift getCredentials;
  appId ← generateUniqueAppId "n8n-sogni-loadopts";
  debugLogAppId ("loadOptions:getModelOptions appId=" +:+ appId);;
  client ← constructClient credentials appId;
  try_finally
    (models ← fetchModels client "modelSearch";
     options ← lift (mapM optionOf models);
     mret (JArr options))
    (safeDisconnect (Some client) (lookupContext "loadOptions:getModelOptions" appId)).

Definition getVideoModelOptions : M jsval :=
  credentials ← lift getCredentials;
  appId ← generateUniqueAppId "n8n-sogni-loadopts";
  debugLogAppId ("loadOptions:getVideoModelOptions appId=" +:+ appId);;
  client ← constructClient credentials appId;
  try_finally
    (models ← fetchModels client "videoModelSearch";
     videoModels ← lift (filterM isVideoModel models);
     options ← lift (mapM optionOf videoModels);
     mret (JArr
       (match options with
        | [] => [JObj [("name", JStr "No video models available - check back later");
                       ("value", JStr "");
                       ("description", JStr "Video models are being added to the platform")]]
        | _ => options
        end)))
    (safeDisconnect (Some client) (lookupContext "loadOptions:getVideoModelOptions" appId)).

Definition getImageEditModelOptions : M jsval :=
  credentials ← lift getCredentials;
  appId ← generateUniqueAppId "n8n-sogni-loadopts";
  debugLogAppId ("loadOptions:getImageEditModelOptions appId=" +:+ appId);;
  client ← constructClient credentials appId;
  try_finally
    (models ← fetchModels client "imageEditModelSearch";
     imageEditModels ← lift (filterM isImageEditModel models);
     options ← lift (mapM editOptionOf imageEditModels);
     mret (JArr
       (match options with
        | [] => [JObj [("name", JStr "No Qwen Image Edit models available - check back later");
                       ("value", JStr "");
                       ("description", JStr "Qwen Image Edit models are being added to the platform")]]
        | _ => options
        end)))
    (safeDisconnect (Some client) (lookupContext "loadOptions:getImageEditModelOptions" appId)).

End LoadOptions.
End LoadOptions.

(* ===================================================================== *)
(** ** Artifact download: MIME sniffing, file names and output slots *)
(* ===================================================================== *)

Module Artifacts.

Section Artifacts.
Context `{JsRuntime} `{Host}.

Definition byte_is (b : byte) (n : N) : bool := N.eqb (Byte.to_N b) n.

(** A byte decoded with the [ascii] encoding: the high bit is dropped. *)
Definition ascii_decode (b : byte) : N := N.land (Byte.to_N b) 127.

(** [sniffMimeType] *)
Definition sniffMimeType (buffer : list byte) : option string :=
  if (List.length buffer <? 4)%nat then None else
  match buffer with
  | b0 :: b1 :: b2 :: _ =>
      if byte_is b0 255 && byte_is b1 216 && byte_is b2 255 then Some "image/jpeg"
      else if (8 <=? List.length buffer)%nat
              && bool_decide (Byte.to_N <$> take 8 buffer
                              = [137; 80; 78; 71; 13; 10; 26; 10]%N)
      then Some "image/png"
      else if (6 <=? List.length buffer)%nat
              && (bool_decide (ascii_decode <$> take 6 buffer
                               = [71; 73; 70; 56; 55; 97]%N)
                  || bool_decide (ascii_decode <$> take 6 buffer
                                  = [71; 73; 70; 56; 57; 97]%N))
      then Some "image/gif"
      else None
  | _ => None
  end.

(** [extensionFromMime] *)
Definition extensionFromMime (mime : string) : string :=
  if String.eqb mime "image/jpeg" then "jpg"
  else if String.eqb mime "image/png" then "png"
  else if String.eqb mime "image/gif" then "gif"
  else "bin".

Definition nonempty (o : option string) : option string :=
  match o with
  | Some s => if String.eqb s "" then None else Some s
  | None => None
  end.

Fixpoint remove_quotes (s : string) : string :=
  match s with
  | String c s' =>
      if Ascii.eqb c (ascii_of_nat 34) then remove_quotes s'
      else String c (remove_quotes s')
  | EmptyString => EmptyString
  end.

(** [parseContentDispositionFilename] *)
Definition parseContentDispositionFilename (header : option string)
  : completion (option string) :=
  match nonempty header with
  | None => Normal None
  | Some header =>
      match nonempty (match_filename_star header) with
      | Some encoded => name ← decodeURIComponent encoded; mret (Some name)
      | None =>
          let basicMatch :=
            match match_filename_quoted header with
            | Some m => Some m
            | None => match_filename_basic header
            end in
          match nonempty basicMatch with
          | Some m => Normal (Some (trim (remove_quotes m)))
          | None => Normal None
          end
      end
  end.

(** The header object built by [resp.headers.forEach((v, k) =>
    (headers[k.toLowerCase()] = v))] from the entries visited. *)
Definition normalizeHeaders (hs : list (string * string)) : gmap string string :=
  foldl (fun headers kv => <[toLowerCase kv.1 := kv.2]> headers) ∅ hs.

(** [headers[a] || headers[b]] *)
Definition headerOf (headers : gmap string string) (a b : string) : option string :=
  match nonempty (headers !! a) with
  | Some v => Some v
  | None => nonempty (headers !! b)
  end.

(** The elements visited by [for (k = 0; k < urls.length; k++) urls[k]]. *)
Definition elementsOf (urls : jsval) : list jsval :=
  match urls with
  | JArr l => l
  | JStr s => (fun c => JStr (String c EmptyString)) <$> list_ascii_of_string s
  | _ => []
  end.

(** The output slot of the artifact at [index]: [image], [image_1], ... *)
Definition slotName (kind : string) (index : nat) : string :=
  match index with
  | O => kind
  | _ => kind +:+ "_" +:+ show_nat index
  end.

(** What differs between the image loops and the video loop. *)
Record DownloadKind : Type := {
  dk_slot : string;
  dk_errorNoun : string;
  dk_logNoun : string;
  dk_fallbackId : string;
  dk_mime : option string -> list byte -> completion string;
  dk_extension : string -> completion string;
}.

(** The body of the [try] of a download loop after the call of [fetch]:
    the binary data prepared for the response, or what was thrown. *)
Definition artifactOf (kind : DownloadKind) (projectId : jsval) (index : nat)
    (fetched : completion Response) : completion jsval :=
  resp ← fetched;
  if negb (resp_ok resp)
  then Throw (ErrorObj ("Failed to download " +:+ dk_errorNoun kind +:+ ": "
                        +:+ show_Z (resp_status resp) +:+ " "
                        +:+ resp_statusText resp))
  else
    bodyBuffer ← resp_arrayBuffer resp;
    let headers := normalizeHeaders (resp_headers resp) in
    let headerCt := headerOf headers "content-type" "Content-Type" in
    mimeType ← dk_mime kind headerCt bodyBuffer;
    let headerCd := headerOf headers "content-disposition" "Content-Disposition" in
    cdFilename ← parseContentDispositionFilename headerCd;
    base ← ToString (nullish projectId (JStr (dk_fallbackId kind)));
    let defaultNameBase := base +:+ "_" +:+ show_nat index in
    filename ← match nonempty cdFilename with
               | Some name => Normal name
               | None =>
                   extension ← dk_extension kind mimeType;
                   mret (defaultNameBase +:+ "." +:+ extension)
               end;
    prepareBinaryData bodyBuffer filename mimeType.

(** The line written by [console.error] when the download at [index] fails. *)
Definition failureLine (kind : DownloadKind) (index : nat) : string :=
  "Failed to download " +:+ dk_logNoun kind +:+ " " +:+ show_nat index +:+ ":".

(** One iteration of a download loop: the [try] stores the artifact in
    its slot, the [catch] logs the failure and goes on. *)
Definition downloadOne (kind : DownloadKind) (projectId : jsval)
    (binary : gmap string jsval) (index : nat) (url : jsval)
  : M (gmap string jsval) :=
  try_catch
    (emit (EvFetch url);;
     data ← lift (artifactOf kind projectId index (fetch url));
     mret (<[slotName (dk_slot kind) index := data]> binary))
    (fun downloadError =>
       emit (EvConsoleError (failureLine kind index) downloadError);;
       mret binary).

(** The loop over the result URLs, from [index] on. *)
Fixpoint downloadFrom (kind : DownloadKind) (projectId : jsval)
    (binary : gmap string jsval) (index : nat) (urls : list jsval)
  : M (gmap string jsval) :=
  match urls with
  | [] => mret binary
  | url :: rest =>
      binary' ← downloadOne kind projectId binary index url;
      downloadFrom kind projectId binary' (S index) rest
  end.

(** [if (download !== false && urls && urls.length > 0) for (...) {...}] *)
Definition downloadAll (kind : DownloadKind) (download : jsval) (projectId : jsval)
    (urls : jsval) : M (gmap string jsval) :=
  match download with
  | JBool false => mret ∅
  | _ => if truthy urls then downloadFrom kind projectId ∅ 0 (elementsOf urls)
         else mret ∅
  end.

(** [headerCt || sniffMimeType(bodyBuffer) || 'application/octet-stream'] *)
Definition imageMime (headerCt : option string) (bodyBuffer : list byte)
  : completion string :=
  Normal match headerCt with
         | Some ct => ct
         | None =>
             match nonempty (sniffMimeType bodyBuffer) with
             | Some m => m
             | None => "application/octet-stream"
             end
         end.

(** [guessedExt || 'bin'] *)
Definition imageExtension (mimeType : string) : completion string :=
  Normal (match nonempty (Some (extensionFromMime mimeType)) with
          | Some e => e
          | None => "bin"
          end).

Definition generatedImages : DownloadKind :=
  {| dk_slot := "image"; dk_errorNoun := "image"; dk_logNoun := "image";
     dk_fallbackId := "sogni";
     dk_mime := imageMime; dk_extension := imageExtension |}.

Definition editedImages : DownloadKind :=
  {| dk_slot := "image"; dk_errorNoun := "image"; dk_logNoun := "edited image";
     dk_fallbackId := "sogni_edit";
     dk_mime := imageMime; dk_extension := imageExtension |}.

(** For videos the type is [headerCt || `video/${outputFormat}`] and the
    extension is [outputFormat]. *)
Definition generatedVideos (outputFormat : jsval) : DownloadKind :=
  {| dk_slot := "video"; dk_errorNoun := "video"; dk_logNoun := "video";
     dk_fallbackId := "sogni_video";
     dk_mime := fun headerCt _ =>
       match headerCt with
       | Some ct => Normal ct
       | None => f ← ToString outputFormat; mret ("video/" +:+ f)
       end;
     dk_extension := fun _ => ToString outputFormat |}.

End Artifacts.
End Artifacts.

(* ===================================================================== *)
(** ** Request resolution: parameter sources, defaults, derived defaults *)
(* ===================================================================== *)

Module Resolve.

(** [(additional.k as any) || {}] *)
Definition group (additional : jsval) (k : string) : jsval :=
  or_else (prop additional k) (JObj []).

(** The expression
    [typeof timeoutInput === 'number' && !Number.isNaN(timeoutInput)
       ? timeoutInput : network === 'fast' ? fastMs : relaxedMs]
    of the three branches; the two constants differ between them. *)
Definition derivedTimeout (timeoutInput network : jsval) (fastMs relaxedMs : Z) : jsval :=
  if is_real_number timeoutInput then timeoutInput
  else if is_str network "fast" then num fastMs else num relaxedMs.

(** *** Image generation *)

Record GenerateResolved : Type := {
  g_network : jsval;
  g_numberOfMedia : jsval;
  g_steps : jsval;
  g_guidance : jsval;
  g_negativePrompt : jsval;
  g_stylePrompt : jsval;
  g_seed : jsval;
  g_tokenType : jsval;
  g_timeoutInput : jsval;
  g_downloadImages : jsval;
  g_outputFormat : jsval;
  g_sizePreset : jsval;
  g_width : jsval;
  g_height : jsval;
  g_resolvedTimeoutMs : jsval;
}.

(** [networkTop] is the top-level [network] parameter and [additional] the
    [additionalFields] collection after [|| {}]. *)
Definition resolveGenerate (networkTop additional : jsval) : GenerateResolved :=
  let gen := group additional "generationSettings" in
  let out := group additional "output" in
  let adv := group additional "advanced" in
  let legacy := additional in
  let networkLegacy := prop legacy "network" in
  let network := nullish networkTop (nullish networkLegacy (JStr "fast")) in
  let timeoutInput := nullish (prop adv "timeout") (prop legacy "timeout") in
  {| g_network := network;
     g_numberOfMedia :=
       nullish (prop gen "numberOfMedia")
         (nullish (prop legacy "numberOfMedia")
            (nullish (prop legacy "numberOfImages") (num 1)));
     g_steps := nullish (prop gen "steps") (nullish (prop legacy "steps") (num 20));
     g_guidance :=
       nullish (prop gen "guidance")
         (nullish (prop legacy "guidance") (JNum (Finite (15 # 2))));
     g_negativePrompt :=
       nullish (prop gen "negativePrompt") (nullish (prop legacy "negativePrompt") (JStr ""));
     g_stylePrompt :=
       nullish (prop gen "stylePrompt") (nullish (prop legacy "stylePrompt") (JStr ""));
     g_seed := nullish (prop gen "seed") (prop legacy "seed");
     g_tokenType :=
       nullish (prop adv "tokenType") (nullish (prop legacy "tokenType") (JStr "spark"));
     g_timeoutInput := timeoutInput;
     g_downloadImages :=
       nullish (prop out "downloadImages")
         (nullish (prop legacy "downloadImages") (JBool true));
     g_outputFormat :=
       nullish (prop out "outputFormat") (nullish (prop legacy "outputFormat") (JStr "png"));
     g_sizePreset := nullish (prop out "sizePreset") (prop legacy "sizePreset");
     g_width := nullish (prop out "width") (prop legacy "width");
     g_height := nullish (prop out "height") (prop legacy "height");
     g_resolvedTimeoutMs := derivedTimeout timeoutInput network 60000 600000 |}.

(** *** Image edit *)

Record EditResolved : Type := {
  e_negativePrompt : jsval;
  e_stylePrompt : jsval;
  e_numberOfMedia : jsval;
  e_stepsInput : jsval;
  e_seed : jsval;
  e_downloadImages : jsval;
  e_outputFormat : jsval;
  e_sizePreset : jsval;
  e_width : jsval;
  e_height : jsval;
  e_tokenType : jsval;
  e_timeoutInput : jsval;
  e_isLightningModel : bool;
  e_steps : jsval;
  e_guidance : jsval;
  e_resolvedTimeoutMs : jsval;
}.

Definition resolveEdit (modelId network additional : jsval) : completion EditResolved :=
  let gen := group additional "generationSettings" in
  let out := group additional "output" in
  let adv := group additional "advanced" in
  let stepsInput := prop gen "steps" in
  let timeoutInput := prop adv "timeout" in
  lowered ← call_toLowerCase modelId;
  let isLightningModel := includes lowered "lightning" in
  let guidanceInput := prop gen "guidance" in
  mret
  {| e_negativePrompt := nullish (prop gen "negativePrompt") (JStr "");
     e_stylePrompt := nullish (prop gen "stylePrompt") (JStr "");
     e_numberOfMedia := nullish (prop gen "numberOfMedia") (num 1);
     e_stepsInput := stepsInput;
     e_seed := prop gen "seed";
     e_downloadImages := nullish (prop out "downloadImages") (JBool true);
     e_outputFormat := nullish (prop out "outputFormat") (JStr "png");
     e_sizePreset := prop out "sizePreset";
     e_width := prop out "width";
     e_height := prop out "height";
     e_tokenType := nullish (prop adv "tokenType") (JStr "spark");
     e_timeoutInput := timeoutInput;
     e_isLightningModel := isLightningModel;
     e_steps :=
       if is_real_number stepsInput then stepsInput
       else if isLightningModel then num 4 else num 20;
     e_guidance :=
       if is_real_number guidanceInput then guidanceInput
       else if isLightningModel then num 1 else num 4;
     e_resolvedTimeoutMs := derivedTimeout timeoutInput network 60000 600000 |}.

(** *** Video generation *)

Section Video.
Context `{JsRuntime}.

(** [Math.max(9, Math.round((requestedFrames - 1) / 8) * 8 + 1)] on any
    value; the subtraction converts its operand to a number. *)
Definition quantizeValue (requestedFrames : jsval) : completion jsval :=
  n ← ToNumber requestedFrames;
  mret (JNum (Frames.quantizeNumber n)).

(** [const frames = isLtx2Model ? Math.max(...) : requestedFrames] *)
Definition resolveFramesValue (videoModelId requestedFrames : jsval) : completion jsval :=
  lowered ← call_toLowerCase videoModelId;
  if startsWith lowered "ltx2-" then quantizeValue requestedFrames
  else Normal requestedFrames.

Record VideoResolved : Type := {
  v_negativePrompt : jsval;
  v_stylePrompt : jsval;
  v_numberOfMedia : jsval;
  v_requestedFrames : jsval;
  v_duration : jsval;
  v_fps : jsval;
  v_steps : jsval;
  v_guidance : jsval;
  v_shift : jsval;
  v_teacacheThreshold : jsval;
  v_sampler : jsval;
  v_scheduler : jsval;
  v_seed : jsval;
  v_frames : jsval;
  v_downloadVideos : jsval;
  v_outputFormat : jsval;
  v_width : jsval;
  v_height : jsval;
  v_tokenType : jsval;
  v_timeoutInput : jsval;
  v_autoResizeVideoAssets : jsval;
}.

(** The part of the video branch from [negativePrompt] down to
    [autoResizeVideoAssets]. *)
Definition resolveVideo (videoModelId videoAdditional : jsval) : completion VideoResolved :=
  let videoSettings := group videoAdditional "videoSettings" in
  let videoOutput := group videoAdditional "output" in
  let videoAdvanced := group videoAdditional "advanced" in
  let requestedFrames := nullish (prop videoSettings "frames") (num 30) in
  frames ← resolveFramesValue videoModelId requestedFrames;
  mret
  {| v_negativePrompt := nullish (prop videoSettings "negativePrompt") (JStr "");
     v_stylePrompt := nullish (prop videoSettings "stylePrompt") (JStr "");
     v_numberOfMedia := nullish (prop videoSettings "numberOfMedia") (num 1);
     v_requestedFrames := requestedFrames;
     v_duration := prop videoSettings "duration";
     v_fps := nullish (prop videoSettings "fps") (num 30);
     v_steps := nullish (prop videoSettings "steps") (num 20);
     v_guidance := nullish (prop videoSettings "guidance") (JNum (Finite (15 # 2)));
     v_shift := prop videoSettings "shift";
     v_teacacheThreshold := prop videoSettings "teacacheThreshold";
     v_sampler := prop videoSettings "sampler";
     v_scheduler := prop videoSettings "scheduler";
     v_seed := prop videoSettings "seed";
     v_frames := frames;
     v_downloadVideos := nullish (prop videoOutput "downloadVideos") (JBool true);
     v_outputFormat := nullish (prop videoOutput "outputFormat") (JStr "mp4");
     v_width := nullish (prop videoOutput "width") (num 512);
     v_height := nullish (prop videoOutput "height") (num 512);
     v_tokenType := nullish (prop videoAdvanced "tokenType") (JStr "spark");
     v_timeoutInput := prop videoAdvanced "timeout";
     v_autoResizeVideoAssets :=
       nullish (prop videoAdvanced "autoResizeVideoAssets") (JBool true) |}.

(** [resolvedTimeoutMs] of the video branch. *)
Definition videoTimeout (timeoutInput videoNetwork : jsval) : jsval :=
  derivedTimeout timeoutInput videoNetwork 120000 1200000.

(** The guard in front of [estimateParams.frames = framesInput]. *)
Definition estimateFrames (framesInput : jsval) : option jsval :=
  if is_real_number framesInput
  then match framesInput with
       | JNum (Infinity false) => Some framesInput
       | JNum (Finite q) => if Qle_bool q 0 then None else Some framesInput
       | _ => None
       end
  else None.

(** *** SAM2 coordinates *)

(** The callback of [parsed.map]. *)
Definition sam2Point (itemIndex : nat) (pointIndex : nat) (point : jsval)
  : completion jsval :=
  x ← ToNumber (opt_prop point "x");
  y ← ToNumber (opt_prop point "y");
  if Number_isFinite x && Number_isFinite y
  then Normal (JObj [("x", JNum x); ("y", JNum y)])
  else Throw (NodeOperationError
                ("SAM2 coordinate at index " +:+ show_nat pointIndex
                 +:+ " must include numeric x and y values.") itemIndex).

Fixpoint sam2Points (itemIndex : nat) (pointIndex : nat) (points : list jsval)
  : completion (list jsval) :=
  match points with
  | [] => Normal []
  | point :: rest =>
      p ← sam2Point itemIndex pointIndex point;
      ps ← sam2Points itemIndex (S pointIndex) rest;
      mret (p :: ps)
  end.

(** The block that turns [sam2CoordinatesJson] (already trimmed) into
    [sam2Coordinates]; [JUndefined] when the string is empty. *)
Definition parseSam2Coordinates (itemIndex : nat) (sam2CoordinatesJson : string)
  : completion jsval :=
  if String.eqb sam2CoordinatesJson "" then Normal JUndefined
  else
    match JSON_parse sam2CoordinatesJson with
    | Throw _ =>
        Throw (NodeOperationError
                 ("SAM2 Coordinates must be valid JSON, e.g. [{" +:+ dq +:+ "x" +:+ dq
                  +:+ ":0.5," +:+ dq +:+ "y" +:+ dq +:+ ":0.5}]")
                 itemIndex)
    | Normal parsed =>
        match parsed with
        | JArr (point :: rest) =>
            points ← sam2Points itemIndex 0 (point :: rest);
            mret (JArr points)
        | _ =>
            Throw (NodeOperationError
                     "SAM2 Coordinates must be a non-empty JSON array." itemIndex)
        end
    end.

End Video.
End Resolve.

(* ===================================================================== *)
(** ** [execute]: the per-item branches *)
(* ===================================================================== *)

Module Execute.
Import Session Identity Resolve Artifacts.

Section Execute.
Context `{JsRuntime} `{Host}.

(** [Array.isArray(r.jobs) ? r.jobs.map(job => ({ id, status })) : undefined] *)
Definition jobsOf (r : jsval) : completion jsval :=
  match prop r "jobs" with
  | JArr jobs =>
      l ← mapM (fun job =>
                  id ← get job "id";
                  mret (JObj [("id", id); ("status", prop job "status")])) jobs;
      mret (JArr l)
  | _ => Normal JUndefined
  end.

(** The entries of [meta] that are read off the result, identical in the
    three generation branches. *)
Definition resultMeta (r : jsval) : list (string * jsval) :=
  [("cost", nullish (prop r "cost") (nullish (prop r "costTokens")
              (nullish (prop r "tokensUsed") (nullish (prop r "tokenCost") JUndefined))));
   ("queuePosition",
      nullish (prop r "queuePosition")
        (nullish (opt_prop (prop r "queue") "position")
           (nullish (prop r "position") JUndefined)));
   ("latencies",
      JObj [("queueMs",
               nullish (prop r "queueTimeMs")
                 (nullish (opt_prop (prop r "latencies") "queueMs")
                    (nullish (opt_prop (prop r "metrics") "queueTimeMs") JUndefined)));
            ("generationMs",
               nullish (prop r "generationTimeMs")
                 (nullish (opt_prop (prop r "latencies") "generationMs")
                    (nullish (opt_prop (prop r "metrics") "generationTimeMs") JUndefined)));
            ("totalMs",
               nullish (prop r "totalTimeMs")
                 (nullish (opt_prop (prop r "latencies") "totalMs")
                    (nullish (opt_prop (prop r "metrics") "totalTimeMs") JUndefined)))]);
   ("workerId", nullish (prop r "workerId")
                  (nullish (opt_prop (prop r "worker") "id") JUndefined));
   ("modelVersion", nullish (prop r "modelVersion")
                      (nullish (opt_prop (prop r "model") "version") JUndefined));
   ("raw", nullish (prop r "meta") (nullish (prop r "metadata") JUndefined))].

(** [r.projectId ?? r.project?.id ?? undefined] *)
Definition projectIdOf (r : jsval) : completion jsval :=
  p ← get r "projectId";
  mret (nullish p (nullish (opt_prop (prop r "project") "id") JUndefined)).

(** The error raised by the guards in front of a named binary. *)
Definition missingBinary (propertyName : string) (hint : string) (itemIndex : nat) : thrown :=
  NodeOperationError
    ("No binary data found in property " +:+ dq +:+ propertyName +:+ dq +:+ hint)
    itemIndex.

(** *** Image generation *)

(** The [if (enableControlNet) { ... }] block; the result is the list of
    properties it adds to [projectConfig]. *)
Definition controlNetOf (i : nat) (additional : jsval) : completion (list (string * jsval)) :=
  let cn := group additional "controlNet" in
  let legacy := additional in
  let enableControlNet :=
    nullish (prop cn "enableControlNet")
      (nullish (prop legacy "enableControlNet") (JBool false)) in
  if truthy enableControlNet then
    let controlNetType := nullish (prop cn "controlNetType") (prop legacy "controlNetType") in
    let imagePropertyName :=
      nullish (prop cn "controlNetImageProperty")
        (nullish (prop legacy "controlNetImageProperty") (JStr "data")) in
    binaryData ← binaryDataOf i imagePropertyName;
    if binaryData : bool then
        imageBuffer ← getBinaryDataBuffer i imagePropertyName;
        mret [("controlNet",
               JObj [("name", controlNetType);
                     ("image", JBuf imageBuffer);
                     ("strength",
                        nullish (prop cn "controlNetStrength")
                          (nullish (prop legacy "controlNetStrength") (JNum (Finite (1 # 2)))));
                     ("mode",
                        nullish (prop cn "controlNetMode")
                          (nullish (prop legacy "controlNetMode") (JStr "balanced")));
                     ("guidanceStart",
                        nullish (prop cn "controlNetGuidanceStart")
                          (nullish (prop legacy "controlNetGuidanceStart") (num 0)));
                     ("guidanceEnd",
                        nullish (prop cn "controlNetGuidanceEnd")
                          (nullish (prop legacy "controlNetGuidanceEnd") (num 1)))])]
    else
        name ← ToString imagePropertyName;
        Throw (missingBinary name ". Please provide a control image." i)
  else Normal [].

Definition imageGenerate (client : Client) (i : nat) : M Output :=
  modelId ← lift (getNodeParameter "modelId" i);
  positivePrompt ← lift (getNodeParameter "positivePrompt" i);
  additional0 ← lift (getNodeParameterOr "additionalFields" i (JObj []));
  let additional := or_else additional0 (JObj []) in
  networkTop ← lift (getNodeParameter "network" i);
  let g := resolveGenerate networkTop additional in
  controlNet ← lift (controlNetOf i additional);
  let projectConfig :=
    JObj ([("modelId", modelId);
           ("positivePrompt", positivePrompt);
           ("negativePrompt", g_negativePrompt g);
           ("stylePrompt", g_stylePrompt g);
           ("steps", g_steps g);
           ("guidance", g_guidance g);
           ("numberOfMedia", g_numberOfMedia g);
           ("network", g_network g);
           ("tokenType", g_tokenType g);
           ("outputFormat", g_outputFormat g);
           ("sizePreset", g_sizePreset g);
           ("width", g_width g);
           ("height", g_height g);
           ("seed", g_seed g);
           ("waitForCompletion", JBool true);
           ("timeout", g_resolvedTimeoutMs g)] ++ controlNet) in
  emit (EvCreateImageProject projectConfig);;
  r ← lift (c_createImageProject client projectConfig);
  projectId ← lift (projectIdOf r);
  jobs ← lift (jobsOf r);
  let json :=
    JObj [("projectId", projectId);
          ("modelId", modelId);
          ("prompt", positivePrompt);
          ("imageUrls", or_else (prop r "imageUrls") (JArr []));
          ("completed", prop r "completed");
          ("jobs", jobs);
          ("meta",
             JObj ([("network", g_network g);
                    ("tokenType", g_tokenType g);
                    ("resolved",
                       JObj [("steps", g_steps g);
                             ("guidance", g_guidance g);
                             ("numberOfMedia", g_numberOfMedia g);
                             ("timeoutMs", g_resolvedTimeoutMs g)])]
                   ++ resultMeta r))] in
  binary ← downloadAll generatedImages (g_downloadImages g) projectId (prop r "imageUrls");
  mret {| out_json := json; out_binary := Some binary |}.

(** *** Image edit *)

(** Context image 1: required. The parameter value is used as it is: as
    a property key, inside the message and as the argument of the helper. *)
Definition requiredContextImage (i : nat) (contextImage1Property : jsval)
  : completion (list byte) :=
  binaryData1 ← binaryDataOf i contextImage1Property;
  if binaryData1 : bool then getBinaryDataBuffer i contextImage1Property
  else
    name ← ToString contextImage1Property;
    Throw (missingBinary name ". Please provide a context image." i).

(** [propertyName && propertyName.trim()], as a condition. *)
Definition isNamed (propertyName : jsval) : completion bool :=
  if truthy propertyName
  then trimmed ← call_trim propertyName; mret (negb (String.eqb trimmed ""))
  else Normal false.

(** Context images 2 and 3: used when named and found by the guard,
    skipped otherwise. *)
Definition optionalContextImage (i : nat) (propertyName : jsval)
  : completion (option (list byte)) :=
  named ← isNamed propertyName;
  if named : bool then
    binaryData ← binaryDataOf i propertyName;
    if binaryData : bool
    then b ← getBinaryDataBuffer i propertyName; mret (Some b)
    else Normal None
  else Normal None.

(** [contextImages] after the three blocks. *)
Definition contextImagesOf (i : nat) (p1 p2 p3 : jsval) : completion (list (list byte)) :=
  b1 ← requiredContextImage i p1;
  b2 ← optionalContextImage i p2;
  b3 ← optionalContextImage i p3;
  mret ([b1] ++ from_option (fun b => [b]) [] b2 ++ from_option (fun b => [b]) [] b3).

Definition imageEdit (client : Client) (i : nat) : M Output :=
  modelId ← lift (getNodeParameter "imageEditModelId" i);
  editPrompt ← lift (getNodeParameter "imageEditPrompt" i);
  contextImage1Property ← lift (getNodeParameter "contextImage1Property" i);
  contextImage2Property ← lift (getNodeParameterOr "contextImage2Property" i (JStr ""));
  contextImage3Property ← lift (getNodeParameterOr "contextImage3Property" i (JStr ""));
  network ← lift (getNodeParameter "imageEditNetwork" i);
  additional0 ← lift (getNodeParameterOr "imageEditAdditionalFields" i (JObj []));
  let additional := or_else additional0 (JObj []) in
  e ← lift (resolveEdit modelId network additional);
  contextImages ←
    lift (contextImagesOf i contextImage1Property contextImage2Property
            contextImage3Property);
  let editProjectConfig :=
    JObj [("modelId", modelId);
          ("positivePrompt", editPrompt);
          ("negativePrompt", e_negativePrompt e);
          ("stylePrompt", e_stylePrompt e);
          ("steps", e_steps e);
          ("guidance", e_guidance e);
          ("numberOfMedia", e_numberOfMedia e);
          ("network", network);
          ("tokenType", e_tokenType e);
          ("outputFormat", e_outputFormat e);
          ("sizePreset", e_sizePreset e);
          ("width", e_width e);
          ("height", e_height e);
          ("seed", e_seed e);
          ("contextImages", JArr (JBuf <$> contextImages));
          ("waitForCompletion", JBool true);
          ("timeout", e_resolvedTimeoutMs e)] in
  emit (EvCreateImageEditProject editProjectConfig);;
  r ← lift (c_createImageEditProject client editProjectConfig);
  projectId ← lift (projectIdOf r);
  jobs ← lift (jobsOf r);
  let json :=
    JObj [("projectId", projectId);
          ("modelId", modelId);
          ("prompt", editPrompt);
          ("imageUrls", or_else (prop r "imageUrls") (JArr []));
          ("completed", prop r "completed");
          ("contextImagesCount", num (Z.of_nat (List.length contextImages)));
          ("jobs", jobs);
          ("meta",
             JObj ([("network", network);
                    ("tokenType", e_tokenType e);
                    ("resolved",
                       JObj [("steps", e_steps e);
                             ("guidance", e_guidance e);
                             ("numberOfMedia", e_numberOfMedia e);
                             ("timeoutMs", e_resolvedTimeoutMs e)])]
                   ++ resultMeta r))] in
  binary ← downloadAll editedImages (e_downloadImages e) projectId (prop r "imageUrls");
  mret {| out_json := json; out_binary := Some binary |}.

(** *** Video generation *)

(** [readOptionalBinaryProperty]: nothing for an empty property name;
    otherwise what the helper gives when the guard finds the name, and the
    node's error when it does not. *)
Definition readOptionalBinaryProperty (i : nat) (propertyName : string) (label : string)
  : completion (option (list byte)) :=
  if String.eqb propertyName "" then Normal None
  else
    binaryData ← binaryDataOf i (JStr propertyName);
    if binaryData : bool
    then b ← getBinaryDataBuffer i (JStr propertyName); mret (Some b)
    else Throw (missingBinary propertyName (" for " +:+ label +:+ ".") i).

(** [(videoInputs.k ?? '').trim()] for one of the four reference bindings. *)
Definition referenceProperty (videoAdditional : jsval) (k : string) : completion string :=
  call_trim (nullish (prop (group videoAdditional "inputs") k) (JStr "")).

(** [(videoWorkflow.sam2CoordinatesJson ?? '').trim()] *)
Definition sam2TextOf (videoAdditional : jsval) : completion string :=
  call_trim (nullish (prop (group videoAdditional "workflowControls") "sam2CoordinatesJson")
               (JStr "")).

Definition bufferOrUndefined (b : option (list byte)) : jsval :=
  match b with Some bytes => JBuf bytes | None => JUndefined end.

(** Everything the video branch computes before it calls the SDK: the
    request object, and what the rest of the branch still needs. *)
Record VideoRequest : Type := {
  vr_config : jsval;
  vr_resolved : VideoResolved;
  vr_resolvedMeta : jsval;
  vr_network : jsval;
}.

Definition videoRequest (i : nat) : completion VideoRequest :=
  videoModelId ← getNodeParameter "videoModelId" i;
  videoPositivePrompt ← getNodeParameter "videoPositivePrompt" i;
  videoNetwork ← getNodeParameter "videoNetwork" i;
  videoAdditional0 ← getNodeParameterOr "videoAdditionalFields" i (JObj []);
  let videoAdditional := or_else videoAdditional0 (JObj []) in
  let videoWorkflow := group videoAdditional "workflowControls" in
  v ← resolveVideo videoModelId videoAdditional;
  referenceImageProperty ← referenceProperty videoAdditional "referenceImageProperty";
  referenceImageEndProperty ← referenceProperty videoAdditional "referenceImageEndProperty";
  referenceAudioProperty ← referenceProperty videoAdditional "referenceAudioProperty";
  referenceVideoProperty ← referenceProperty videoAdditional "referenceVideoProperty";
  referenceImage ← readOptionalBinaryProperty i referenceImageProperty "reference image";
  referenceImageEnd ←
    readOptionalBinaryProperty i referenceImageEndProperty "reference end image";
  referenceAudio ← readOptionalBinaryProperty i referenceAudioProperty "reference audio";
  referenceVideo ← readOptionalBinaryProperty i referenceVideoProperty "reference video";
  let videoStart := prop videoWorkflow "videoStart" in
  let audioStart := prop videoWorkflow "audioStart" in
  let audioDuration := prop videoWorkflow "audioDuration" in
  let trimEndFrame := nullish (prop videoWorkflow "trimEndFrame") (JBool false) in
  let firstFrameStrength := prop videoWorkflow "firstFrameStrength" in
  let lastFrameStrength := prop videoWorkflow "lastFrameStrength" in
  sam2CoordinatesJson ← sam2TextOf videoAdditional;
  sam2Coordinates ← parseSam2Coordinates i sam2CoordinatesJson;
  let enableVideoControlNet :=
    nullish (prop videoWorkflow "enableVideoControlNet") (JBool false) in
  let videoControlNetType :=
    nullish (prop videoWorkflow "videoControlNetType") (JStr "canny") in
  let videoControlNetStrength := prop videoWorkflow "videoControlNetStrength" in
  let resolvedTimeoutMs := videoTimeout (v_timeoutInput v) videoNetwork in
  let controlNet :=
    JObj [("name", videoControlNetType); ("strength", videoControlNetStrength)] in
  let videoProjectConfig :=
    JObj ([("modelId", videoModelId);
           ("positivePrompt", videoPositivePrompt);
           ("negativePrompt", v_negativePrompt v);
           ("stylePrompt", v_stylePrompt v);
           ("frames", v_frames v);
           ("duration", v_duration v);
           ("fps", v_fps v);
           ("steps", v_steps v);
           ("guidance", v_guidance v);
           ("shift", v_shift v);
           ("teacacheThreshold", v_teacacheThreshold v);
           ("numberOfMedia", v_numberOfMedia v);
           ("network", videoNetwork);
           ("tokenType", v_tokenType v);
           ("outputFormat", v_outputFormat v);
           ("width", v_width v);
           ("height", v_height v);
           ("seed", v_seed v);
           ("sampler", v_sampler v);
           ("scheduler", v_scheduler v);
           ("referenceImage", bufferOrUndefined referenceImage);
           ("referenceImageEnd", bufferOrUndefined referenceImageEnd);
           ("referenceAudio", bufferOrUndefined referenceAudio);
           ("referenceVideo", bufferOrUndefined referenceVideo);
           ("videoStart", videoStart);
           ("audioStart", audioStart);
           ("audioDuration", audioDuration);
           ("trimEndFrame", trimEndFrame);
           ("firstFrameStrength", firstFrameStrength);
           ("lastFrameStrength", lastFrameStrength);
           ("sam2Coordinates", sam2Coordinates);
           ("autoResizeVideoAssets", v_autoResizeVideoAssets v);
           ("waitForCompletion", JBool true);
           ("timeout", resolvedTimeoutMs)]
          ++ (if truthy enableVideoControlNet then [("controlNet", controlNet)] else [])) in
  let resolvedMeta :=
    JObj [("frames", v_frames v);
          ("requestedFrames", v_requestedFrames v);
          ("duration", v_duration v);
          ("fps", v_fps v);
          ("steps", v_steps v);
          ("guidance", v_guidance v);
          ("shift", v_shift v);
          ("teacacheThreshold", v_teacacheThreshold v);
          ("numberOfMedia", v_numberOfMedia v);
          ("sampler", v_sampler v);
          ("scheduler", v_scheduler v);
          ("videoStart", videoStart);
          ("audioStart", audioStart);
          ("audioDuration", audioDuration);
          ("trimEndFrame", trimEndFrame);
          ("firstFrameStrength", firstFrameStrength);
          ("lastFrameStrength", lastFrameStrength);
          ("timeoutMs", resolvedTimeoutMs);
          ("autoResizeVideoAssets", v_autoResizeVideoAssets v);
          ("videoControlNet",
             if truthy enableVideoControlNet
             then JObj [("type", videoControlNetType); ("strength", videoControlNetStrength)]
             else JUndefined);
          ("providedAssets",
             JObj [("referenceImage", JBool (bool_decide (is_Some referenceImage)));
                   ("referenceImageEnd", JBool (bool_decide (is_Some referenceImageEnd)));
                   ("referenceAudio", JBool (bool_decide (is_Some referenceAudio)));
                   ("referenceVideo", JBool (bool_decide (is_Some referenceVideo)));
                   ("sam2Coordinates",
                      num (Z.of_nat (List.length (elementsOf sam2Coordinates))))])] in
  mret {| vr_config := videoProjectConfig; vr_resolved := v;
          vr_resolvedMeta := resolvedMeta; vr_network := videoNetwork |}.

(** The video branch after the SDK call has returned [vr]. *)
Definition videoFinish (request : VideoRequest) (vr : jsval) : M Output :=
  let v := vr_resolved request in
  videoProjectId ← lift (projectIdOf vr);
  jobs ← lift (jobsOf vr);
  let json :=
    JObj [("projectId", videoProjectId);
          ("modelId", prop (vr_config request) "modelId");
          ("prompt", prop (vr_config request) "positivePrompt");
          ("videoUrls", or_else (prop vr "videoUrls") (JArr []));
          ("completed", prop vr "completed");
          ("jobs", jobs);
          ("meta",
             JObj ([("network", vr_network request);
                    ("tokenType", v_tokenType v);
                    ("resolved", vr_resolvedMeta request)]
                   ++ resultMeta vr))] in
  binary ← downloadAll (generatedVideos (v_outputFormat v)) (v_downloadVideos v)
             videoProjectId (prop vr "videoUrls");
  mret {| out_json := json; out_binary := Some binary |}.

(** [client.createVideoProject(videoProjectConfig)] and what follows. *)
Definition videoSubmit (client : Client) (request : VideoRequest) : M Output :=
  emit (EvCreateVideoProject (vr_config request));;
  vr ← lift (c_createVideoProject client (vr_config request));
  videoFinish request vr.

Definition videoGenerate (client : Client) (i : nat) : M Output :=
  request ← lift (videoRequest i);
  videoSubmit client request.

(** *** The remaining branches *)

Definition videoEstimateCost (client : Client) (i : nat) : M Output :=
  modelId ← lift (getNodeParameter "videoModelId" i);
  width ← lift (getNodeParameter "videoEstimateWidth" i);
  height ← lift (getNodeParameter "videoEstimateHeight" i);
  fps ← lift (getNodeParameter "videoEstimateFps" i);
  steps ← lift (getNodeParameter "videoEstimateSteps" i);
  duration ← lift (getNodeParameter "videoEstimateDuration" i);
  framesInput ← lift (getNodeParameterOr "videoEstimateFrames" i JUndefined);
  numberOfMedia ← lift (getNodeParameter "videoEstimateNumberOfMedia" i);
  tokenType ← lift (getNodeParameter "videoEstimateTokenType" i);
  let estimateParams :=
    JObj ([("modelId", modelId); ("width", width); ("height", height); ("fps", fps);
           ("steps", steps); ("duration", duration);
           ("numberOfMedia", numberOfMedia); ("tokenType", tokenType)]
          ++ match estimateFrames framesInput with
             | Some frames => [("frames", frames)]
             | None => []
             end) in
  emit (EvEstimateVideoCost estimateParams);;
  estimate ← lift (c_estimateVideoCost client estimateParams);
  mret {| out_json := JObj [("modelId", modelId); ("parameters", estimateParams);
                            ("estimate", estimate)];
          out_binary := None |}.

Definition modelSummary (model : jsval) : completion Output :=
  id ← get model "id";
  mret {| out_json := JObj [("id", id); ("name", prop model "name");
                            ("workerCount", prop model "workerCount");
                            ("recommendedSettings", prop model "recommendedSettings")];
          out_binary := None |}.

(** [models.forEach(model => returnData.push({ json: { ... } }))] *)
Fixpoint pushModels (models : list jsval) : M unit :=
  match models with
  | [] => mret tt
  | model :: rest =>
      summary ← lift (modelSummary model);
      push summary;;
      pushModels rest
  end.

Definition modelGetAll (client : Client) (i : nat) : M unit :=
  options ← lift (getNodeParameterOr "options" i (JObj []));
  sortByWorkers ← lift (get options "sortByWorkers");
  let args :=
    JObj [("sortByWorkers",
             JBool (match sortByWorkers with JBool false => false | _ => true end));
          ("minWorkers", or_else (prop options "minWorkers") (num 0))] in
  emit (EvGetAvailableModels args);;
  models ← lift (c_getAvailableModels client args);
  l ← lift (as_array models);
  pushModels l.

Definition modelGet (client : Client) (i : nat) : M Output :=
  modelId ← lift (getNodeParameter "modelId" i ≫= ToString);
  emit (EvGetModel modelId);;
  model ← lift (c_getModel client modelId);
  lift (modelSummary model).

Definition accountGetBalance (client : Client) (i : nat) : M Output :=
  emit EvGetBalance;;
  balance ← lift (c_getBalance client);
  sogni ← lift (get balance "sogni");
  mret {| out_json := JObj [("sogni", sogni); ("spark", prop balance "spark")];
          out_binary := None |}.

(** *** One item, the loop over the items, [execute] *)

(** A branch that builds one record and ends with [returnData.push]. *)
Definition pushing (branch : M Output) : M unit := o ← branch; push o.

(** Is this the pair of selectors of the [model] / [getAll] branch? *)
Definition selectsGetAll (resource operation : jsval) : bool :=
  is_str resource "model" && is_str operation "getAll".

(** The branch chosen by the two selectors. *)
Definition dispatch (client : Client) (i : nat) (resource operation : jsval) : M unit :=
  if is_str resource "image" && is_str operation "generate"
  then pushing (imageGenerate client i)
  else if is_str resource "image" && is_str operation "edit"
  then pushing (imageEdit client i)
  else if is_str resource "video" && is_str operation "generate"
  then pushing (videoGenerate client i)
  else if is_str resource "video" && is_str operation "estimateCost"
  then pushing (videoEstimateCost client i)
  else if selectsGetAll resource operation then modelGetAll client i
  else if is_str resource "model" && is_str operation "get"
  then pushing (modelGet client i)
  else if is_str resource "account" && is_str operation "getBalance"
  then pushing (accountGetBalance client i)
  else mret tt.

(** The body of the inner [try] for item [i]. *)
Definition processItem (client : Client) (i : nat) : M unit :=
  resource ← lift (getNodeParameter "resource" i);
  operation ← lift (getNodeParameter "operation" i);
  dispatch client i resource operation.

(** [{ json: { error: error instanceof Error ? error.message : 'Unknown error' } }] *)
Definition errorRecord (error : thrown) : Output :=
  {| out_json :=
       JObj [("error",
              if instanceof_Error error then messageOf error else JStr "Unknown error")];
     out_binary := None |}.

(** The [catch (error)] clause at the item boundary. *)
Definition onItemError (error : thrown) : M unit :=
  if continueOnFail then push (errorRecord error)
  else throw error.

(** The [for] loop over the item indices still to be processed. *)
Fixpoint runItems (client : Client) (indices : list nat) : M unit :=
  match indices with
  | [] => mret tt
  | i :: rest =>
      try_catch (processItem client i) onItemError;;
      runItems client rest
  end.

(** The context handed to [safeDisconnect] by [execute]. *)
Definition executeContext (appId : string) : Context :=
  {| label := "execute"; appId := Some appId; timeoutMs := Some 5000 |}.

Definition execute : M (list (list Output)) :=
  let items := getInputData in
  newReturnData;;
  credentials ← lift getCredentials;
  userProvidedAppId ← mret (normalizeAppId (prop credentials "appId"));
  appId ← executionAppId credentials;
  debugLogAppId ("execute node=" +:+ dq +:+ getNodeName +:+ dq +:+ " appId=" +:+ appId
                 +:+ " source=" +:+
                 (if userProvidedAppId is Some _ then "credentials" else "generated"));;
  client ← constructClient credentials appId;
  try_finally
    (runItems client (seq 0 (List.length items));;
     result ← getReturnData;
     mret [result])
    (safeDisconnect (Some client) (executeContext appId)).

End Execute.
End Execute.

(* ===================================================================== *)
(** ** The earlier copy of the node ([nodes/Sogni/Sogni.node.ts]) *)
(* ===================================================================== *)

Module Legacy.

(** The identity chosen there by [getModelOptions] (and, with another
    prefix, by [execute]):
    [(credentials.appId as string) || `n8n-model-picker-${Date.now()}-${...}`];
    [generated] stands for the value of the template literal. *)
Definition appIdOf (credentials : jsval) (generated : string) : jsval :=
  or_else (prop credentials "appId") (JStr generated).

End Legacy.

(* ===================================================================== *)
(** ** A concrete runtime and host, to run the definitions on examples *)
(* ===================================================================== *)

Module Samples.
Import Session.

(** The text [[{"x":null,"y":null}]]. *)
Definition nullPointText : string :=
  "[{" +:+ dq +:+ "x" +:+ dq +:+ ":null," +:+ dq +:+ "y" +:+ dq +:+ ":null}]".

(** A runtime that knows the conversions needed by the examples below:
    [JSON.parse] of [nullPointText], and nothing else. *)
Definition sampleRuntime : JsRuntime :=
  {| StringToNumber := fun _ => NaN;
     NumberToString := fun _ => "0";
     ObjectToNumber := fun _ => Normal NaN;
     ObjectToString := fun _ => Normal "[object Object]";
     JSON_parse := fun s =>
       if String.eqb s nullPointText
       then Normal (JArr [JObj [("x", JNull); ("y", JNull)]])
       else Throw (ErrorObj "Unexpected token");
     decodeURIComponent := fun s => Normal s;
     match_filename_star := fun _ => None;
     match_filename_quoted := fun _ => None;
     match_filename_basic := fun _ => None |}.

(** A transport handle that is open and whose [close] throws. *)
Definition stubbornSocket : Socket :=
  {| ws_readyState := Normal (num 1);
     ws_close := Normal (Function (Throw (ErrorObj "close failed")));
     ws_terminate := Normal (Function (Normal tt));
     ws_removeAllListeners := Normal (Function (Normal tt)) |}.

(** A wrapper whose [disconnect] never settles and that keeps its handle
    in [_ws]. *)
Definition hangingClient : Client :=
  {| c_disconnect := Normal (Function (Normal Pending));
     c_socket := Normal Nullish;
     c_ws := Normal Nullish;
     c_websocket := Normal Nullish;
     c__socket := Normal Nullish;
     c__ws := Normal (Truthy stubbornSocket);
     c__websocket := Normal Nullish;
     c_client := Normal Nullish;
     c_getAvailableModels := fun _ => Normal (JArr []);
     c_createImageProject := fun _ => Normal (JObj []);
     c_createImageEditProject := fun _ => Normal (JObj []);
     c_createVideoProject := fun _ => Normal (JObj []);
     c_estimateVideoCost := fun _ => Normal (JObj []);
     c_getModel := fun _ => Normal (JObj []);
     c_getBalance := Normal (JObj []) |}.

(** What [String(v)] throws for an object without prototype. *)
Definition noPrimitive : thrown := ErrorObj "Cannot convert object to primitive value".

(** A wrapper whose [disconnect] rejects, after 10 ms, with an object
    created by [Object.create(null)], and that keeps an open handle in
    [_ws]. *)
Definition rejectingClient : Client :=
  {| c_disconnect :=
       Normal (Function (Normal (Settles 10 (Throw (Unshowable noPrimitive)))));
     c_socket := Normal Nullish;
     c_ws := Normal Nullish;
     c_websocket := Normal Nullish;
     c__socket := Normal Nullish;
     c__ws := Normal (Truthy stubbornSocket);
     c__websocket := Normal Nullish;
     c_client := Normal Nullish;
     c_getAvailableModels := fun _ => Normal (JArr []);
     c_createImageProject := fun _ => Normal (JObj []);
     c_createImageEditProject := fun _ => Normal (JObj []);
     c_createVideoProject := fun _ => Normal (JObj []);
     c_estimateVideoCost := fun _ => Normal (JObj []);
     c_getModel := fun _ => Normal (JObj []);
     c_getBalance := Normal (JObj [("sogni", num 1); ("spark", num 2)]) |}.

(** Credentials whose [appId] carries surrounding blanks. *)
Definition sampleCredentials : jsval :=
  JObj [("username", JStr "ada"); ("password", JStr "secret");
        ("appId", JStr " my-app ")].

(** Three items: the first carries the binary [data], the other two
    carry none. *)
Definition sampleItems : list Item :=
  [ {| item_json := JObj []; item_binary := Some {["data" := [x89; x50]]} |};
    {| item_json := JObj []; item_binary := Some ∅ |};
    {| item_json := JObj []; item_binary := None |} ].

(** A host with the three items above; every item asks for the account
    balance, and the [resource] parameter of the second item cannot be
    evaluated; the URL ending in [b.png] answers 404. *)
Definition sampleHost : Host :=
  {| getCredentials := Normal sampleCredentials;
     getCurrentNodeParameter := fun _ => Normal (JStr "");
     getNodeParameter := fun name i =>
       if String.eqb name "resource"
       then match i with
            | 1%nat => Throw (ErrorObj "expression failed")
            | _ => Normal (JStr "account")
            end
       else if String.eqb name "operation" then Normal (JStr "getBalance")
       else Normal JUndefined;
     getInputData := sampleItems;
     getNodeName := "Sogni AI";
     continueOnFail := true;
     newClient := fun _ => hangingClient;
     fetch := fun url =>
       Normal {| resp_ok := negb (is_str url "https://cdn.example/b.png");
                 resp_status := if is_str url "https://cdn.example/b.png" then 404 else 200;
                 resp_statusText :=
                   if is_str url "https://cdn.example/b.png" then "Not Found" else "OK";
                 resp_headers := [("content-type", "image/png")];
                 resp_arrayBuffer := Normal [x89; x50; x4e; x47] |};
     prepareBinaryData := fun buffer filename mimeType =>
       Normal (JObj [("data", JBuf buffer); ("fileName", JStr filename);
                     ("mimeType", JStr mimeType)]);
     getBinaryDataBuffer := storeBuffer sampleItems |}.

(** A host with one item that asks for a video and gives [nullPointText]
    as its SAM2 coordinates. *)
Definition videoHost : Host :=
  {| getCredentials := Normal sampleCredentials;
     getCurrentNodeParameter := fun _ => Normal (JStr "");
     getNodeParameter := fun name _ =>
       if String.eqb name "resource" then Normal (JStr "video")
       else if String.eqb name "operation" then Normal (JStr "generate")
       else if String.eqb name "videoModelId" then Normal (JStr "wan_v2.2-14b-fp8_t2v")
       else if String.eqb name "videoPositivePrompt" then Normal (JStr "a calm sea")
       else if String.eqb name "videoNetwork" then Normal (JStr "fast")
       else if String.eqb name "videoAdditionalFields"
       then Normal (JObj [("workflowControls",
                           JObj [("sam2CoordinatesJson", JStr nullPointText)])])
       else Normal JUndefined;
     getInputData := [ {| item_json := JObj []; item_binary := None |} ];
     getNodeName := "Sogni AI";
     continueOnFail := false;
     newClient := fun _ => hangingClient;
     fetch := fun _ => Throw (ErrorObj "network unreachable");
     prepareBinaryData := fun _ _ _ => Throw (ErrorObj "unused");
     getBinaryDataBuffer :=
       storeBuffer [ {| item_json := JObj []; item_binary := None |} ] |}.

(** The decimal numerals are pairwise different and made of digits. *)
Lemma counting_fresh (j k : nat) : show_nat j = show_nat k -> j = k.
Proof.
  unfold show_nat. intros Heq.
  apply (f_equal NilEmpty.uint_of_string) in Heq.
  rewrite !NilEmpty.usu in Heq. injection Heq as Heq.
  apply (f_equal Nat.of_uint) in Heq. by rewrite !Unsigned.of_to in Heq.
Qed.

Lemma counting_uuid (k : nat) :
  forallb is_uuid_char (list_ascii_of_string (show_nat k)) = true.
Proof.
  unfold show_nat. induction (Nat.to_uint k) as [|d IH|d IH|d IH|d IH|d IH|d IH|d IH|d IH|d IH|d IH];
    simpl; [done|by rewrite IH..].
Qed.

(** A random source that counts: its [k]-th draw is the numeral of [k]. *)
Definition countingEntropy : RandomSource :=
  {| draw := show_nat; draw_fresh := counting_fresh; draw_uuid := counting_uuid |}.

Definition sampleWorld : world :=
  {| clock := 0; trace := []; env_debug := None;
     entropy := countingEntropy; drawn := 0; returnData := [] |}.

End Samples.

(* ===================================================================== *)
(** ** Predicates in which the properties are stated *)
(* ===================================================================== *)

Module Props.
Import Session Identity Resolve Artifacts Execute LoadOptions.

(** [m] never leaves through an exception. *)
Definition safe {A} (m : M A) : Prop :=
  forall w, exists a, (m w).2 = Normal a.

(** [m] takes at most [b] milliseconds, emits only events satisfying [P]
    and leaves the environment variable and the random source alone. *)
Definition within {A} (b : Z) (P : event -> Prop) (m : M A) : Prop :=
  forall w,
    clock w <= clock (m w).1 <= clock w + b /\
    (exists l, trace (m w).1 = trace w ++ l /\ Forall P l) /\
    env_debug (m w).1 = env_debug w /\
    entropy (m w).1 = entropy w.

(** Whatever [m] throws satisfies [P]. *)
Definition raising {A} (P : thrown -> Prop) (m : M A) : Prop :=
  forall w e, (m w).2 = Throw e -> P e.

(** The [catch] clauses of [safeDisconnect] can put the value into their
    log line: [describe] converts it. *)
Definition printable (e : thrown) : bool := is_normal (describe e).

(** A result that, if it is an exception, is a printable one. *)
Definition quiet {A} (c : completion A) : bool :=
  match c with
  | Throw e => printable e
  | Normal _ => true
  end.

(** Every exception the wrapper can hand to a [catch] clause of
    [safeDisconnect] is printable: the ones thrown by reading or calling
    [disconnect], the reason its promise rejects with, and the ones thrown
    by probing for the handle or by reading its [readyState]. *)
Definition printableErrors (c : Client) : bool :=
  quiet (c_disconnect c)
  && match c_disconnect c with
     | Normal (Function call) =>
         quiet call
         && match call with
            | Normal (Settles _ outcome) => quiet outcome
            | _ => true
            end
     | _ => true
     end
  && quiet (probeSocket c)
  && match probeSocket c with
     | Normal (Truthy ws) => quiet (ws_readyState ws)
     | _ => true
     end.

(** The same for the argument of [safeDisconnect], which may be no client. *)
Definition printableErrorsOf (client : option Client) : bool :=
  match client with
  | Some c => printableErrors c
  | None => true
  end.

(** [m] leaves [returnData] as it found it. *)
Definition keeps {A} (m : M A) : Prop :=
  forall w, returnData (m w).1 = returnData w.

(** [m] only appends to [returnData]. *)
Definition grows {A} (m : M A) : Prop :=
  forall w, exists later, returnData (m w).1 = returnData w ++ later.

Definition is_log (e : event) : Prop :=
  match e with EvConsoleLog _ => True | _ => False end.

(** Events of the graceful step: log lines and the call of [disconnect]. *)
Definition graceful_event (e : event) : Prop :=
  match e with EvConsoleLog _ | EvClientDisconnect => True | _ => False end.

(** Events of [safeDisconnect] as a whole. *)
Definition shutdown_event (e : event) : Prop :=
  match e with
  | EvConsoleLog _ | EvClientDisconnect
  | EvSocketClose | EvSocketTerminate | EvSocketRemoveAllListeners => True
  | _ => False
  end.

(** A source leaves a field undefined. *)
Definition missing (v : jsval) : Prop := v = JUndefined \/ v = JNull.

(** [n] is a number, and it is not above [c]. *)
Definition at_most (c : Q) (n : number) : Prop :=
  match n with
  | Finite q => (q <= c)%Q
  | Infinity negative => negative = true
  | NaN => False
  end.

(** [q] is [m / 2^a] with [|m| < 2^53] and [0 <= a <= 1071]: the doubles
    below [2^53] in magnitude that are a multiple of [2^-1071]. *)
Definition dyadic (q : Q) (m a : Z) : Prop :=
  0 <= a <= 1071 /\ Z.abs m < 2 ^ 53 /\ (q == inject_Z m / inject_Z (2 ^ a))%Q.

(** The world after one draw from the random source. *)
Definition afterDraw (w : world) : world :=
  World (clock w) (trace w) (env_debug w) (entropy w) (S (drawn w)) (returnData w).

(** A point whose [x] and [y] are finite JSON numbers: the literal reading
    of a point with finite numeric coordinates. *)
Definition has_finite_numeric_xy (point : jsval) : bool :=
  match prop point "x", prop point "y" with
  | JNum (Finite _), JNum (Finite _) => true
  | _, _ => false
  end.

Section WithHost.
Context `{JsRuntime} `{Host}.

(** The skeleton shared by the three lookups. *)
Definition lookupWith (name : string) (body : Client -> M jsval) : M jsval :=
  credentials ← lift getCredentials;
  appId ← generateUniqueAppId "n8n-sogni-loadopts";
  debugLogAppId ("loadOptions:" +:+ name +:+ " appId=" +:+ appId);;
  client ← constructClient credentials appId;
  try_finally (body client)
    (safeDisconnect (Some client) (lookupContext ("loadOptions:" +:+ name) appId)).

Definition is_models_call (e : event) : Prop :=
  match e with EvGetAvailableModels _ => True | _ => False end.

(** What a lookup does with identities and with its session. *)
Definition allocates_and_closes (name : string) (lookup : M jsval) : Prop :=
  forall w,
    match getCredentials with
    | Throw e => lookup w = (w, Throw e)
    | Normal credentials =>
        let appId := "n8n-sogni-loadopts" +:+ "-" +:+ entropy w (drawn w) in
        let client := newClient (clientOptions credentials appId) in
        let context := lookupContext ("loadOptions:" +:+ name) appId in
        exists logs calls w1 r,
          Forall is_log logs /\ Forall is_models_call calls /\
          trace w1 = trace w ++ logs ++ [EvNewClient appId] ++ calls /\
          lookup w = ((safeDisconnect (Some client) context w1).1, r) /\
          clock w1 <= clock (lookup w).1 <= clock w1 + 2000
    end.

(** A binding that made it into the request is either left out or holds
    the buffer the helper returned for a name the guard has found. *)
Definition binding_of_store (i : nat) (value : jsval) : Prop :=
  value = JUndefined \/
  exists propertyName b,
    propertyName <> "" /\ binaryDataOf i (JStr propertyName) = Normal true /\
    getBinaryDataBuffer i (JStr propertyName) = Normal b /\ value = JBuf b.

(** What the node accepts: both coordinates convert, under [Number(...)],
    to finite numbers; [accepted] is the point it puts into the request. *)
Definition converts_to (point accepted : jsval) : Prop :=
  exists x y,
    ToNumber (opt_prop point "x") = Normal (Finite x) /\
    ToNumber (opt_prop point "y") = Normal (Finite y) /\
    accepted = JObj [("x", JNum (Finite x)); ("y", JNum (Finite y))].

Definition sam2PointError (itemIndex pointIndex : nat) : thrown :=
  NodeOperationError
    ("SAM2 coordinate at index " +:+ show_nat pointIndex
     +:+ " must include numeric x and y values.") itemIndex.

End WithHost.

End Props.

(* ===================================================================== *)
(** ** Bounds declared by the node description *)
(* ===================================================================== *)

Module Description.

(** The bounds the node description puts on [videoSettings.frames]
    ([typeOptions: { minValue: 10, maxValue: 120 }]). *)
Definition framesMinValue : Z := 10.
Definition framesMaxValue : Z := 120.

End Description.

(* ===================================================================== *)
(** ** The model lookup of the earlier copy *)
(* ===================================================================== *)

Module LegacyLookup.
Import Session Identity LoadOptions.

(** A computation of the earlier copy, which awaits [client.disconnect()]
    without a timer: [None] stands for an [await] that never resumes. *)
Definition Awaited (A : Type) : Type := world -> option (world * completion A).

Section WithHost.
Context `{JsRuntime} `{Host}.

(** [`n8n-model-picker-${Date.now()}-${Math.random().toString(36).substr(2, 9)}`],
    with the logical clock for [Date.now()] and a draw from the random source
    for the suffix. *)
Definition pickerAppId : M string :=
  fun w => (World (clock w) (trace w) (env_debug w) (entropy w) (S (drawn w)) (returnData w),
            Normal ("n8n-model-picker-" +:+ show_Z (clock w) +:+ "-"
                    +:+ entropy w (drawn w))).

(** [(credentials.appId as string) || `n8n-model-picker-...`]; the template
    is evaluated only when the credentials give no identity. *)
Definition lookupAppId (credentials : jsval) : M jsval :=
  if truthy (prop credentials "appId") then mret (prop credentials "appId")
  else generated ← pickerAppId; mret (JStr generated).

(** [new SogniClientWrapper({ username, password, appId, autoConnect: true,
    debug: false })] *)
Definition constructWith (credentials appId : jsval) : Client :=
  newClient (JObj [("username", prop credentials "username");
                   ("password", prop credentials "password");
                   ("appId", appId);
                   ("autoConnect", JBool true);
                   ("debug", JBool false)]).

(** The [try] block: the same listing and the same mapping as in the current
    [getModelOptions]. *)
Definition lookupBody (client : Client) : M jsval :=
  models ← fetchModels client "modelSearch";
  options ← lift (mapM optionOf models);
  mret (JArr options).

(** [try { await client.disconnect(); } catch { }]: a [disconnect] that is
    no function, throws or rejects is ignored; one that never settles is
    awaited for ever. *)
Definition disconnectQuietly (client : Client) : Awaited unit :=
  fun w =>
    match c_disconnect client with
    | Throw _ | Normal NotAFunction => Some (w, Normal tt)
    | Normal (Function call) =>
        let w1 := record EvClientDisconnect w in
        match call with
        | Throw _ => Some (w1, Normal tt)
        | Normal (Settles after _) => Some ((sleep (Z.of_N after) w1).1, Normal tt)
        | Normal Pending => None
        end
    end.

(** [getModelOptions] of the earlier copy. *)
Definition getModelOptions : Awaited jsval :=
  fun w =>
    match getCredentials with
    | Throw e => Some (w, Throw e)
    | Normal credentials =>
        match lookupAppId credentials w with
        | (w1, Throw e) => Some (w1, Throw e)
        | (w1, Normal appId) =>
            let client := constructWith credentials appId in
            match lookupBody client w1 with
            | (w2, outcome) =>
                match disconnectQuietly client w2 with
                | Some (w3, Normal _) => Some (w3, outcome)
                | Some (w3, Throw e) => Some (w3, Throw e)
                | None => None
                end
            end
        end
    end.

(** The client the earlier lookup constructs when started in [w]. *)
Definition lookupClientOf (credentials : jsval) (w : world) : Client :=
  constructWith credentials
    match (lookupAppId credentials w).2 with Normal appId => appId | Throw _ => JUndefined end.

End WithHost.
End LegacyLookup.

(* ===================================================================== *)
(** ** More runtimes, clients and hosts to run the definitions on *)
(* ===================================================================== *)

Module MoreSamples.
Import Session.

(** The header [attachment; filename=" cat.png "]. *)
Definition quotedHeader : string :=
  "attachment; filename=" +:+ dq +:+ " cat.png " +:+ dq.

(** A runtime that knows what the naming examples need: the captures of the
    three file name patterns on the headers used there, and the decoding of
    two escaped names, of which the second is malformed. *)
Definition namingRuntime : JsRuntime :=
  {| StringToNumber := fun _ => NaN;
     NumberToString := fun _ => "0";
     ObjectToNumber := fun _ => Normal NaN;
     ObjectToString := fun _ => Normal "[object Object]";
     JSON_parse := fun _ => Throw (ErrorObj "Unexpected token");
     decodeURIComponent := fun s =>
       if String.eqb s "my%20cat.png" then Normal "my cat.png"
       else if String.eqb s "%E0%A4%A" then Throw (ErrorObj "URI malformed")
       else Normal s;
     match_filename_star := fun header =>
       if String.eqb header "attachment; filename*=UTF-8''my%20cat.png"
       then Some "my%20cat.png"
       else if String.eqb header "attachment; filename*=UTF-8''%E0%A4%A"
       then Some "%E0%A4%A"
       else None;
     match_filename_quoted := fun header =>
       if String.eqb header quotedHeader then Some " cat.png " else None;
     match_filename_basic := fun header =>
       if String.eqb header quotedHeader then Some (dq +:+ " cat.png " +:+ dq)
       else if String.eqb header "attachment; filename=cat.png"
       then Some "cat.png"
       else None |}.

(** A runtime that prints integers in decimal. *)
Definition decimalRuntime : JsRuntime :=
  {| StringToNumber := fun _ => NaN;
     NumberToString := fun n =>
       match n with
       | Finite q => show_Z (Qfloor q)
       | Infinity negative => if negative then "-Infinity" else "Infinity"
       | NaN => "NaN"
       end;
     ObjectToNumber := fun _ => Normal NaN;
     ObjectToString := fun _ => Normal "[object Object]";
     JSON_parse := fun _ => Throw (ErrorObj "Unexpected token");
     decodeURIComponent := fun s => Normal s;
     match_filename_star := fun _ => None;
     match_filename_quoted := fun _ => None;
     match_filename_basic := fun _ => None |}.

(** A transport handle that reports itself closed. *)
Definition closedSocket : Socket :=
  {| ws_readyState := Normal (num 3);
     ws_close := Normal (Function (Normal tt));
     ws_terminate := Normal (Function (Normal tt));
     ws_removeAllListeners := Normal (Function (Normal tt)) |}.

(** The models the sample clients know. *)
Definition fluxModel : jsval :=
  JObj [("id", JStr "flux1-schnell-fp8"); ("name", JStr "Flux Schnell");
        ("workerCount", num 12); ("health", JStr "healthy")].

Definition ltx2Model : jsval :=
  JObj [("id", JStr "ltx2-13b"); ("name", JStr "LTX 2"); ("workerCount", num 3)].

Definition qwenModel : jsval :=
  JObj [("id", JStr "qwen_image_edit_2511_fp8_lightning");
        ("name", JStr "Qwen Image Edit Lightning"); ("workerCount", num 0)].

(** A wrapper whose [disconnect] resolves after 120 ms, whose handle is
    already closed, and that lists the three sample models. *)
Definition promptClient : Client :=
  {| c_disconnect := Normal (Function (Normal (Settles 120 (Normal tt))));
     c_socket := Normal (Truthy closedSocket);
     c_ws := Normal Nullish;
     c_websocket := Normal Nullish;
     c__socket := Normal Nullish;
     c__ws := Normal Nullish;
     c__websocket := Normal Nullish;
     c_client := Normal Nullish;
     c_getAvailableModels := fun _ => Normal (JArr [fluxModel; ltx2Model; qwenModel]);
     c_createImageProject := fun _ => Normal (JObj [("projectId", JStr "p1")]);
     c_createImageEditProject := fun _ => Normal (JObj [("projectId", JStr "p2")]);
     c_createVideoProject := fun _ => Normal (JObj [("projectId", JStr "p3")]);
     c_estimateVideoCost := fun _ => Normal (JObj [("spark", num 7)]);
     c_getModel := fun _ => Normal fluxModel;
     c_getBalance := Normal (JObj [("sogni", num 1); ("spark", num 2)]) |}.

(** A wrapper that cannot reach the service. *)
Definition offlineClient : Client :=
  {| c_disconnect := Normal NotAFunction;
     c_socket := Normal Nullish;
     c_ws := Normal Nullish;
     c_websocket := Normal Nullish;
     c__socket := Normal Nullish;
     c__ws := Normal Nullish;
     c__websocket := Normal Nullish;
     c_client := Normal Nullish;
     c_getAvailableModels := fun _ => Throw (ErrorObj "socket hang up");
     c_createImageProject := fun _ => Throw (ErrorObj "socket hang up");
     c_createImageEditProject := fun _ => Throw (ErrorObj "socket hang up");
     c_createVideoProject := fun _ => Throw (ErrorObj "socket hang up");
     c_estimateVideoCost := fun _ => Throw (ErrorObj "socket hang up");
     c_getModel := fun _ => Throw (ErrorObj "socket hang up");
     c_getBalance := Throw (ErrorObj "socket hang up") |}.

(** Credentials that name no identity. *)
Definition plainCredentials : jsval :=
  JObj [("username", JStr "ada"); ("password", JStr "secret")].

(** One item that carries the binary [data]. *)
Definition studioItems : list Item :=
  [ {| item_json := JObj []; item_binary := Some {["data" := [xff; xd8; xff; xe0]]} |} ].

(** A host with that item, which asks for an image edit with a lightning
    model; for an image generation the ControlNet is switched on and its
    image is looked for in [pose]; lookups and calls go to [promptClient]. *)
Definition studioHost : Host :=
  {| getCredentials := Normal plainCredentials;
     getCurrentNodeParameter := fun _ => Normal (JStr "");
     getNodeParameter := fun name _ =>
       if String.eqb name "resource" then Normal (JStr "image")
       else if String.eqb name "operation" then Normal (JStr "edit")
       else if String.eqb name "imageEditModelId"
       then Normal (JStr "qwen_image_edit_2511_fp8_lightning")
       else if String.eqb name "imageEditPrompt" then Normal (JStr "make it snow")
       else if String.eqb name "contextImage1Property" then Normal (JStr "data")
       else if String.eqb name "contextImage2Property" then Normal (JStr "mask")
       else if String.eqb name "imageEditNetwork" then Normal (JStr "fast")
       else if String.eqb name "additionalFields"
       then Normal (JObj [("controlNet", JObj [("enableControlNet", JBool true);
                                               ("controlNetImageProperty", JStr "pose")])])
       else Normal JUndefined;
     getInputData := studioItems;
     getNodeName := "Sogni AI";
     continueOnFail := false;
     newClient := fun _ => promptClient;
     fetch := fun _ => Throw (ErrorObj "network unreachable");
     prepareBinaryData := fun buffer filename mimeType =>
       Normal (JObj [("data", JBuf buffer); ("fileName", JStr filename);
                     ("mimeType", JStr mimeType)]);
     getBinaryDataBuffer := storeBuffer studioItems |}.

(** A host without items whose selectors name no branch of [execute] and
    whose client cannot reach the service. *)
Definition idleHost : Host :=
  {| getCredentials := Normal plainCredentials;
     getCurrentNodeParameter := fun _ => Normal (JStr "");
     getNodeParameter := fun name _ =>
       if String.eqb name "resource" then Normal (JStr "image")
       else if String.eqb name "operation" then Normal (JStr "estimateCost")
       else Normal JUndefined;
     getInputData := [];
     getNodeName := "Sogni AI";
     continueOnFail := false;
     newClient := fun _ => offlineClient;
     fetch := fun _ => Throw (ErrorObj "network unreachable");
     prepareBinaryData := fun _ _ _ => Throw (ErrorObj "unused");
     getBinaryDataBuffer := storeBuffer [] |}.

(** A wrapper like [promptClient] whose list of models has a hole: its
    second element is [null]. *)
Definition listingClient : Client :=
  {| c_disconnect := Normal (Function (Normal (Settles 120 (Normal tt))));
     c_socket := Normal (Truthy closedSocket);
     c_ws := Normal Nullish;
     c_websocket := Normal Nullish;
     c__socket := Normal Nullish;
     c__ws := Normal Nullish;
     c__websocket := Normal Nullish;
     c_client := Normal Nullish;
     c_getAvailableModels := fun _ => Normal (JArr [fluxModel; JNull; ltx2Model]);
     c_createImageProject := fun _ => Normal (JObj [("projectId", JStr "p1")]);
     c_createImageEditProject := fun _ => Normal (JObj [("projectId", JStr "p2")]);
     c_createVideoProject := fun _ => Normal (JObj [("projectId", JStr "p3")]);
     c_estimateVideoCost := fun _ => Normal (JObj [("spark", num 7)]);
     c_getModel := fun _ => Normal fluxModel;
     c_getBalance := Normal (JObj [("sogni", num 1); ("spark", num 2)]) |}.

(** A host with one item that asks for the list of models, with
    continue-on-failure enabled; calls go to [listingClient]. *)
Definition listingHost : Host :=
  {| getCredentials := Normal plainCredentials;
     getCurrentNodeParameter := fun _ => Normal (JStr "");
     getNodeParameter := fun name _ =>
       if String.eqb name "resource" then Normal (JStr "model")
       else if String.eqb name "operation" then Normal (JStr "getAll")
       else Normal JUndefined;
     getInputData := [ {| item_json := JObj []; item_binary := None |} ];
     getNodeName := "Sogni AI";
     continueOnFail := true;
     newClient := fun _ => listingClient;
     fetch := fun _ => Throw (ErrorObj "network unreachable");
     prepareBinaryData := fun _ _ _ => Throw (ErrorObj "unused");
     getBinaryDataBuffer :=
       storeBuffer [ {| item_json := JObj []; item_binary := None |} ] |}.

(** A wrapper like [promptClient] whose image project comes back with
    three result URLs. *)
Definition galleryClient : Client :=
  {| c_disconnect := Normal (Function (Normal (Settles 120 (Normal tt))));
     c_socket := Normal (Truthy closedSocket);
     c_ws := Normal Nullish;
     c_websocket := Normal Nullish;
     c__socket := Normal Nullish;
     c__ws := Normal Nullish;
     c__websocket := Normal Nullish;
     c_client := Normal Nullish;
     c_getAvailableModels := fun _ => Normal (JArr [fluxModel; ltx2Model; qwenModel]);
     c_createImageProject := fun _ =>
       Normal (JObj [("projectId", JStr "p1");
                     ("imageUrls", JArr [JStr "https://cdn.example/a.png";
                                         JStr "https://cdn.example/b.png";
                                         JStr "https://cdn.example/c.png"])]);
     c_createImageEditProject := fun _ => Normal (JObj [("projectId", JStr "p2")]);
     c_createVideoProject := fun _ => Normal (JObj [("projectId", JStr "p3")]);
     c_estimateVideoCost := fun _ => Normal (JObj [("spark", num 7)]);
     c_getModel := fun _ => Normal fluxModel;
     c_getBalance := Normal (JObj [("sogni", num 1); ("spark", num 2)]) |}.

(** The additional fields of the item of [galleryHost]: the number of steps
    and the timeout arrive as [NaN] in the collections read first, and the
    flat legacy fields give 30 steps and 30000 ms. *)
Definition galleryFields : jsval :=
  JObj [("generationSettings", JObj [("steps", JNum NaN)]);
        ("steps", num 30);
        ("advanced", JObj [("timeout", JNum NaN)]);
        ("timeout", num 30000)].

(** A host with one item that asks for an image on the relaxed tier with
    those fields; calls go to [galleryClient], and the URL ending in
    [b.png] answers 404. *)
Definition galleryHost : Host :=
  {| getCredentials := Normal plainCredentials;
     getCurrentNodeParameter := fun _ => Normal (JStr "");
     getNodeParameter := fun name _ =>
       if String.eqb name "resource" then Normal (JStr "image")
       else if String.eqb name "operation" then Normal (JStr "generate")
       else if String.eqb name "modelId" then Normal (JStr "flux1-schnell-fp8")
       else if String.eqb name "positivePrompt" then Normal (JStr "a lighthouse")
       else if String.eqb name "network" then Normal (JStr "relaxed")
       else if String.eqb name "additionalFields" then Normal galleryFields
       else Normal JUndefined;
     getInputData := [ {| item_json := JObj []; item_binary := None |} ];
     getNodeName := "Sogni AI";
     continueOnFail := false;
     newClient := fun _ => galleryClient;
     fetch := fun url =>
       Normal {| resp_ok := negb (is_str url "https://cdn.example/b.png");
                 resp_status := if is_str url "https://cdn.example/b.png" then 404 else 200;
                 resp_statusText :=
                   if is_str url "https://cdn.example/b.png" then "Not Found" else "OK";
                 resp_headers := [("content-type", "image/png")];
                 resp_arrayBuffer := Normal [x89; x50; x4e; x47] |};
     prepareBinaryData := fun buffer filename mimeType =>
       Normal (JObj [("data", JBuf buffer); ("fileName", JStr filename);
                     ("mimeType", JStr mimeType)]);
     getBinaryDataBuffer :=
       storeBuffer [ {| item_json := JObj []; item_binary := None |} ] |}.

(** A response without headers whose body starts like a PNG file. *)
Definition bareResponse : Response :=
  {| resp_ok := true; resp_status := 200; resp_statusText := "OK";
     resp_headers := [];
     resp_arrayBuffer := Normal [x89; x50; x4e; x47; x0d; x0a; x1a; x0a; x00] |}.

End MoreSamples.

(* ===================================================================== *)
(** ** Further predicates and observations *)
(* ===================================================================== *)

Module Observations.
Import Session Identity Resolve Artifacts Execute LoadOptions Props.

(** *** Strings *)

(** The characters of a string. *)
Definition chars (s : string) : list ascii := list_ascii_of_string s.

(** The string holds no double quote. *)
Definition quote_free (s : string) : Prop := ascii_of_nat 34 ∉ chars s.

(** *** Recorded calls *)

(** Does this value of [SOGNI_N8N_DEBUG_APPID] switch the debug lines on? *)
Definition enabledBy (raw : option string) : bool :=
  let raw := toLowerCase (trim (match raw with Some s => s | None => "" end)) in
  String.eqb raw "1" || String.eqb raw "true" || String.eqb raw "yes" || String.eqb raw "on".

(** Started with the environment variable equal to [d], [m] leaves it alone
    and all the calls it records satisfy [P]. *)
Definition emits (d : option string) (P : event -> Prop) {A} (m : M A) : Prop :=
  forall w, env_debug w = d ->
    env_debug (m w).1 = d /\
    exists l, trace (m w).1 = trace w ++ l /\ Forall P l.

(** A debug line is recorded only when the variable switches them on. *)
Definition log_allowed (d : option string) (e : event) : Prop :=
  is_log e -> enabledBy d = true.

(** Calls of the SDK, downloads and their error lines: the work of an item. *)
Definition work_event (e : event) : Prop :=
  match e with
  | EvGetAvailableModels _ | EvCreateImageProject _ | EvCreateImageEditProject _
  | EvCreateVideoProject _ | EvEstimateVideoCost _ | EvGetModel _ | EvGetBalance
  | EvFetch _ | EvConsoleError _ _ => True
  | _ => False
  end.

(** The calls that follow the submission of a job: downloads and their
    error lines. *)
Definition download_event (e : event) : Prop :=
  match e with EvFetch _ | EvConsoleError _ _ => True | _ => False end.

(** [m] records downloads and their error lines only. *)
Definition downloading {A} (m : M A) : Prop :=
  forall w, exists l, trace (m w).1 = trace w ++ l /\ Forall download_event l.

(** The shutdown calls, with debug lines only where they are switched on. *)
Definition closing_event (d : option string) (e : event) : Prop :=
  shutdown_event e /\ log_allowed d e.

(** The requests handed to the three generation calls of the SDK among
    recorded calls, oldest first. *)
Definition submitted (l : list event) : list jsval :=
  omap (fun e => match e with
                 | EvCreateImageProject config | EvCreateImageEditProject config
                 | EvCreateVideoProject config => Some config
                 | _ => None
                 end) l.

(** The URLs handed to [fetch] among recorded calls, oldest first. *)
Definition fetched (l : list event) : list jsval :=
  omap (fun e => match e with EvFetch url => Some url | _ => None end) l.

(** *** Shutdown *)

(** The time [safeDisconnect] waits for [disconnect]: nothing when there is
    no such method or the call throws, the delay of the promise when it
    settles no later than the timer fires, the delay of the timer
    otherwise. *)
Definition disconnectWait (c : Client) (context : Context) : Z :=
  let delay := timerDelay (resolveTimeoutMs context) in
  match c_disconnect c with
  | Normal (Function (Normal (Settles after _))) =>
      if Z.of_N after <=? delay then Z.of_N after else delay
  | Normal (Function (Normal Pending)) => delay
  | _ => 0
  end.

(** *** Items and their records *)

(** The pairs of selectors whose branch ends with a single
    [returnData.push]. *)
Definition singleRecord (resource operation : jsval) : bool :=
  (is_str resource "image" && is_str operation "generate")
  || (is_str resource "image" && is_str operation "edit")
  || (is_str resource "video" && is_str operation "generate")
  || (is_str resource "video" && is_str operation "estimateCost")
  || (is_str resource "model" && is_str operation "get")
  || (is_str resource "account" && is_str operation "getBalance").

(** [meta.resolved.k] of an output record. *)
Definition reported (o : Output) (k : string) : jsval :=
  prop (prop (prop (out_json o) "meta") "resolved") k.

(** [meta.k] of an output record. *)
Definition metaOf (o : Output) (k : string) : jsval := prop (prop (out_json o) "meta") k.

(** [meta.resolved.providedAssets.k] of an output record. *)
Definition providedAsset (o : Output) (k : string) : jsval :=
  prop (reported o "providedAssets") k.

(** The four reference bindings of a video request. *)
Definition referenceNames : list string :=
  ["referenceImage"; "referenceImageEnd"; "referenceAudio"; "referenceVideo"].

(** The settings of a video request that its output reports under the
    name they are sent with. *)
Definition videoSettingNames : list string :=
  ["frames"; "duration"; "fps"; "steps"; "guidance"; "shift"; "teacacheThreshold";
   "numberOfMedia"; "sampler"; "scheduler"; "videoStart"; "audioStart"; "audioDuration";
   "trimEndFrame"; "firstFrameStrength"; "lastFrameStrength"; "autoResizeVideoAssets"].



(** A frame count the cost estimate passes on: a number above zero. *)
Definition positiveNumber (v : jsval) : Prop :=
  v = JNum (Infinity false) \/ exists q, v = JNum (Finite q) /\ (0 < q)%Q.

(** The file name used when the response names none:
    [`${defaultNameBase}.${extension}`]. *)
Definition defaultName (base : string) (index : nat) (extension : string) : string :=
  (base +:+ "_" +:+ show_nat index) +:+ "." +:+ extension.

(** *** Model options *)

(** The option stands for the model: built from it, with its id as value. *)
Definition optionFor (build : jsval -> completion jsval) (model option : jsval) : Prop :=
  build model = Normal option /\ prop option "value" = prop model "id".

(** The single entry shown when no video model is on offer. *)
Definition noVideoModels : jsval :=
  JObj [("name", JStr "No video models available - check back later");
        ("value", JStr "");
        ("description", JStr "Video models are being added to the platform")].

(** The single entry shown when no image edit model is on offer. *)
Definition noEditModels : jsval :=
  JObj [("name", JStr "No Qwen Image Edit models available - check back later");
        ("value", JStr "");
        ("description", JStr "Qwen Image Edit models are being added to the platform")].

(** The model is not reported unhealthy: [health] or [status] says
    [healthy], or the flag [healthy] is not [false]. *)
Definition notUnhealthy (model : jsval) : Prop :=
  is_str (prop model "health") "healthy" = true \/
  is_str (prop model "status") "healthy" = true \/
  prop model "healthy" <> JBool false.

(** The label of an edit model recommends this number of steps. *)
Definition recommendsSteps (option : jsval) (steps : string) : Prop :=
  exists title badge star,
    prop option "name"
      = JStr (title +:+ badge +:+ (" (" +:+ steps +:+ " steps recommended)") +:+ star).

Section WithHost.
Context `{JsRuntime} `{Host}.

(** The selectors of item [i], when both can be read, satisfy [P]. *)
Definition selects (P : jsval -> jsval -> bool) (i : nat) : Prop :=
  match getNodeParameter "resource" i, getNodeParameter "operation" i with
  | Normal resource, Normal operation => P resource operation = true
  | _, _ => True
  end.

(** The identity of the execution started in [w], and its client. *)
Definition executionIdOf (credentials : jsval) (w : world) : string :=
  match (executionAppId credentials w).2 with Normal a => a | Throw _ => "" end.

Definition executionClient (credentials : jsval) (w : world) : Client :=
  newClient (clientOptions credentials (executionIdOf credentials w)).

(** The world in which the loop over the items starts: [returnData] is
    empty, the identity has been chosen, the debug line written and the client
    constructed. *)
Definition loopStart (credentials : jsval) (w : world) : world :=
  let w0 := (newReturnData w).1 in
  let allocated := executionAppId credentials w0 in
  let appId := match allocated.2 with Normal a => a | Throw _ => "" end in
  let userProvidedAppId := normalizeAppId (prop credentials "appId") in
  let logged :=
    debugLogAppId ("execute node=" +:+ dq +:+ getNodeName +:+ dq +:+ " appId=" +:+ appId
                   +:+ " source=" +:+
                   (if userProvidedAppId is Some _ then "credentials" else "generated"))
      allocated.1 in
  record (EvNewClient appId) logged.1.

(** [o] is the record item [i] leaves in [returnData]: the one its branch
    pushed, or the error record pushed in its place when it failed. *)
Definition recordOf (client : Client) (i : nat) (o : Output) : Prop :=
  exists w1 w2,
    (processItem client i w1 = (w2, Normal tt) /\ returnData w2 = returnData w1 ++ [o]) \/
    (exists e, processItem client i w1 = (w2, Throw e) /\ returnData w2 = returnData w1 /\
               o = errorRecord e).

(** What became of a context image that is not required: it was sent when
    the property is named and the guard found it, with the bytes the
    helper returned for it; it was left out when the property is not named
    or the guard found nothing. *)
Definition sentIfFound (i : nat) (propertyName : jsval) (image : option (list byte)) : Prop :=
  match image with
  | Some bytes =>
      isNamed propertyName = Normal true /\
      binaryDataOf i propertyName = Normal true /\
      getBinaryDataBuffer i propertyName = Normal bytes
  | None =>
      isNamed propertyName = Normal false \/
      (isNamed propertyName = Normal true /\ binaryDataOf i propertyName = Normal false)
  end.

(** What a lookup gets from the SDK: the search box is read, the models are
    asked for and the answer is used as an array. *)
Definition listed (client : Client) (searchParameter : string) : completion (list jsval) :=
  p ← getCurrentNodeParameter searchParameter;
  models ← c_getAvailableModels client (lookupArgs (or_else p (JStr "")));
  as_array models.

(** The client a lookup started in [w] constructs. *)
Definition lookupClient (credentials : jsval) (w : world) : Client :=
  newClient (clientOptions credentials
               ("n8n-sogni-loadopts" +:+ "-" +:+ entropy w (drawn w))).

(** What the body of each lookup computes from the listing, the session
    apart. *)
Definition modelOptionsOf (client : Client) : completion jsval :=
  models ← listed client "modelSearch";
  options ← mapM optionOf models;
  mret (JArr options).

Definition videoModelOptionsOf (client : Client) : completion jsval :=
  models ← listed client "videoModelSearch";
  videoModels ← filterM isVideoModel models;
  options ← mapM optionOf videoModels;
  mret (JArr (match options with [] => [noVideoModels] | _ => options end)).

Definition imageEditModelOptionsOf (client : Client) : completion jsval :=
  models ← listed client "imageEditModelSearch";
  imageEditModels ← filterM isImageEditModel models;
  options ← mapM editOptionOf imageEditModels;
  mret (JArr (match options with [] => [noEditModels] | _ => options end)).

End WithHost.

End Observations.

(** * Part II. Verified properties *)

(* ===================================================================== *)
(** ** Reasoning about [M]: outcomes, elapsed time and emitted events *)
(* ===================================================================== *)

Module EffFacts.
Import Props.

Lemma run_bind {A B} (m : M A) (k : A -> M B) (w : world) :
  (m ≫= k) w =
  match m w with
  | (w', Normal a) => k a w'
  | (w', Throw e) => (w', Throw e)
  end.
Proof. reflexivity. Qed.

Lemma run_lift_bind {A B} (c : completion A) (k : A -> M B) (w : world) :
  (lift c ≫= k) w =
  match c with
  | Normal a => k a w
  | Throw e => (w, Throw e)
  end.
Proof. by destruct c. Qed.

Lemma run_bind_normal {A B} (m : M A) (k : A -> M B) (w w' : world) (a : A) :
  m w = (w', Normal a) -> (m ≫= k) w = k a w'.
Proof. intros Hm. by rewrite run_bind, Hm. Qed.

Lemma run_bind_throw {A B} (m : M A) (k : A -> M B) (w w' : world) (e : thrown) :
  m w = (w', Throw e) -> (m ≫= k) w = (w', Throw e).
Proof. intros Hm. by rewrite run_bind, Hm. Qed.

Lemma safe_ret {A} (a : A) : safe (mret a).
Proof. intros w. by exists a. Qed.

Lemma safe_emit (e : event) : safe (emit e).
Proof. intros w. by exists tt. Qed.

Lemma safe_sleep (ms : Z) : safe (sleep ms).
Proof. intros w. by exists tt. Qed.

Lemma safe_bind {A B} (m : M A) (k : A -> M B) :
  safe m -> (forall a, safe (k a)) -> safe (m ≫= k).
Proof.
  intros Hm Hk w. rewrite run_bind.
  destruct (Hm w) as [a Ha]. destruct (m w) as [w' r]; simpl in *; subst r.
  apply Hk.
Qed.

Lemma safe_try_catch {A} (m : M A) (handler : thrown -> M A) :
  (forall e, safe (handler e)) -> safe (try_catch m handler).
Proof.
  intros Hh w. unfold try_catch.
  destruct (m w) as [w' [a|e]]; [by exists a | apply Hh].
Qed.

Lemma safe_try_finally {A} (m : M A) (cleanup : M unit) :
  safe m -> safe cleanup -> safe (try_finally m cleanup).
Proof.
  intros Hm Hc w. unfold try_finally.
  destruct (Hm w) as [a Ha]. destruct (m w) as [w' r]; simpl in *; subst r.
  destruct (Hc w') as [u Hu]. destruct (cleanup w') as [w'' r]; simpl in *; subst r.
  by exists a.
Qed.

Lemma raising_safe {A} (P : thrown -> Prop) (m : M A) : safe m -> raising P m.
Proof. intros Hm w e He. destruct (Hm w) as [a Ha]. congruence. Qed.

Lemma raising_lift {A} (P : thrown -> Prop) (c : completion A) :
  (forall e, c = Throw e -> P e) -> raising P (lift c).
Proof. intros Hc w e He. by apply Hc. Qed.

Lemma raising_throw {A} (P : thrown -> Prop) (e : thrown) : P e -> raising P (@throw A e).
Proof. intros He w e' [= <-]. exact He. Qed.

Lemma raising_bind {A B} (P : thrown -> Prop) (m : M A) (k : A -> M B) :
  raising P m -> (forall w a, (m w).2 = Normal a -> raising P (k a)) ->
  raising P (m ≫= k).
Proof.
  intros Hm Hk w e. rewrite run_bind.
  specialize (Hm w). specialize (Hk w).
  destruct (m w) as [w' [a|e']]; simpl in *.
  - apply (Hk a eq_refl).
  - intros [= <-]. by apply Hm.
Qed.

(** A [catch] clause that returns for everything the body can throw makes
    the whole statement return. *)
Lemma safe_try_catch_raising {A} (P : thrown -> Prop) (m : M A) (handler : thrown -> M A) :
  raising P m -> (forall e, P e -> safe (handler e)) -> safe (try_catch m handler).
Proof.
  intros Hm Hh w. unfold try_catch. specialize (Hm w).
  destruct (m w) as [w' [a|e]]; [by exists a|].
  apply Hh, Hm. reflexivity.
Qed.

Lemma within_weaken {A} (b b' : Z) (P P' : event -> Prop) (m : M A) :
  b <= b' -> (forall e, P e -> P' e) -> within b P m -> within b' P' m.
Proof.
  intros Hb HP Hm w. destruct (Hm w) as (Hc & (l & Hl & HF) & He & Hr).
  repeat split; try lia; try done.
  exists l. split; [done|]. eapply Forall_impl; eauto.
Qed.

Lemma within_ret {A} (P : event -> Prop) (a : A) : within 0 P (mret a).
Proof.
  intros w; simpl. repeat split; try lia.
  exists []. by rewrite app_nil_r.
Qed.

Lemma within_lift {A} (P : event -> Prop) (c : completion A) : within 0 P (lift c).
Proof.
  intros w; simpl. repeat split; try lia.
  exists []. by rewrite app_nil_r.
Qed.

Lemma within_throw {A} (P : event -> Prop) (e : thrown) : within 0 P (@throw A e).
Proof.
  intros w; simpl. repeat split; try lia.
  exists []. by rewrite app_nil_r.
Qed.

Lemma within_emit (P : event -> Prop) (e : event) : P e -> within 0 P (emit e).
Proof.
  intros He w; simpl. repeat split; try lia.
  exists [e]. split; [done|]. by constructor.
Qed.

Lemma within_sleep (P : event -> Prop) (ms : Z) : 0 <= ms -> within ms P (sleep ms).
Proof.
  intros Hms w; simpl. repeat split; try lia.
  exists []. by rewrite app_nil_r.
Qed.

Lemma within_getenv (P : event -> Prop) : within 0 P getenv_debug.
Proof.
  intros w; simpl. repeat split; try lia.
  exists []. by rewrite app_nil_r.
Qed.

Lemma within_bind {A B} (b1 b2 : Z) (P : event -> Prop) (m : M A) (k : A -> M B) :
  0 <= b2 ->
  within b1 P m -> (forall a, within b2 P (k a)) -> within (b1 + b2) P (m ≫= k).
Proof.
  intros Hb2 Hm Hk w. rewrite run_bind.
  destruct (Hm w) as (Hc & (l & Hl & HF) & He & Hr).
  destruct (m w) as [w' [a|e]]; simpl in *.
  - destruct (Hk a w') as (Hc' & (l' & Hl' & HF') & He' & Hr').
    repeat split; try lia; try congruence.
    exists (l ++ l'). split; [by rewrite Hl', Hl, app_assoc|].
    by apply Forall_app.
  - repeat split; try lia; try done. by exists l.
Qed.

Lemma within_try_catch {A} (b1 b2 : Z) (P : event -> Prop) (m : M A) (handler : thrown -> M A) :
  0 <= b2 ->
  within b1 P m -> (forall e, within b2 P (handler e)) ->
  within (b1 + b2) P (try_catch m handler).
Proof.
  intros Hb2 Hm Hh w. unfold try_catch.
  destruct (Hm w) as (Hc & (l & Hl & HF) & He & Hr).
  destruct (m w) as [w' [a|e]]; simpl in *.
  - repeat split; try lia; try done. by exists l.
  - destruct (Hh e w') as (Hc' & (l' & Hl' & HF') & He' & Hr').
    repeat split; try lia; try congruence.
    exists (l ++ l'). split; [by rewrite Hl', Hl, app_assoc|].
    by apply Forall_app.
Qed.

Lemma within_try_finally {A} (b1 b2 : Z) (P : event -> Prop) (m : M A) (cleanup : M unit) :
  within b1 P m -> within b2 P cleanup -> within (b1 + b2) P (try_finally m cleanup).
Proof.
  intros Hm Hc w. unfold try_finally.
  destruct (Hm w) as (Hc1 & (l & Hl & HF) & He & Hr).
  destruct (m w) as [w' r]; simpl in *.
  destruct (Hc w') as (Hc' & (l' & Hl' & HF') & He' & Hr').
  destruct (cleanup w') as [w'' [u|e]]; simpl in *.
  all: repeat split; try lia; try congruence.
  all: exists (l ++ l'); split; [by rewrite Hl', Hl, app_assoc|];
       by apply Forall_app.
Qed.

End EffFacts.

(* ===================================================================== *)
(** ** Strings: lengths, decimal rendering, occurrences *)
(* ===================================================================== *)

Module TextFacts.

Lemma length_append (a b : string) :
  String.length (a +:+ b) = (String.length a + String.length b)%nat.
Proof. induction a as [|c a IH]; simpl; [done | by rewrite IH]. Qed.

Lemma length_zero (s : string) : String.length s = 0%nat -> s = "".
Proof. by destruct s. Qed.


Lemma prefix_append (b c : string) : String.prefix b (b +:+ c) = true.
Proof.
  induction b as [|x b IH]; simpl; [by destruct c|].
  by destruct (ascii_dec x x).
Qed.

Lemma includes_prefix (s needle : string) :
  String.prefix needle s = true -> includes s needle = true.
Proof. intros Hp. destruct s; simpl in *; by rewrite Hp. Qed.

Lemma includes_middle (a b c : string) : includes (a +:+ b +:+ c) b = true.
Proof.
  induction a as [|x a IH].
  - change ("" +:+ b +:+ c) with (b +:+ c). apply includes_prefix, prefix_append.
  - change (includes (String x (a +:+ b +:+ c)) b = true). simpl.
    rewrite IH. apply orb_true_r.
Qed.

End TextFacts.

(* ===================================================================== *)
(** ** Properties of the frame quantiser *)
(* ===================================================================== *)

Module FramesFacts.
Import Frames Props.

(** *** Rounding to a double *)

Lemma round_even_comp (p q : Q) : (p == q)%Q -> round_even p = round_even q.
Proof.
  intros Hpq. unfold round_even. rewrite (Qfloor_comp _ _ Hpq).
  assert (E : (p - inject_Z (Qfloor q) == q - inject_Z (Qfloor q))%Q) by (by rewrite Hpq).
  by rewrite (Qcompare_comp _ _ E _ _ (Qeq_refl (1 # 2))).
Qed.

Lemma round_even_Z (z : Z) : round_even (inject_Z z) = z.
Proof.
  unfold round_even. rewrite Qfloor_Z.
  assert (E : (inject_Z z - inject_Z z ?= 1 # 2)%Q = Lt).
  { rewrite <- Qlt_alt.
    assert (E0 : (inject_Z z - inject_Z z == 0)%Q) by ring.
    by rewrite E0. }
  by rewrite E.
Qed.

Lemma round_even_between (q : Q) : Qfloor q <= round_even q <= Qfloor q + 1.
Proof.
  unfold round_even. destruct (_ ?= _)%Q; [destruct (Z.even _)| |]; lia.
Qed.

(** Rounding does not cross an integer. *)
Lemma round_even_le (q : Q) (z : Z) : (q <= inject_Z z)%Q -> round_even q <= z.
Proof.
  intros Hq. pose proof (Qfloor_le q) as Hf.
  assert (Hfz : Qfloor q <= z).
  { apply Qfloor_resp_le in Hq. by rewrite Qfloor_Z in Hq. }
  destruct (decide (Qfloor q = z)) as [E|NE].
  - assert (Hqz : (q == inject_Z z)%Q).
    { apply Qle_antisym; [done|]. by rewrite <- E. }
    by rewrite (round_even_comp _ _ Hqz), round_even_Z.
  - pose proof (round_even_between q). lia.
Qed.

Lemma round_even_ge (q : Q) (z : Z) : (inject_Z z <= q)%Q -> z <= round_even q.
Proof.
  intros Hq. apply Qfloor_resp_le in Hq. rewrite Qfloor_Z in Hq.
  pose proof (round_even_between q). lia.
Qed.

Lemma binary64_comp (p q : Q) : (p == q)%Q -> binary64 p = binary64 q.
Proof.
  intros Hpq. unfold binary64.
  assert (Ht : (p * inject_Z (2 ^ 1074) == q * inject_Z (2 ^ 1074))%Q) by (by rewrite Hpq).
  assert (Hf : Qfloor (Qabs (p * inject_Z (2 ^ 1074)))
               = Qfloor (Qabs (q * inject_Z (2 ^ 1074)))).
  { apply Qfloor_comp. by rewrite Ht. }
  cbv zeta. rewrite Hf.
  set (e := Z.max 0 _).
  assert (Hm : round_even (p * inject_Z (2 ^ 1074) / inject_Z (2 ^ e))
               = round_even (q * inject_Z (2 ^ 1074) / inject_Z (2 ^ e))).
  { apply round_even_comp. by rewrite Ht. }
  by rewrite Hm.
Qed.

Lemma inject_Z_pow2_pos (k : Z) : (0 < inject_Z (2 ^ k))%Q \/ 2 ^ k = 0.
Proof.
  destruct (Z.le_gt_cases 0 k).
  - left. change 0%Q with (inject_Z 0). rewrite <- Zlt_Qlt. by apply Z.pow_pos_nonneg.
  - right. by apply Z.pow_neg_r.
Qed.

(** A rational that is [m * 2^k] smallest subnormals, with [|m| < 2^53]
    and below the overflow threshold, is a double. *)
Lemma binary64_exact (q : Q) (m k : Z) :
  0 <= k <= 2045 -> Z.abs m < 2 ^ 53 ->
  (q * inject_Z (2 ^ 1074) == inject_Z (m * 2 ^ k))%Q ->
  binary64 q = Finite (Qred q).
Proof.
  intros Hk Hm Hq. unfold binary64. cbv zeta.
  assert (HU : 0 < 2 ^ 1074) by (by apply Z.pow_pos_nonneg).
  set (U := 2 ^ 1074) in *.
  set (T := m * 2 ^ k) in *.
  assert (Hfl : Qfloor (Qabs (q * inject_Z U)) = Z.abs T).
  { rewrite (Qfloor_comp _ (inject_Z (Z.abs T))); [apply Qfloor_Z|].
    rewrite Hq. unfold Qabs, inject_Z. simpl. reflexivity. }
  rewrite Hfl.
  set (e := Z.max 0 (Z.log2 (Z.abs T) - 52)).
  assert (Hk2 : 0 < 2 ^ k) by (apply Z.pow_pos_nonneg; lia).
  assert (He : 0 <= e <= k).
  { subst e. split; [lia|]. apply Z.max_lub; [lia|].
    destruct (decide (m = 0)) as [->|Hm0].
    - subst T. simpl. lia.
    - assert (HT : 0 < Z.abs T) by (subst T; rewrite Z.abs_mul; nia).
      assert (Z.log2 (Z.abs T) < 53 + k); [|lia].
      apply Z.log2_lt_pow2; [done|].
      subst T. rewrite Z.abs_mul, (Z.abs_eq (2 ^ k)) by lia.
      rewrite Z.pow_add_r by lia. nia. }
  assert (He2 : 0 < 2 ^ e) by (apply Z.pow_pos_nonneg; lia).
  assert (HT : T = m * 2 ^ (k - e) * 2 ^ e).
  { subst T. rewrite <- Z.mul_assoc, <- Z.pow_add_r by lia. do 2 f_equal. lia. }
  assert (Hdiv : (q * inject_Z U / inject_Z (2 ^ e) == inject_Z (m * 2 ^ (k - e)))%Q).
  { rewrite Hq, HT, inject_Z_mult. field.
    change 0%Q with (inject_Z 0). rewrite inject_Z_injective. lia. }
  rewrite (round_even_comp _ _ Hdiv), round_even_Z, <- HT.
  assert (Hov : (2 ^ 2098 <=? Z.abs (m * 2 ^ (k - e)) * 2 ^ e) = false).
  { apply Z.leb_gt. rewrite <- (Z.abs_eq (2 ^ e)) at 1 by lia.
    rewrite <- Z.abs_mul, <- HT. subst T.
    rewrite Z.abs_mul, (Z.abs_eq (2 ^ k)) by lia.
    apply Z.lt_le_trans with (2 ^ 53 * 2 ^ k); [nia|].
    rewrite <- Z.pow_add_r by lia. apply Z.pow_le_mono_r; lia. }
  rewrite Hov. f_equal. apply Qred_complete.
  rewrite <- Hq. field.
  change 0%Q with (inject_Z 0). rewrite inject_Z_injective. lia.
Qed.

Lemma Qred_inject_Z (z : Z) : Qred (inject_Z z) = inject_Z z.
Proof.
  unfold Qred, inject_Z.
  pose proof (Z.ggcd_gcd z 1) as Hg. pose proof (Z.ggcd_correct_divisors z 1) as Hd.
  destruct (Z.ggcd z 1) as [g [a b]]. simpl in *.
  rewrite Z.gcd_1_r in Hg. subst g. destruct Hd as [Ha Hb].
  replace a with z by lia. replace b with 1 by lia. done.
Qed.

Lemma binary64_int (q : Q) (n : Z) :
  Z.abs n <= 2 ^ 53 -> (q == inject_Z n)%Q -> binary64 q = Finite (inject_Z n).
Proof.
  intros Hn Hq. rewrite (binary64_comp _ _ Hq).
  transitivity (Finite (Qred (inject_Z n))); [|by rewrite Qred_inject_Z].
  destruct (decide (Z.abs n = 2 ^ 53)) as [E|NE].
  - apply (binary64_exact _ (Z.sgn n * 2 ^ 52) 1075); [lia| |].
    + rewrite Z.abs_mul. change (Z.abs (2 ^ 52)) with (2 ^ 52).
      destruct (Z.abs_spec (Z.sgn n)); lia.
    + rewrite <- inject_Z_mult. apply inject_Z_injective.
      assert (Hn' : n = Z.sgn n * 2 ^ 52 * 2) by lia.
      change (2 ^ 1075) with (2 * 2 ^ 1074). rewrite Hn' at 1. ring.
  - apply (binary64_exact _ n 1074); [lia|lia|].
    by rewrite <- inject_Z_mult.
Qed.

(** An integer number of eighths below [2^53] in magnitude. *)
Lemma binary64_eighths (q : Q) (n : Z) :
  Z.abs n < 2 ^ 53 -> (q == inject_Z n / 8)%Q -> binary64 q = Finite (Qred (inject_Z n / 8)).
Proof.
  intros Hn Hq. rewrite (binary64_comp _ _ Hq).
  apply (binary64_exact _ n 1071); [lia|done|].
  rewrite inject_Z_mult. change (inject_Z (2 ^ 1074)) with (inject_Z (8 * 2 ^ 1071)).
  rewrite inject_Z_mult. change (inject_Z 8) with 8%Q. field.
Qed.


Lemma binary64_units (q : Q) (c : Z) :
  (forall e, e = Z.max 0 (Z.log2 (Qfloor (Qabs (q * inject_Z (2 ^ 1074)))) - 52) ->
     round_even (q * inject_Z (2 ^ 1074) / inject_Z (2 ^ e)) * 2 ^ e <= c * 2 ^ 1074) ->
  c <= 0 ->
  at_most (inject_Z c) (binary64 q).
Proof.
  intros Hm Hc. unfold binary64. cbv zeta.
  set (e := Z.max 0 _). specialize (Hm e eq_refl). assert (0 <= e) by lia.
  set (m := round_even _) in *.
  assert (HU : 0 < 2 ^ 1074) by (by apply Z.pow_pos_nonneg).
  assert (He : 0 < 2 ^ e) by (apply Z.pow_pos_nonneg; lia).
  clearbody m e.
  destruct (_ <=? _) eqn:Hov; simpl.
  - apply Z.ltb_lt. apply Z.leb_le in Hov.
    assert (0 < 2 ^ 2098) by (by apply Z.pow_pos_nonneg).
    generalize dependent (2 ^ 1074). generalize dependent (2 ^ e).
    generalize dependent (2 ^ 2098). intros. nia.
  - rewrite Qred_correct. apply Qle_shift_div_r.
    + change 0%Q with (inject_Z 0). by rewrite <- Zlt_Qlt.
    + rewrite <- inject_Z_mult, <- Zle_Qle. done.
Qed.

Lemma binary64_nonpos (q : Q) : (q <= 0)%Q -> at_most 0 (binary64 q).
Proof.
  intros Hq. apply (binary64_units q 0); [|done].
  intros e He. assert (0 <= e) by lia. clear He.
  assert (He2 : 0 < 2 ^ e) by (apply Z.pow_pos_nonneg; lia).
  assert (HU : 0 < 2 ^ 1074) by (by apply Z.pow_pos_nonneg).
  assert (round_even (q * inject_Z (2 ^ 1074) / inject_Z (2 ^ e)) <= 0); [|nia].
  apply round_even_le. apply Qle_shift_div_r.
  - change 0%Q with (inject_Z 0). by rewrite <- Zlt_Qlt.
  - change (inject_Z 0 * inject_Z (2 ^ e))%Q with (0 * inject_Z (2 ^ e))%Q.
    rewrite Qmult_0_l.
    assert (0 <= inject_Z (2 ^ 1074))%Q.
    { change 0%Q with (inject_Z 0). rewrite <- Zle_Qle. lia. }
    nra.
Qed.

Lemma binary64_le_minus_1 (q : Q) : (q <= -1)%Q -> at_most (-1) (binary64 q).
Proof.
  intros Hq. apply (binary64_units q (-1)); [|done].
  intros e Hlog. assert (He : 0 <= e) by lia.
  assert (He2 : 0 < 2 ^ e) by (apply Z.pow_pos_nonneg; lia).
  assert (HU : 0 < 2 ^ 1074) by (by apply Z.pow_pos_nonneg).
  assert (HUq : (0 < inject_Z (2 ^ 1074))%Q).
  { change 0%Q with (inject_Z 0). by rewrite <- Zlt_Qlt. }
  assert (Heq : (0 < inject_Z (2 ^ e))%Q).
  { change 0%Q with (inject_Z 0). by rewrite <- Zlt_Qlt. }
  set (t := (q * inject_Z (2 ^ 1074))%Q) in *.
  assert (Ht : (t <= - inject_Z (2 ^ 1074))%Q) by (subst t; nra).
  clearbody t.
  destruct (Z.le_gt_cases e 1074) as [Hsmall|Hbig].
  - assert (round_even (t / inject_Z (2 ^ e)) <= - 2 ^ (1074 - e)).
    { apply round_even_le. apply Qle_shift_div_r; [done|].
      rewrite <- inject_Z_mult, Z.mul_opp_l, <- Z.pow_add_r by lia.
      replace (1074 - e + e) with 1074 by lia. by rewrite inject_Z_opp. }
    replace (2 ^ 1074) with (2 ^ (1074 - e) * 2 ^ e)
      by (rewrite <- Z.pow_add_r by lia; f_equal; lia).
    nia.
  - set (F := Qfloor (Qabs t)) in *.
    assert (HFt : (inject_Z F <= - t)%Q).
    { subst F. rewrite <- (Qabs_neg t) by lra. apply Qfloor_le. }
    assert (HF : 2 ^ 1074 <= F).
    { subst F. rewrite <- (Qfloor_Z (2 ^ 1074)). apply Qfloor_resp_le.
      rewrite Qabs_neg by (clear - Ht HUq; lra). clear - Ht HUq; lra. }
    assert (Hp : 2 ^ (e + 52) <= F).
    { destruct (Z.log2_spec F ltac:(lia)) as [Hlo _].
      etransitivity; [|exact Hlo]. apply Z.pow_le_mono_r; [lia|].
      assert (1074 <= Z.log2 F); [|subst F; lia].
      rewrite <- (Z.log2_pow2 1074) by lia. by apply Z.log2_le_mono. }
    assert (round_even (t / inject_Z (2 ^ e)) <= - 2 ^ 52).
    { apply round_even_le. apply Qle_shift_div_r; [done|].
      rewrite <- inject_Z_mult, Z.mul_opp_l, <- Z.pow_add_r by lia.
      rewrite inject_Z_opp. rewrite (Z.add_comm 52 e).
      rewrite Zle_Qle in Hp. nra. }
    assert (2 ^ 1074 <= 2 ^ e) by (apply Z.pow_le_mono_r; lia).
    assert (0 < 2 ^ 52) by done.
    generalize dependent (2 ^ 1074). generalize dependent (2 ^ e).
    generalize dependent (2 ^ 52). intros. nia.
Qed.

Lemma inject_Z_pow2_nonzero (a : Z) : 0 <= a -> ~ (inject_Z (2 ^ a) == 0)%Q.
Proof.
  intros Ha. change 0%Q with (inject_Z 0). rewrite inject_Z_injective.
  pose proof (Z.pow_pos_nonneg 2 a). lia.
Qed.

Lemma binary64_dyadic (q : Q) (m a : Z) :
  0 <= a <= 1074 -> Z.abs m < 2 ^ 53 -> (q == inject_Z m / inject_Z (2 ^ a))%Q ->
  binary64 q = Finite (Qred q).
Proof.
  intros Ha Hm Hq. apply (binary64_exact q m (1074 - a)); [lia|exact Hm|].
  rewrite Hq. replace (2 ^ 1074) with (2 ^ (1074 - a) * 2 ^ a)
    by (rewrite <- Z.pow_add_r by lia; f_equal; lia).
  rewrite !inject_Z_mult. field. apply inject_Z_pow2_nonzero. lia.
Qed.

Lemma Math_round_comp (p q : Q) : (p == q)%Q -> Math_round p = Math_round q.
Proof. intros Hpq. unfold Math_round. apply Qfloor_comp. by rewrite Hpq. Qed.

Lemma Math_max_int (z : Z) : Math_max 9 (Finite (inject_Z z)) = Finite (inject_Z (Z.max 9 z)).
Proof.
  simpl. f_equal. destruct (Qle_bool (inject_Z z) 9) eqn:E.
  - apply Qle_bool_iff in E. change 9%Q with (inject_Z 9) in E. rewrite <- Zle_Qle in E.
    by rewrite Z.max_l.
  - assert (~ z <= 9).
    { intros Hz. rewrite Zle_Qle in Hz. apply Qle_bool_iff in Hz.
      change (inject_Z 9) with 9%Q in Hz. congruence. }
    by rewrite Z.max_r by lia.
Qed.

Lemma Math_round_nonpos (q : Q) : (q <= 0)%Q -> Math_round q <= 0.
Proof.
  intros Hq. unfold Math_round.
  assert (Qfloor (q + (1 # 2)) < 1); [|lia].
  rewrite Zlt_Qlt. eapply Qle_lt_trans; [apply Qfloor_le|].
  change (inject_Z 1) with 1%Q. lra.
Qed.

(** At or below one frame the result is the floor. *)
Lemma quantizeNumber_low (q : Q) : (q <= 1)%Q -> quantizeNumber (Finite q) = Finite 9.
Proof.
  intros Hq. unfold quantizeNumber. simpl rounded at 4.
  pose proof (binary64_nonpos (q - 1) ltac:(lra)) as H1.
  destruct (binary64 (q - 1)) as [|[|]|q1]; try done. change (q1 <= 0)%Q in H1. simpl rounded at 3.
  pose proof (binary64_nonpos (q1 / 8) ltac:(apply Qle_shift_div_r; [done|lra])) as H2.
  destruct (binary64 (q1 / 8)) as [|[|]|q2]; try done. change (q2 <= 0)%Q in H2.
  simpl Math_round_number. pose proof (Math_round_nonpos q2 H2) as Hr.
  set (r := Math_round q2) in *. clearbody r. simpl rounded at 2.
  destruct (decide (r = 0)) as [->|Hr0].
  - rewrite (binary64_int _ 0) by (done || ring). simpl rounded.
    by rewrite (binary64_int _ 1) by (done || ring).
  - assert (Hr8 : (inject_Z r * 8 <= -1)%Q).
    { assert (r <= -1) as Hr1 by lia. rewrite Zle_Qle in Hr1.
      change (inject_Z (-1)) with (-1)%Q in Hr1. lra. }
    pose proof (binary64_le_minus_1 _ Hr8) as H4.
    destruct (binary64 (inject_Z r * 8)) as [|[|]|q4]; try done. change (q4 <= -1)%Q in H4.
    simpl rounded.
    pose proof (binary64_nonpos (q4 + 1) ltac:(lra)) as H5.
    destruct (binary64 (q4 + 1)) as [|[|]|q5]; try done. change (q5 <= 0)%Q in H5.
    simpl. f_equal.
    assert (E : Qle_bool q5 9 = true) by (apply Qle_bool_iff; lra).
    by rewrite E.
Qed.

(** Below [2^53 - 3] no step of the expression rounds. *)
Lemma quantizeNumber_exact (q : Q) (m a : Z) :
  0 <= a <= 1071 -> Z.abs m < 2 ^ 53 -> (q == inject_Z m / inject_Z (2 ^ a))%Q ->
  (1 <= q)%Q -> (q < inject_Z (2 ^ 53 - 3))%Q ->
  quantizeNumber (Finite q)
    = Finite (inject_Z (Z.max 9 (Math_round ((q - 1) / 8)%Q * 8 + 1))).
Proof.
  intros Ha Hm Hq H1 Hmax. unfold quantizeNumber.
  assert (H2a : 0 < 2 ^ a) by (apply Z.pow_pos_nonneg; lia).
  assert (H2q : (0 < inject_Z (2 ^ a))%Q).
  { change 0%Q with (inject_Z 0). by rewrite <- Zlt_Qlt. }
  assert (Hm1 : 2 ^ a <= m).
  { rewrite Zle_Qle. rewrite Hq in H1. apply Qnot_lt_le. intros Hlt.
    apply (Qlt_not_le (inject_Z m / inject_Z (2 ^ a)) 1); [|done].
    apply Qlt_shift_div_r; [done|lra]. }
  simpl rounded at 4.
  rewrite (binary64_dyadic (q - 1) (m - 2 ^ a) a); [|lia|lia|]; cycle 1.
  { rewrite Hq. unfold Zminus. rewrite inject_Z_plus, inject_Z_opp. field.
    apply inject_Z_pow2_nonzero. lia. }
  simpl rounded at 3.
  rewrite (binary64_dyadic (Qred (q - 1) / 8) (m - 2 ^ a) (a + 3)); [|lia|lia|]; cycle 1.
  { rewrite Qred_correct, Hq. rewrite Z.pow_add_r by lia.
    unfold Zminus. rewrite inject_Z_plus, inject_Z_opp, inject_Z_mult.
    change (inject_Z (2 ^ 3)) with 8%Q. field. apply inject_Z_pow2_nonzero. lia. }
  simpl Math_round_number.
  rewrite (Math_round_comp _ ((q - 1) / 8)) by (by rewrite !Qred_correct).
  set (r := Math_round ((q - 1) / 8)).
  assert (Hr : 0 <= r <= 2 ^ 50 - 1).
  { subst r. unfold Math_round.
    assert (Hx : ((q - 1) / 8 == (q - 1) * (1 # 8))%Q) by field.
    split.
    - rewrite <- (Qfloor_Z 0). apply Qfloor_resp_le. change (inject_Z 0) with 0%Q.
      rewrite Hx. lra.
    - assert (Qfloor ((q - 1) / 8 + (1 # 2)) < 2 ^ 50); [|lia].
      rewrite Zlt_Qlt. eapply Qle_lt_trans; [apply Qfloor_le|]. rewrite Hx.
      change (inject_Z (2 ^ 53 - 3)) with (9007199254740989 # 1)%Q in Hmax.
      change (inject_Z (2 ^ 50)) with (1125899906842624 # 1)%Q. lra. }
  clearbody r. simpl rounded at 2.
  rewrite (binary64_int _ (r * 8)); [|lia|by rewrite inject_Z_mult].
  simpl rounded.
  rewrite (binary64_int _ (r * 8 + 1)); [|lia|by rewrite inject_Z_plus].
  apply Math_max_int.
Qed.

(** *** The quantiser on integer frame counts *)

Lemma Math_round_eighths (z : Z) :
  Math_round ((inject_Z z - 1) / 8)%Q = (z + 3) / 8.
Proof.
  change (Math_round ((inject_Z z - 1) / 8)%Q)
    with (((z * 1 + -1 * 1) * 1 * 2 + 1 * 8) / (8 * 2)).
  replace ((z * 1 + -1 * 1) * 1 * 2 + 1 * 8) with ((z + 3) * 2) by lia.
  apply Z.div_mul_cancel_r; lia.
Qed.

(** Up to [2^53 - 4] the doubles compute what exact arithmetic gives. *)
Lemma quantize_closed_form (f : Z) :
  f <= 2 ^ 53 - 4 ->
  quantize f = Finite (inject_Z (Z.max 9 (8 * ((f + 3) / 8) + 1))).
Proof.
  intros Hf. unfold quantize. destruct (Z.le_gt_cases f 1) as [Hlow|Hhigh].
  - rewrite quantizeNumber_low
      by (change 1%Q with (inject_Z 1); by rewrite <- Zle_Qle).
    assert ((f + 3) / 8 <= 0); [|by rewrite Z.max_l by lia].
    assert ((f + 3) / 8 < 1); [|lia]. apply Z.div_lt_upper_bound; lia.
  - rewrite (quantizeNumber_exact _ f 0).
    + rewrite Math_round_eighths. do 3 f_equal. lia.
    + lia.
    + lia.
    + change (inject_Z (2 ^ 0)) with 1%Q. field.
    + change 1%Q with (inject_Z 1). rewrite <- Zle_Qle. lia.
    + rewrite <- Zlt_Qlt. lia.
Qed.

Lemma roundUp_8n1_spec (f : Z) :
  (exists n, roundUp_8n1 f = 8 * n + 1) /\ f <= roundUp_8n1 f /\
  (forall n, f <= 8 * n + 1 -> roundUp_8n1 f <= 8 * n + 1).
Proof.
  unfold roundUp_8n1. split; [eexists; reflexivity|].
  split.
  - pose proof (Z.mod_pos_bound (f + 6) 8 ltac:(lia)).
    pose proof (Z.div_mod (f + 6) 8 ltac:(lia)). lia.
  - intros n Hn.
    assert ((f + 6) / 8 < n + 1); [|lia].
    apply Z.div_lt_upper_bound; lia.
Qed.

Example quantize_30 : quantize 30 = Finite 33.
Proof. by vm_compute. Qed.

Example quantize_26 : quantize 26 = Finite 25.
Proof. by vm_compute. Qed.

Example quantize_minus_100 : quantize (-100) = Finite 9.
Proof. by vm_compute. Qed.

(** From [2^53 - 3] on the last addition rounds: the sum [2^53 + 1] is no
    double, and the result is [2^53], a multiple of 8. *)
Example quantize_2_53 :
  quantize (2 ^ 53 - 3) = Finite (inject_Z (2 ^ 53)) /\
  quantize (2 ^ 53) = Finite (inject_Z (2 ^ 53)).
Proof. split; by vm_compute. Qed.

Lemma closed_form_floor (f : Z) : 9 <= Z.max 9 (8 * ((f + 3) / 8) + 1).
Proof. lia. Qed.

Lemma closed_form_form (f : Z) : exists n, Z.max 9 (8 * ((f + 3) / 8) + 1) = 8 * n + 1.
Proof.
  destruct (Z.max_spec 9 (8 * ((f + 3) / 8) + 1)) as [[_ ->]|[_ ->]].
  - eexists; reflexivity.
  - by exists 1.
Qed.

Lemma closed_form_mod (f : Z) : Z.max 9 (8 * ((f + 3) / 8) + 1) mod 8 = 1.
Proof.
  destruct (closed_form_form f) as [n ->].
  rewrite Z.add_comm, Z.mul_comm, Z.mod_add by lia. reflexivity.
Qed.

Lemma closed_form_nearest (f : Z) :
  5 <= f -> f - 3 <= Z.max 9 (8 * ((f + 3) / 8) + 1) <= f + 4.
Proof.
  intros Hf.
  pose proof (Z.mod_pos_bound (f + 3) 8 ltac:(lia)).
  pose proof (Z.div_mod (f + 3) 8 ltac:(lia)).
  assert (1 <= (f + 3) / 8) by (apply Z.div_le_lower_bound; lia).
  lia.
Qed.

Lemma closed_form_fixed (f : Z) :
  9 <= f -> f mod 8 = 1 -> Z.max 9 (8 * ((f + 3) / 8) + 1) = f.
Proof.
  intros H9 Hmod.
  pose proof (Z.div_mod f 8 ltac:(lia)) as Hf. rewrite Hmod in Hf.
  replace (f + 3) with (4 + (f / 8) * 8) by lia.
  rewrite Z.div_add by lia. change (4 / 8) with 0. lia.
Qed.

Lemma closed_form_le_roundUp (f : Z) :
  Z.max 9 (8 * ((f + 3) / 8) + 1) <= Z.max 9 (roundUp_8n1 f).
Proof.
  unfold roundUp_8n1.
  assert ((f + 3) / 8 <= (f + 6) / 8) by (apply Z.div_le_mono; lia).
  lia.
Qed.

Section Values.
Context `{JsRuntime}.
Import Resolve.

(** On an integer frame count the branch of [execute] computes
    [resolveFrames]. *)
Lemma resolveFramesValue_int (videoModelId : string) (f : Z) :
  resolveFramesValue (JStr videoModelId) (num f)
    = Normal (JNum (resolveFrames videoModelId f)).
Proof.
  unfold resolveFramesValue, resolveFrames, isLtx2Model. simpl.
  by destruct (startsWith _ _).
Qed.

Lemma resolveFramesValue_other (videoModelId : string) (v : jsval) :
  isLtx2Model videoModelId = false ->
  resolveFramesValue (JStr videoModelId) v = Normal v.
Proof.
  intros Hm. unfold resolveFramesValue; simpl.
  unfold isLtx2Model in Hm. by rewrite Hm.
Qed.

Lemma resolveFramesValue_ltx2 (videoModelId : string) (f : Z) :
  isLtx2Model videoModelId = true -> f <= 2 ^ 53 - 4 ->
  resolveFramesValue (JStr videoModelId) (num f)
    = Normal (num (Z.max 9 (8 * ((f + 3) / 8) + 1))).
Proof.
  intros Hm Hf. rewrite resolveFramesValue_int. unfold resolveFrames. rewrite Hm.
  by rewrite quantize_closed_form.
Qed.

(** C9, as amended. For every integer frame count up to [2^53 - 4], zero
    and negative values included, the frame count computed for a model of
    the LTX-2 family is the value of the expression
    [max(9, round((f-1)/8)*8+1)], it is at least 9 and it is congruent to 1
    modulo 8. *)
Theorem ltx2_frames_invariant (videoModelId : string) (f : Z) :
  isLtx2Model videoModelId = true -> f <= 2 ^ 53 - 4 ->
  exists r, resolveFramesValue (JStr videoModelId) (num f) = Normal (num r) /\
            quantize f = Finite (inject_Z r) /\ 9 <= r /\ r mod 8 = 1.
Proof.
  intros Hm Hf. exists (Z.max 9 (8 * ((f + 3) / 8) + 1)).
  split; [by apply resolveFramesValue_ltx2|].
  split; [by apply quantize_closed_form|].
  split; [apply closed_form_floor | apply closed_form_mod].
Qed.

(** C4, as amended. For a model of the LTX-2 family and an integer frame
    count [f] up to [2^53 - 4] the resolved frame count is the requested
    count rounded to the nearest value of the form [8n+1] (a tie going up),
    with floor 9: it is of that form, it is at least 9, it is within
    [f-3 .. f+4] once [f >= 5], it equals [f] when [f] already has the form
    and is at least 9, and it never exceeds the larger of the floor and the
    smallest value of the form [8n+1] not below [f]; 30 frames give 33. For
    any other model the requested value is passed through unchanged. *)
Theorem ltx2_frames_nearest (videoModelId : string) (f : Z) :
  (isLtx2Model videoModelId = true -> f <= 2 ^ 53 - 4 ->
   exists r, resolveFramesValue (JStr videoModelId) (num f) = Normal (num r) /\
     (exists n, r = 8 * n + 1) /\
     9 <= r /\
     (5 <= f -> f - 3 <= r <= f + 4) /\
     (9 <= f -> f mod 8 = 1 -> r = f) /\
     r <= Z.max 9 (roundUp_8n1 f) /\
     (f = 30 -> r = 33)) /\
  (isLtx2Model videoModelId = false ->
   forall requestedFrames : jsval,
     resolveFramesValue (JStr videoModelId) requestedFrames = Normal requestedFrames).
Proof.
  split.
  - intros Hm Hf. exists (Z.max 9 (8 * ((f + 3) / 8) + 1)).
    split; [by apply resolveFramesValue_ltx2|].
    split; [apply closed_form_form|]. split; [apply closed_form_floor|].
    split; [apply closed_form_nearest|]. split; [apply closed_form_fixed|].
    split; [apply closed_form_le_roundUp|]. by intros ->.
  - intros Hm v. by apply resolveFramesValue_other.
Qed.

End Values.

(** C4, witness: an LTX-2 model and the default request of 30 frames. *)
Lemma ltx2_frames_nearest_witness :
  exists r, @Resolve.resolveFramesValue Samples.sampleRuntime
              (JStr "ltx2-19b-distilled") (num 30) = Normal (num r) /\ r = 33.
Proof.
  destruct (proj1 (@ltx2_frames_nearest Samples.sampleRuntime "ltx2-19b-distilled" 30)
              eq_refl ltac:(done)) as (r & Hr & _ & _ & _ & _ & _ & H30).
  exists r. split; [exact Hr | exact (H30 eq_refl)].
Defined.

(** C9, witness: an LTX-2 model and a negative frame count. *)
Lemma ltx2_frames_invariant_witness :
  exists r, @Resolve.resolveFramesValue Samples.sampleRuntime
              (JStr "LTX2-19b") (num (-7)) = Normal (num r) /\ 9 <= r /\ r mod 8 = 1.
Proof.
  destruct (@ltx2_frames_invariant Samples.sampleRuntime "LTX2-19b" (-7) eq_refl
              ltac:(done))
    as (r & Hr & _ & H9 & Hmod).
  exists r. auto.
Defined.

(** C4, counterexample: for 26 requested frames the LTX-2 branch yields 25,
    which is below the request, so the result is not the request rounded
    up (that would be 33); for 1 requested frame it yields the floor, 9,
    which is above the smallest value of the form [8n+1] not below the
    request, namely 1; and for [2^53 - 3] requested frames it yields
    [2^53], which is not of the form [8n+1]. *)
Lemma ltx2_frames_not_rounded_up :
  @Resolve.resolveFramesValue Samples.sampleRuntime (JStr "ltx2-19b-distilled") (num 26)
    = Normal (num 25)
  /\ (26 <=? 25) = false
  /\ roundUp_8n1 26 = 33
  /\ @Resolve.resolveFramesValue Samples.sampleRuntime (JStr "ltx2-19b-distilled") (num 1)
    = Normal (num 9)
  /\ roundUp_8n1 1 = 1
  /\ (9 <=? 1) = false
  /\ @Resolve.resolveFramesValue Samples.sampleRuntime (JStr "ltx2-19b-distilled")
       (num (2 ^ 53 - 3))
    = Normal (num (2 ^ 53))
  /\ 2 ^ 53 mod 8 = 0.
Proof. repeat split; by vm_compute. Qed.

(** C9, counterexample: [2^53] is an integer frame count a number can
    hold, and for it the LTX-2 branch yields [2^53] again, which is
    congruent to 0 and not to 1 modulo 8: the last addition of the
    expression, [2^53 + 1], is rounded to the nearest double. *)
Lemma ltx2_frames_invariant_fails_at_2_53 :
  @Resolve.resolveFramesValue Samples.sampleRuntime (JStr "LTX2-19b") (num (2 ^ 53))
    = Normal (num (2 ^ 53))
  /\ Frames.isLtx2Model "LTX2-19b" = true
  /\ binary64 (inject_Z (2 ^ 53)) = Finite (inject_Z (2 ^ 53))
  /\ 2 ^ 53 mod 8 = 0.
Proof. repeat split; by vm_compute. Qed.

End FramesFacts.


(* ===================================================================== *)
(** ** When [safeDisconnect] returns, and how long it takes *)
(* ===================================================================== *)

Module SessionFacts.
Import Session Props EffFacts.

Lemma debugLogAppId_run (message : string) (w : world) :
  debugLogAppId message w = (w, Normal tt) \/
  debugLogAppId message w = (record (EvConsoleLog ("[Sogni] " +:+ message)) w, Normal tt).
Proof.
  unfold debugLogAppId. rewrite run_bind.
  unfold isAppIdDebugEnabled. rewrite run_bind. simpl.
  match goal with |- context [if ?b then _ else _] => destruct b end; auto.
Qed.

Lemma safe_debugLogAppId (message : string) : safe (debugLogAppId message).
Proof.
  intros w. destruct (debugLogAppId_run message w) as [-> | ->]; by exists tt.
Qed.

Lemma within_debugLogAppId (message : string) : within 0 is_log (debugLogAppId message).
Proof.
  intros w. destruct (debugLogAppId_run message w) as [-> | ->]; simpl.
  - repeat split; try lia. exists []. by rewrite app_nil_r.
  - repeat split; try lia. eexists. split; [done|]. by repeat constructor.
Qed.

Lemma resolveTimeoutMs_pos (context : Context) : 0 < resolveTimeoutMs context.
Proof.
  unfold resolveTimeoutMs. destruct (timeoutMs context) as [t|]; [|lia].
  destruct (0 <? t) eqn:E; [apply Z.ltb_lt in E|]; lia.
Qed.

(** The timer never fires later than asked for. *)
Lemma timerDelay_bounds (t : Z) : 0 < t -> 0 < timerDelay t <= t.
Proof. intros Ht. unfold timerDelay. destruct (_ || _); lia. Qed.

Lemma timerDelay_in_range (t : Z) : 1 <= t <= 2147483647 -> timerDelay t = t.
Proof.
  intros Ht. unfold timerDelay.
  destruct (t <? 1) eqn:E1; [apply Z.ltb_lt in E1; lia|].
  destruct (2147483647 <? t) eqn:E2; [apply Z.ltb_lt in E2; lia|]. done.
Qed.

Lemma within_promiseWithTimeout {A} (p : promise A) (t : Z) (label : string) :
  0 < t -> within t is_log (promiseWithTimeout p t label).
Proof.
  intros Ht. unfold promiseWithTimeout. pose proof (timerDelay_bounds t Ht) as Hd.
  assert (Hto : forall msg,
            within t is_log (sleep (timerDelay t);; @throw A (ErrorObj msg))).
  { intros msg. apply (within_weaken (timerDelay t + 0) _ is_log is_log); [lia | done |].
    apply within_bind; [lia | apply within_sleep; lia | intros; apply within_throw]. }
  destruct p as [after outcome|]; [|apply Hto].
  destruct (Z.of_N after <=? timerDelay t) eqn:E; [|apply Hto].
  apply Z.leb_le in E.
  apply (within_weaken (Z.of_N after + 0) _ is_log is_log); [lia | done |].
  apply within_bind; [lia | apply within_sleep; lia | intros; apply within_lift].
Qed.

(** What the race throws: the reason of the promise, or the error of the
    timer. *)
Lemma raising_promiseWithTimeout {A} (P : thrown -> Prop) (p : promise A)
    (t : Z) (label : string) :
  (forall after e, p = Settles after (Throw e) -> P e) ->
  (forall message, P (ErrorObj message)) ->
  raising P (promiseWithTimeout p t label).
Proof.
  intros Hp Ht. unfold promiseWithTimeout.
  assert (Hto : forall msg, raising P (sleep (timerDelay t);; @throw A (ErrorObj msg))).
  { intros msg. apply raising_bind; [apply raising_safe, safe_sleep|].
    intros _ _ _. by apply raising_throw. }
  destruct p as [after outcome|]; [|apply Hto].
  destruct (Z.of_N after <=? timerDelay t); [|apply Hto].
  apply raising_bind; [apply raising_safe, safe_sleep|].
  intros _ _ _. apply raising_lift. intros e ->. by apply (Hp after).
Qed.

Lemma quiet_printable {A} (c : completion A) (e : thrown) :
  quiet c = true -> c = Throw e -> printable e = true.
Proof. by intros Hc ->. Qed.

(** A [catch] clause of [safeDisconnect] returns when it is given a value
    it can print. *)
Lemma safe_handler (line : string -> string) (e : thrown) :
  printable e = true ->
  safe (text ← lift (describe e); debugLogAppId (line text)).
Proof.
  unfold printable. destruct (describe e) as [text|] eqn:E; [|done].
  intros _ w. rewrite run_lift_bind. apply safe_debugLogAppId.
Qed.

Lemma within_handler (P : event -> Prop) (line : string -> string) (e : thrown) :
  (forall ev, is_log ev -> P ev) ->
  within 0 P (text ← lift (describe e); debugLogAppId (line text)).
Proof.
  intros HP. change 0 with (0 + 0).
  apply within_bind; [lia | apply within_lift |].
  intros text. eapply within_weaken; [reflexivity | apply HP | apply within_debugLogAppId].
Qed.

Lemma safe_swallow (m : M unit) : safe (swallow m).
Proof. apply safe_try_catch. intros e. apply safe_ret. Qed.

Lemma safe_gracefulDisconnect (c : Client) (context : Context) :
  printableErrors c = true -> safe (gracefulDisconnect c context).
Proof.
  unfold printableErrors. intros Hc.
  apply andb_prop in Hc as [Hc _]. apply andb_prop in Hc as [Hc _].
  apply andb_prop in Hc as [Hread Hcall].
  unfold gracefulDisconnect.
  apply (safe_try_catch_raising (fun e => printable e = true));
    [|intros e He; by apply (safe_handler (fun text => _ +:+ _ +:+ _ +:+ text))].
  apply raising_bind; [apply raising_lift; intros e; by apply quiet_printable|].
  intros w m Hm. change (c_disconnect c = Normal m) in Hm. rewrite Hm in Hcall.
  destruct m as [|call]; [apply raising_safe, safe_ret|].
  apply andb_prop in Hcall as [Hcall Hout].
  apply raising_bind; [apply raising_safe, safe_debugLogAppId|]. intros _ _ _.
  apply raising_bind; [apply raising_safe, safe_emit|]. intros _ _ _.
  apply raising_bind; [apply raising_lift; intros e; by apply quiet_printable|].
  intros w' p Hp. change (call = Normal p) in Hp. rewrite Hp in Hout.
  apply raising_bind; [|intros; apply raising_safe, safe_debugLogAppId].
  apply raising_promiseWithTimeout; [|done].
  intros after e ->. exact Hout.
Qed.

Lemma safe_hardClose (c : Client) (context : Context) :
  printableErrors c = true -> safe (hardClose c context).
Proof.
  unfold printableErrors. intros Hc.
  apply andb_prop in Hc as [Hc Hstate]. apply andb_prop in Hc as [_ Hprobe].
  unfold hardClose.
  apply (safe_try_catch_raising (fun e => printable e = true));
    [|intros e He; by apply (safe_handler (fun text => _ +:+ _ +:+ _ +:+ text))].
  apply raising_bind; [apply raising_lift; intros e; by apply quiet_printable|].
  intros w found Hfound. change (probeSocket c = Normal found) in Hfound.
  rewrite Hfound in Hstate.
  destruct found as [| |ws]; try (apply raising_safe, safe_ret).
  apply raising_bind; [apply raising_lift; intros e; by apply quiet_printable|].
  intros _ rs _. apply raising_safe.
  apply safe_bind.
  { destruct (strict_eq_3 _); [apply safe_ret|].
    apply safe_bind; [apply safe_swallow | intros; apply safe_swallow]. }
  intros _. apply safe_bind; [apply safe_swallow | intros; apply safe_debugLogAppId].
Qed.

Lemma safe_safeDisconnect (client : option Client) (context : Context) :
  printableErrorsOf client = true -> safe (safeDisconnect client context).
Proof.
  destruct client as [c|]; [|intros; apply safe_ret]. simpl. intros Hc.
  apply safe_bind; [by apply safe_gracefulDisconnect | intros; by apply safe_hardClose].
Qed.

(** [safeDisconnect] returns nothing but [undefined]. *)
Lemma safeDisconnect_returns (client : option Client) (context : Context) (w : world) :
  printableErrorsOf client = true -> (safeDisconnect client context w).2 = Normal tt.
Proof.
  intros Hc. by destruct (safe_safeDisconnect client context Hc w) as [[] Ha].
Qed.

Lemma log_graceful e : is_log e -> graceful_event e.
Proof. by destruct e. Qed.

Lemma log_shutdown e : is_log e -> shutdown_event e.
Proof. by destruct e. Qed.

Lemma graceful_shutdown e : graceful_event e -> shutdown_event e.
Proof. by destruct e. Qed.

Lemma within_log {A} (P : event -> Prop) (m : M A) :
  (forall e, is_log e -> P e) -> within 0 is_log m -> within 0 P m.
Proof. intros HP. by apply within_weaken. Qed.

Lemma within_gracefulDisconnect (c : Client) (context : Context) :
  within (resolveTimeoutMs context) graceful_event (gracefulDisconnect c context).
Proof.
  pose proof (resolveTimeoutMs_pos context) as Hpos.
  unfold gracefulDisconnect.
  replace (resolveTimeoutMs context) with (resolveTimeoutMs context + 0) at 1 by lia.
  apply within_try_catch; [lia | |].
  2:{ intros e. apply (within_handler _ (fun text => _ +:+ _ +:+ _ +:+ text)), log_graceful. }
  replace (resolveTimeoutMs context) with (0 + resolveTimeoutMs context) at 1 by lia.
  apply within_bind; [lia | apply within_lift |].
  intros [|call].
  { apply (within_weaken 0 _ graceful_event graceful_event); [lia | done | apply within_ret]. }
  replace (resolveTimeoutMs context) with (0 + resolveTimeoutMs context) at 1 by lia.
  apply within_bind; [lia | |].
  { apply within_log; [apply log_graceful | apply within_debugLogAppId]. }
  intros _.
  replace (resolveTimeoutMs context) with (0 + resolveTimeoutMs context) at 1 by lia.
  apply within_bind; [lia | by apply within_emit |].
  intros _.
  replace (resolveTimeoutMs context) with (0 + resolveTimeoutMs context) at 1 by lia.
  apply within_bind; [lia | apply within_lift |].
  intros p.
  replace (resolveTimeoutMs context) with (resolveTimeoutMs context + 0) at 1 by lia.
  apply within_bind; [lia | |].
  { eapply within_weaken; [reflexivity | apply log_graceful |].
    by apply within_promiseWithTimeout. }
  intros _. apply within_log; [apply log_graceful | apply within_debugLogAppId].
Qed.

Lemma within_callIfFunction (read : completion (method unit)) (ev : event) :
  shutdown_event ev -> within 0 shutdown_event (swallow (callIfFunction read ev)).
Proof.
  intros Hev. unfold swallow, callIfFunction.
  change 0 with (0 + 0).
  apply within_try_catch; [lia | | intros; apply within_ret].
  change 0 with (0 + 0).
  apply within_bind; [lia | apply within_lift |].
  intros [|call]; [apply within_ret|].
  change 0 with (0 + 0).
  apply within_bind; [lia | by apply within_emit | intros; apply within_lift].
Qed.

Lemma within_hardClose (c : Client) (context : Context) :
  within 0 shutdown_event (hardClose c context).
Proof.
  unfold hardClose.
  change 0 with (0 + 0).
  apply within_try_catch; [lia | |].
  2:{ intros e. apply (within_handler _ (fun text => _ +:+ _ +:+ _ +:+ text)), log_shutdown. }
  change 0 with (0 + 0).
  apply within_bind; [lia | apply within_lift |].
  intros [| |ws]; try apply within_ret.
  change 0 with (0 + 0).
  apply within_bind; [lia | apply within_lift |].
  intros rs.
  change 0 with (0 + 0).
  apply within_bind; [lia | |].
  { destruct (strict_eq_3 _); [apply within_ret|].
    change 0 with (0 + 0).
    apply within_bind; [lia | by apply within_callIfFunction |].
    intros _. by apply within_callIfFunction. }
  intros _.
  change 0 with (0 + 0).
  apply within_bind; [lia | by apply within_callIfFunction |].
  intros _. apply within_log; [apply log_shutdown | apply within_debugLogAppId].
Qed.

Lemma within_safeDisconnect (client : option Client) (context : Context) :
  within (resolveTimeoutMs context) shutdown_event (safeDisconnect client context).
Proof.
  pose proof (resolveTimeoutMs_pos context) as Hpos.
  destruct client as [c|]; simpl.
  { replace (resolveTimeoutMs context) with (resolveTimeoutMs context + 0) at 1 by lia.
    apply within_bind; [lia | |].
    - eapply within_weaken; [reflexivity | apply graceful_shutdown |].
      apply within_gracefulDisconnect.
    - intros _. apply within_hardClose. }
  apply (within_weaken 0 _ shutdown_event shutdown_event); [lia | done | apply within_ret].
Qed.

Lemma socket_calls_app (l1 l2 : list event) :
  socket_calls (l1 ++ l2) = socket_calls l1 ++ socket_calls l2.
Proof. apply List.filter_app. Qed.

Lemma socket_calls_graceful (l : list event) :
  Forall graceful_event l -> socket_calls l = [].
Proof.
  induction 1 as [|e l He _ IH]; [done|].
  unfold socket_calls in *. simpl. rewrite IH. by destruct e.
Qed.

Lemma socket_calls_debugLog (message : string) (w : world) :
  socket_calls (trace (debugLogAppId message w).1) = socket_calls (trace w) /\
  (debugLogAppId message w).2 = Normal tt.
Proof.
  destruct (debugLogAppId_run message w) as [-> | ->]; simpl; [done|].
  by rewrite socket_calls_app, app_nil_r.
Qed.

Lemma swallow_call_run (outcome : completion unit) (ev : event) (w : world) :
  swallow (callIfFunction (Normal (Function outcome)) ev) w = (record ev w, Normal tt).
Proof. by destruct outcome as [[]|e]. Qed.

(** Once a handle that is not closed has been found, [hardClose] calls
    [close], [terminate] and [removeAllListeners] in this order, whatever
    each of the calls does. *)
Lemma hardClose_calls (c : Client) (context : Context) (w : world)
    (ws : Socket) (rs : jsval) (r1 r2 r3 : completion unit) :
  probeSocket c = Normal (Truthy ws) ->
  ws_readyState ws = Normal rs ->
  strict_eq_3 (if typeof_number rs then rs else JUndefined) = false ->
  ws_close ws = Normal (Function r1) ->
  ws_terminate ws = Normal (Function r2) ->
  ws_removeAllListeners ws = Normal (Function r3) ->
  socket_calls (trace (hardClose c context w).1) =
  socket_calls (trace w) ++ [EvSocketClose; EvSocketTerminate; EvSocketRemoveAllListeners].
Proof.
  intros Hp Hrs Hopen H1 H2 H3.
  unfold hardClose, try_catch. rewrite run_bind, Hp. simpl.
  rewrite run_bind, Hrs. simpl. rewrite Hopen.
  rewrite H1, (run_bind (_ ≫= _)), (run_bind (swallow _)), swallow_call_run.
  rewrite H2, swallow_call_run.
  rewrite H3, run_bind, swallow_call_run.
  match goal with |- context [debugLogAppId ?m ?w0] =>
    destruct (socket_calls_debugLog m w0) as [Ht Hr];
    destruct (debugLogAppId m w0) as [w1 r]; simpl in *; subst r; simpl; rewrite Ht
  end.
  simpl. rewrite !socket_calls_app. simpl. by rewrite <- !app_assoc.
Qed.

(** X27. Whatever the state of the client (absent, never connected,
    already disconnected, connected) and whatever [disconnect] and the
    probed transport fields do (reject, never settle, throw), a call of
    [safeDisconnect] and a second call right after it each take at most the
    resolved time bound, which is 5000 ms for [execute] and 2000 ms for the
    option lookups. When every exception the wrapper hands to the [catch]
    clauses is printable, the call returns normally, and so does the second
    one; and once a handle that is not closed is found, [close],
    [terminate] and [removeAllListeners] are all issued, in this order,
    whatever each of them does. *)
Theorem safeDisconnect_returns_within_bound
    (client again : option Client) (context : Context) (w : world) :
  let first := safeDisconnect client context w in
  let second := safeDisconnect again context first.1 in
  clock w <= clock first.1 <= clock w + resolveTimeoutMs context /\
  clock first.1 <= clock second.1 <= clock first.1 + resolveTimeoutMs context /\
  (forall appId, resolveTimeoutMs (Execute.executeContext appId) = 5000) /\
  (forall label appId, resolveTimeoutMs (LoadOptions.lookupContext label appId) = 2000) /\
  (printableErrorsOf client = true -> first.2 = Normal tt) /\
  (printableErrorsOf again = true -> second.2 = Normal tt) /\
  (forall c ws rs r1 r2 r3,
     client = Some c ->
     printableErrors c = true ->
     probeSocket c = Normal (Truthy ws) ->
     ws_readyState ws = Normal rs ->
     strict_eq_3 (if typeof_number rs then rs else JUndefined) = false ->
     ws_close ws = Normal (Function r1) ->
     ws_terminate ws = Normal (Function r2) ->
     ws_removeAllListeners ws = Normal (Function r3) ->
     socket_calls (trace first.1) =
     socket_calls (trace w) ++ [EvSocketClose; EvSocketTerminate; EvSocketRemoveAllListeners]).
Proof.
  intros first second.
  split; [apply (within_safeDisconnect client context w)|].
  split; [apply (within_safeDisconnect again context first.1)|].
  split; [done|]. split; [done|].
  split; [apply safeDisconnect_returns|]. split; [apply safeDisconnect_returns|].
  intros c ws rs r1 r2 r3 -> Hc Hp Hrs Hopen H1 H2 H3.
  subst first. simpl. rewrite run_bind.
  destruct (safe_gracefulDisconnect c context Hc w) as [[] Hg].
  destruct (within_gracefulDisconnect c context w) as (_ & (l & Hl & HF) & _ & _).
  destruct (gracefulDisconnect c context w) as [w1 r]. simpl in *. subst r.
  rewrite (hardClose_calls c context w1 ws rs r1 r2 r3) by done.
  by rewrite Hl, socket_calls_app, (socket_calls_graceful l HF), app_nil_r.
Qed.

(** X27, witness: a wrapper whose [disconnect] hangs and whose handle
    throws from [close] is shut down by [execute]'s context in exactly
    5000 ms, with all three transport calls made. *)
Lemma safeDisconnect_witness :
  let first := safeDisconnect (Some Samples.hangingClient)
                 (Execute.executeContext "my-app") Samples.sampleWorld in
  first.2 = Normal tt /\ clock first.1 = 5000 /\
  socket_calls (trace first.1) =
    [EvSocketClose; EvSocketTerminate; EvSocketRemoveAllListeners].
Proof.
  pose proof (safeDisconnect_returns_within_bound
                (Some Samples.hangingClient) None
                (Execute.executeContext "my-app") Samples.sampleWorld) as Hthm.
  simpl in Hthm. destruct Hthm as (_ & _ & _ & _ & H1 & _ & Hcalls).
  split; [exact (H1 eq_refl)|]. split; [reflexivity|].
  exact (Hcalls Samples.hangingClient Samples.stubbornSocket (num 1)
           (Throw (ErrorObj "close failed")) (Normal tt) (Normal tt)
           eq_refl eq_refl eq_refl eq_refl eq_refl eq_refl eq_refl eq_refl).
Defined.

(** C1, at the failing input. The wrapper's [disconnect] rejects, after
    10 ms, with an object that has no prototype. The [catch] clause of the
    graceful step builds its log line with [String(err)], which throws a
    [TypeError]; [safeDisconnect] leaves through that exception, and the
    hard close never runs: no transport call is made on the open handle. *)
Theorem safeDisconnect_throws_for_unprintable_rejection :
  let result := safeDisconnect (Some Samples.rejectingClient)
                  (Execute.executeContext "my-app") Samples.sampleWorld in
  result.2 = Throw Samples.noPrimitive /\
  clock result.1 = 10 /\
  trace result.1 = [EvClientDisconnect] /\
  socket_calls (trace result.1) = [] /\
  probeSocket Samples.rejectingClient = Normal (Truthy Samples.stubbornSocket).
Proof. repeat split; by vm_compute. Qed.

End SessionFacts.

(* ===================================================================== *)
(** ** Derived defaults of request resolution *)
(* ===================================================================== *)

Module ResolveFacts.
Import Resolve Props.

Lemma nullish_missing (a b : jsval) : missing a -> nullish a b = b.
Proof. by intros [-> | ->]. Qed.

Lemma derivedTimeout_missing (timeoutInput network : jsval) (fastMs relaxedMs : Z) :
  missing timeoutInput ->
  derivedTimeout timeoutInput network fastMs relaxedMs =
  if is_str network "fast" then num fastMs else num relaxedMs.
Proof. by intros [-> | ->]. Qed.

Lemma derivedTimeout_NaN (network : jsval) (fastMs relaxedMs : Z) :
  derivedTimeout (JNum NaN) network fastMs relaxedMs =
  derivedTimeout JUndefined network fastMs relaxedMs.
Proof. reflexivity. Qed.

Lemma derivedTimeout_not_NaN (timeoutInput network : jsval) (fastMs relaxedMs : Z) :
  derivedTimeout timeoutInput network fastMs relaxedMs <> JNum NaN.
Proof.
  unfold derivedTimeout, is_real_number, num.
  destruct timeoutInput as [| | |[| |]| | | |]; simpl;
    try destruct (is_str _ _); discriminate.
Qed.

Lemma resolveEdit_normal (modelId network additional : jsval) (e : EditResolved) :
  resolveEdit modelId network additional = Normal e ->
  exists lowered, call_toLowerCase modelId = Normal lowered /\
    e_isLightningModel e = includes lowered "lightning" /\
    e_stepsInput e = prop (group additional "generationSettings") "steps" /\
    e_timeoutInput e = prop (group additional "advanced") "timeout" /\
    e_steps e = (if is_real_number (e_stepsInput e) then e_stepsInput e
                 else if e_isLightningModel e then num 4 else num 20) /\
    e_guidance e =
      (let guidanceInput := prop (group additional "generationSettings") "guidance" in
       if is_real_number guidanceInput then guidanceInput
       else if e_isLightningModel e then num 1 else num 4) /\
    e_resolvedTimeoutMs e = derivedTimeout (e_timeoutInput e) network 60000 600000.
Proof.
  unfold resolveEdit. destruct (call_toLowerCase modelId) as [lowered|err]; [|done].
  simpl. intros [= <-]. by exists lowered.
Qed.

Section Video.
Context `{JsRuntime}.

Lemma resolveVideo_timeoutInput (videoModelId videoAdditional : jsval) (v : VideoResolved) :
  resolveVideo videoModelId videoAdditional = Normal v ->
  v_timeoutInput v = prop (group videoAdditional "advanced") "timeout".
Proof.
  unfold resolveVideo. destruct (resolveFramesValue _ _) as [frames|err]; [|done].
  simpl. by intros [= <-].
Qed.

(** When no parameter source defines a timeout, the resolved timeout is the
    default of the chosen network tier: 60000 ms (fast) and 600000 ms
    (otherwise) for image generation and image edit, 120000 ms and
    1200000 ms for video generation. *)
Lemma resolved_timeout_defaults :
  (forall networkTop additional,
     missing (prop (group additional "advanced") "timeout") ->
     missing (prop additional "timeout") ->
     let g := resolveGenerate networkTop additional in
     g_resolvedTimeoutMs g =
       if is_str (g_network g) "fast" then num 60000 else num 600000) /\
  (forall modelId network additional e,
     resolveEdit modelId network additional = Normal e ->
     missing (prop (group additional "advanced") "timeout") ->
     e_resolvedTimeoutMs e = if is_str network "fast" then num 60000 else num 600000) /\
  (forall videoModelId videoNetwork videoAdditional v,
     resolveVideo videoModelId videoAdditional = Normal v ->
     missing (prop (group videoAdditional "advanced") "timeout") ->
     videoTimeout (v_timeoutInput v) videoNetwork =
       if is_str videoNetwork "fast" then num 120000 else num 1200000) /\
  (forall videoModelId videoAdditional v,
     resolveVideo videoModelId videoAdditional = Normal v ->
     missing (prop (group videoAdditional "advanced") "timeout") ->
     videoTimeout (v_timeoutInput v) (JStr "fast") = num 120000) /\
  60000 < 120000 /\ 600000 < 1200000.
Proof.
  split; [|split; [|split; [|split]]].
  - intros networkTop additional Hadv Hlegacy g. subst g. simpl.
    apply derivedTimeout_missing. by rewrite nullish_missing.
  - intros modelId network additional e He Hadv.
    destruct (resolveEdit_normal _ _ _ _ He) as (_ & _ & _ & _ & Ht & _ & _ & ->).
    apply derivedTimeout_missing. by rewrite Ht.
  - intros videoModelId videoNetwork videoAdditional v Hv Hadv.
    unfold videoTimeout. apply derivedTimeout_missing.
    by rewrite (resolveVideo_timeoutInput _ _ _ Hv).
  - intros videoModelId videoAdditional v Hv Hadv.
    unfold videoTimeout. rewrite derivedTimeout_missing; [done|].
    by rewrite (resolveVideo_timeoutInput _ _ _ Hv).
  - lia.
Qed.

(** A [NaN] is never the resolved value of a timeout (of any operation) nor
    of the steps and the guidance of an image edit: the derived default is
    used, exactly as for an undefined input; and the video cost estimate
    leaves [frames] out of its parameters for a [NaN]. *)
Lemma guarded_fields_drop_NaN :
  (forall networkTop additional,
     let g := resolveGenerate networkTop additional in
     g_resolvedTimeoutMs g <> JNum NaN /\
     (g_timeoutInput g = JNum NaN ->
      g_resolvedTimeoutMs g =
        if is_str (g_network g) "fast" then num 60000 else num 600000)) /\
  (forall modelId network additional e,
     resolveEdit modelId network additional = Normal e ->
     e_steps e <> JNum NaN /\ e_guidance e <> JNum NaN /\
     e_resolvedTimeoutMs e <> JNum NaN /\
     (e_stepsInput e = JNum NaN ->
      e_steps e = if e_isLightningModel e then num 4 else num 20) /\
     (prop (group additional "generationSettings") "guidance" = JNum NaN ->
      e_guidance e = if e_isLightningModel e then num 1 else num 4) /\
     (e_timeoutInput e = JNum NaN ->
      e_resolvedTimeoutMs e = if is_str network "fast" then num 60000 else num 600000)) /\
  (forall timeoutInput videoNetwork,
     videoTimeout timeoutInput videoNetwork <> JNum NaN /\
     (timeoutInput = JNum NaN ->
      videoTimeout timeoutInput videoNetwork =
        if is_str videoNetwork "fast" then num 120000 else num 1200000)) /\
  estimateFrames (JNum NaN) = None.
Proof.
  split; [|split; [|split]]; [| | |done].
  - intros networkTop additional g. split.
    + apply derivedTimeout_not_NaN.
    + subst g. simpl. by intros ->.
  - intros modelId network additional e He.
    destruct (resolveEdit_normal _ _ _ _ He)
      as (lowered & _ & _ & _ & _ & Hs & Hg & Ht).
    rewrite Hs, Hg, Ht. repeat split.
    + destruct (e_stepsInput e) as [| | |[| |]| | | |]; simpl;
        by destruct (e_isLightningModel e).
    + simpl. destruct (prop _ "guidance") as [| | |[| |]| | | |]; simpl;
        by destruct (e_isLightningModel e).
    + apply derivedTimeout_not_NaN.
    + by intros ->.
    + by intros ->.
    + by intros ->.
  - intros timeoutInput videoNetwork. split.
    + apply derivedTimeout_not_NaN.
    + by intros ->.
Qed.

End Video.

End ResolveFacts.

(* ===================================================================== *)
(** ** Identity allocation and the option lookups *)
(* ===================================================================== *)

Module IdentityFacts.
Import Session Identity LoadOptions Props EffFacts TextFacts SessionFacts.

Lemma normalizeAppId_Some (v : jsval) (id : string) :
  normalizeAppId v = Some id <-> exists s, v = JStr s /\ id = trim s /\ trim s <> "".
Proof.
  unfold normalizeAppId. split.
  - destruct v as [| | | |s| | |]; try done.
    destruct (String.length (trim s) =? 0)%nat eqn:E; [done|].
    intros [= <-]. exists s. split; [done|]. split; [done|].
    intros Ht. rewrite Ht in E. done.
  - intros (s & -> & -> & Hne).
    destruct (String.length (trim s) =? 0)%nat eqn:E; [|done].
    apply Nat.eqb_eq, length_zero in E. done.
Qed.

Lemma normalizeAppId_None (v : jsval) :
  normalizeAppId v = None <-> forall s, v = JStr s -> trim s = "".
Proof.
  unfold normalizeAppId. split.
  - destruct v as [| | | |s| | |]; try done.
    destruct (String.length (trim s) =? 0)%nat eqn:E; [|done].
    intros _ s' [= <-]. by apply Nat.eqb_eq, length_zero in E.
  - intros Hblank. destruct v as [| | | |s| | |]; try done.
    by rewrite (Hblank s eq_refl).
Qed.

Lemma generateUniqueAppId_run (prefix : string) (w : world) :
  generateUniqueAppId prefix w =
  (afterDraw w, Normal (prefix +:+ "-" +:+ entropy w (drawn w))).
Proof. reflexivity. Qed.

Lemma generated_ids_differ (prefix u1 u2 : string) :
  u1 <> u2 -> prefix +:+ "-" +:+ u1 <> prefix +:+ "-" +:+ u2.
Proof.
  intros Hne Heq. apply Hne.
  apply (String.app_inj "-"), (String.app_inj prefix). exact Heq.
Qed.

(** A generated execution identity is never a generated lookup identity:
    the draw would have to start with the letter [l], which no UUID does. *)
Lemma execution_and_lookup_ids_differ (source source' : RandomSource) (j k : nat) :
  "n8n-sogni" +:+ "-" +:+ source j <> "n8n-sogni-loadopts" +:+ "-" +:+ source' k.
Proof.
  intros Heq. apply (String.app_inj "n8n-sogni-") in Heq.
  pose proof (draw_uuid source j) as Hu. rewrite Heq in Hu. done.
Qed.

Section Lookups.
Context `{JsRuntime} `{Host}.

Lemma constructClient_run (credentials : jsval) (appId : string) (w : world) :
  constructClient credentials appId w =
  (record (EvNewClient appId) w, Normal (newClient (clientOptions credentials appId))).
Proof. reflexivity. Qed.

Lemma lookupWith_allocates_and_closes (name : string) (body : Client -> M jsval) :
  (forall client, within 0 is_models_call (body client)) ->
  allocates_and_closes name (lookupWith name body).
Proof.
  intros Hbody w. unfold lookupWith. rewrite run_lift_bind.
  destruct getCredentials as [credentials|e]; [|done].
  rewrite (run_bind_normal _ _ _ _ _ (generateUniqueAppId_run _ w)).
  set (appId := "n8n-sogni-loadopts" +:+ "-" +:+ entropy w (drawn w)).
  set (msg := "loadOptions:" +:+ name +:+ " appId=" +:+ appId).
  destruct (within_debugLogAppId msg (afterDraw w)) as (Hc & (logs & Hl & HF) & _ & _).
  destruct (safe_debugLogAppId msg (afterDraw w)) as [[] Hr].
  destruct (debugLogAppId msg (afterDraw w)) as [wl r0] eqn:Hlog.
  simpl in Hc, Hl, Hr. subst r0.
  rewrite (run_bind_normal _ _ _ _ _ Hlog).
  rewrite (run_bind_normal _ _ _ _ _ (constructClient_run credentials appId wl)).
  set (client := newClient _). set (context := lookupContext _ _).
  unfold try_finally.
  destruct (Hbody client (record (EvNewClient appId) wl))
    as (Hcb & (calls & Hlb & HFb) & _ & _).
  destruct (body client (record (EvNewClient appId) wl)) as [w1 r].
  simpl in Hcb, Hlb.
  destruct (within_safeDisconnect (Some client) context w1) as (Hcs & _).
  change (resolveTimeoutMs context) with 2000 in Hcs.
  destruct (safeDisconnect (Some client) context w1) as [w2 r2] eqn:Hsd.
  simpl in Hcs.
  exists logs, calls, w1, (match r2 with Normal _ => r | Throw e => Throw e end).
  split; [done|]. split; [done|].
  split; [by rewrite Hlb, Hl, <- !app_assoc|].
  fold appId. fold client. fold context. rewrite Hsd.
  destruct r2; simpl; (split; [done | lia]).
Qed.

Lemma within_fetchModels (client : Client) (searchParameter : string) :
  within 0 is_models_call (fetchModels client searchParameter).
Proof.
  unfold fetchModels.
  change 0 with (0 + 0). apply within_bind; [lia | apply within_lift |]. intros p.
  change 0 with (0 + 0). apply within_bind; [lia | by apply within_emit |]. intros _.
  change 0 with (0 + 0). apply within_bind; [lia | apply within_lift |]. intros models.
  apply within_lift.
Qed.

Lemma getModelOptions_skeleton :
  getModelOptions =
  lookupWith "getModelOptions"
    (fun client =>
       models ← fetchModels client "modelSearch";
       options ← lift (mapM optionOf models);
       mret (JArr options)).
Proof. reflexivity. Qed.

Lemma getModelOptions_discipline : allocates_and_closes "getModelOptions" getModelOptions.
Proof.
  rewrite getModelOptions_skeleton. apply lookupWith_allocates_and_closes. intros client.
  change 0 with (0 + 0). apply within_bind; [lia | apply within_fetchModels |]. intros models.
  change 0 with (0 + 0). apply within_bind; [lia | apply within_lift |]. intros options.
  apply within_ret.
Qed.

Lemma getVideoModelOptions_discipline :
  allocates_and_closes "getVideoModelOptions" getVideoModelOptions.
Proof.
  unfold getVideoModelOptions.
  apply (lookupWith_allocates_and_closes "getVideoModelOptions" (fun client => _)).
  intros client.
  change 0 with (0 + 0). apply within_bind; [lia | apply within_fetchModels |]. intros models.
  change 0 with (0 + 0). apply within_bind; [lia | apply within_lift |]. intros videoModels.
  change 0 with (0 + 0). apply within_bind; [lia | apply within_lift |]. intros options.
  apply within_ret.
Qed.

Lemma getImageEditModelOptions_discipline :
  allocates_and_closes "getImageEditModelOptions" getImageEditModelOptions.
Proof.
  unfold getImageEditModelOptions.
  apply (lookupWith_allocates_and_closes "getImageEditModelOptions" (fun client => _)).
  intros client.
  change 0 with (0 + 0). apply within_bind; [lia | apply within_fetchModels |]. intros models.
  change 0 with (0 + 0). apply within_bind; [lia | apply within_lift |]. intros editModels.
  change 0 with (0 + 0). apply within_bind; [lia | apply within_lift |]. intros options.
  apply within_ret.
Qed.

(** X28. An explicit override that is not blank is used by [execute] in
    its trimmed form, and nothing is drawn; when the override is omitted or
    blank, [execute] uses the prefix [n8n-sogni], a dash and a fresh draw
    of [randomUUID]. Two allocations never give equal identities: with one
    prefix, two draws of the process at different positions give different
    identities, in particular two successive allocations; and a generated
    execution identity is never equal to a generated lookup identity. Each
    of the three option lookups builds its own identity from the prefix
    [n8n-sogni-loadopts] and a fresh draw, whatever the credentials say,
    constructs one client with it, and ends by running [safeDisconnect] on
    that client with a bound of 2000 ms. *)
Theorem identity_allocation :
  (forall credentials s w,
     prop credentials "appId" = JStr s -> trim s <> "" ->
     executionAppId credentials w = (w, Normal (trim s))) /\
  (forall credentials w,
     (forall s, prop credentials "appId" = JStr s -> trim s = "") ->
     executionAppId credentials w =
       (afterDraw w, Normal ("n8n-sogni" +:+ "-" +:+ entropy w (drawn w)))) /\
  (forall prefix w w',
     entropy w' = entropy w -> drawn w' <> drawn w ->
     (generateUniqueAppId prefix w).2 <> (generateUniqueAppId prefix w').2) /\
  (forall prefix w,
     let first := generateUniqueAppId prefix w in
     first.2 <> (generateUniqueAppId prefix first.1).2) /\
  (forall w w',
     (generateUniqueAppId "n8n-sogni" w).2
       <> (generateUniqueAppId "n8n-sogni-loadopts" w').2) /\
  allocates_and_closes "getModelOptions" getModelOptions /\
  allocates_and_closes "getVideoModelOptions" getVideoModelOptions /\
  allocates_and_closes "getImageEditModelOptions" getImageEditModelOptions.
Proof.
  split; [|split; [|split; [|split; [|split; [|split; [|split]]]]]].
  - intros credentials s w Hs Hne. unfold executionAppId.
    assert (normalizeAppId (prop credentials "appId") = Some (trim s)) as ->; [|done].
    apply normalizeAppId_Some. by exists s.
  - intros credentials w Hblank. unfold executionAppId.
    by rewrite (proj2 (normalizeAppId_None _) Hblank).
  - intros prefix w w' Hsame Hne. rewrite !generateUniqueAppId_run. simpl.
    intros [= Heq]. apply generated_ids_differ in Heq; [done|].
    rewrite Hsame. intros Hu. apply draw_fresh in Hu. congruence.
  - intros prefix w first. subst first. rewrite !generateUniqueAppId_run. simpl.
    intros [= Heq]. apply generated_ids_differ in Heq; [done|].
    intros Hu. apply draw_fresh in Hu. lia.
  - intros w w'. rewrite !generateUniqueAppId_run. simpl.
    intros Heq.
    apply (execution_and_lookup_ids_differ (entropy w) (entropy w') (drawn w) (drawn w')).
    congruence.
  - apply getModelOptions_discipline.
  - apply getVideoModelOptions_discipline.
  - apply getImageEditModelOptions_discipline.
Qed.

End Lookups.

(** X28, witness: the override [" my-app "] makes [execute] use [my-app]
    and leaves the random source untouched; and the second and the first
    draw of the counting source give different lookup identities. *)
Lemma identity_allocation_witness :
  executionAppId Samples.sampleCredentials Samples.sampleWorld
    = (Samples.sampleWorld, Normal "my-app") /\
  (generateUniqueAppId "n8n-sogni-loadopts" Samples.sampleWorld).2
    <> (generateUniqueAppId "n8n-sogni-loadopts"
          (generateUniqueAppId "n8n-sogni-loadopts" Samples.sampleWorld).1).2.
Proof.
  pose proof (@identity_allocation Samples.sampleRuntime Samples.sampleHost)
    as (Hoverride & _ & Hfresh & _).
  split.
  - exact (Hoverride Samples.sampleCredentials " my-app " Samples.sampleWorld
             eq_refl ltac:(discriminate)).
  - apply (Hfresh "n8n-sogni-loadopts" Samples.sampleWorld); [reflexivity | simpl; lia].
Defined.

(** C2, at the failing input. In the earlier copy of the node the model
    lookup takes the identity the credentials name: with [appId] set to
    [my-app] it constructs its client with [my-app], the identity the
    execution uses for the same credentials, and draws nothing; and it
    closes by awaiting [client.disconnect()] itself, so with a wrapper whose
    [disconnect] never settles the lookup never returns. *)
Theorem legacy_lookup_reuses_credentials_appId :
  let credentials :=
    JObj [("username", JStr "ada"); ("password", JStr "secret"); ("appId", JStr "my-app")] in
  LegacyLookup.lookupAppId credentials Samples.sampleWorld
    = (Samples.sampleWorld, Normal (JStr "my-app")) /\
  executionAppId credentials Samples.sampleWorld = (Samples.sampleWorld, Normal "my-app") /\
  Legacy.appIdOf credentials "n8n-model-picker-1-abc" = JStr "my-app" /\
  LegacyLookup.lookupAppId Samples.sampleCredentials Samples.sampleWorld
    = (Samples.sampleWorld, Normal (JStr " my-app ")) /\
  @LegacyLookup.getModelOptions Samples.sampleRuntime Samples.sampleHost Samples.sampleWorld
    = None.
Proof. repeat split; by vm_compute. Qed.

End IdentityFacts.

(* ===================================================================== *)
(** ** Asset resolution *)
(* ===================================================================== *)

Module AssetFacts.
Import Session Resolve Artifacts Execute Props EffFacts TextFacts.

Lemma cbind_Normal {A B} (c : completion A) (k : A -> completion B) (b : B) :
  c ≫= k = Normal b -> exists a, c = Normal a /\ k a = Normal b.
Proof. destruct c as [a|e]; [by exists a | done]. Qed.

Section Assets.
Context `{JsRuntime} `{Host}.

(** On an item, a name that is not inherited passes the guard exactly when
    the store has an entry for it. *)
Lemma binaryDataOf_plain (i : nat) (item : Item) (name : string) :
  getInputData !! i = Some item -> name ∉ inheritedNames ->
  binaryDataOf i (JStr name) = Normal (bool_decide (is_Some (binaryOf i name))).
Proof.
  intros Hi Hname. unfold binaryDataOf, binaryOf, storeEntry. rewrite Hi. simpl.
  destruct (item_binary item) as [store|]; simpl.
  - by rewrite (bool_decide_eq_false_2 _ Hname), orb_false_r.
  - done.
Qed.


(** What [videoRequest] went through when it returned a request. *)
Lemma videoRequest_normal (i : nat) (request : VideoRequest) :
  videoRequest i = Normal request ->
  exists additional0 p1 p2 p3 p4 a1 a2 a3 a4 text coordinates,
    let additional := or_else additional0 (JObj []) in
    getNodeParameterOr "videoAdditionalFields" i (JObj []) = Normal additional0 /\
    referenceProperty additional "referenceImageProperty" = Normal p1 /\
    referenceProperty additional "referenceImageEndProperty" = Normal p2 /\
    referenceProperty additional "referenceAudioProperty" = Normal p3 /\
    referenceProperty additional "referenceVideoProperty" = Normal p4 /\
    readOptionalBinaryProperty i p1 "reference image" = Normal a1 /\
    readOptionalBinaryProperty i p2 "reference end image" = Normal a2 /\
    readOptionalBinaryProperty i p3 "reference audio" = Normal a3 /\
    readOptionalBinaryProperty i p4 "reference video" = Normal a4 /\
    sam2TextOf additional = Normal text /\
    parseSam2Coordinates i text = Normal coordinates /\
    prop (vr_config request) "referenceImage" = bufferOrUndefined a1 /\
    prop (vr_config request) "referenceImageEnd" = bufferOrUndefined a2 /\
    prop (vr_config request) "referenceAudio" = bufferOrUndefined a3 /\
    prop (vr_config request) "referenceVideo" = bufferOrUndefined a4 /\
    prop (vr_config request) "sam2Coordinates" = coordinates.
Proof.
  unfold videoRequest. intros Hr.
  apply cbind_Normal in Hr as (videoModelId & _ & Hr).
  apply cbind_Normal in Hr as (videoPositivePrompt & _ & Hr).
  apply cbind_Normal in Hr as (videoNetwork & _ & Hr).
  apply cbind_Normal in Hr as (additional0 & Hadd & Hr).
  apply cbind_Normal in Hr as (v & _ & Hr).
  apply cbind_Normal in Hr as (p1 & Hp1 & Hr).
  apply cbind_Normal in Hr as (p2 & Hp2 & Hr).
  apply cbind_Normal in Hr as (p3 & Hp3 & Hr).
  apply cbind_Normal in Hr as (p4 & Hp4 & Hr).
  apply cbind_Normal in Hr as (a1 & Ha1 & Hr).
  apply cbind_Normal in Hr as (a2 & Ha2 & Hr).
  apply cbind_Normal in Hr as (a3 & Ha3 & Hr).
  apply cbind_Normal in Hr as (a4 & Ha4 & Hr).
  apply cbind_Normal in Hr as (text & Htext & Hr).
  apply cbind_Normal in Hr as (coordinates & Hcoords & Hr).
  injection Hr as <-.
  exists additional0, p1, p2, p3, p4, a1, a2, a3, a4, text, coordinates.
  repeat (split; [done|]). reflexivity.
Qed.

Lemma requiredContextImage_spec (i : nat) (propertyName : string) :
  requiredContextImage i (JStr propertyName) =
  found ← binaryDataOf i (JStr propertyName);
  if found : bool then getBinaryDataBuffer i (JStr propertyName)
  else Throw (missingBinary propertyName ". Please provide a context image." i).
Proof. reflexivity. Qed.

Lemma readOptionalBinaryProperty_spec (i : nat) (propertyName label : string) :
  propertyName <> "" ->
  readOptionalBinaryProperty i propertyName label =
  found ← binaryDataOf i (JStr propertyName);
  if found : bool then b ← getBinaryDataBuffer i (JStr propertyName); mret (Some b)
  else Throw (missingBinary propertyName (" for " +:+ label +:+ ".") i).
Proof.
  intros Hne. unfold readOptionalBinaryProperty.
  by destruct (String.eqb_spec propertyName "").
Qed.

Lemma readOptionalBinaryProperty_normal (i : nat) (propertyName label : string)
    (a : option (list byte)) :
  readOptionalBinaryProperty i propertyName label = Normal a ->
  (propertyName = "" /\ a = None) \/
  (propertyName <> "" /\ binaryDataOf i (JStr propertyName) = Normal true /\
   exists b, getBinaryDataBuffer i (JStr propertyName) = Normal b /\ a = Some b).
Proof.
  destruct (String.eqb_spec propertyName "") as [->|Hne].
  - intros [= <-]. by left.
  - rewrite (readOptionalBinaryProperty_spec i propertyName label Hne). intros Hr.
    apply cbind_Normal in Hr as ([|] & Hfound & Hr); [|done].
    apply cbind_Normal in Hr as (b & Hb & [= <-]).
    right. split; [done|]. split; [done|]. by exists b.
Qed.

Lemma binding_of_read (i : nat) (propertyName label : string) (a : option (list byte)) :
  readOptionalBinaryProperty i propertyName label = Normal a ->
  binding_of_store i (bufferOrUndefined a).
Proof.
  intros Hr.
  apply readOptionalBinaryProperty_normal in Hr as [[_ ->]|(Hne & Hfound & b & Hb & ->)].
  - by left.
  - right. by exists propertyName, b.
Qed.

Lemma isNamed_string (name : string) :
  isNamed (JStr name) = Normal (negb (String.eqb (trim name) "")).
Proof.
  unfold isNamed. simpl. destruct (String.eqb_spec name "") as [->|Hne]; done.
Qed.

Lemma optionalContextImage_spec (i : nat) (propertyName : string) :
  optionalContextImage i (JStr propertyName) =
  if String.eqb (trim propertyName) "" then Normal None
  else
    found ← binaryDataOf i (JStr propertyName);
    if found : bool then b ← getBinaryDataBuffer i (JStr propertyName); mret (Some b)
    else Normal None.
Proof.
  unfold optionalContextImage. rewrite isNamed_string. simpl.
  by destruct (String.eqb (trim propertyName) "").
Qed.

(** X29. Resolution of the named binaries of item [i], for a property name
    that is not one of the names inherited from [Object.prototype]. A
    required asset (the first context image of an image edit, a named
    reference binding of a video request) that is absent from the item's
    store makes resolution fail with the node's error, which names the
    property and carries the item index; when it is present the outcome is
    the one of the host's [getBinaryDataBuffer]. An asset that is not
    required and absent (an unnamed video binding, a second or third
    context image that is not in the store) resolves to nothing, without
    error, and the request is built without it. Every reference binding of
    a video request that was built is either left out or the buffer the
    helper returned for a name the guard found. *)
Theorem asset_resolution (i : nat) (item : Item) (propertyName : string) :
  getInputData !! i = Some item -> propertyName ∉ inheritedNames ->
  (binaryOf i propertyName = None ->
     requiredContextImage i (JStr propertyName) =
       Throw (missingBinary propertyName ". Please provide a context image." i)) /\
  (is_Some (binaryOf i propertyName) ->
     requiredContextImage i (JStr propertyName) = getBinaryDataBuffer i (JStr propertyName)) /\
  (forall label, propertyName <> "" ->
     (binaryOf i propertyName = None ->
        readOptionalBinaryProperty i propertyName label =
          Throw (missingBinary propertyName (" for " +:+ label +:+ ".") i)) /\
     (is_Some (binaryOf i propertyName) ->
        readOptionalBinaryProperty i propertyName label =
          b ← getBinaryDataBuffer i (JStr propertyName); mret (Some b))) /\
  (forall hint, exists message,
     missingBinary propertyName hint i = NodeOperationError message i /\
     includes message propertyName = true) /\
  (forall label, readOptionalBinaryProperty i "" label = Normal None) /\
  bufferOrUndefined None = JUndefined /\
  (binaryOf i propertyName = None ->
     optionalContextImage i (JStr propertyName) = Normal None) /\
  (forall p2 p3,
     is_Some (binaryOf i propertyName) ->
     p2 ∉ inheritedNames -> binaryOf i p2 = None ->
     p3 ∉ inheritedNames -> binaryOf i p3 = None ->
     contextImagesOf i (JStr propertyName) (JStr p2) (JStr p3) =
       b ← getBinaryDataBuffer i (JStr propertyName); mret [b]) /\
  (forall request, videoRequest i = Normal request ->
     binding_of_store i (prop (vr_config request) "referenceImage") /\
     binding_of_store i (prop (vr_config request) "referenceImageEnd") /\
     binding_of_store i (prop (vr_config request) "referenceAudio") /\
     binding_of_store i (prop (vr_config request) "referenceVideo")).
Proof.
  intros Hi Hname.
  pose proof (binaryDataOf_plain i item propertyName Hi Hname) as Hguard.
  assert (Hopt : forall p, p ∉ inheritedNames -> binaryOf i p = None ->
                   optionalContextImage i (JStr p) = Normal None).
  { intros p Hp Habsent. rewrite optionalContextImage_spec.
    destruct (String.eqb (trim p) ""); [done|].
    by rewrite (binaryDataOf_plain i item p Hi Hp), Habsent. }
  split; [|split; [|split; [|split; [|split; [|split; [|split; [|split]]]]]]].
  - intros Habsent. by rewrite requiredContextImage_spec, Hguard, Habsent.
  - intros Hpresent. rewrite requiredContextImage_spec, Hguard. simpl.
    by rewrite bool_decide_eq_true_2.
  - intros label Hne. rewrite (readOptionalBinaryProperty_spec i propertyName label Hne), Hguard.
    simpl. split.
    + intros Habsent. by rewrite Habsent.
    + intros Hpresent. by rewrite bool_decide_eq_true_2.
  - intros hint. eexists. split; [reflexivity|].
    apply (includes_middle ("No binary data found in property " +:+ dq)).
  - done.
  - done.
  - by apply Hopt.
  - intros p2 p3 Hpresent Hp2 H2 Hp3 H3. unfold contextImagesOf.
    rewrite requiredContextImage_spec, Hguard. simpl.
    rewrite bool_decide_eq_true_2 by done.
    destruct (getBinaryDataBuffer i (JStr propertyName)) as [b|e]; [|done]. simpl.
    by rewrite (Hopt p2 Hp2 H2), (Hopt p3 Hp3 H3).
  - intros request Hr.
    apply videoRequest_normal in Hr
      as (additional0 & p1 & p2 & p3 & p4 & a1 & a2 & a3 & a4 & text & coordinates & Hr).
    destruct Hr as (_ & _ & _ & _ & _ & H1 & H2 & H3 & H4 & _ & _ & E1 & E2 & E3 & E4 & _).
    rewrite E1, E2, E3, E4.
    repeat split; eapply binding_of_read; eassumption.
Qed.

End Assets.

(** X29, witness: in the sample host item 1 carries no binary, so the image
    named [data] is missing there, and the error names [data] and item 1. *)
Lemma asset_resolution_witness :
  @requiredContextImage Samples.sampleRuntime Samples.sampleHost 1 (JStr "data") =
  Throw (NodeOperationError
           ("No binary data found in property " +:+ dq +:+ "data" +:+ dq
            +:+ ". Please provide a context image.") 1).
Proof.
  refine (proj1 (@asset_resolution Samples.sampleRuntime Samples.sampleHost 1 _ "data"
                   eq_refl _) eq_refl).
  vm_compute. intros Hin. repeat (apply elem_of_cons in Hin as [Hin|Hin]; [discriminate|]).
  by apply elem_of_nil in Hin.
Defined.

(** C6, at the failing input. The second item of the sample host has an
    empty store, and the property is named [constructor]. The guard reads
    the member every object inherits, which is truthy, so the node's error
    is not raised: the required context image and the video reference
    binding are whatever the host's helper makes of the name (here its own
    error), and the context image that is not required is not skipped but
    fails with the helper. *)
Theorem inherited_name_passes_the_guard :
  @binaryOf Samples.sampleHost 1 "constructor" = None /\
  @binaryDataOf Samples.sampleRuntime Samples.sampleHost 1 (JStr "constructor") = Normal true /\
  @requiredContextImage Samples.sampleRuntime Samples.sampleHost 1 (JStr "constructor")
    = @getBinaryDataBuffer Samples.sampleHost 1 (JStr "constructor") /\
  @requiredContextImage Samples.sampleRuntime Samples.sampleHost 1 (JStr "constructor")
    = Throw (ErrorObj "no binary data property constructor") /\
  @readOptionalBinaryProperty Samples.sampleRuntime Samples.sampleHost 1 "constructor"
      "reference image"
    = Throw (ErrorObj "no binary data property constructor") /\
  @optionalContextImage Samples.sampleRuntime Samples.sampleHost 1 (JStr "constructor")
    = Throw (ErrorObj "no binary data property constructor").
Proof. repeat split; by vm_compute. Qed.

End AssetFacts.

(* ===================================================================== *)
(** ** The loop over the items *)
(* ===================================================================== *)

Module LoopFacts.
Import Session Artifacts Execute Props EffFacts.

Lemma keeps_grows {A} (m : M A) : keeps m -> grows m.
Proof. intros Hm w. exists []. by rewrite app_nil_r. Qed.

Lemma keeps_ret {A} (a : A) : keeps (mret a).
Proof. by intros w. Qed.

Lemma keeps_lift {A} (c : completion A) : keeps (lift c).
Proof. by intros w. Qed.

Lemma keeps_throw {A} (e : thrown) : keeps (@throw A e).
Proof. by intros w. Qed.

Lemma keeps_emit (e : event) : keeps (emit e).
Proof. by intros w. Qed.

Lemma keeps_bind {A B} (m : M A) (k : A -> M B) :
  keeps m -> (forall a, keeps (k a)) -> keeps (m ≫= k).
Proof.
  intros Hm Hk w. rewrite run_bind. specialize (Hm w).
  destruct (m w) as [w' [a|e]]; simpl in *; [|done].
  by rewrite Hk.
Qed.

Lemma keeps_try_catch {A} (m : M A) (handler : thrown -> M A) :
  keeps m -> (forall e, keeps (handler e)) -> keeps (try_catch m handler).
Proof.
  intros Hm Hh w. unfold try_catch. specialize (Hm w).
  destruct (m w) as [w' [a|e]]; simpl in *; [done|].
  by rewrite Hh.
Qed.

Lemma grows_bind {A B} (m : M A) (k : A -> M B) :
  grows m -> (forall a, grows (k a)) -> grows (m ≫= k).
Proof.
  intros Hm Hk w. rewrite run_bind. destruct (Hm w) as [l Hl].
  destruct (m w) as [w' [a|e]]; simpl in *; [|by exists l].
  destruct (Hk a w') as [l' Hl']. exists (l ++ l'). by rewrite Hl', Hl, app_assoc.
Qed.

Lemma grows_push (o : Output) : grows (push o).
Proof. intros w. by exists [o]. Qed.

(** Discharges [keeps] for code made of reads and calls. *)
Ltac keeps_basic :=
  repeat (cbv zeta;
          first [ apply keeps_ret | apply keeps_lift | apply keeps_emit
                | apply keeps_throw
                | apply keeps_bind; [|intros ?] ]).

(** The same, with one more lemma for a step of its own kind. *)
Ltac keeps_steps lemma :=
  repeat (cbv zeta;
          first [ apply keeps_ret | apply keeps_lift | apply keeps_emit
                | apply keeps_throw | apply lemma
                | apply keeps_bind; [|intros ?] ]).

Section Loop.
Context `{JsRuntime} `{Host}.

Lemma keeps_downloadFrom (kind : DownloadKind) (projectId : jsval) (urls : list jsval) :
  forall binary index, keeps (downloadFrom kind projectId binary index urls).
Proof.
  induction urls as [|url rest IH]; intros binary index; simpl.
  - apply keeps_ret.
  - apply keeps_bind; [|intros; apply IH].
    apply keeps_try_catch; [|intros e]; keeps_basic.
Qed.

Lemma keeps_downloadAll (kind : DownloadKind) (download projectId urls : jsval) :
  keeps (downloadAll kind download projectId urls).
Proof.
  unfold downloadAll.
  destruct download as [| |[|]| | | | |]; try destruct (truthy urls);
    first [apply keeps_ret | apply keeps_downloadFrom].
Qed.

Lemma keeps_imageGenerate (client : Client) (i : nat) : keeps (imageGenerate client i).
Proof. unfold imageGenerate. keeps_steps keeps_downloadAll. Qed.

Lemma keeps_imageEdit (client : Client) (i : nat) : keeps (imageEdit client i).
Proof. unfold imageEdit. keeps_steps keeps_downloadAll. Qed.

Lemma keeps_videoGenerate (client : Client) (i : nat) : keeps (videoGenerate client i).
Proof. unfold videoGenerate, videoSubmit, videoFinish. keeps_steps keeps_downloadAll. Qed.

Lemma keeps_videoEstimateCost (client : Client) (i : nat) :
  keeps (videoEstimateCost client i).
Proof. unfold videoEstimateCost. keeps_basic. Qed.

Lemma keeps_modelGet (client : Client) (i : nat) : keeps (modelGet client i).
Proof. unfold modelGet. keeps_basic. Qed.

Lemma keeps_accountGetBalance (client : Client) (i : nat) :
  keeps (accountGetBalance client i).
Proof. unfold accountGetBalance. keeps_basic. Qed.

(** A branch that pushes its single record last has pushed nothing when it
    leaves through an exception. *)
Lemma pushing_throw (branch : M Output) (w w2 : world) (e : thrown) :
  keeps branch -> pushing branch w = (w2, Throw e) -> returnData w2 = returnData w.
Proof.
  intros Hk. unfold pushing. rewrite run_bind. specialize (Hk w).
  destruct (branch w) as [w' [o|e']]; simpl in *; [done|].
  by intros [= <- _].
Qed.

Lemma grows_pushing (branch : M Output) : keeps branch -> grows (pushing branch).
Proof.
  intros Hk. apply grows_bind; [by apply keeps_grows | apply grows_push].
Qed.

Lemma grows_pushModels (models : list jsval) : grows (pushModels models).
Proof.
  induction models as [|model rest IH]; simpl.
  - apply keeps_grows, keeps_ret.
  - apply grows_bind; [apply keeps_grows, keeps_lift|]. intros summary.
    apply grows_bind; [apply grows_push | intros; apply IH].
Qed.

Lemma grows_modelGetAll (client : Client) (i : nat) : grows (modelGetAll client i).
Proof.
  unfold modelGetAll.
  repeat (cbv zeta;
          first [ apply grows_pushModels
                | apply grows_bind; [apply keeps_grows; keeps_basic | intros ?] ]).
Qed.

Lemma grows_dispatch (client : Client) (i : nat) (resource operation : jsval) :
  grows (dispatch client i resource operation).
Proof.
  unfold dispatch.
  repeat match goal with |- context [if ?b then _ else _] => destruct b end;
    first [ apply grows_modelGetAll
          | apply keeps_grows, keeps_ret
          | apply grows_pushing;
            first [ apply keeps_imageGenerate | apply keeps_imageEdit
                  | apply keeps_videoGenerate | apply keeps_videoEstimateCost
                  | apply keeps_modelGet | apply keeps_accountGetBalance ] ].
Qed.

Lemma dispatch_throw (client : Client) (i : nat) (resource operation : jsval)
    (w w2 : world) (e : thrown) :
  selectsGetAll resource operation = false ->
  dispatch client i resource operation w = (w2, Throw e) ->
  returnData w2 = returnData w.
Proof.
  intros Hsel. unfold dispatch. rewrite Hsel.
  repeat match goal with |- context [if ?b then _ else _] => destruct b end;
    try (apply pushing_throw;
         first [ apply keeps_imageGenerate | apply keeps_imageEdit
               | apply keeps_videoGenerate | apply keeps_videoEstimateCost
               | apply keeps_modelGet | apply keeps_accountGetBalance ]).
  done.
Qed.

Lemma grows_processItem (client : Client) (i : nat) : grows (processItem client i).
Proof.
  unfold processItem.
  apply grows_bind; [apply keeps_grows, keeps_lift|]. intros resource.
  apply grows_bind; [apply keeps_grows, keeps_lift|]. intros operation.
  apply grows_dispatch.
Qed.

Lemma runItems_cons (client : Client) (i : nat) (rest : list nat) (w : world) :
  runItems client (i :: rest) w =
  match processItem client i w with
  | (w', Normal _) => runItems client rest w'
  | (w', Throw e) =>
      if continueOnFail then runItems client rest (pushed (errorRecord e) w')
      else (w', Throw e)
  end.
Proof.
  simpl. rewrite run_bind. unfold try_catch.
  destruct (processItem client i w) as [w' [[]|e]]; [done|].
  unfold onItemError. by destruct continueOnFail.
Qed.

Lemma runItems_app (client : Client) (pre post : list nat) :
  forall w,
    runItems client (pre ++ post) w =
    match runItems client pre w with
    | (w1, Normal _) => runItems client post w1
    | (w1, Throw e) => (w1, Throw e)
    end.
Proof.
  induction pre as [|i pre IH]; intros w; [done|].
  rewrite <- app_comm_cons, !runItems_cons.
  destruct (processItem client i w) as [w' [[]|e]]; [apply IH|].
  destruct continueOnFail; [apply IH | done].
Qed.

Lemma grows_runItems (client : Client) (indices : list nat) :
  grows (runItems client indices).
Proof.
  induction indices as [|i rest IH]; intros w.
  - exists []. by rewrite app_nil_r.
  - rewrite runItems_cons. destruct (grows_processItem client i w) as [l Hl].
    destruct (processItem client i w) as [w' [[]|e]]; simpl in Hl.
    + destruct (IH w') as [l' Hl']. exists (l ++ l'). by rewrite Hl', Hl, app_assoc.
    + destruct continueOnFail.
      * destruct (IH (pushed (errorRecord e) w')) as [l' Hl'].
        exists (l ++ errorRecord e :: l'). rewrite Hl'. simpl. rewrite Hl.
        by rewrite <- !app_assoc.
      * by exists l.
Qed.

Lemma runItems_safe (client : Client) (indices : list nat) :
  continueOnFail = true -> safe (runItems client indices).
Proof.
  intros Hc. induction indices as [|i rest IH]; intros w.
  - by eexists.
  - rewrite runItems_cons, Hc.
    destruct (processItem client i w) as [w1 [[]|e]]; apply IH.
Qed.

(** C8, as amended. When the processing of an item throws: with
    continue-on-failure enabled, the record [{ error: message }] (with
    ['Unknown error'] for a value that is no [Error]) is appended to
    [returnData] as the failing item left it, the loop goes on with the
    next item, and the loop as a whole does not throw; with the policy
    disabled, the error leaves the loop at once, in the very state the
    failing item left behind, so no later item is processed. What the
    failing item left behind are the records it had pushed before it
    failed: none, unless the item is a [model] / [getAll] listing. *)
Theorem item_error_policy (client : Client) (pre post : list nat) (i : nat)
    (w w1 w2 : world) (e : thrown) :
  runItems client pre w = (w1, Normal tt) ->
  processItem client i w1 = (w2, Throw e) ->
  (continueOnFail = true ->
     runItems client (pre ++ i :: post) w =
       runItems client post (pushed (errorRecord e) w2) /\
     (exists w3 later,
        runItems client (pre ++ i :: post) w = (w3, Normal tt) /\
        returnData w3 = returnData w2 ++ errorRecord e :: later)) /\
  (continueOnFail = false ->
     runItems client (pre ++ i :: post) w = (w2, Throw e)) /\
  ((forall message,
      (e = ErrorObj message \/ exists k, e = NodeOperationError message k) ->
      out_json (errorRecord e) = JObj [("error", JStr message)]) /\
   (instanceof_Error e = false ->
      out_json (errorRecord e) = JObj [("error", JStr "Unknown error")]) /\
   out_binary (errorRecord e) = None) /\
  (exists partial,
     returnData w2 = returnData w1 ++ partial /\
     (match getNodeParameter "resource" i, getNodeParameter "operation" i with
      | Normal resource, Normal operation => selectsGetAll resource operation = false
      | _, _ => True
      end -> partial = [])).
Proof.
  intros Hpre Hitem.
  assert (Hrun : runItems client (pre ++ i :: post) w =
                 if continueOnFail
                 then runItems client post (pushed (errorRecord e) w2)
                 else (w2, Throw e)).
  { by rewrite runItems_app, Hpre, runItems_cons, Hitem. }
  split; [|split; [|split]].
  - intros Hc. rewrite Hc in Hrun. split; [done|].
    rewrite Hrun.
    destruct (runItems_safe client post Hc (pushed (errorRecord e) w2)) as [[] Hout].
    destruct (grows_runItems client post (pushed (errorRecord e) w2)) as [later Hl].
    destruct (runItems client post _) as [w3 r]. simpl in Hout, Hl. subst r.
    exists w3, later. split; [done|]. by rewrite Hl, <- app_assoc.
  - intros Hc. by rewrite Hc in Hrun.
  - split; [|split; [|done]].
    + intros message [->|[k ->]]; reflexivity.
    + unfold errorRecord. by intros ->.
  - destruct (grows_processItem client i w1) as [partial Hpartial].
    rewrite Hitem in Hpartial. simpl in Hpartial.
    exists partial. split; [done|]. intros Hsel.
    assert (Hsame : returnData w2 = returnData w1).
    { unfold processItem in Hitem. rewrite run_lift_bind in Hitem.
      destruct (getNodeParameter "resource" i) as [resource|e1];
        [|by injection Hitem as <- _].
      rewrite run_lift_bind in Hitem.
      destruct (getNodeParameter "operation" i) as [operation|e2];
        [|by injection Hitem as <- _].
      by eapply dispatch_throw. }
    rewrite Hsame in Hpartial.
    apply (f_equal List.length) in Hpartial. rewrite length_app in Hpartial.
    destruct partial; [done | simpl in Hpartial; lia].
Qed.

End Loop.

(** C8, witness: in the sample host the second of three items fails and
    continue-on-failure is enabled; the loop returns normally with the balance
    of the first item, the error record, and the balance of the third item. *)
Lemma item_error_policy_witness :
  let balance :=
    {| out_json := JObj [("sogni", JUndefined); ("spark", JUndefined)];
       out_binary := None |} in
  let run := @runItems Samples.sampleRuntime Samples.sampleHost Samples.hangingClient
               [0; 1; 2]%nat Samples.sampleWorld in
  run.2 = Normal tt /\
  returnData run.1 =
    [balance;
     {| out_json := JObj [("error", JStr "expression failed")]; out_binary := None |};
     balance].
Proof.
  intros balance run.
  pose proof (@item_error_policy Samples.sampleRuntime Samples.sampleHost
                Samples.hangingClient [0%nat] [2%nat] 1%nat
                Samples.sampleWorld
                (pushed balance (record EvGetBalance Samples.sampleWorld))
                (pushed balance (record EvGetBalance Samples.sampleWorld))
                (ErrorObj "expression failed") eq_refl eq_refl) as [Hon _].
  destruct (Hon eq_refl) as [Hrun _].
  subst run. change ([0; 1; 2]%nat) with ([0%nat] ++ 1%nat :: [2%nat]).
  rewrite Hrun. split; reflexivity.
Defined.

(** C8, counterexample: an item asks for the list of models and the
    second model of the answer is [null]. The listing pushes the record of
    the first model and then throws; with continue-on-failure enabled the
    error record is appended after that record, so the item leaves a part
    of its result and the error record, not the error record in place of
    its result. *)
Lemma error_record_follows_partial_listing :
  let run := @runItems MoreSamples.decimalRuntime MoreSamples.listingHost
               MoreSamples.listingClient [0%nat] Samples.sampleWorld in
  MoreSamples.listingHost.(continueOnFail) = true /\
  (@processItem MoreSamples.decimalRuntime MoreSamples.listingHost
     MoreSamples.listingClient 0 Samples.sampleWorld).2
    = Throw (ErrorObj "Cannot read properties of null (reading 'id')") /\
  run.2 = Normal tt /\
  returnData run.1 =
    [ {| out_json := JObj [("id", JStr "flux1-schnell-fp8"); ("name", JStr "Flux Schnell");
                           ("workerCount", num 12); ("recommendedSettings", JUndefined)];
         out_binary := None |};
      {| out_json := JObj [("error", JStr "Cannot read properties of null (reading 'id')")];
         out_binary := None |} ].
Proof. repeat split; by vm_compute. Qed.

(** [execute] on the sample host: three records come back, and the run
    ends with the shutdown of the session, five seconds after the hanging
    [disconnect] was called. *)
Example execute_sample :
  let run := @execute Samples.sampleRuntime Samples.sampleHost Samples.sampleWorld in
  (exists records, run.2 = Normal [records] /\ List.length records = 3%nat) /\
  clock run.1 = 5000 /\
  trace run.1 =
    [EvNewClient "my-app"; EvGetBalance; EvGetBalance; EvClientDisconnect;
     EvSocketClose; EvSocketTerminate; EvSocketRemoveAllListeners].
Proof.
  intros run. split; [eexists; split; reflexivity|]. split; reflexivity.
Qed.

End LoopFacts.

(* ===================================================================== *)
(** ** Artifact download: failures stay local to their index *)
(* ===================================================================== *)

Module ArtifactFacts.
Import Session Artifacts Props EffFacts TextFacts.


Section Downloads.
Context `{JsRuntime} `{Host}.

Lemma downloadOne_run (kind : DownloadKind) (projectId : jsval)
    (binary : gmap string jsval) (index : nat) (url : jsval) (w : world) :
  downloadOne kind projectId binary index url w =
  match artifactOf kind projectId index (fetch url) with
  | Normal data =>
      (record (EvFetch url) w, Normal (<[slotName (dk_slot kind) index := data]> binary))
  | Throw e =>
      (record (EvConsoleError (failureLine kind index) e) (record (EvFetch url) w),
       Normal binary)
  end.
Proof.
  unfold downloadOne, try_catch. rewrite run_bind. simpl.
  rewrite run_lift_bind. by destruct (artifactOf _ _ _ _).
Qed.




End Downloads.

End ArtifactFacts.

(* ===================================================================== *)
(** ** SAM2 coordinates of a video request *)
(* ===================================================================== *)

Module Sam2Facts.
Import Session Resolve Execute Props EffFacts AssetFacts.

Section Sam2.
Context `{JsRuntime} `{Host}.

Lemma sam2Point_normal (i k : nat) (point accepted : jsval) :
  sam2Point i k point = Normal accepted -> converts_to point accepted.
Proof.
  unfold sam2Point. intros Hp.
  apply cbind_Normal in Hp as (x & Hx & Hp).
  apply cbind_Normal in Hp as (y & Hy & Hp).
  destruct x as [| |x], y as [| |y]; try done.
  injection Hp as <-. by exists x, y.
Qed.

Lemma sam2Point_not_finite (i k : nat) (point : jsval) (x y : number) :
  ToNumber (opt_prop point "x") = Normal x ->
  ToNumber (opt_prop point "y") = Normal y ->
  Number_isFinite x && Number_isFinite y = false ->
  sam2Point i k point = Throw (sam2PointError i k).
Proof. unfold sam2Point. intros -> ->. simpl. by intros ->. Qed.

Lemma sam2Points_normal (i : nat) (points : list jsval) :
  forall (k : nat) (accepted : list jsval),
    sam2Points i k points = Normal accepted -> Forall2 converts_to points accepted.
Proof.
  induction points as [|point rest IH]; intros k accepted; simpl.
  - intros [= <-]. constructor.
  - intros Hp.
    apply cbind_Normal in Hp as (p & Hpoint & Hp).
    apply cbind_Normal in Hp as (ps & Hrest & Hp).
    injection Hp as <-. constructor; [by eapply sam2Point_normal | by eapply IH].
Qed.

Lemma sam2Points_first_failure (i : nat) (earlier : list jsval) :
  forall (k : nat) (accepted : list jsval) (point : jsval) (later : list jsval) (e : thrown),
    sam2Points i k earlier = Normal accepted ->
    sam2Point i (k + List.length earlier) point = Throw e ->
    sam2Points i k (earlier ++ point :: later) = Throw e.
Proof.
  induction earlier as [|p earlier IH]; intros k accepted point later e; simpl.
  - intros _. rewrite Nat.add_0_r. by intros ->.
  - intros Hp Hfail.
    apply cbind_Normal in Hp as (p' & Hpoint & Hp).
    apply cbind_Normal in Hp as (ps & Hrest & Hp).
    rewrite Hpoint. simpl.
    replace (k + S (List.length earlier))%nat with (S k + List.length earlier)%nat
      in Hfail by lia.
    by rewrite (IH (S k) ps point later e Hrest Hfail).
Qed.

Lemma parseSam2Coordinates_normal (i : nat) (text : string) (coordinates : jsval) :
  parseSam2Coordinates i text = Normal coordinates ->
  (text = "" /\ coordinates = JUndefined) \/
  (text <> "" /\
   exists points accepted,
     JSON_parse text = Normal (JArr points) /\ points <> [] /\
     Forall2 converts_to points accepted /\ coordinates = JArr accepted).
Proof.
  unfold parseSam2Coordinates.
  destruct (String.eqb_spec text "") as [->|Hne].
  - intros [= <-]. by left.
  - intros Hp. right. split; [done|].
    destruct (JSON_parse text) as [parsed|e]; [|done].
    destruct parsed as [| | | | | |[|point rest]|]; try done.
    apply cbind_Normal in Hp as (accepted & Hpoints & Hp). injection Hp as <-.
    exists (point :: rest), accepted. split; [done|]. split; [done|].
    split; [by eapply sam2Points_normal | done].
Qed.

(** X30. For a video item: when the request cannot be built,
    the item fails in the state it started in, so nothing is submitted; when
    it can be built, the job is submitted with it, and then either the trimmed
    SAM2 text is empty and the request carries no SAM2 coordinates, or the
    text parses as JSON into a non-empty array every element of which has an
    [x] and a [y] that [Number(...)] converts to finite numbers (numeric
    strings, booleans and [null] included), and the request carries exactly
    the converted points. A text that is not JSON, a JSON value that is not a
    non-empty array, and the first element with a coordinate that converts to
    a number that is not finite each make the item fail with the error message
    that says so. *)
Theorem sam2_validation (client : Client) (i : nat) (w : world) :
  (forall e, videoRequest i = Throw e -> videoGenerate client i w = (w, Throw e)) /\
  (forall request, videoRequest i = Normal request ->
     videoGenerate client i w =
       (vr ← lift (c_createVideoProject client (vr_config request));
        videoFinish request vr) (record (EvCreateVideoProject (vr_config request)) w) /\
     exists additional0 text,
       getNodeParameterOr "videoAdditionalFields" i (JObj []) = Normal additional0 /\
       sam2TextOf (or_else additional0 (JObj [])) = Normal text /\
       (text = "" -> prop (vr_config request) "sam2Coordinates" = JUndefined) /\
       (text <> "" ->
        exists points accepted,
          JSON_parse text = Normal (JArr points) /\ points <> [] /\
          Forall2 converts_to points accepted /\
          prop (vr_config request) "sam2Coordinates" = JArr accepted)) /\
  (forall text, text <> "" ->
     (forall e, JSON_parse text = Throw e ->
        parseSam2Coordinates i text =
          Throw (NodeOperationError
                   ("SAM2 Coordinates must be valid JSON, e.g. [{" +:+ dq +:+ "x" +:+ dq
                    +:+ ":0.5," +:+ dq +:+ "y" +:+ dq +:+ ":0.5}]") i)) /\
     (forall parsed, JSON_parse text = Normal parsed ->
        (forall point rest, parsed <> JArr (point :: rest)) ->
        parseSam2Coordinates i text =
          Throw (NodeOperationError "SAM2 Coordinates must be a non-empty JSON array." i)) /\
     (forall earlier accepted point later x y,
        JSON_parse text = Normal (JArr (earlier ++ point :: later)) ->
        sam2Points i 0 earlier = Normal accepted ->
        ToNumber (opt_prop point "x") = Normal x ->
        ToNumber (opt_prop point "y") = Normal y ->
        Number_isFinite x && Number_isFinite y = false ->
        parseSam2Coordinates i text = Throw (sam2PointError i (List.length earlier)))).
Proof.
  split; [|split].
  - intros e He. unfold videoGenerate. by rewrite run_lift_bind, He.
  - intros request Hreq. split.
    + unfold videoGenerate. by rewrite run_lift_bind, Hreq.
    + apply videoRequest_normal in Hreq
        as (additional0 & p1 & p2 & p3 & p4 & a1 & a2 & a3 & a4 & text & coordinates & Hr).
      destruct Hr as (Hadd & _ & _ & _ & _ & _ & _ & _ & _ & Htext & Hparse & _ & _ & _ & _ & Hc).
      exists additional0, text. split; [done|]. split; [done|]. rewrite Hc.
      apply parseSam2Coordinates_normal in Hparse as [[-> ->]|(Hne & points & accepted & Hp)].
      * split; [done|]. by intros [].
      * split; [by intros ->|]. intros _. by exists points, accepted.
  - intros text Hne. unfold parseSam2Coordinates.
    destruct (String.eqb_spec text "") as [->|_]; [done|].
    split; [|split].
    + by intros e ->.
    + intros parsed -> Hshape.
      destruct parsed as [| | | | | |[|point rest]|]; try done.
      by destruct (Hshape point rest).
    + intros earlier accepted point later x y -> Hearlier Hx Hy Hfin.
      assert (sam2Points i 0 (earlier ++ point :: later)
              = Throw (sam2PointError i (List.length earlier))) as Hfail.
      { eapply sam2Points_first_failure; [exact Hearlier|].
        by apply (sam2Point_not_finite i _ point x y). }
      destruct (earlier ++ point :: later) as [|p0 ps] eqn:Hl.
      { by destruct earlier. }
      by rewrite Hfail.
Qed.

End Sam2.

(** X30, witness: the text [abc] is not JSON for the sample runtime, and
    the item fails with the message about valid JSON. *)
Lemma sam2_validation_witness :
  exists message,
    @parseSam2Coordinates Samples.sampleRuntime 0 "abc"
      = Throw (NodeOperationError message 0) /\
    includes message "must be valid JSON" = true.
Proof.
  eexists. split.
  - exact (proj1 (proj2 (proj2 (@sam2_validation Samples.sampleRuntime Samples.videoHost
                                  Samples.hangingClient 0 Samples.sampleWorld))
                    "abc" ltac:(discriminate))
             (ErrorObj "Unexpected token") eq_refl).
  - reflexivity.
Defined.

(** C10, at the failing input: the text [[{"x":null,"y":null}]] parses
    into a non-empty array whose only element has no numeric [x] or [y]
    (both are [null]), and yet the item does not fail with the message that
    a coordinate must include numeric x and y values: [Number(null)] is 0,
    and the job is submitted with the point (0, 0) as its SAM2
    coordinates. *)
Theorem sam2_null_point_is_submitted :
  let run := @videoGenerate Samples.sampleRuntime Samples.videoHost
               Samples.hangingClient 0 Samples.sampleWorld in
  @JSON_parse Samples.sampleRuntime Samples.nullPointText
    = Normal (JArr [JObj [("x", JNull); ("y", JNull)]]) /\
  has_finite_numeric_xy (JObj [("x", JNull); ("y", JNull)]) = false /\
  (exists config,
     trace run.1 = [EvCreateVideoProject config] /\
     prop config "sam2Coordinates" = JArr [JObj [("x", num 0); ("y", num 0)]]) /\
  is_normal run.2 = true.
Proof.
  intros run. split; [reflexivity|]. split; [reflexivity|].
  split; [|reflexivity].
  eexists. split; reflexivity.
Qed.

End Sam2Facts.

(* ===================================================================== *)
(** ** Trimming and lower-casing *)
(* ===================================================================== *)

Module TrimFacts.
Import Observations.

Lemma trimEnd_idem (s : string) : trimEnd (trimEnd s) = trimEnd s.
Proof.
  induction s as [|c s IH]; [done|]. simpl.
  destruct (trimEnd s) as [|d t] eqn:E.
  - destruct (is_whitespace c) eqn:W; [done|]. simpl. by rewrite W.
  - simpl in *. by rewrite IH.
Qed.

Lemma trimStart_head (c : ascii) (s : string) :
  is_whitespace c = false -> trimStart (String c s) = String c s.
Proof. intros W. simpl. by rewrite W. Qed.

Lemma trimEnd_head (c : ascii) (s : string) :
  is_whitespace c = false -> exists t, trimEnd (String c s) = String c t.
Proof.
  intros W. simpl. destruct (trimEnd s) as [|d t]; rewrite ?W; by eexists.
Qed.

Lemma trimStart_shape (s : string) :
  trimStart s = "" \/ exists c t, trimStart s = String c t /\ is_whitespace c = false.
Proof.
  induction s as [|c s IH]; [by left|]. simpl.
  destruct (is_whitespace c) eqn:W; [done|]. right. by exists c, s.
Qed.

Lemma trim_idem (s : string) : trim (trim s) = trim s.
Proof.
  unfold trim. destruct (trimStart_shape s) as [-> | (c & t & -> & W)]; [done|].
  destruct (trimEnd_head c t W) as [t' Ht]. rewrite Ht, (trimStart_head c t' W), <- Ht.
  apply trimEnd_idem.
Qed.

Lemma chars_trimStart (s : string) (c : ascii) : c ∈ chars (trimStart s) -> c ∈ chars s.
Proof.
  induction s as [|d s IH]; [done|]. simpl.
  destruct (is_whitespace d); [|done]. intros Hc. apply elem_of_cons. right. by apply IH.
Qed.

Lemma chars_trimEnd (s : string) (c : ascii) : c ∈ chars (trimEnd s) -> c ∈ chars s.
Proof.
  induction s as [|d s IH]; [done|]. simpl.
  destruct (trimEnd s) as [|e t] eqn:E.
  - destruct (is_whitespace d); [by intros ?%elem_of_nil|].
    intros Hc. apply elem_of_cons in Hc as [->|Hc]; [apply elem_of_cons; by left|].
    by apply elem_of_nil in Hc.
  - intros Hc. apply elem_of_cons in Hc as [->|Hc]; apply elem_of_cons; [by left|].
    right. by apply IH.
Qed.

Lemma chars_trim (s : string) (c : ascii) : c ∈ chars (trim s) -> c ∈ chars s.
Proof. intros Hc. by apply chars_trimStart, chars_trimEnd. Qed.

Lemma lower_char_idem (c : ascii) : lower_char (lower_char c) = lower_char c.
Proof. by destruct c as [[] [] [] [] [] [] [] []]. Qed.

Lemma toLowerCase_idem (s : string) : toLowerCase (toLowerCase s) = toLowerCase s.
Proof. induction s as [|c s IH]; simpl; [done|]. by rewrite lower_char_idem, IH. Qed.

End TrimFacts.

(* ===================================================================== *)
(** ** The identity and signature helpers *)
(* ===================================================================== *)

Module HelperFacts.
Import Session Identity Artifacts Observations TrimFacts IdentityFacts.

(** X1. Whatever [normalizeAppId] returns is in normal form: it is not empty,
    trimming it again changes nothing, [normalizeAppId] maps it to itself, and
    each of its characters occurs in the string it was made from. *)
Theorem normalizeAppId_normal_form (appId : jsval) (id : string) :
  normalizeAppId appId = Some id ->
  id <> "" /\ trim id = id /\ normalizeAppId (JStr id) = Some id /\
  (forall s, appId = JStr s -> forall c, c ∈ chars id -> c ∈ chars s).
Proof.
  intros Hn. apply normalizeAppId_Some in Hn as (s & -> & -> & Hne).
  split; [done|]. split; [apply trim_idem|]. split.
  - apply normalizeAppId_Some. exists (trim s). by rewrite trim_idem.
  - intros s' [= <-] c. apply chars_trim.
Qed.

(** X1, witness: the identity [my-app], obtained from the same text with a
    blank on either side, is accepted unchanged when it is given again. *)
Lemma normalizeAppId_normal_form_witness :
  normalizeAppId (JStr "my-app") = Some "my-app".
Proof.
  exact (proj1 (proj2 (proj2 (normalizeAppId_normal_form (JStr " my-app ") "my-app" eq_refl)))).
Defined.

Lemma ascii_decode_255 (b : byte) : Byte.to_N b = 255%N -> ascii_decode b = 127%N.
Proof. unfold ascii_decode. by intros ->. Qed.

Lemma ascii_decode_137 (b : byte) : Byte.to_N b = 137%N -> ascii_decode b = 9%N.
Proof. unfold ascii_decode. by intros ->. Qed.

Lemma sniffMimeType_short (buffer : list byte) :
  (List.length buffer < 4)%nat -> sniffMimeType buffer = None.
Proof.
  intros Hlen. unfold sniffMimeType.
  destruct (List.length buffer <? 4)%nat eqn:E; [done|].
  apply Nat.ltb_ge in E. lia.
Qed.

Lemma sniffMimeType_long (b0 b1 b2 b3 : byte) (rest : list byte) :
  let buffer := b0 :: b1 :: b2 :: b3 :: rest in
  sniffMimeType buffer =
  if byte_is b0 255 && byte_is b1 216 && byte_is b2 255 then Some "image/jpeg"
  else if bool_decide (Byte.to_N <$> take 8 buffer = [137; 80; 78; 71; 13; 10; 26; 10]%N)
  then Some "image/png"
  else if bool_decide (ascii_decode <$> take 6 buffer = [71; 73; 70; 56; 55; 97]%N)
          || bool_decide (ascii_decode <$> take 6 buffer = [71; 73; 70; 56; 57; 97]%N)
  then Some "image/gif"
  else None.
Proof.
  intros buffer. unfold sniffMimeType.
  change (List.length buffer <? 4)%nat with false. cbv iota. subst buffer. cbv beta iota.
  destruct (byte_is b0 255 && byte_is b1 216 && byte_is b2 255); [done|].
  assert (Hlen : forall (A : Type) (f : byte -> A) (n : nat) (l : list byte) (pattern : list A),
            f <$> take n l = pattern -> List.length pattern = n -> (n <=? List.length l)%nat = true).
  { intros A f n l pattern Ht Hp. apply Nat.leb_le.
    apply (f_equal List.length) in Ht. rewrite length_fmap, length_take in Ht. lia. }
  set (buffer := b0 :: b1 :: b2 :: b3 :: rest).
  destruct (bool_decide (Byte.to_N <$> take 8 buffer = _)) eqn:P.
  { apply bool_decide_eq_true in P. by rewrite (Hlen _ _ 8%nat _ _ P eq_refl). }
  rewrite andb_false_r.
  destruct (bool_decide (ascii_decode <$> take 6 buffer = [71; 73; 70; 56; 55; 97]%N)) eqn:G1.
  { apply bool_decide_eq_true in G1. by rewrite (Hlen _ _ 6%nat _ _ G1 eq_refl). }
  destruct (bool_decide (ascii_decode <$> take 6 buffer = [71; 73; 70; 56; 57; 97]%N)) eqn:G2.
  { apply bool_decide_eq_true in G2. by rewrite (Hlen _ _ 6%nat _ _ G2 eq_refl). }
  by rewrite andb_false_r.
Qed.

Lemma sniffMimeType_known (buffer : list byte) (mime : string) :
  sniffMimeType buffer = Some mime ->
  mime = "image/jpeg" \/ mime = "image/png" \/ mime = "image/gif".
Proof.
  destruct buffer as [|b0 [|b1 [|b2 [|b3 rest]]]];
    try (rewrite sniffMimeType_short by (simpl; lia); discriminate).
  rewrite sniffMimeType_long.
  destruct (byte_is b0 255 && byte_is b1 216 && byte_is b2 255); [intros [= <-]; auto|].
  case_bool_decide; [intros [= <-]; auto|].
  destruct (_ || _); [intros [= <-]; auto | done].
Qed.

(** X2. [sniffMimeType] answers [image/jpeg] exactly for a buffer of at least
    four bytes that starts with FF D8 FF, [image/png] exactly for a buffer
    that starts with the eight bytes of the PNG signature, and [image/gif]
    exactly for a buffer whose first six bytes, decoded as ASCII (the high bit
    of each byte dropped), spell GIF87a or GIF89a. It gives no other type,
    gives nothing for fewer than four bytes, and on a buffer of eight bytes or
    more its answer does not depend on what follows them. *)
Theorem sniffMimeType_characterised (buffer : list byte) :
  (sniffMimeType buffer = Some "image/jpeg" <->
     (4 <= List.length buffer)%nat /\ Byte.to_N <$> take 3 buffer = [255; 216; 255]%N) /\
  (sniffMimeType buffer = Some "image/png" <->
     Byte.to_N <$> take 8 buffer = [137; 80; 78; 71; 13; 10; 26; 10]%N) /\
  (sniffMimeType buffer = Some "image/gif" <->
     ascii_decode <$> take 6 buffer = [71; 73; 70; 56; 55; 97]%N \/
     ascii_decode <$> take 6 buffer = [71; 73; 70; 56; 57; 97]%N) /\
  (forall mime, sniffMimeType buffer = Some mime ->
     mime = "image/jpeg" \/ mime = "image/png" \/ mime = "image/gif") /\
  ((List.length buffer < 4)%nat -> sniffMimeType buffer = None) /\
  (forall rest, (8 <= List.length buffer)%nat ->
     sniffMimeType (buffer ++ rest) = sniffMimeType buffer).
Proof.
  destruct buffer as [|b0 [|b1 [|b2 [|b3 rest]]]];
    try (repeat split; try done; try (by intros [? ?]); try (by intros [?|?]);
         simpl; intros; lia).
  rewrite sniffMimeType_long.
  set (buffer := b0 :: b1 :: b2 :: b3 :: rest).
  assert (HJ : byte_is b0 255 && byte_is b1 216 && byte_is b2 255 = true <->
               Byte.to_N <$> take 3 buffer = [255; 216; 255]%N).
  { subst buffer. simpl. unfold byte_is. rewrite !andb_true_iff, !N.eqb_eq.
    split; [by intros [[-> ->] ->] | by intros [= -> -> ->]]. }
  assert (HPJ : Byte.to_N <$> take 8 buffer = [137; 80; 78; 71; 13; 10; 26; 10]%N ->
                byte_is b0 255 = false).
  { subst buffer. destruct rest as [|b4 [|b5 [|b6 [|b7 tl]]]]; simpl; try done.
    unfold byte_is. by intros [= -> _]. }
  assert (HG : forall pattern, ascii_decode <$> take 6 buffer = 71%N :: pattern ->
               byte_is b0 255 = false /\
               Byte.to_N <$> take 8 buffer <> [137; 80; 78; 71; 13; 10; 26; 10]%N).
  { intros pattern. subst buffer. simpl. intros [= H0 _]. split.
    - unfold byte_is. destruct (N.eqb_spec (Byte.to_N b0) 255) as [E|]; [|done].
      by rewrite (ascii_decode_255 _ E) in H0.
    - destruct rest as [|b4 [|b5 [|b6 [|b7 tl]]]]; simpl; try done.
      intros [= E _]. by rewrite (ascii_decode_137 _ E) in H0. }
  split; [|split; [|split; [|split; [|split]]]].
  - destruct (byte_is b0 255 && byte_is b1 216 && byte_is b2 255) eqn:J.
    + split; [intros _; split; [simpl; lia | by apply HJ] | done].
    + split.
      * repeat case_bool_decide; try done; by destruct (bool_decide _).
      * intros [_ E]. apply HJ in E. done.
  - destruct (byte_is b0 255 && byte_is b1 216 && byte_is b2 255) eqn:J.
    + split; [done|]. intros E. apply HPJ in E. by rewrite E in J.
    + case_bool_decide as P; [done|]. split; [|done].
      by destruct (_ || _).
  - destruct (byte_is b0 255 && byte_is b1 216 && byte_is b2 255) eqn:J.
    + split; [done|]. intros [E|E]; apply HG in E as [E _]; by rewrite E in J.
    + case_bool_decide as P.
      * split; [done|]. intros [E|E]; by apply HG in E as [_ E].
      * split.
        -- destruct (bool_decide (_ = [71; 73; 70; 56; 55; 97]%N)) eqn:G1;
             [left; by apply bool_decide_eq_true in G1|].
           destruct (bool_decide (_ = [71; 73; 70; 56; 57; 97]%N)) eqn:G2;
             [right; by apply bool_decide_eq_true in G2 | done].
        -- intros [E|E]; rewrite (bool_decide_eq_true_2 _ E); [done | by rewrite orb_true_r].
  - intros mime.
    destruct (byte_is b0 255 && byte_is b1 216 && byte_is b2 255); [intros [= <-]; auto|].
    case_bool_decide; [intros [= <-]; auto|].
    destruct (_ || _); [intros [= <-]; auto | done].
  - subst buffer. simpl. lia.
  - intros extra Hlen. subst buffer.
    destruct rest as [|b4 [|b5 [|b6 [|b7 tl]]]]; simpl in Hlen; try lia.
    change ((b0 :: b1 :: b2 :: b3 :: b4 :: b5 :: b6 :: b7 :: tl) ++ extra)
      with (b0 :: b1 :: b2 :: b3 :: (b4 :: b5 :: b6 :: b7 :: tl) ++ extra).
    by rewrite sniffMimeType_long.
Qed.

(** X2, witness: a PNG signature followed by one byte is a PNG; the three
    bytes FF D8 FF alone are not recognised; and a GIF89a signature whose
    first byte has its high bit set is still taken for a GIF. *)
Lemma sniffMimeType_characterised_witness :
  sniffMimeType [x89; x50; x4e; x47; x0d; x0a; x1a; x0a; x00] = Some "image/png" /\
  sniffMimeType [xff; xd8; xff] = None /\
  sniffMimeType [xc7; x49; x46; x38; x39; x61] = Some "image/gif".
Proof.
  split; [|split].
  - apply (proj1 (proj2 (sniffMimeType_characterised _))). reflexivity.
  - apply (proj1 (proj2 (proj2 (proj2 (proj2 (sniffMimeType_characterised _)))))).
    simpl. lia.
  - apply (proj1 (proj2 (proj2 (sniffMimeType_characterised _)))). by right.
Defined.

End HelperFacts.

(* ===================================================================== *)
(** ** File names from [Content-Disposition] *)
(* ===================================================================== *)

Module NamingFacts.
Import Session Artifacts Observations TrimFacts.

Lemma chars_remove_quotes (s : string) : quote_free (remove_quotes s).
Proof.
  unfold quote_free, chars. induction s as [|c s IH]; simpl; [by intros ?%elem_of_nil|].
  destruct (Ascii.eqb_spec c (ascii_of_nat 34)) as [->|Hne]; [done|].
  simpl. intros Hin. apply elem_of_cons in Hin as [Heq|Hin]; [by apply Hne | done].
Qed.

Lemma nonempty_Some (o : option string) (s : string) :
  nonempty o = Some s <-> o = Some s /\ s <> "".
Proof.
  destruct o as [t|]; simpl; [|by split; [|intros []]].
  destruct (String.eqb_spec t ""); split; try done.
  - by intros [[= ->] ?].
  - by intros [= ->].
  - by intros [[= ->] _].
Qed.

Section Naming.
Context `{JsRuntime}.

(** X3. [parseContentDispositionFilename]: a missing or empty header names no
    file. When the extended pattern ([filename*=UTF-8''...]) captures a non-
    empty text, the result is that text decoded by [decodeURIComponent], and a
    failure of the decoding is thrown to the caller. Otherwise a name that is
    returned holds no double quote, has no white space at either end, and is
    the unquoted and trimmed text of a non-empty capture: of the quoted
    pattern when that one matches, of the plain pattern when it does not. *)
Theorem contentDisposition_filename (header : option string) :
  (nonempty header = None -> parseContentDispositionFilename header = Normal None) /\
  (forall text encoded,
     nonempty header = Some text ->
     nonempty (match_filename_star text) = Some encoded ->
     parseContentDispositionFilename header =
       match decodeURIComponent encoded with
       | Normal name => Normal (Some name)
       | Throw e => Throw e
       end) /\
  (forall text name,
     nonempty header = Some text ->
     nonempty (match_filename_star text) = None ->
     parseContentDispositionFilename header = Normal (Some name) ->
     quote_free name /\ trim name = name /\
     exists captured,
       captured <> "" /\ name = trim (remove_quotes captured) /\
       (match_filename_quoted text = Some captured \/
        match_filename_quoted text = None /\ match_filename_basic text = Some captured)).
Proof.
  unfold parseContentDispositionFilename.
  split; [by intros ->|]. split.
  - intros text encoded -> ->. by destruct (decodeURIComponent encoded).
  - intros text name -> ->.
    destruct (nonempty _) as [captured|] eqn:Hc; [|done].
    intros [= <-]. split; [|split].
    + intros Hq. by apply chars_trim, chars_remove_quotes in Hq.
    + apply trim_idem.
    + apply nonempty_Some in Hc as [Hc Hne]. exists captured.
      split; [done|]. split; [done|].
      destruct (match_filename_quoted text) as [m|]; [left | right]; by rewrite ?Hc.
Qed.

End Naming.

(** X3, witness: an escaped name is decoded, a malformed escape is thrown, and
    the quoted name with blanks inside the quotes comes out as [cat.png]. *)
Lemma contentDisposition_filename_witness :
  @parseContentDispositionFilename MoreSamples.namingRuntime
     (Some "attachment; filename*=UTF-8''my%20cat.png") = Normal (Some "my cat.png") /\
  @parseContentDispositionFilename MoreSamples.namingRuntime
     (Some "attachment; filename*=UTF-8''%E0%A4%A") = Throw (ErrorObj "URI malformed") /\
  quote_free "cat.png" /\ trim "cat.png" = "cat.png".
Proof.
  pose proof (@contentDisposition_filename MoreSamples.namingRuntime
                (Some "attachment; filename*=UTF-8''my%20cat.png")) as (_ & Hstar & _).
  pose proof (@contentDisposition_filename MoreSamples.namingRuntime
                (Some "attachment; filename*=UTF-8''%E0%A4%A")) as (_ & Hbad & _).
  pose proof (@contentDisposition_filename MoreSamples.namingRuntime
                (Some MoreSamples.quotedHeader)) as (_ & _ & Hbasic).
  split; [exact (Hstar _ _ eq_refl eq_refl)|].
  split; [exact (Hbad _ _ eq_refl eq_refl)|].
  destruct (Hbasic _ "cat.png" eq_refl eq_refl eq_refl) as (Hq & Ht & _).
  by split.
Defined.

End NamingFacts.

(* ===================================================================== *)
(** ** Response headers *)
(* ===================================================================== *)

Module HeaderFacts.
Import Session Artifacts Observations TrimFacts.

Lemma normalizeHeaders_snoc (hs : list (string * string)) (k v : string) :
  normalizeHeaders (hs ++ [(k, v)]) = <[toLowerCase k := v]> (normalizeHeaders hs).
Proof. unfold normalizeHeaders. by rewrite foldl_app. Qed.

Lemma normalizeHeaders_lookup (hs : list (string * string)) (k v : string) :
  normalizeHeaders hs !! k = Some v ->
  toLowerCase k = k /\ exists name, (name, v) ∈ hs /\ toLowerCase name = k.
Proof.
  revert k v. induction hs as [|[name value] hs IH] using rev_ind; intros k v.
  - unfold normalizeHeaders. simpl. by rewrite lookup_empty.
  - rewrite normalizeHeaders_snoc.
    destruct (decide (toLowerCase name = k)) as [<-|Hne].
    + rewrite lookup_insert_eq. intros [= <-]. split; [apply toLowerCase_idem|].
      exists name. split; [|done]. apply elem_of_app. right. by apply list_elem_of_singleton.
    + rewrite lookup_insert_ne by done. intros Hl.
      destruct (IH k v Hl) as (Hk & name' & Hin & Hname). split; [done|].
      exists name'. split; [|done]. apply elem_of_app. by left.
Qed.

Lemma normalizeHeaders_last (hs later : list (string * string)) (name v : string) :
  Forall (fun kv => toLowerCase kv.1 <> toLowerCase name) later ->
  normalizeHeaders (hs ++ (name, v) :: later) !! toLowerCase name = Some v.
Proof.
  induction later as [|[k' v'] later IH] using rev_ind; intros Hl.
  - by rewrite normalizeHeaders_snoc, lookup_insert_eq.
  - apply Forall_app in Hl as [Hl Hk]. inversion_clear Hk as [|? ? Hk' _]. simpl in Hk'.
    rewrite app_comm_cons, app_assoc, normalizeHeaders_snoc.
    rewrite lookup_insert_ne by done. by apply IH.
Qed.

(** A key that is not in lower case is never bound, so the second read of
    [headers['content-type'] || headers['Content-Type']] finds nothing. *)
Lemma normalizeHeaders_lower_keys (hs : list (string * string)) (k : string) :
  toLowerCase k <> k -> normalizeHeaders hs !! k = None.
Proof.
  intros Hk. destruct (normalizeHeaders hs !! k) as [v|] eqn:E; [|done].
  by apply normalizeHeaders_lookup in E as [E _].
Qed.

Lemma headerOf_normalized (hs : list (string * string)) :
  headerOf (normalizeHeaders hs) "content-type" "Content-Type"
    = nonempty (normalizeHeaders hs !! "content-type") /\
  headerOf (normalizeHeaders hs) "content-disposition" "Content-Disposition"
    = nonempty (normalizeHeaders hs !! "content-disposition").
Proof.
  unfold headerOf.
  rewrite (normalizeHeaders_lower_keys hs "Content-Type"),
          (normalizeHeaders_lower_keys hs "Content-Disposition")
    by (vm_compute; discriminate).
  simpl. split; by destruct (nonempty _).
Qed.

(** X4. The header object built by the download loops from the entries
    [forEach] visits holds lower-case keys only: a key that is bound is in
    lower case and its value is the value of an entry whose name
    lower-cases to it. When the entries are as [fetch] gives them, with
    names in lower case and no name twice, the object binds exactly the
    entries visited. The reads [headers['content-type'] ||
    headers['Content-Type']] and [headers['content-disposition'] ||
    headers['Content-Disposition']] are decided by the lower-case key
    alone. *)
Theorem headers_are_case_insensitive (hs : list (string * string)) :
  (forall k v, normalizeHeaders hs !! k = Some v ->
     toLowerCase k = k /\ exists name, (name, v) ∈ hs /\ toLowerCase name = k) /\
  (Forall (fun kv => toLowerCase kv.1 = kv.1) hs -> NoDup hs.*1 ->
     forall k v, normalizeHeaders hs !! k = Some v <-> (k, v) ∈ hs) /\
  headerOf (normalizeHeaders hs) "content-type" "Content-Type"
    = nonempty (normalizeHeaders hs !! "content-type") /\
  headerOf (normalizeHeaders hs) "content-disposition" "Content-Disposition"
    = nonempty (normalizeHeaders hs !! "content-disposition").
Proof.
  split; [apply normalizeHeaders_lookup|]. split; [|apply headerOf_normalized].
  intros Hlower Hnodup k v. split.
  - intros Hk. apply normalizeHeaders_lookup in Hk as (_ & name & Hin & Hname).
    rewrite Forall_forall in Hlower. specialize (Hlower _ Hin). simpl in Hlower.
    by rewrite <- Hname, Hlower.
  - intros Hin. apply list_elem_of_split in Hin as (earlier & later & ->).
    rewrite Forall_forall in Hlower.
    assert (Hk : toLowerCase k = k).
    { apply (Hlower (k, v)). apply elem_of_app. right. by left. }
    rewrite <- Hk at 1. apply normalizeHeaders_last.
    rewrite fmap_app, fmap_cons in Hnodup. simpl in Hnodup.
    apply NoDup_app in Hnodup as (_ & _ & Hnodup). apply NoDup_cons in Hnodup as [Hfresh _].
    apply Forall_forall. intros [k' v'] Hin'. simpl. rewrite Hk.
    pose proof (Hlower (k', v') ltac:(apply elem_of_app; right; by right)) as Hk'.
    simpl in Hk'. rewrite Hk'. intros ->. apply Hfresh. apply list_elem_of_fmap. by exists (k, v').
Qed.

(** X4, witness: from the entries [content-length: 4] and [content-type:
    image/png] the content type that is read is [image/png]. *)
Lemma headers_are_case_insensitive_witness :
  normalizeHeaders [("content-length", "4"); ("content-type", "image/png")]
    !! "content-type" = Some "image/png".
Proof.
  apply (proj1 (proj2 (headers_are_case_insensitive
                         [("content-length", "4"); ("content-type", "image/png")]))).
  - by repeat constructor.
  - simpl. apply NoDup_cons. split; [|apply NoDup_singleton].
    intros Hin%list_elem_of_singleton. discriminate.
  - constructor 2. constructor 1.
Defined.

End HeaderFacts.

(* ===================================================================== *)
(** ** What a computation records *)
(* ===================================================================== *)

Module EmitFacts.
Import Session Props EffFacts Observations.

Lemma emits_weaken {A} (d : option string) (P P' : event -> Prop) (m : M A) :
  (forall e, P e -> P' e) -> emits d P m -> emits d P' m.
Proof.
  intros HP Hm w Hd. destruct (Hm w Hd) as (He & l & Hl & HF).
  split; [done|]. exists l. split; [done|]. eapply Forall_impl; eauto.
Qed.

Lemma emits_nothing {A} (d : option string) (P : event -> Prop) (m : M A) :
  (forall w, (m w).1 = w) -> emits d P m.
Proof.
  intros Hm w Hd. rewrite Hm. split; [done|]. exists []. by rewrite app_nil_r.
Qed.

Lemma emits_ret {A} (d : option string) (P : event -> Prop) (a : A) : emits d P (mret a).
Proof. by apply emits_nothing. Qed.

Lemma emits_lift {A} (d : option string) (P : event -> Prop) (c : completion A) :
  emits d P (lift c).
Proof. by apply emits_nothing. Qed.

Lemma emits_throw {A} (d : option string) (P : event -> Prop) (e : thrown) :
  emits d P (@throw A e).
Proof. by apply emits_nothing. Qed.

Lemma emits_getenv (d : option string) (P : event -> Prop) : emits d P getenv_debug.
Proof. by apply emits_nothing. Qed.

Lemma emits_getReturnData (d : option string) (P : event -> Prop) : emits d P getReturnData.
Proof. by apply emits_nothing. Qed.

Lemma emits_unobserved {A} (d : option string) (P : event -> Prop) (m : M A) :
  (forall w, env_debug (m w).1 = env_debug w /\ trace (m w).1 = trace w) -> emits d P m.
Proof.
  intros Hm w Hd. destruct (Hm w) as [He Ht]. split; [congruence|].
  exists []. by rewrite app_nil_r.
Qed.

Lemma emits_sleep (d : option string) (P : event -> Prop) (ms : Z) : emits d P (sleep ms).
Proof. by apply emits_unobserved. Qed.

Lemma emits_push (d : option string) (P : event -> Prop) (o : Output) : emits d P (push o).
Proof. by apply emits_unobserved. Qed.

Lemma emits_newReturnData (d : option string) (P : event -> Prop) : emits d P newReturnData.
Proof. by apply emits_unobserved. Qed.

Lemma emits_randomUUID (d : option string) (P : event -> Prop) : emits d P randomUUID.
Proof. by apply emits_unobserved. Qed.

Lemma emits_emit (d : option string) (P : event -> Prop) (e : event) :
  P e -> emits d P (emit e).
Proof.
  intros He w Hd. split; [done|]. exists [e]. split; [done|]. by constructor.
Qed.

Lemma emits_bind {A B} (d : option string) (P : event -> Prop) (m : M A) (k : A -> M B) :
  emits d P m -> (forall a, emits d P (k a)) -> emits d P (m ≫= k).
Proof.
  intros Hm Hk w Hd. rewrite run_bind. destruct (Hm w Hd) as (He & l & Hl & HF).
  destruct (m w) as [w' [a|e]]; simpl in *.
  - destruct (Hk a w' He) as (He' & l' & Hl' & HF'). split; [done|].
    exists (l ++ l'). split; [by rewrite Hl', Hl, app_assoc | by apply Forall_app].
  - split; [done|]. by exists l.
Qed.

Lemma emits_try_catch {A} (d : option string) (P : event -> Prop)
    (m : M A) (handler : thrown -> M A) :
  emits d P m -> (forall e, emits d P (handler e)) -> emits d P (try_catch m handler).
Proof.
  intros Hm Hh w Hd. unfold try_catch. destruct (Hm w Hd) as (He & l & Hl & HF).
  destruct (m w) as [w' [a|e]]; simpl in *.
  - split; [done|]. by exists l.
  - destruct (Hh e w' He) as (He' & l' & Hl' & HF'). split; [done|].
    exists (l ++ l'). split; [by rewrite Hl', Hl, app_assoc | by apply Forall_app].
Qed.

Lemma emits_try_finally {A} (d : option string) (P : event -> Prop)
    (m : M A) (cleanup : M unit) :
  emits d P m -> emits d P cleanup -> emits d P (try_finally m cleanup).
Proof.
  intros Hm Hc w Hd. unfold try_finally. destruct (Hm w Hd) as (He & l & Hl & HF).
  destruct (m w) as [w' r]; simpl in *.
  destruct (Hc w' He) as (He' & l' & Hl' & HF').
  destruct (cleanup w') as [w'' [u|e]]; simpl in *.
  all: split; [done|]; exists (l ++ l');
       split; [by rewrite Hl', Hl, app_assoc | by apply Forall_app].
Qed.

(** Discharges [emits] for code made of reads, calls and recorded events
    that satisfy the class at hand. *)
Ltac emits_basic :=
  repeat (cbv zeta;
          first [ apply emits_ret | apply emits_lift | apply emits_throw
                | apply emits_push | apply emits_sleep
                | apply emits_emit; solve [done | split; done]
                | apply emits_bind; [|intros ?]
                | apply emits_try_catch; [|intros ?] ]).

Ltac emits_steps lemma :=
  repeat (cbv zeta;
          first [ apply emits_ret | apply emits_lift | apply emits_throw
                | apply emits_push | apply emits_sleep | apply lemma
                | apply emits_emit; solve [done | split; done]
                | apply emits_bind; [|intros ?]
                | apply emits_try_catch; [|intros ?] ]).

Lemma isAppIdDebugEnabled_run (w : world) :
  isAppIdDebugEnabled w = (w, Normal (enabledBy (env_debug w))).
Proof. reflexivity. Qed.

Lemma debugLogAppId_unfold (message : string) (w : world) :
  debugLogAppId message w =
  if enabledBy (env_debug w)
  then (record (EvConsoleLog ("[Sogni] " +:+ message)) w, Normal tt)
  else (w, Normal tt).
Proof.
  unfold debugLogAppId. rewrite run_bind, isAppIdDebugEnabled_run.
  by destruct (enabledBy _).
Qed.

Lemma emits_debugLogAppId (d : option string) (P : event -> Prop) (message : string) :
  (forall line, enabledBy d = true -> P (EvConsoleLog line)) ->
  emits d P (debugLogAppId message).
Proof.
  intros HP w Hd. rewrite debugLogAppId_unfold, Hd.
  destruct (enabledBy d) eqn:E; simpl.
  - split; [done|]. eexists. split; [done|]. constructor; [by apply HP | done].
  - split; [done|]. exists []. by rewrite app_nil_r.
Qed.

Lemma closing_log (d : option string) (line : string) :
  enabledBy d = true -> closing_event d (EvConsoleLog line).
Proof. intros E. split; [done | by intros _]. Qed.

Lemma emits_promiseWithTimeout {A} (d : option string) (P : event -> Prop)
    (p : promise A) (t : Z) (label : string) :
  emits d P (promiseWithTimeout p t label).
Proof.
  unfold promiseWithTimeout. destruct p as [after outcome|]; [destruct (_ <=? _)|];
    emits_basic.
Qed.

Lemma emits_gracefulDisconnect (d : option string) (c : Client) (context : Context) :
  emits d (closing_event d) (gracefulDisconnect c context).
Proof.
  unfold gracefulDisconnect.
  apply emits_try_catch;
    [|intros e; apply emits_bind; [apply emits_lift|];
      intros text; apply emits_debugLogAppId, closing_log].
  apply emits_bind; [apply emits_lift|]. intros [|call]; [apply emits_ret|].
  repeat first [ apply emits_debugLogAppId, closing_log
               | apply emits_promiseWithTimeout
               | apply emits_lift
               | apply emits_emit; split; [done | by intros []]
               | apply emits_bind; [|intros ?] ].
Qed.

Lemma emits_callIfFunction (d : option string) (read : completion (method unit)) (ev : event) :
  closing_event d ev -> emits d (closing_event d) (swallow (callIfFunction read ev)).
Proof.
  intros Hev. unfold swallow, callIfFunction.
  apply emits_try_catch; [|intros; apply emits_ret].
  apply emits_bind; [apply emits_lift|]. intros [|call]; [apply emits_ret|].
  apply emits_bind; [by apply emits_emit | intros; apply emits_lift].
Qed.

Lemma closing_call (d : option string) (e : event) :
  is_socket_call e = true -> closing_event d e.
Proof. destruct e; try done; intros _; (split; [done | intros []]). Qed.

Lemma emits_hardClose (d : option string) (c : Client) (context : Context) :
  emits d (closing_event d) (hardClose c context).
Proof.
  unfold hardClose.
  apply emits_try_catch;
    [|intros e; apply emits_bind; [apply emits_lift|];
      intros text; apply emits_debugLogAppId, closing_log].
  apply emits_bind; [apply emits_lift|]. intros [| |ws]; try apply emits_ret.
  apply emits_bind; [apply emits_lift|]. intros rs.
  apply emits_bind.
  { destruct (strict_eq_3 _); [apply emits_ret|].
    apply emits_bind; [by apply emits_callIfFunction, closing_call|]. intros _.
    by apply emits_callIfFunction, closing_call. }
  intros _. apply emits_bind; [by apply emits_callIfFunction, closing_call|]. intros _.
  apply emits_debugLogAppId, closing_log.
Qed.

Lemma emits_safeDisconnect (d : option string) (client : option Client) (context : Context) :
  emits d (closing_event d) (safeDisconnect client context).
Proof.
  destruct client as [c|]; [|apply emits_ret].
  apply emits_bind; [apply emits_gracefulDisconnect | intros; apply emits_hardClose].
Qed.

End EmitFacts.

(* ===================================================================== *)
(** ** What the branches of [execute] record *)
(* ===================================================================== *)

Module RunFacts.
Import Session Identity Artifacts Execute LoadOptions Props EffFacts SessionFacts LoopFacts.
Import Observations EmitFacts.

Section Run.
Context `{JsRuntime} `{Host}.
Variable d : option string.

Lemma emits_downloadFrom (kind : DownloadKind) (projectId : jsval) (urls : list jsval) :
  forall binary index, emits d work_event (downloadFrom kind projectId binary index urls).
Proof.
  induction urls as [|url rest IH]; intros binary index; simpl.
  - apply emits_ret.
  - apply emits_bind; [|intros; apply IH]. unfold downloadOne. emits_basic.
Qed.

Lemma emits_downloadAll (kind : DownloadKind) (download projectId urls : jsval) :
  emits d work_event (downloadAll kind download projectId urls).
Proof.
  unfold downloadAll.
  destruct download as [| |[|]| | | | |]; try destruct (truthy urls);
    first [apply emits_ret | apply emits_downloadFrom].
Qed.

Lemma emits_imageGenerate (client : Client) (i : nat) :
  emits d work_event (imageGenerate client i).
Proof. unfold imageGenerate. emits_steps emits_downloadAll. Qed.

Lemma emits_imageEdit (client : Client) (i : nat) :
  emits d work_event (imageEdit client i).
Proof. unfold imageEdit. emits_steps emits_downloadAll. Qed.

Lemma emits_videoGenerate (client : Client) (i : nat) :
  emits d work_event (videoGenerate client i).
Proof. unfold videoGenerate, videoSubmit, videoFinish. emits_steps emits_downloadAll. Qed.

Lemma emits_videoEstimateCost (client : Client) (i : nat) :
  emits d work_event (videoEstimateCost client i).
Proof. unfold videoEstimateCost. emits_basic. Qed.

Lemma emits_modelGet (client : Client) (i : nat) : emits d work_event (modelGet client i).
Proof. unfold modelGet. emits_basic. Qed.

Lemma emits_accountGetBalance (client : Client) (i : nat) :
  emits d work_event (accountGetBalance client i).
Proof. unfold accountGetBalance. emits_basic. Qed.

Lemma emits_pushModels (models : list jsval) : emits d work_event (pushModels models).
Proof.
  induction models as [|model rest IH]; simpl; [apply emits_ret|].
  emits_steps IH.
Qed.

Lemma emits_modelGetAll (client : Client) (i : nat) :
  emits d work_event (modelGetAll client i).
Proof. unfold modelGetAll. emits_steps emits_pushModels. Qed.

Lemma emits_dispatch (client : Client) (i : nat) (resource operation : jsval) :
  emits d work_event (dispatch client i resource operation).
Proof.
  unfold dispatch, pushing.
  repeat match goal with |- context [if ?b then _ else _] => destruct b end;
    first [ apply emits_modelGetAll
          | apply emits_ret
          | apply emits_bind; [|intros; apply emits_push];
            first [ apply emits_imageGenerate | apply emits_imageEdit
                  | apply emits_videoGenerate | apply emits_videoEstimateCost
                  | apply emits_modelGet | apply emits_accountGetBalance ] ].
Qed.

Lemma emits_processItem (client : Client) (i : nat) :
  emits d work_event (processItem client i).
Proof. unfold processItem. emits_steps emits_dispatch. Qed.

Lemma emits_runItems (client : Client) (indices : list nat) :
  emits d work_event (runItems client indices).
Proof.
  induction indices as [|i rest IH]; simpl; [apply emits_ret|].
  apply emits_bind; [|intros; apply IH].
  apply emits_try_catch; [apply emits_processItem|]. intros e.
  unfold onItemError. destruct continueOnFail; [apply emits_push | apply emits_throw].
Qed.

End Run.
End RunFacts.

(* ===================================================================== *)
(** ** [execute] as a whole *)
(* ===================================================================== *)

Module ExecuteFacts.
Import Session Identity Artifacts Execute LoadOptions Props EffFacts SessionFacts LoopFacts.
Import Observations EmitFacts RunFacts.

Lemma executionAppId_run (credentials : jsval) (w : world) :
  exists appId,
    (executionAppId credentials w).2 = Normal appId /\
    env_debug (executionAppId credentials w).1 = env_debug w /\
    trace (executionAppId credentials w).1 = trace w /\
    returnData (executionAppId credentials w).1 = returnData w.
Proof.
  unfold executionAppId. destruct (normalizeAppId _) as [id|]; by eexists.
Qed.

(** The outcome of [try { m } finally { cleanup }]: the exception of the
    cleanup when it throws, the outcome of the block otherwise. *)
Lemma try_finally_run {A} (m : M A) (cleanup : M unit) (w : world) :
  (try_finally m cleanup w).2 =
  match (cleanup (m w).1).2 with
  | Normal _ => (m w).2
  | Throw e => Throw e
  end.
Proof.
  unfold try_finally. destruct (m w) as [w1 r]. simpl.
  by destruct (cleanup w1) as [w2 [u|e]].
Qed.

(** A cleanup that cannot throw leaves the outcome of the block alone. *)
Lemma try_finally_outcome {A} (m : M A) (cleanup : M unit) (w : world) :
  safe cleanup -> (try_finally m cleanup w).2 = (m w).2.
Proof.
  intros Hs. rewrite try_finally_run.
  destruct (Hs (m w).1) as [u Hu]. by rewrite Hu.
Qed.

Section Execute.
Context `{JsRuntime} `{Host}.

(** [execute], once the credentials have been read, as the loop over the
    items followed by the shutdown of the session. *)
Lemma execute_unfold (credentials : jsval) (w : world) :
  getCredentials = Normal credentials ->
  execute w =
  try_finally
    (runItems (executionClient credentials w) (seq 0 (List.length getInputData));;
     result ← getReturnData;
     mret [result])
    (safeDisconnect (Some (executionClient credentials w))
       (executeContext (executionIdOf credentials w)))
    (loopStart credentials w).
Proof.
  intros Hc. unfold execute, loopStart, executionClient, executionIdOf.
  rewrite run_bind. simpl. rewrite run_lift_bind, Hc. rewrite run_bind. simpl.
  rewrite run_bind.
  unfold executionAppId. destruct (normalizeAppId _) as [id|]; simpl.
  - rewrite run_bind. rewrite debugLogAppId_unfold. simpl.
    destruct (enabledBy _); reflexivity.
  - rewrite run_bind. rewrite debugLogAppId_unfold. simpl.
    destruct (enabledBy _); reflexivity.
Qed.

Lemma loopStart_spec (credentials : jsval) (w : world) :
  returnData (loopStart credentials w) = [] /\
  env_debug (loopStart credentials w) = env_debug w /\
  exists logs,
    trace (loopStart credentials w)
      = trace w ++ logs ++ [EvNewClient (executionIdOf credentials w)] /\
    Forall is_log logs /\ (enabledBy (env_debug w) = false -> logs = []).
Proof.
  unfold loopStart, executionIdOf, executionAppId.
  destruct (normalizeAppId _) as [id|]; simpl; rewrite debugLogAppId_unfold; simpl;
    destruct (enabledBy (env_debug w)) eqn:E; simpl;
    (split; [done|]; split; [done|]).
  all: first [ by exists []; rewrite app_nil_l
             | eexists [_]; split; [by rewrite <- app_assoc|]; split; [|done];
               by repeat constructor ].
Qed.

(** What [execute] records after the client is constructed: the calls of
    the items, then those of the shutdown. *)
Lemma execute_after_start (credentials : jsval) (w : world) :
  getCredentials = Normal credentials ->
  exists work closing,
    trace (execute w).1 = trace (loopStart credentials w) ++ work ++ closing /\
    Forall work_event work /\
    Forall (closing_event (env_debug w)) closing.
Proof.
  intros Hc. rewrite (execute_unfold credentials w Hc).
  destruct (loopStart_spec credentials w) as (_ & Hd & _).
  set (w0 := loopStart credentials w) in *.
  set (client := executionClient credentials w).
  set (body := runItems client (seq 0 (List.length getInputData));;
               result ← getReturnData; mret [result]).
  assert (Hbody : emits (env_debug w) work_event body).
  { apply emits_bind; [apply emits_runItems|]. intros _.
    apply emits_bind; [apply emits_getReturnData | intros; apply emits_ret]. }
  unfold try_finally.
  destruct (Hbody w0 Hd) as (Hd1 & work & Hw & HFw).
  destruct (body w0) as [w1 r]. simpl in Hd1, Hw.
  destruct (emits_safeDisconnect (env_debug w) (Some client)
              (executeContext (executionIdOf credentials w)) w1 Hd1)
    as (_ & closing & Hcl & HFc).
  exists work, closing. split; [|done].
  destruct (safeDisconnect _ _ w1) as [w2 [u|e]]; simpl in *;
    by rewrite Hcl, Hw, <- !app_assoc.
Qed.

(** X8. Once the credentials are read, what [execute] records is, in this
    order: the debug line (none when the debug lines are off), the
    construction of one client under the identity of the execution, the calls
    made for the items (calls of the SDK, downloads and their error lines
    only), and last the calls of the shutdown. No second client is constructed
    and no call of the SDK follows the shutdown. *)
Theorem execute_session_shape (credentials : jsval) (w : world) :
  getCredentials = Normal credentials ->
  exists logs work closing,
    trace (execute w).1
      = trace w ++ logs ++ [EvNewClient (executionIdOf credentials w)] ++ work ++ closing /\
    (executionAppId credentials w).2 = Normal (executionIdOf credentials w) /\
    Forall is_log logs /\ (enabledBy (env_debug w) = false -> logs = []) /\
    Forall work_event work /\
    Forall (closing_event (env_debug w)) closing.
Proof.
  intros Hc.
  destruct (loopStart_spec credentials w) as (_ & _ & logs & Ht & Hlogs & Hoff).
  destruct (execute_after_start credentials w Hc) as (work & closing & Hrun & Hw & Hcl).
  exists logs, work, closing. split.
  { by rewrite Hrun, Ht, <- !app_assoc. }
  split.
  { unfold executionIdOf. by destruct (executionAppId_run credentials w) as (a & -> & _). }
  done.
Qed.

(** Without credentials [execute] stops before anything is recorded. *)
Lemma execute_no_credentials (e : thrown) (w : world) :
  getCredentials = Throw e ->
  (execute w).2 = Throw e /\ trace (execute w).1 = trace w.
Proof.
  intros Hc. unfold execute. rewrite run_bind. simpl. by rewrite run_lift_bind, Hc.
Qed.

(** With credentials, the outcome of [execute] is the outcome of the loop
    unless the shutdown throws. *)
Lemma execute_loop_outcome (credentials : jsval) (w : world) :
  getCredentials = Normal credentials ->
  let client := executionClient credentials w in
  let loop := runItems client (seq 0 (List.length getInputData)) (loopStart credentials w) in
  let shutdown :=
    safeDisconnect (Some client) (executeContext (executionIdOf credentials w)) loop.1 in
  (execute w).2 = match shutdown.2 with
                  | Throw e => Throw e
                  | Normal _ =>
                      match loop.2 with
                      | Normal _ => Normal [returnData loop.1]
                      | Throw e => Throw e
                      end
                  end.
Proof.
  intros Hc client loop shutdown. rewrite (execute_unfold credentials w Hc).
  rewrite try_finally_run. fold client.
  set (body := runItems client (seq 0 (List.length getInputData));;
               result ← getReturnData; mret [result]).
  assert (Hbody : body (loopStart credentials w) =
                  (loop.1, match loop.2 with
                           | Normal _ => Normal [returnData loop.1]
                           | Throw e => Throw e
                           end)).
  { subst body. rewrite run_bind. fold loop. by destruct loop as [w1 [[]|e]]. }
  by rewrite Hbody.
Qed.

(** The same when the shutdown has only printable exceptions to report. *)
Lemma execute_loop_outcome_printable (credentials : jsval) (w : world) :
  getCredentials = Normal credentials ->
  printableErrors (executionClient credentials w) = true ->
  let loop := runItems (executionClient credentials w)
                (seq 0 (List.length getInputData)) (loopStart credentials w) in
  (execute w).2 = match loop.2 with
                  | Normal _ => Normal [returnData loop.1]
                  | Throw e => Throw e
                  end.
Proof.
  intros Hc Hp loop. pose proof (execute_loop_outcome credentials w Hc) as Hout.
  cbv zeta in Hout. fold loop in Hout. rewrite Hout.
  by rewrite (safeDisconnect_returns (Some (executionClient credentials w)) _ loop.1 Hp).
Qed.

(** X9. When the credentials cannot be read, [execute] throws that error and
    makes no call at all. Otherwise the loop starts with an empty
    [returnData], and the outcome of [execute] is decided by the loop and
    by the shutdown in the [finally] block: when the shutdown throws,
    [execute] throws that exception, whatever the loop did; when it returns,
    [execute] returns the single list [[returnData]] if the loop ended
    normally and throws the error of the loop otherwise. The shutdown
    returns whenever every exception the wrapper hands to it is printable;
    so with such a wrapper and continue-on-failure set, [execute] returns. *)
Theorem execute_outcome (w : world) :
  match getCredentials with
  | Throw e => (execute w).2 = Throw e /\ trace (execute w).1 = trace w
  | Normal credentials =>
      let client := executionClient credentials w in
      let loop :=
        runItems client (seq 0 (List.length getInputData)) (loopStart credentials w) in
      let shutdown :=
        safeDisconnect (Some client) (executeContext (executionIdOf credentials w)) loop.1 in
      returnData (loopStart credentials w) = [] /\
      (execute w).2 = match shutdown.2 with
                      | Throw e => Throw e
                      | Normal _ =>
                          match loop.2 with
                          | Normal _ => Normal [returnData loop.1]
                          | Throw e => Throw e
                          end
                      end /\
      (printableErrors client = true -> shutdown.2 = Normal tt) /\
      (continueOnFail = true -> printableErrors client = true ->
       exists records, (execute w).2 = Normal [records])
  end.
Proof.
  destruct getCredentials as [credentials|e] eqn:Hc; [|by apply execute_no_credentials].
  intros client loop shutdown. split; [apply loopStart_spec|].
  pose proof (execute_loop_outcome credentials w Hc) as Hout. cbv zeta in Hout.
  fold client loop shutdown in Hout. split; [done|].
  split; [intros Hp; by apply (safeDisconnect_returns (Some client))|].
  intros Hcont Hp. rewrite Hout.
  subst shutdown. rewrite (safeDisconnect_returns (Some client) _ loop.1 Hp).
  destruct (runItems_safe client (seq 0 (List.length getInputData)) Hcont
              (loopStart credentials w)) as [[] Hl].
  fold loop in Hl. rewrite Hl. by eexists.
Qed.

Lemma pushing_normal (branch : M Output) (w w2 : world) :
  keeps branch -> pushing branch w = (w2, Normal tt) ->
  exists o, returnData w2 = returnData w ++ [o].
Proof.
  intros Hk. unfold pushing. rewrite run_bind. specialize (Hk w).
  destruct (branch w) as [w' [o|e]]; simpl in *; [|done].
  intros [= <-]. exists o. simpl. by rewrite Hk.
Qed.

Lemma is_str_true (v : jsval) (s : string) : is_str v s = true -> v = JStr s.
Proof. destruct v; try done. simpl. by intros ->%String.eqb_eq. Qed.

Lemma singleRecord_not_getAll (resource operation : jsval) :
  singleRecord resource operation = true -> selectsGetAll resource operation = false.
Proof.
  intros Hs. destruct (selectsGetAll resource operation) eqn:E; [|done].
  apply andb_true_iff in E as [->%is_str_true ->%is_str_true]. done.
Qed.

Lemma dispatch_single (client : Client) (i : nat) (resource operation : jsval)
    (w w2 : world) :
  singleRecord resource operation = true ->
  dispatch client i resource operation w = (w2, Normal tt) ->
  exists o, returnData w2 = returnData w ++ [o].
Proof.
  intros Hs. pose proof (singleRecord_not_getAll _ _ Hs) as Hg.
  unfold dispatch. rewrite Hg. unfold singleRecord in Hs.
  repeat match goal with |- context [if ?b then _ else _] => destruct b end;
    try (apply pushing_normal;
         first [ apply keeps_imageGenerate | apply keeps_imageEdit
               | apply keeps_videoGenerate | apply keeps_videoEstimateCost
               | apply keeps_modelGet | apply keeps_accountGetBalance ]).
  done.
Qed.

Lemma processItem_single (client : Client) (i : nat) (w : world) :
  selects singleRecord i ->
  match processItem client i w with
  | (w2, Normal _) => exists o, returnData w2 = returnData w ++ [o]
  | (w2, Throw e) => returnData w2 = returnData w
  end.
Proof.
  unfold selects, processItem. rewrite run_lift_bind.
  destruct (getNodeParameter "resource" i) as [resource|e1]; [|done].
  rewrite run_lift_bind.
  destruct (getNodeParameter "operation" i) as [operation|e2]; [|done].
  intros Hs.
  destruct (dispatch client i resource operation w) as [w2 [[]|e]] eqn:Hd.
  - by eapply dispatch_single.
  - eapply dispatch_throw; [|done]. by apply singleRecord_not_getAll.
Qed.

Lemma runItems_one_record_each (client : Client) (indices : list nat) :
  continueOnFail = true ->
  Forall (selects singleRecord) indices ->
  forall w, exists records,
    (runItems client indices w).2 = Normal tt /\
    returnData (runItems client indices w).1 = returnData w ++ records /\
    Forall2 (recordOf client) indices records.
Proof.
  intros Hc Hall. induction Hall as [|i rest Hi Hrest IH]; intros w.
  - exists []. simpl. by rewrite app_nil_r.
  - rewrite runItems_cons, Hc.
    pose proof (processItem_single client i w Hi) as Hitem.
    destruct (processItem client i w) as [w2 [[]|e]] eqn:Hp.
    + destruct Hitem as [o Ho]. destruct (IH w2) as (records & Hr & Hd & HF).
      exists (o :: records). split; [done|]. split.
      * by rewrite Hd, Ho, <- app_assoc.
      * constructor; [|done]. exists w, w2. by left.
    + destruct (IH (pushed (errorRecord e) w2)) as (records & Hr & Hd & HF).
      exists (errorRecord e :: records). split; [done|]. split.
      * rewrite Hd. simpl. by rewrite Hitem, <- app_assoc.
      * constructor; [|done]. exists w, w2. right. by exists e.
Qed.

(** X10. With continue-on-failure set, every item whose selectors can be
    read naming one of the six branches that push a single record (all but
    [model]/[getAll]), and a wrapper that hands only printable exceptions to
    the shutdown, [execute] returns exactly one record per input item, in
    the order of the items: for each item the record its branch pushed, or the
    error record pushed in its place. *)
Theorem one_record_per_item (credentials : jsval) (w : world) :
  getCredentials = Normal credentials ->
  continueOnFail = true ->
  (forall i, (i < List.length getInputData)%nat -> selects singleRecord i) ->
  printableErrors (executionClient credentials w) = true ->
  exists records,
    (execute w).2 = Normal [records] /\
    List.length records = List.length getInputData /\
    Forall2 (recordOf (executionClient credentials w))
      (seq 0 (List.length getInputData)) records.
Proof.
  intros Hc Hcont Hsel Hp.
  pose proof (execute_loop_outcome_printable credentials w Hc Hp) as Hout.
  cbv zeta in Hout.
  destruct (loopStart_spec credentials w) as (Hempty & _).
  assert (Hall : Forall (selects singleRecord) (seq 0 (List.length getInputData))).
  { apply Forall_forall. intros i Hi. apply Hsel. apply elem_of_seq in Hi. lia. }
  destruct (runItems_one_record_each (executionClient credentials w) _ Hcont Hall
              (loopStart credentials w)) as (records & Hr & Hd & HF).
  exists records. rewrite Hout, Hr, Hd, Hempty. split; [done|].
  split; [|done]. apply Forall2_length in HF. by rewrite length_seq in HF.
Qed.

End Execute.

(** X9, witness: the sample host continues on failure, so [execute] returns a
    list of records although its second item fails. *)
Lemma execute_outcome_witness :
  exists records,
    (@execute Samples.sampleRuntime Samples.sampleHost Samples.sampleWorld).2
      = Normal [records].
Proof.
  exact (proj2 (proj2 (proj2 (@execute_outcome Samples.sampleRuntime Samples.sampleHost
                                Samples.sampleWorld))) eq_refl eq_refl).
Defined.

(** X8, witness: on the sample host, with the debug lines off, the first call
    recorded is the construction of the client under the identity [my-app]. *)
Lemma execute_session_shape_witness :
  exists logs work closing,
    trace (@execute Samples.sampleRuntime Samples.sampleHost Samples.sampleWorld).1
      = [] ++ logs ++ [EvNewClient "my-app"] ++ work ++ closing /\
    Forall work_event work /\ Forall (closing_event None) closing /\ logs = [].
Proof.
  destruct (@execute_session_shape Samples.sampleRuntime Samples.sampleHost
              Samples.sampleCredentials Samples.sampleWorld eq_refl)
    as (logs & work & closing & Ht & _ & _ & Hoff & Hw & Hc).
  exists logs, work, closing. split; [exact Ht|]. split; [exact Hw|].
  split; [exact Hc|]. exact (Hoff eq_refl).
Defined.

(** X10, witness: the three items of the sample host give three records. *)
Lemma one_record_per_item_witness :
  exists records,
    (@execute Samples.sampleRuntime Samples.sampleHost Samples.sampleWorld).2
      = Normal [records] /\
    List.length records = 3%nat.
Proof.
  destruct (@one_record_per_item Samples.sampleRuntime Samples.sampleHost
              Samples.sampleCredentials Samples.sampleWorld eq_refl eq_refl)
    as (records & Hr & Hl & _).
  - intros [|[|[|i]]] Hi; try done; simpl in Hi; lia.
  - reflexivity.
  - by exists records.
Defined.

End ExecuteFacts.

(* ===================================================================== *)
(** ** What the option lookups return *)
(* ===================================================================== *)

Module LookupFacts.
Import Session Identity Resolve Artifacts Execute LoadOptions Props.
Import EffFacts SessionFacts IdentityFacts AssetFacts.
Import Observations EmitFacts ExecuteFacts.

Lemma mapM_normal {A} (f : jsval -> completion A) (xs : list jsval) (ys : list A) :
  mapM f xs = Normal ys -> Forall2 (fun x y => f x = Normal y) xs ys.
Proof.
  revert ys. induction xs as [|x xs IH]; intros ys; simpl.
  - intros [= <-]. constructor.
  - intros Hm. apply cbind_Normal in Hm as (y & Hy & Hm).
    apply cbind_Normal in Hm as (rest & Hrest & Hm). injection Hm as <-.
    constructor; [done | by apply IH].
Qed.

Lemma filterM_normal (p : jsval -> completion bool) (xs ys : list jsval) :
  filterM p xs = Normal ys ->
  sublist ys xs /\ Forall (fun x => p x = Normal true) ys /\
  (forall x, x ∈ xs -> p x = Normal true -> x ∈ ys) /\
  Forall (fun x => exists b, p x = Normal b) xs.
Proof.
  revert ys. induction xs as [|x xs IH]; intros ys; simpl.
  - intros [= <-]. repeat split; try constructor. by intros x ?%elem_of_nil.
  - intros Hm. apply cbind_Normal in Hm as (keep & Hk & Hm).
    apply cbind_Normal in Hm as (rest & Hrest & Hm). injection Hm as <-.
    destruct (IH rest Hrest) as (Hsub & Hall & Hin & Hdef).
    destruct keep.
    + split; [by apply sublist_skip|]. split; [by constructor|]. split.
      * intros x' Hx' Hp. apply elem_of_cons in Hx' as [->|Hx']; apply elem_of_cons; auto.
      * constructor; [by eexists | done].
    + split; [by apply sublist_cons|]. split; [done|]. split.
      * intros x' Hx' Hp. apply elem_of_cons in Hx' as [->|Hx']; [congruence | auto].
      * constructor; [by eexists | done].
Qed.

Section Lookups.
Context `{JsRuntime} `{Host}.

Lemma fetchModels_run (client : Client) (searchParameter : string) (w : world) :
  exists w1, fetchModels client searchParameter w = (w1, listed client searchParameter).
Proof.
  unfold fetchModels, listed. rewrite run_lift_bind.
  destruct (getCurrentNodeParameter searchParameter) as [p|e]; [|by eexists].
  simpl. rewrite run_bind. simpl. rewrite run_lift_bind.
  destruct (c_getAvailableModels _ _) as [models|e]; [|by eexists].
  simpl. by eexists.
Qed.

(** The outcome of a lookup is the outcome of its body, unless the shutdown
    of the session throws: the debug line does not change it, and the
    [finally] block replaces it only by an exception of its own. *)
Lemma lookupWith_outcome (name : string) (body : Client -> M jsval)
    (credentials : jsval) (w : world) :
  getCredentials = Normal credentials ->
  exists w0,
    (printableErrors (lookupClient credentials w) = true ->
       (lookupWith name body w).2 = (body (lookupClient credentials w) w0).2) /\
    (forall v, (lookupWith name body w).2 = Normal v ->
               (body (lookupClient credentials w) w0).2 = Normal v) /\
    (forall e, (body (lookupClient credentials w) w0).2 = Throw e ->
               exists e', (lookupWith name body w).2 = Throw e').
Proof.
  intros Hc. unfold lookupWith. rewrite run_lift_bind, Hc.
  rewrite (run_bind_normal _ _ _ _ _ (generateUniqueAppId_run _ w)).
  set (appId := "n8n-sogni-loadopts" +:+ "-" +:+ entropy w (drawn w)).
  set (msg := "loadOptions:" +:+ name +:+ " appId=" +:+ appId).
  destruct (safe_debugLogAppId msg (afterDraw w)) as [[] Hr].
  destruct (debugLogAppId msg (afterDraw w)) as [wl r0] eqn:Hlog.
  simpl in Hr. subst r0.
  rewrite (run_bind_normal _ _ _ _ _ Hlog).
  rewrite (run_bind_normal _ _ _ _ _ (constructClient_run credentials appId wl)).
  exists (record (EvNewClient appId) wl). split; [|split].
  - intros Hp. rewrite try_finally_outcome; [done|].
    by apply (safe_safeDisconnect (Some _)).
  - intros v. rewrite try_finally_run. by destruct (safeDisconnect _ _ _).2.
  - intros e He. unfold lookupClient in He. fold appId in He.
    rewrite try_finally_run, He. destruct (safeDisconnect _ _ _).2; by eexists.
Qed.

(** The three ways a lookup relates to the value [expected] its body
    computes: it has that outcome when the shutdown cannot throw, it returns
    only what the body returns, and it throws when the body throws. *)
Lemma lookup_follows (name : string) (body : Client -> M jsval)
    (credentials : jsval) (w : world) (expected : completion jsval) :
  getCredentials = Normal credentials ->
  (forall w0, (body (lookupClient credentials w) w0).2 = expected) ->
  (printableErrors (lookupClient credentials w) = true ->
     (lookupWith name body w).2 = expected) /\
  (forall v, (lookupWith name body w).2 = Normal v -> expected = Normal v) /\
  (forall e, expected = Throw e -> exists e', (lookupWith name body w).2 = Throw e').
Proof.
  intros Hc Hb. destruct (lookupWith_outcome name body credentials w Hc) as (w0 & H1 & H2 & H3).
  rewrite (Hb w0) in H1, H2, H3. done.
Qed.

Lemma getModelOptions_outcome (credentials : jsval) (w : world) :
  getCredentials = Normal credentials ->
  let expected := modelOptionsOf (lookupClient credentials w) in
  (printableErrors (lookupClient credentials w) = true ->
     (getModelOptions w).2 = expected) /\
  (forall v, (getModelOptions w).2 = Normal v -> expected = Normal v) /\
  (forall e, expected = Throw e -> exists e', (getModelOptions w).2 = Throw e').
Proof.
  intros Hc. rewrite getModelOptions_skeleton.
  apply lookup_follows; [done|]. intros w0. unfold modelOptionsOf.
  rewrite run_bind.
  destruct (fetchModels_run (lookupClient credentials w) "modelSearch" w0) as [w1 ->].
  destruct (listed _ _) as [models|e]; [|done]. simpl. rewrite run_lift_bind.
  by destruct (mapM optionOf models).
Qed.

Lemma getVideoModelOptions_outcome (credentials : jsval) (w : world) :
  getCredentials = Normal credentials ->
  let expected := videoModelOptionsOf (lookupClient credentials w) in
  (printableErrors (lookupClient credentials w) = true ->
     (getVideoModelOptions w).2 = expected) /\
  (forall v, (getVideoModelOptions w).2 = Normal v -> expected = Normal v) /\
  (forall e, expected = Throw e -> exists e', (getVideoModelOptions w).2 = Throw e').
Proof.
  intros Hc.
  change getVideoModelOptions with
    (lookupWith "getVideoModelOptions"
       (fun client =>
          models ← fetchModels client "videoModelSearch";
          videoModels ← lift (filterM isVideoModel models);
          options ← lift (mapM optionOf videoModels);
          mret (JArr (match options with [] => [noVideoModels] | _ => options end)))).
  apply lookup_follows; [done|]. intros w0. unfold videoModelOptionsOf.
  rewrite run_bind.
  destruct (fetchModels_run (lookupClient credentials w) "videoModelSearch" w0) as [w1 ->].
  destruct (listed _ _) as [models|e]; [|done]. simpl. rewrite run_lift_bind.
  destruct (filterM isVideoModel models) as [videoModels|e]; [|done]. simpl.
  rewrite run_lift_bind. by destruct (mapM optionOf videoModels).
Qed.

Lemma getImageEditModelOptions_outcome (credentials : jsval) (w : world) :
  getCredentials = Normal credentials ->
  let expected := imageEditModelOptionsOf (lookupClient credentials w) in
  (printableErrors (lookupClient credentials w) = true ->
     (getImageEditModelOptions w).2 = expected) /\
  (forall v, (getImageEditModelOptions w).2 = Normal v -> expected = Normal v) /\
  (forall e, expected = Throw e -> exists e', (getImageEditModelOptions w).2 = Throw e').
Proof.
  intros Hc.
  change getImageEditModelOptions with
    (lookupWith "getImageEditModelOptions"
       (fun client =>
          models ← fetchModels client "imageEditModelSearch";
          imageEditModels ← lift (filterM isImageEditModel models);
          options ← lift (mapM editOptionOf imageEditModels);
          mret (JArr (match options with [] => [noEditModels] | _ => options end)))).
  apply lookup_follows; [done|]. intros w0. unfold imageEditModelOptionsOf.
  rewrite run_bind.
  destruct (fetchModels_run (lookupClient credentials w) "imageEditModelSearch" w0)
    as [w1 ->].
  destruct (listed _ _) as [models|e]; [|done]. simpl. rewrite run_lift_bind.
  destruct (filterM isImageEditModel models) as [editModels|e]; [|done]. simpl.
  rewrite run_lift_bind. by destruct (mapM editOptionOf editModels).
Qed.

(** X11. The option lookups do not catch: when the search box cannot be
    read, the models cannot be listed or the answer is no array,
    [getModelOptions], [getVideoModelOptions] and [getImageEditModelOptions]
    throw, and what they throw is that error [e] whenever the shutdown of
    the session in the [finally] block, which runs last, does not throw
    itself (as it cannot when every error the wrapper raises is
    printable). *)
Theorem lookup_errors_propagate (credentials : jsval) (w : world) (e : thrown) :
  getCredentials = Normal credentials ->
  let client := lookupClient credentials w in
  (listed client "modelSearch" = Throw e ->
     (exists e', (getModelOptions w).2 = Throw e') /\
     (printableErrors client = true -> (getModelOptions w).2 = Throw e)) /\
  (listed client "videoModelSearch" = Throw e ->
     (exists e', (getVideoModelOptions w).2 = Throw e') /\
     (printableErrors client = true -> (getVideoModelOptions w).2 = Throw e)) /\
  (listed client "imageEditModelSearch" = Throw e ->
     (exists e', (getImageEditModelOptions w).2 = Throw e') /\
     (printableErrors client = true -> (getImageEditModelOptions w).2 = Throw e)).
Proof.
  intros Hc client. split; [|split]; intros Hl.
  - destruct (getModelOptions_outcome credentials w Hc) as (H1 & _ & H3).
    fold client in H1, H3. unfold modelOptionsOf in *. rewrite Hl in *. split; [by eapply H3|].
    intros Hp. by rewrite H1.
  - destruct (getVideoModelOptions_outcome credentials w Hc) as (H1 & _ & H3).
    fold client in H1, H3. unfold videoModelOptionsOf in *. rewrite Hl in *.
    split; [by eapply H3|]. intros Hp. by rewrite H1.
  - destruct (getImageEditModelOptions_outcome credentials w Hc) as (H1 & _ & H3).
    fold client in H1, H3. unfold imageEditModelOptionsOf in *. rewrite Hl in *.
    split; [by eapply H3|]. intros Hp. by rewrite H1.
Qed.

Lemma optionOf_value (model option : jsval) :
  optionOf model = Normal option -> prop option "value" = prop model "id".
Proof.
  unfold optionOf. intros Ho.
  apply cbind_Normal in Ho as (? & _ & Ho).
  apply cbind_Normal in Ho as (? & _ & Ho).
  apply cbind_Normal in Ho as (? & _ & Ho).
  apply cbind_Normal in Ho as (? & _ & Ho).
  by injection Ho as <-.
Qed.

Lemma editOptionOf_value (model option : jsval) :
  editOptionOf model = Normal option -> prop option "value" = prop model "id".
Proof.
  unfold editOptionOf. intros Ho.
  apply cbind_Normal in Ho as (? & _ & Ho).
  apply cbind_Normal in Ho as (? & _ & Ho).
  apply cbind_Normal in Ho as (? & _ & Ho).
  apply cbind_Normal in Ho as (? & _ & Ho).
  apply cbind_Normal in Ho as (? & _ & Ho).
  by injection Ho as <-.
Qed.

Lemma options_for (build : jsval -> completion jsval) (models options : list jsval) :
  (forall model option, build model = Normal option ->
                        prop option "value" = prop model "id") ->
  mapM build models = Normal options -> Forall2 (optionFor build) models options.
Proof.
  intros Hv Hm. apply mapM_normal in Hm.
  eapply Forall2_impl; [exact Hm|]. intros model option Hb. split; [done | by apply Hv].
Qed.

(** What a filtering lookup returns: the options of the models the filter
    keeps, in the order of the listing, or the single placeholder. *)
Lemma filtered_options (keep : jsval -> completion bool) (build : jsval -> completion jsval)
    (placeholder : jsval) (models : list jsval) (result : jsval) :
  (forall model option, build model = Normal option ->
                        prop option "value" = prop model "id") ->
  (chosen ← filterM keep models;
   options ← mapM build chosen;
   mret (JArr (match options with [] => [placeholder] | _ => options end)))
    = Normal result ->
  exists chosen options,
    result = JArr options /\ options <> [] /\
    sublist chosen models /\
    Forall (fun model => keep model = Normal true) chosen /\
    (forall model, model ∈ models -> keep model = Normal true -> model ∈ chosen) /\
    (chosen = [] /\ options = [placeholder] \/
     chosen <> [] /\ Forall2 (optionFor build) chosen options).
Proof.
  intros Hv Hr.
  apply cbind_Normal in Hr as (chosen & Hf & Hr).
  apply cbind_Normal in Hr as (options & Hm & Hr). injection Hr as <-.
  destruct (filterM_normal _ _ _ Hf) as (Hsub & Hall & Hin & _).
  pose proof (options_for build chosen options Hv Hm) as HF.
  destruct options as [|o os].
  - exists chosen, [placeholder]. repeat (split; [done|]).
    left. split; [|done]. by apply Forall2_nil_inv_r in HF.
  - exists chosen, (o :: os). repeat (split; [done|]).
    right. split; [|done]. intros ->. by apply Forall2_nil_inv_l in HF.
Qed.

(** X12. What the lookups return. [getModelOptions] returns one option per
    listed model, in the order of the listing, each with the id of its model
    as its value. [getVideoModelOptions] and [getImageEditModelOptions] return
    the options of exactly the listed models their filter accepts, in the
    order of the listing; when the filter accepts none they return the single
    placeholder entry, whose value is the empty string, so the list they
    return is never empty. *)
Theorem lookup_options (credentials : jsval) (w : world) (result : jsval) :
  getCredentials = Normal credentials ->
  let client := lookupClient credentials w in
  ((getModelOptions w).2 = Normal result ->
     exists models options,
       listed client "modelSearch" = Normal models /\ result = JArr options /\
       Forall2 (optionFor optionOf) models options) /\
  ((getVideoModelOptions w).2 = Normal result ->
     exists models chosen options,
       listed client "videoModelSearch" = Normal models /\
       result = JArr options /\ options <> [] /\
       sublist chosen models /\
       Forall (fun model => isVideoModel model = Normal true) chosen /\
       (forall model, model ∈ models -> isVideoModel model = Normal true -> model ∈ chosen) /\
       (chosen = [] /\ options = [noVideoModels] \/
        chosen <> [] /\ Forall2 (optionFor optionOf) chosen options)) /\
  ((getImageEditModelOptions w).2 = Normal result ->
     exists models chosen options,
       listed client "imageEditModelSearch" = Normal models /\
       result = JArr options /\ options <> [] /\
       sublist chosen models /\
       Forall (fun model => isImageEditModel model = Normal true) chosen /\
       (forall model, model ∈ models -> isImageEditModel model = Normal true ->
                      model ∈ chosen) /\
       (chosen = [] /\ options = [noEditModels] \/
        chosen <> [] /\ Forall2 (optionFor editOptionOf) chosen options)).
Proof.
  intros Hc client. split; [|split].
  - intros Hr. apply (getModelOptions_outcome credentials w Hc) in Hr.
    unfold modelOptionsOf in Hr. fold client in Hr.
    apply cbind_Normal in Hr as (models & Hl & Hr).
    apply cbind_Normal in Hr as (options & Hm & Hr). injection Hr as <-.
    exists models, options. split; [done|]. split; [done|].
    apply options_for; [apply optionOf_value | done].
  - intros Hr. apply (getVideoModelOptions_outcome credentials w Hc) in Hr.
    unfold videoModelOptionsOf in Hr. fold client in Hr.
    apply cbind_Normal in Hr as (models & Hl & Hr).
    apply filtered_options in Hr as (chosen & options & Hr); [|apply optionOf_value].
    by exists models, chosen, options.
  - intros Hr. apply (getImageEditModelOptions_outcome credentials w Hc) in Hr.
    unfold imageEditModelOptionsOf in Hr. fold client in Hr.
    apply cbind_Normal in Hr as (models & Hl & Hr).
    apply filtered_options in Hr as (chosen & options & Hr); [|apply editOptionOf_value].
    by exists models, chosen, options.
Qed.

End Lookups.
(** X11, witness: a client that cannot reach the service makes
    [getModelOptions] throw [socket hang up]. *)
Lemma lookup_errors_propagate_witness :
  (@getModelOptions Samples.sampleRuntime MoreSamples.idleHost Samples.sampleWorld).2
    = Throw (ErrorObj "socket hang up").
Proof.
  exact (proj2 (proj1 (@lookup_errors_propagate Samples.sampleRuntime MoreSamples.idleHost
                         (JObj [("username", JStr "ada"); ("password", JStr "secret")])
                         Samples.sampleWorld (ErrorObj "socket hang up") eq_refl)
                  eq_refl) eq_refl).
Defined.

(** X12, witness: of the three models of the sample client only the LTX-2 one
    is offered as a video model, labelled with its three workers. *)
Lemma lookup_options_witness :
  let credentials := JObj [("username", JStr "ada"); ("password", JStr "secret")] in
  let client := @lookupClient MoreSamples.studioHost credentials Samples.sampleWorld in
  let ltx2Option :=
    JObj [("name", JStr "LTX 2 â€¢ 3 workers"); ("value", JStr "ltx2-13b");
          ("description", JUndefined)] in
  exists models chosen options,
    @listed MoreSamples.studioHost client "videoModelSearch" = Normal models /\
    JArr [ltx2Option] = JArr options /\ options <> [] /\
    sublist chosen models /\
    Forall (fun model => isVideoModel model = Normal true) chosen /\
    (forall model, model ∈ models -> isVideoModel model = Normal true -> model ∈ chosen) /\
    (chosen = [] /\ options = [noVideoModels] \/
     chosen <> [] /\ Forall2 (optionFor (@optionOf MoreSamples.decimalRuntime)) chosen options).
Proof.
  exact (proj1 (proj2 (@lookup_options MoreSamples.decimalRuntime MoreSamples.studioHost
                         (JObj [("username", JStr "ada"); ("password", JStr "secret")])
                         Samples.sampleWorld _ eq_refl)) eq_refl).
Defined.

End LookupFacts.

(* ===================================================================== *)
(** ** Time and transport calls of [safeDisconnect]; debug lines *)
(* ===================================================================== *)

Module ShutdownFacts.
Import Session Identity Artifacts Execute LoadOptions Props EffFacts SessionFacts.
Import Observations EmitFacts RunFacts ExecuteFacts LookupFacts.

Lemma debugLogAppId_quiet (message : string) (w : world) :
  (debugLogAppId message w).2 = Normal tt /\
  clock (debugLogAppId message w).1 = clock w /\
  socket_calls (trace (debugLogAppId message w).1) = socket_calls (trace w).
Proof.
  rewrite debugLogAppId_unfold. destruct (enabledBy _); simpl; [|done].
  split; [done|]. split; [done|]. by rewrite socket_calls_app, app_nil_r.
Qed.

(** Runs a debug line that stands first in the computation at hand. *)
Ltac step_debugLog :=
  match goal with
  | |- context [(debugLogAppId ?m ≫= ?k) ?w0] =>
      let w1 := fresh "w" in let r := fresh "r" in
      let Hr := fresh "Hr" in let Hc := fresh "Hc" in let Hs := fresh "Hs" in
      destruct (debugLogAppId_quiet m w0) as (Hr & Hc & Hs);
      rewrite (run_bind (debugLogAppId m) k w0);
      destruct (debugLogAppId m w0) as [w1 r]; simpl in Hr, Hc, Hs; subst r
  | |- context [debugLogAppId ?m ?w0] =>
      let w1 := fresh "w" in let r := fresh "r" in
      let Hr := fresh "Hr" in let Hc := fresh "Hc" in let Hs := fresh "Hs" in
      destruct (debugLogAppId_quiet m w0) as (Hr & Hc & Hs);
      destruct (debugLogAppId m w0) as [w1 r]; simpl in Hr, Hc, Hs; subst r
  end.

(** Runs a [catch] clause of [safeDisconnect] that stands first. *)
Ltac step_handler :=
  rewrite ?run_lift_bind;
  first [ match goal with |- context [describe ?e] => destruct (describe e) end;
          [step_debugLog|]
        | step_debugLog ];
  simpl; try lia.

Lemma gracefulDisconnect_elapsed (c : Client) (context : Context) (w : world) :
  clock (gracefulDisconnect c context w).1 = clock w + disconnectWait c context.
Proof.
  unfold gracefulDisconnect, disconnectWait, try_catch. rewrite run_lift_bind.
  destruct (c_disconnect c) as [[|call]|e].
  - simpl. lia.
  - step_debugLog. rewrite run_bind. simpl. rewrite run_lift_bind.
    destruct call as [p|e].
    + rewrite run_bind. unfold promiseWithTimeout.
      destruct p as [after outcome|].
      * destruct (Z.of_N after <=? timerDelay (resolveTimeoutMs context)).
        -- rewrite run_bind. simpl. destruct outcome as [[]|e]; simpl.
           ++ step_debugLog. simpl. lia.
           ++ step_handler.
        -- rewrite run_bind. simpl. step_handler.
      * rewrite run_bind. simpl. step_handler.
    + step_handler.
  - step_handler.
Qed.

Lemma hardClose_elapsed (c : Client) (context : Context) (w : world) :
  clock (hardClose c context w).1 = clock w.
Proof. destruct (within_hardClose c context w) as (Hh & _). lia. Qed.

(** X6. On the logical clock [safeDisconnect] takes exactly the time it waits
    for [disconnect]; the calls on the transport handle that follow take none.
    The timer the wait is raced against is set with [setTimeout], which
    replaces a delay above 2^31 - 1 by 1 ms: its delay is the resolved bound
    when that is at most 2^31 - 1 and 1 ms otherwise. The wait lies between 0
    and the delay of the timer; it is the delay of the promise when the
    promise settles, either way, no later than the timer fires; it is the
    delay of the timer when the promise settles later or never; and it is 0
    when the client has no method [disconnect]. *)
Theorem safeDisconnect_elapsed (c : Client) (context : Context) (w : world) :
  let bound := resolveTimeoutMs context in
  let delay := if bound <=? 2147483647 then bound else 1 in
  clock (safeDisconnect (Some c) context w).1 = clock w + disconnectWait c context /\
  0 <= disconnectWait c context <= delay /\
  (forall after outcome,
     c_disconnect c = Normal (Function (Normal (Settles after outcome))) ->
     (Z.of_N after <= delay -> disconnectWait c context = Z.of_N after) /\
     (delay < Z.of_N after -> disconnectWait c context = delay)) /\
  (c_disconnect c = Normal (Function (Normal Pending)) ->
     disconnectWait c context = delay) /\
  (c_disconnect c = Normal NotAFunction -> disconnectWait c context = 0).
Proof.
  intros bound delay.
  pose proof (resolveTimeoutMs_pos context) as Hpos. fold bound in Hpos.
  assert (Hdelay : timerDelay (resolveTimeoutMs context) = delay).
  { unfold timerDelay, delay. fold bound.
    destruct (bound <? 1) eqn:E1; [apply Z.ltb_lt in E1; lia|].
    destruct (bound <=? 2147483647) eqn:E2, (2147483647 <? bound) eqn:E3; simpl; try done.
    - apply Z.leb_le in E2. apply Z.ltb_lt in E3. lia.
    - apply Z.leb_gt in E2. apply Z.ltb_ge in E3. lia. }
  assert (Hd0 : 0 < delay).
  { unfold delay. destruct (bound <=? 2147483647); lia. }
  split; [|split; [|split; [|split]]].
  - simpl. rewrite run_bind.
    pose proof (gracefulDisconnect_elapsed c context w) as Hg.
    destruct (gracefulDisconnect c context w) as [w1 [[]|e]]; simpl in Hg; [|done].
    by rewrite hardClose_elapsed.
  - unfold disconnectWait. rewrite Hdelay.
    destruct (c_disconnect c) as [[|[[after outcome|]|e]]|e]; try lia.
    destruct (Z.of_N after <=? delay) eqn:E; [|lia].
    apply Z.leb_le in E. lia.
  - intros after outcome Hd. unfold disconnectWait. rewrite Hd, Hdelay. split; intros Hlt.
    + apply Z.leb_le in Hlt. by rewrite Hlt.
    + apply Z.leb_gt in Hlt. by rewrite Hlt.
  - intros Hd. unfold disconnectWait. by rewrite Hd.
  - intros Hd. unfold disconnectWait. by rewrite Hd.
Qed.

Lemma socket_calls_gracefulDisconnect (c : Client) (context : Context) (w : world) :
  socket_calls (trace (gracefulDisconnect c context w).1) = socket_calls (trace w).
Proof.
  destruct (within_gracefulDisconnect c context w) as (_ & (l & Hl & HF) & _ & _).
  by rewrite Hl, socket_calls_app, (socket_calls_graceful l HF), app_nil_r.
Qed.

Lemma hardClose_closed (c : Client) (context : Context) (w : world)
    (ws : Socket) (rs : jsval) (r3 : completion unit) :
  probeSocket c = Normal (Truthy ws) ->
  ws_readyState ws = Normal rs ->
  strict_eq_3 (if typeof_number rs then rs else JUndefined) = true ->
  ws_removeAllListeners ws = Normal (Function r3) ->
  socket_calls (trace (hardClose c context w).1) =
  socket_calls (trace w) ++ [EvSocketRemoveAllListeners].
Proof.
  intros Hp Hrs Hclosed H3.
  unfold hardClose, try_catch. rewrite run_bind, Hp. simpl.
  rewrite run_bind, Hrs. simpl. rewrite Hclosed.
  rewrite H3, (run_bind (mret tt)). simpl. rewrite run_bind, swallow_call_run.
  step_debugLog. simpl. rewrite Hs. by rewrite socket_calls_app.
Qed.

Lemma hardClose_no_handle (c : Client) (context : Context) (w : world) :
  (forall ws, probeSocket c <> Normal (Truthy ws)) ->
  socket_calls (trace (hardClose c context w).1) = socket_calls (trace w).
Proof.
  intros Hp. unfold hardClose, try_catch. rewrite run_bind.
  destruct (probeSocket c) as [[| |ws]|e]; simpl; try done.
  - by destruct (Hp ws).
  - rewrite run_lift_bind. destruct (describe e); [by step_debugLog | done].
Qed.

(** X5. The hard close is reached when the graceful step returns, as it does
    whenever every exception the wrapper raises is printable. Then, when the
    transport handle that [safeDisconnect] finds reports [readyState] 3
    (closed) and has a method [removeAllListeners], that method is the only
    one called on the handle: neither [close] nor [terminate] is called.
    When the probe finds no handle, or the graceful step itself throws, no
    method of a handle is called. *)
Theorem closed_handle_is_left_alone (c : Client) (context : Context) (w : world) :
  (forall ws rs r3,
     probeSocket c = Normal (Truthy ws) ->
     ws_readyState ws = Normal rs ->
     strict_eq_3 (if typeof_number rs then rs else JUndefined) = true ->
     ws_removeAllListeners ws = Normal (Function r3) ->
     socket_calls (trace (safeDisconnect (Some c) context w).1)
       = socket_calls (trace w) ++
         (if is_normal (gracefulDisconnect c context w).2
          then [EvSocketRemoveAllListeners] else [])) /\
  (printableErrors c = true -> is_normal (gracefulDisconnect c context w).2 = true) /\
  ((forall ws, probeSocket c <> Normal (Truthy ws)) ->
     socket_calls (trace (safeDisconnect (Some c) context w).1) = socket_calls (trace w)).
Proof.
  assert (Hg : safeDisconnect (Some c) context w =
               match (gracefulDisconnect c context w).2 with
               | Normal _ => hardClose c context (gracefulDisconnect c context w).1
               | Throw e => ((gracefulDisconnect c context w).1, Throw e)
               end).
  { simpl. rewrite run_bind. by destruct (gracefulDisconnect c context w) as [w1 [[]|e]]. }
  rewrite Hg. split; [|split].
  - intros ws rs r3 Hp Hrs Hclosed H3.
    destruct (gracefulDisconnect c context w).2 eqn:E; simpl.
    + rewrite (hardClose_closed c context _ ws rs r3) by done.
      by rewrite socket_calls_gracefulDisconnect.
    + by rewrite socket_calls_gracefulDisconnect, app_nil_r.
  - intros Hp. destruct (safe_gracefulDisconnect c context Hp w) as [[] ->]. done.
  - intros Hp. destruct (gracefulDisconnect c context w).2 eqn:E; simpl.
    + rewrite hardClose_no_handle by done. apply socket_calls_gracefulDisconnect.
    + apply socket_calls_gracefulDisconnect.
Qed.

Section Quiet.
Context `{JsRuntime} `{Host}.
Variable d : option string.

Lemma work_allowed (e : event) : work_event e -> log_allowed d e.
Proof. destruct e; simpl; try done; by intros _ []. Qed.

Lemma closing_allowed (e : event) : closing_event d e -> log_allowed d e.
Proof. by intros [_ He]. Qed.

Lemma line_allowed (line : string) :
  enabledBy d = true -> log_allowed d (EvConsoleLog line).
Proof. by intros E _. Qed.

Lemma newClient_allowed (appId : string) : log_allowed d (EvNewClient appId).
Proof. intros []. Qed.

Lemma emits_lookupWith (name : string) (body : Client -> M jsval) :
  (forall client, emits d (log_allowed d) (body client)) ->
  emits d (log_allowed d) (lookupWith name body).
Proof.
  intros Hbody. unfold lookupWith, generateUniqueAppId, constructClient.
  apply emits_bind; [apply emits_lift|]. intros credentials.
  apply emits_bind.
  { apply emits_bind; [apply emits_randomUUID | intros; apply emits_ret]. }
  intros appId.
  apply emits_bind; [apply emits_debugLogAppId, line_allowed|]. intros _.
  apply emits_bind.
  { apply emits_bind; [apply emits_emit, newClient_allowed | intros; apply emits_ret]. }
  intros client.
  apply emits_try_finally; [apply Hbody|].
  eapply emits_weaken; [apply closing_allowed | apply emits_safeDisconnect].
Qed.

Lemma emits_fetchModels (client : Client) (searchParameter : string) :
  emits d (log_allowed d) (fetchModels client searchParameter).
Proof.
  eapply emits_weaken; [apply work_allowed|]. unfold fetchModels. emits_basic.
Qed.

(** X7. [execute], the three option lookups and [safeDisconnect] leave the
    variable SOGNI_N8N_DEBUG_APPID alone, and they write a line with
    [console.log] only when that variable switches the debug lines on, which
    it does exactly when it is set and its value, trimmed and in lower case,
    is one of 1, true, yes and on. *)
Theorem debug_lines_only_on_request :
  emits d (log_allowed d) execute /\
  emits d (log_allowed d) getModelOptions /\
  emits d (log_allowed d) getVideoModelOptions /\
  emits d (log_allowed d) getImageEditModelOptions /\
  (forall client context, emits d (log_allowed d) (safeDisconnect client context)) /\
  (enabledBy d = true <->
   exists raw, d = Some raw /\
     (toLowerCase (trim raw) = "1" \/ toLowerCase (trim raw) = "true" \/
      toLowerCase (trim raw) = "yes" \/ toLowerCase (trim raw) = "on")).
Proof.
  assert (Hclose : forall client context,
            emits d (log_allowed d) (safeDisconnect client context)).
  { intros client context.
    eapply emits_weaken; [apply closing_allowed | apply emits_safeDisconnect]. }
  split; [|split; [|split; [|split; [|split]]]].
  - unfold execute, executionAppId, generateUniqueAppId, constructClient.
    apply emits_bind; [apply emits_newReturnData|]. intros _.
    apply emits_bind; [apply emits_lift|]. intros credentials.
    apply emits_bind; [apply emits_ret|]. intros userProvidedAppId.
    apply emits_bind.
    { destruct (normalizeAppId _); [apply emits_ret|].
      apply emits_bind; [apply emits_randomUUID | intros; apply emits_ret]. }
    intros appId.
    apply emits_bind; [apply emits_debugLogAppId, line_allowed|]. intros _.
    apply emits_bind.
    { apply emits_bind; [apply emits_emit, newClient_allowed | intros; apply emits_ret]. }
    intros client.
    apply emits_try_finally; [|apply Hclose].
    apply emits_bind.
    { eapply emits_weaken; [apply work_allowed | apply emits_runItems]. }
    intros _. apply emits_bind; [apply emits_getReturnData | intros; apply emits_ret].
  - apply (emits_lookupWith "getModelOptions" (fun client => _)). intros client.
    emits_steps emits_fetchModels.
  - apply (emits_lookupWith "getVideoModelOptions" (fun client => _)). intros client.
    emits_steps emits_fetchModels.
  - apply (emits_lookupWith "getImageEditModelOptions" (fun client => _)). intros client.
    emits_steps emits_fetchModels.
  - exact Hclose.
  - unfold enabledBy. rewrite !orb_true_iff, !String.eqb_eq. split.
    + destruct d as [raw|]; [intros Hr; exists raw; tauto|].
      intros [[[Hr|Hr]|Hr]|Hr]; discriminate.
    + intros (raw & -> & Hr). tauto.
Qed.

End Quiet.

(** X5, witness: the handle of the sample client is closed, and shutting the
    client down calls [removeAllListeners] and nothing else on it. *)
Lemma closed_handle_is_left_alone_witness :
  socket_calls (trace (safeDisconnect (Some MoreSamples.promptClient)
                         (executeContext "my-app") Samples.sampleWorld).1)
    = [EvSocketRemoveAllListeners].
Proof.
  exact (proj1 (closed_handle_is_left_alone MoreSamples.promptClient (executeContext "my-app")
                  Samples.sampleWorld)
           MoreSamples.closedSocket (num 3) (Normal tt) eq_refl eq_refl eq_refl eq_refl).
Defined.

(** X6, witness: a client whose [disconnect] resolves after 120 ms is shut
    down in 120 ms, not in the 5000 ms of the bound. *)
Lemma safeDisconnect_elapsed_witness :
  clock (safeDisconnect (Some MoreSamples.promptClient)
           (executeContext "my-app") Samples.sampleWorld).1 = 0 + 120 /\
  disconnectWait MoreSamples.promptClient (executeContext "my-app") = 120.
Proof.
  destruct (safeDisconnect_elapsed MoreSamples.promptClient (executeContext "my-app")
              Samples.sampleWorld) as (Hclock & _ & Hsettles & _).
  split; [exact Hclock|].
  exact (proj1 (Hsettles 120%N (Normal tt) eq_refl) ltac:(by vm_compute)).
Defined.

(** X7, witness: with the variable unset the run of [execute] on the sample
    host records no call that the value [off] would not allow either; [off]
    does not switch the lines on. *)
Lemma debug_lines_only_on_request_witness :
  exists calls,
    trace (@execute Samples.sampleRuntime Samples.sampleHost Samples.sampleWorld).1
      = [] ++ calls /\
    Forall (log_allowed (Some "off")) calls /\ enabledBy (Some "off") = false.
Proof.
  destruct (proj1 (@debug_lines_only_on_request Samples.sampleRuntime Samples.sampleHost None)
              Samples.sampleWorld eq_refl) as (_ & calls & Ht & HF).
  exists calls. split; [exact Ht|]. split; [|reflexivity].
  eapply Forall_impl; [exact HF|]. intros e He Hlog. by apply He in Hlog.
Defined.

End ShutdownFacts.

(* ===================================================================== *)
(** ** The frame quantiser as a function *)
(* ===================================================================== *)

Module QuantizeFacts.
Import Frames Resolve Props FramesFacts.

Lemma closed_form_mono (f g : Z) :
  f <= g -> Z.max 9 (8 * ((f + 3) / 8) + 1) <= Z.max 9 (8 * ((g + 3) / 8) + 1).
Proof.
  intros Hfg.
  assert ((f + 3) / 8 <= (g + 3) / 8) by (apply Z.div_le_mono; lia).
  lia.
Qed.

Lemma closed_form_fixed_iff (f : Z) :
  Z.max 9 (8 * ((f + 3) / 8) + 1) = f <-> 9 <= f /\ f mod 8 = 1.
Proof.
  split.
  - intros Hq. split; [lia|]. rewrite <- Hq. apply closed_form_mod.
  - intros [H9 Hm]. by apply closed_form_fixed.
Qed.

Lemma closed_form_bound (f : Z) :
  f <= 2 ^ 53 - 4 -> Z.max 9 (8 * ((f + 3) / 8) + 1) <= 2 ^ 53 - 4.
Proof.
  intros Hf.
  assert ((f + 3) / 8 <= (2 ^ 53 - 1) / 8) by (apply Z.div_le_mono; lia).
  change ((2 ^ 53 - 1) / 8) with (2 ^ 50 - 1) in *. lia.
Qed.

Lemma whole_inj (a b : Z) : Finite (inject_Z a) = Finite (inject_Z b) -> a = b.
Proof. by intros [= ->]. Qed.

(** X15. On integer frame counts up to [2^53 - 4], where the arithmetic of
    the expression is exact, the frame quantiser yields a whole number, it
    is monotone and idempotent, and its fixed points are exactly the counts
    from 9 on that leave remainder 1 modulo 8; hence resolving an already
    resolved frame count changes nothing, for every model. Beyond that range
    the last addition rounds: [2^53] is a fixed point with remainder 0. On
    the range 10..120 the node description allows, the values lie in 9..121,
    and the upper end is reached: 120 frames become 121, one more than the
    declared maximum. *)
Theorem quantize_is_monotone_and_idempotent :
  (forall f g, f <= g -> g <= 2 ^ 53 - 4 ->
     exists a b, quantize f = Finite (inject_Z a) /\ quantize g = Finite (inject_Z b) /\
                 a <= b) /\
  (forall f, f <= 2 ^ 53 - 4 ->
     exists k, quantize f = Finite (inject_Z k) /\ quantize k = Finite (inject_Z k)) /\
  (forall f, f <= 2 ^ 53 - 4 ->
     (quantize f = Finite (inject_Z f) <-> 9 <= f /\ f mod 8 = 1)) /\
  (quantize (2 ^ 53) = Finite (inject_Z (2 ^ 53)) /\ 2 ^ 53 mod 8 = 0) /\
  (forall videoModelId f, f <= 2 ^ 53 - 4 ->
     exists k, resolveFrames videoModelId f = Finite (inject_Z k) /\
               resolveFrames videoModelId k = Finite (inject_Z k)) /\
  (forall f, Description.framesMinValue <= f <= Description.framesMaxValue ->
     exists k, quantize f = Finite (inject_Z k) /\
               9 <= k <= Description.framesMaxValue + 1) /\
  quantize Description.framesMaxValue = Finite (inject_Z (Description.framesMaxValue + 1)).
Proof.
  assert (Hidem : forall f, f <= 2 ^ 53 - 4 ->
            exists k, quantize f = Finite (inject_Z k) /\ quantize k = Finite (inject_Z k)).
  { intros f Hf. exists (Z.max 9 (8 * ((f + 3) / 8) + 1)).
    split; [by apply quantize_closed_form|].
    rewrite quantize_closed_form by by apply closed_form_bound.
    do 2 f_equal. apply closed_form_fixed; [apply closed_form_floor | apply closed_form_mod]. }
  split; [|split; [done|split; [|split; [|split; [|split]]]]].
  - intros f g Hfg Hg. eexists _, _.
    split; [apply quantize_closed_form; lia|].
    split; [by apply quantize_closed_form|]. by apply closed_form_mono.
  - intros f Hf. rewrite quantize_closed_form by done.
    rewrite <- closed_form_fixed_iff. split; [apply whole_inj | by intros ->].
  - split; [apply quantize_2_53 | done].
  - intros videoModelId f Hf. unfold resolveFrames.
    destruct (isLtx2Model videoModelId); [by apply Hidem | by exists f].
  - intros f [Hlo Hhi]. unfold Description.framesMinValue, Description.framesMaxValue in *.
    eexists. split; [apply quantize_closed_form; lia|].
    split; [apply closed_form_floor|].
    transitivity (Z.max 9 (8 * ((120 + 3) / 8) + 1)); [by apply closed_form_mono | done].
  - by rewrite quantize_closed_form.
Qed.

(** X15, witness: 26 frames do not quantise above 30 frames, 25 is a fixed
    point, and 120 falls in 9..121. *)
Lemma quantize_is_monotone_and_idempotent_witness :
  (exists a b, quantize 26 = Finite (inject_Z a) /\ quantize 30 = Finite (inject_Z b) /\
               a <= b) /\
  quantize 25 = Finite (inject_Z 25) /\
  (exists k, quantize 120 = Finite (inject_Z k) /\ 9 <= k <= 121).
Proof.
  destruct quantize_is_monotone_and_idempotent as (Hmono & _ & Hfix & _ & _ & Hrange & _).
  split; [apply Hmono; lia|]. split; [apply Hfix; [lia | done]|].
  apply Hrange. unfold Description.framesMinValue, Description.framesMaxValue. lia.
Defined.

Lemma Math_round_bounds (x : Q) :
  (x - (1 # 2) < inject_Z (Math_round x))%Q /\ (inject_Z (Math_round x) <= x + (1 # 2))%Q.
Proof.
  unfold Math_round. split.
  - pose proof (Qlt_floor (x + (1 # 2))) as Hlt.
    rewrite inject_Z_plus in Hlt. change (inject_Z 1) with 1%Q in Hlt. lra.
  - apply Qfloor_le.
Qed.

Lemma nearest_form (x : Q) :
  9 <= Z.max 9 (Math_round x * 8 + 1) /\ Z.max 9 (Math_round x * 8 + 1) mod 8 = 1.
Proof.
  split; [lia|].
  destruct (Z.max_spec 9 (Math_round x * 8 + 1)) as [[_ ->]|[_ ->]]; [|done].
  by rewrite Z.add_comm, Z.mod_add.
Qed.

Lemma nearest_near (q : Q) :
  (5 <= q)%Q ->
  (q - 4 < inject_Z (Z.max 9 (Math_round ((q - 1) / 8) * 8 + 1)))%Q /\
  (inject_Z (Z.max 9 (Math_round ((q - 1) / 8) * 8 + 1)) <= q + 4)%Q.
Proof.
  intros Hq.
  destruct (Math_round_bounds ((q - 1) / 8)) as [Hlo Hhi].
  assert (Hx : (8 * ((q - 1) / 8) == q - 1)%Q) by (field; discriminate).
  set (r := Math_round ((q - 1) / 8)) in *.
  set (x := ((q - 1) / 8)%Q) in *.
  assert (Hr : (inject_Z (r * 8 + 1) == 8 * inject_Z r + 1)%Q).
  { rewrite inject_Z_plus, inject_Z_mult. change (inject_Z 8) with 8%Q.
    change (inject_Z 1) with 1%Q. lra. }
  destruct (Z.max_spec 9 (r * 8 + 1)) as [[Hlt ->]|[Hge ->]].
  - rewrite Hr. split; lra.
  - change (inject_Z 9) with 9%Q. split; [|lra].
    assert (inject_Z (r * 8 + 1) <= 9)%Q as Hle.
    { change 9%Q with (inject_Z 9). rewrite <- Zle_Qle. lia. }
    rewrite Hr in Hle. lra.
Qed.

Section Values.
Context `{JsRuntime}.

(** X16. For an LTX-2 model and a frame count that is any value convertible
    to a number: a number up to 1, fraction or not, resolves to 9; a double
    from 1 up to, and not including, [2^53 - 3], given as [m / 2^a] with
    [|m| < 2^53], resolves to the whole number
    [max(9, round((q-1)/8)*8+1)], which is at least 9, leaves remainder 1
    modulo 8 and, when the input is at least 5, lies within 4 of it; minus
    infinity resolves to 9; plus infinity and [NaN] pass through
    unchanged. *)
Theorem ltx2_frames_of_any_value (videoModelId requestedFrames : jsval)
    (lowered : string) (n : number) :
  call_toLowerCase videoModelId = Normal lowered ->
  startsWith lowered "ltx2-" = true ->
  ToNumber requestedFrames = Normal n ->
  match n with
  | Finite q =>
      ((q <= 1)%Q -> resolveFramesValue videoModelId requestedFrames = Normal (num 9)) /\
      (forall m a, dyadic q m a -> (1 <= q)%Q -> (q < inject_Z (2 ^ 53 - 3))%Q ->
         let k := Z.max 9 (Math_round ((q - 1) / 8) * 8 + 1) in
         resolveFramesValue videoModelId requestedFrames = Normal (num k) /\
         9 <= k /\ k mod 8 = 1 /\
         ((5 <= q)%Q -> (q - 4 < inject_Z k)%Q /\ (inject_Z k <= q + 4)%Q))
  | Infinity true => resolveFramesValue videoModelId requestedFrames = Normal (num 9)
  | Infinity false =>
      resolveFramesValue videoModelId requestedFrames = Normal (JNum (Infinity false))
  | NaN => resolveFramesValue videoModelId requestedFrames = Normal (JNum NaN)
  end.
Proof.
  intros Hl Hs Hn. unfold resolveFramesValue, quantizeValue. rewrite Hl. simpl.
  rewrite Hs, Hn. simpl. destruct n as [|[|]|q]; try done. split.
  - intros Hq. by rewrite quantizeNumber_low.
  - intros m a (Ha & Hm & Hqm) H1 Hq.
    rewrite (quantizeNumber_exact q m a) by done.
    split; [done|]. destruct (nearest_form ((q - 1) / 8)) as [H9 Hmod].
    split; [done|]. split; [done|]. apply nearest_near.
Qed.

End Values.

(** X16, witness: 30.5 frames resolve to 33, and a text that is no number
    resolves to [NaN]. *)
Lemma ltx2_frames_of_any_value_witness :
  @resolveFramesValue Samples.sampleRuntime (JStr "LTX2-13B") (JNum (Finite (61 # 2)))
    = Normal (num 33) /\
  @resolveFramesValue Samples.sampleRuntime (JStr "LTX2-13B") (JStr "many")
    = Normal (JNum NaN).
Proof.
  split.
  - refine (proj1 (proj2 (@ltx2_frames_of_any_value Samples.sampleRuntime (JStr "LTX2-13B")
                (JNum (Finite (61 # 2))) "ltx2-13b" (Finite (61 # 2))
                eq_refl eq_refl eq_refl) 61 1 _ _ _)).
    + split; [lia|]. split; [by vm_compute | by vm_compute].
    + by vm_compute.
    + by vm_compute.
  - exact (@ltx2_frames_of_any_value Samples.sampleRuntime (JStr "LTX2-13B")
             (JStr "many") "ltx2-13b" NaN eq_refl eq_refl eq_refl).
Defined.

End QuantizeFacts.

(* ===================================================================== *)
(** ** Type and name of a downloaded artifact *)
(* ===================================================================== *)

Module DownloadFacts.
Import Session Artifacts Props EffFacts TextFacts AssetFacts ArtifactFacts.
Import Observations TrimFacts HelperFacts NamingFacts HeaderFacts.

Lemma fetched_app (l1 l2 : list event) : fetched (l1 ++ l2) = fetched l1 ++ fetched l2.
Proof. apply omap_app. Qed.

Lemma append_nonempty_r (a b : string) : b <> "" -> a +:+ b <> "".
Proof.
  intros Hb Hab. apply (f_equal String.length) in Hab.
  rewrite length_append in Hab. destruct b; [done|]. simpl in Hab. lia.
Qed.

Lemma defaultName_nonempty (base : string) (index : nat) (extension : string) :
  defaultName base index extension <> "".
Proof. unfold defaultName. apply append_nonempty_r. done. Qed.

Section Downloads.
Context `{JsRuntime} `{Host}.

(** What [artifactOf] went through when it produced an artifact. *)
Lemma artifactOf_normal (kind : DownloadKind) (projectId : jsval) (index : nat)
    (resp : Response) (data : jsval) :
  artifactOf kind projectId index (Normal resp) = Normal data ->
  let headers := normalizeHeaders (resp_headers resp) in
  resp_ok resp = true /\
  exists body mimeType named base filename,
    resp_arrayBuffer resp = Normal body /\
    dk_mime kind (nonempty (headers !! "content-type")) body = Normal mimeType /\
    parseContentDispositionFilename (nonempty (headers !! "content-disposition"))
      = Normal named /\
    ToString (nullish projectId (JStr (dk_fallbackId kind))) = Normal base /\
    match nonempty named with
    | Some name => filename = name
    | None => exists extension,
        dk_extension kind mimeType = Normal extension /\
        filename = defaultName base index extension
    end /\
    prepareBinaryData body filename mimeType = Normal data.
Proof.
  intros Ha headers. unfold artifactOf in Ha.
  destruct (headerOf_normalized (resp_headers resp)) as (Hct & Hcd).
  fold headers in Hct, Hcd. simpl in Ha. fold headers in Ha. rewrite Hct, Hcd in Ha.
  destruct (resp_ok resp); [|done]. split; [done|]. simpl in Ha.
  apply cbind_Normal in Ha as (body & Hbody & Ha).
  apply cbind_Normal in Ha as (mimeType & Hmime & Ha).
  apply cbind_Normal in Ha as (named & Hnamed & Ha).
  apply cbind_Normal in Ha as (base & Hbase & Ha).
  apply cbind_Normal in Ha as (filename & Hname & Ha).
  exists body, mimeType, named, base, filename.
  repeat (split; [done|]). split; [|done].
  destruct (nonempty named) as [name|].
  - by injection Hname as <-.
  - apply cbind_Normal in Hname as (extension & Hext & Hname). injection Hname as <-.
    by exists extension.
Qed.

(** The fallback [guessedExt || 'bin'] never applies: [extensionFromMime]
    returns no empty string. *)
Lemma imageExtension_eq (mimeType : string) :
  imageExtension mimeType = Normal (extensionFromMime mimeType).
Proof.
  unfold imageExtension, extensionFromMime.
  by repeat (destruct (String.eqb mimeType _); [done|]).
Qed.

Lemma nonempty_ne (o : option string) (s : string) : nonempty o = Some s -> s <> "".
Proof. by intros [_ ?]%nonempty_Some. Qed.

(** X17. The type and the name of a downloaded artifact. For an image
    (generated or edited) the MIME type is the content type of the response
    when it has one, else the type sniffed from the body, else
    [application/octet-stream]; for a video it is the content type or [video/]
    followed by the output format. The file name is the non-empty name of the
    content disposition when there is one, else the project id (or the
    fallback base) with the index and an extension: the one of the MIME type
    for an image, the output format for a video. Neither the type nor the name
    is ever empty. *)
Theorem artifact_type_and_name (projectId : jsval) (index : nat)
    (resp : Response) (data : jsval) :
  let headers := normalizeHeaders (resp_headers resp) in
  let contentType := nonempty (headers !! "content-type") in
  (forall kind, kind = generatedImages \/ kind = editedImages ->
     artifactOf kind projectId index (Normal resp) = Normal data ->
     exists body mimeType named base filename,
       resp_arrayBuffer resp = Normal body /\
       prepareBinaryData body filename mimeType = Normal data /\
       mimeType <> "" /\ filename <> "" /\
       mimeType = match contentType, sniffMimeType body with
                  | Some declared, _ => declared
                  | None, Some sniffed => sniffed
                  | None, None => "application/octet-stream"
                  end /\
       parseContentDispositionFilename (nonempty (headers !! "content-disposition"))
         = Normal named /\
       ToString (nullish projectId (JStr (dk_fallbackId kind))) = Normal base /\
       filename = match nonempty named with
                  | Some name => name
                  | None => defaultName base index (extensionFromMime mimeType)
                  end) /\
  (forall outputFormat,
     artifactOf (generatedVideos outputFormat) projectId index (Normal resp) = Normal data ->
     exists body mimeType named base filename,
       resp_arrayBuffer resp = Normal body /\
       prepareBinaryData body filename mimeType = Normal data /\
       mimeType <> "" /\ filename <> "" /\
       match contentType with
       | Some declared => mimeType = declared
       | None => exists format,
           ToString outputFormat = Normal format /\ mimeType = "video/" +:+ format
       end /\
       parseContentDispositionFilename (nonempty (headers !! "content-disposition"))
         = Normal named /\
       ToString (nullish projectId (JStr "sogni_video")) = Normal base /\
       match nonempty named with
       | Some name => filename = name
       | None => exists format,
           ToString outputFormat = Normal format /\ filename = defaultName base index format
       end).
Proof.
  intros headers contentType. split.
  - intros kind Hkind Ha.
    apply artifactOf_normal in Ha as (_ & body & mimeType & named & base & filename & Ha).
    fold headers in Ha. fold contentType in Ha.
    destruct Ha as (Hbody & Hmime & Hnamed & Hbase & Hname & Hdata).
    exists body, mimeType, named, base, filename.
    assert (Hm : mimeType = match contentType, sniffMimeType body with
                            | Some declared, _ => declared
                            | None, Some sniffed => sniffed
                            | None, None => "application/octet-stream"
                            end).
    { destruct Hkind as [-> | ->]; simpl in Hmime; unfold imageMime in Hmime;
        injection Hmime as <-; destruct contentType; try done;
        destruct (sniffMimeType body) as [m|] eqn:Hs; try done;
        destruct (sniffMimeType_known body m Hs)
          as [-> | [-> | ->]]; done. }
    assert (Hf : filename = match nonempty named with
                            | Some name => name
                            | None => defaultName base index (extensionFromMime mimeType)
                            end).
    { destruct (nonempty named); [done|]. destruct Hname as (extension & Hext & ->).
      f_equal. destruct Hkind as [-> | ->]; simpl in Hext;
        rewrite imageExtension_eq in Hext; by injection Hext as <-. }
    repeat (split; [done|]). split; [|split; [|done]].
    + rewrite Hm. destruct contentType as [declared|] eqn:Hct.
      * by eapply nonempty_ne.
      * destruct (sniffMimeType body) as [m|] eqn:Hs; [|done].
        destruct (sniffMimeType_known body m Hs)
          as [-> | [-> | ->]]; done.
    + rewrite Hf. destruct (nonempty named) as [name|] eqn:Hn.
      * by eapply nonempty_ne.
      * apply defaultName_nonempty.
  - intros outputFormat Ha.
    apply artifactOf_normal in Ha as (_ & body & mimeType & named & base & filename & Ha).
    fold headers in Ha. fold contentType in Ha.
    destruct Ha as (Hbody & Hmime & Hnamed & Hbase & Hname & Hdata).
    exists body, mimeType, named, base, filename. simpl in Hmime, Hname, Hbase.
    repeat (split; [done|]).
    assert (Hm : match contentType with
                 | Some declared => mimeType = declared
                 | None => exists format,
                     ToString outputFormat = Normal format /\ mimeType = "video/" +:+ format
                 end).
    { destruct contentType; [by injection Hmime as <-|].
      apply cbind_Normal in Hmime as (format & Hfmt & Hmime). injection Hmime as <-.
      by exists format. }
    split; [|split; [|split; [done|split; [done|split; [done|done]]]]].
    + destruct contentType as [declared|] eqn:Hct.
      * rewrite Hm. by eapply nonempty_ne.
      * destruct Hm as (format & _ & ->). done.
    + destruct (nonempty named) as [name|] eqn:Hn.
      * rewrite Hname. by eapply nonempty_ne.
      * destruct Hname as (extension & _ & ->). apply defaultName_nonempty.
Qed.

Lemma downloadFrom_fetched (kind : DownloadKind) (projectId : jsval) (urls : list jsval) :
  forall binary index w,
    fetched (trace (downloadFrom kind projectId binary index urls w).1)
      = fetched (trace w) ++ urls.
Proof.
  induction urls as [|url rest IH]; intros binary index w; simpl.
  - by rewrite app_nil_r.
  - rewrite run_bind, downloadOne_run.
    destruct (artifactOf kind projectId index (fetch url)) as [data|e];
      rewrite IH; simpl; rewrite !fetched_app; simpl;
      by rewrite ?app_nil_r, <- app_assoc.
Qed.

(** X18. The download loop requests each result URL exactly once and in the
    order of the list, whether the earlier downloads succeed or fail; and when
    downloading is switched off, or the job has no result list, it requests
    nothing and attaches nothing. *)
Theorem each_url_is_fetched_once (kind : DownloadKind) (download projectId : jsval)
    (urls : list jsval) (w : world) :
  fetched (trace (downloadFrom kind projectId ∅ 0 urls w).1) = fetched (trace w) ++ urls /\
  (download <> JBool false ->
     fetched (trace (downloadAll kind download projectId (JArr urls) w).1)
       = fetched (trace w) ++ urls) /\
  (forall results, download = JBool false \/ missing results ->
     downloadAll kind download projectId results w = (w, Normal ∅)).
Proof.
  split; [apply downloadFrom_fetched|]. split.
  - intros Hd. unfold downloadAll.
    destruct download as [| |[|]| | | | |]; try done; apply downloadFrom_fetched.
  - intros results [-> | [-> | ->]]; [done| |]; unfold downloadAll;
      by destruct download as [| |[|]| | | | |].
Qed.

End Downloads.
(** X17, witness: a response without headers whose body starts like a PNG
    becomes [p1_2.png] of type [image/png]. *)
Lemma artifact_type_and_name_witness :
  let data := JObj [("data", JBuf [x89; x50; x4e; x47; x0d; x0a; x1a; x0a; x00]);
                    ("fileName", JStr "p1_2.png"); ("mimeType", JStr "image/png")] in
  @artifactOf Samples.sampleRuntime MoreSamples.studioHost generatedImages (JStr "p1") 2
    (Normal MoreSamples.bareResponse) = Normal data /\
  exists body,
    @prepareBinaryData MoreSamples.studioHost body "p1_2.png" "image/png" = Normal data.
Proof.
  intros data. split; [reflexivity|].
  destruct (proj1 (@artifact_type_and_name Samples.sampleRuntime MoreSamples.studioHost
                     (JStr "p1") 2 MoreSamples.bareResponse data)
              generatedImages (or_introl eq_refl) eq_refl)
    as (body & mimeType & named & base & filename & Hb & Hp & _ & _ & Hm & Hn & Hbase & Hf).
  injection Hb as <-. injection Hn as <-. injection Hbase as <-.
  simpl in Hm. subst mimeType. simpl in Hf. subst filename.
  by exists [x89; x50; x4e; x47; x0d; x0a; x1a; x0a; x00].
Defined.

(** X18, witness: three URLs, of which the second answers 404, are requested
    once each, in order. *)
Lemma each_url_is_fetched_once_witness :
  let urls := [JStr "https://cdn.example/a.png"; JStr "https://cdn.example/b.png";
               JStr "https://cdn.example/c.png"] in
  fetched (trace (@downloadAll Samples.sampleRuntime Samples.sampleHost generatedImages
                    (JBool true) (JStr "p1") (JArr urls) Samples.sampleWorld).1)
    = [] ++ urls.
Proof.
  intros urls.
  exact (proj1 (proj2 (@each_url_is_fetched_once Samples.sampleRuntime Samples.sampleHost
                         generatedImages (JBool true) (JStr "p1") urls Samples.sampleWorld))
           ltac:(discriminate)).
Defined.

End DownloadFacts.

(* ===================================================================== *)
(** ** Requests and the records that report them *)
(* ===================================================================== *)

Module BranchFacts.
Import Session Identity Resolve Artifacts Execute LoadOptions Props.
Import EffFacts SessionFacts AssetFacts LoopFacts ArtifactFacts LookupFacts.
Import Observations EmitFacts RunFacts DownloadFacts.

Lemma bind_normal_inv {A B} (m : M A) (k : A -> M B) (w w' : world) (b : B) :
  (m ≫= k) w = (w', Normal b) ->
  exists a w1, m w = (w1, Normal a) /\ k a w1 = (w', Normal b).
Proof.
  rewrite run_bind. destruct (m w) as [w1 [a|e]]; [|done]. intros Hk. by exists a, w1.
Qed.

Lemma lift_normal_inv {A B} (c : completion A) (k : A -> M B) (w w' : world) (b : B) :
  (lift c ≫= k) w = (w', Normal b) -> exists a, c = Normal a /\ k a w = (w', Normal b).
Proof. rewrite run_lift_bind. destruct c as [a|e]; [|done]. intros Hk. by exists a. Qed.

Lemma emit_bind {B} (ev : event) (k : unit -> M B) (w : world) :
  (emit ev ≫= k) w = k tt (record ev w).
Proof. reflexivity. Qed.

Section Branches.
Context `{JsRuntime} `{Host}.

Lemma downloads_downloadAll (kind : DownloadKind) (download projectId urls : jsval)
    (w : world) :
  exists l, trace (downloadAll kind download projectId urls w).1 = trace w ++ l /\
            Forall download_event l.
Proof.
  assert (Hloop : forall us binary index w0,
            exists l, trace (downloadFrom kind projectId binary index us w0).1 = trace w0 ++ l /\
                      Forall download_event l).
  { induction us as [|url rest IH]; intros binary index w0; simpl.
    - exists []. by rewrite app_nil_r.
    - rewrite run_bind, downloadOne_run.
      destruct (artifactOf kind projectId index (fetch url)) as [data|e].
      + destruct (IH (<[slotName (dk_slot kind) index := data]> binary) (S index)
                    (record (EvFetch url) w0)) as (l & Hl & HF).
        exists (EvFetch url :: l). split; [by rewrite Hl; simpl; rewrite <- app_assoc|].
        by constructor.
      + destruct (IH binary (S index)
                    (record (EvConsoleError (failureLine kind index) e)
                       (record (EvFetch url) w0))) as (l & Hl & HF).
        exists (EvFetch url :: EvConsoleError (failureLine kind index) e :: l).
        split; [by rewrite Hl; simpl; rewrite <- !app_assoc|]. by repeat constructor. }
  unfold downloadAll.
  destruct download as [| |[|]| | | | |]; try destruct (truthy urls);
    first [apply Hloop | exists []; by rewrite app_nil_r].
Qed.

(** X19. The record of a successful generation reports what was sent. Each of
    the three generation branches calls its project method once, before any
    download and with nothing but downloads after it; and in the record,
    [steps], [guidance] and [numberOfMedia] (for a video the seventeen
    settings of [videoSettingNames]), the timeout, the network, the token
    type, the model id and the prompt are the values of the configuration of
    that call. *)
Theorem outputs_report_the_request (client : Client) (i : nat) (w w' : world) (o : Output) :
  (imageGenerate client i w = (w', Normal o) ->
     exists config downloads,
       trace w' = trace w ++ EvCreateImageProject config :: downloads /\
       Forall download_event downloads /\
       Forall (fun k => reported o k = prop config k) ["steps"; "guidance"; "numberOfMedia"] /\
       reported o "timeoutMs" = prop config "timeout" /\
       Forall (fun k => metaOf o k = prop config k) ["network"; "tokenType"] /\
       prop (out_json o) "modelId" = prop config "modelId" /\
       prop (out_json o) "prompt" = prop config "positivePrompt") /\
  (imageEdit client i w = (w', Normal o) ->
     exists config downloads,
       trace w' = trace w ++ EvCreateImageEditProject config :: downloads /\
       Forall download_event downloads /\
       Forall (fun k => reported o k = prop config k) ["steps"; "guidance"; "numberOfMedia"] /\
       reported o "timeoutMs" = prop config "timeout" /\
       Forall (fun k => metaOf o k = prop config k) ["network"; "tokenType"] /\
       prop (out_json o) "modelId" = prop config "modelId" /\
       prop (out_json o) "prompt" = prop config "positivePrompt") /\
  (videoGenerate client i w = (w', Normal o) ->
     exists config downloads,
       trace w' = trace w ++ EvCreateVideoProject config :: downloads /\
       Forall download_event downloads /\
       Forall (fun k => reported o k = prop config k) videoSettingNames /\
       reported o "timeoutMs" = prop config "timeout" /\
       Forall (fun k => metaOf o k = prop config k) ["network"; "tokenType"] /\
       prop (out_json o) "modelId" = prop config "modelId" /\
       prop (out_json o) "prompt" = prop config "positivePrompt").
Proof.
  split; [|split].
  - unfold imageGenerate. intros Hr.
    apply lift_normal_inv in Hr as (modelId & _ & Hr).
    apply lift_normal_inv in Hr as (positivePrompt & _ & Hr).
    apply lift_normal_inv in Hr as (additional0 & _ & Hr).
    apply lift_normal_inv in Hr as (networkTop & _ & Hr).
    apply lift_normal_inv in Hr as (controlNet & _ & Hr).
    cbv zeta in Hr. rewrite emit_bind in Hr.
    apply lift_normal_inv in Hr as (r & _ & Hr).
    apply lift_normal_inv in Hr as (projectId & _ & Hr).
    apply lift_normal_inv in Hr as (jobs & _ & Hr).
    apply bind_normal_inv in Hr as (binary & w1 & Hd & Hr).
    injection Hr as <- <-.
    match type of Hd with downloadAll ?k ?d ?p ?u ?w0 = _ =>
      destruct (downloads_downloadAll k d p u w0) as (l & Hl & HF); rewrite Hd in Hl end.
    simpl in Hl. eexists _, l. split; [by rewrite Hl, <- app_assoc|].
    split; [done|]. repeat split; by repeat constructor.
  - unfold imageEdit. intros Hr.
    apply lift_normal_inv in Hr as (modelId & _ & Hr).
    apply lift_normal_inv in Hr as (editPrompt & _ & Hr).
    apply lift_normal_inv in Hr as (p1 & _ & Hr).
    apply lift_normal_inv in Hr as (p2 & _ & Hr).
    apply lift_normal_inv in Hr as (p3 & _ & Hr).
    apply lift_normal_inv in Hr as (network & _ & Hr).
    apply lift_normal_inv in Hr as (additional0 & _ & Hr).
    apply lift_normal_inv in Hr as (e & _ & Hr).
    apply lift_normal_inv in Hr as (contextImages & _ & Hr).
    cbv zeta in Hr. rewrite emit_bind in Hr.
    apply lift_normal_inv in Hr as (r & _ & Hr).
    apply lift_normal_inv in Hr as (projectId & _ & Hr).
    apply lift_normal_inv in Hr as (jobs & _ & Hr).
    apply bind_normal_inv in Hr as (binary & w1 & Hd & Hr).
    injection Hr as <- <-.
    match type of Hd with downloadAll ?k ?d ?p ?u ?w0 = _ =>
      destruct (downloads_downloadAll k d p u w0) as (l & Hl & HF); rewrite Hd in Hl end.
    simpl in Hl. eexists _, l. split; [by rewrite Hl, <- app_assoc|].
    split; [done|]. repeat split; by repeat constructor.
  - unfold videoGenerate. intros Hr.
    apply lift_normal_inv in Hr as (request & Hreq & Hr).
    unfold videoSubmit in Hr. rewrite emit_bind in Hr.
    apply lift_normal_inv in Hr as (vr & _ & Hr).
    unfold videoFinish in Hr.
    apply lift_normal_inv in Hr as (projectId & _ & Hr).
    apply lift_normal_inv in Hr as (jobs & _ & Hr).
    cbv zeta in Hr.
    apply bind_normal_inv in Hr as (binary & w1 & Hd & Hr).
    injection Hr as <- <-.
    match type of Hd with downloadAll ?k ?d ?p ?u ?w0 = _ =>
      destruct (downloads_downloadAll k d p u w0) as (l & Hl & HF); rewrite Hd in Hl end.
    simpl in Hl. exists (vr_config request), l. split; [by rewrite Hl, <- app_assoc|].
    split; [done|].
    unfold videoRequest in Hreq.
    repeat (apply cbind_Normal in Hreq as (? & _ & Hreq)).
    injection Hreq as <-.
    repeat split; by repeat constructor.
Qed.



Lemma pushModels_spec (models : list jsval) :
  forall w, exists records,
    returnData (pushModels models w).1 = returnData w ++ records /\
    trace (pushModels models w).1 = trace w /\
    Forall2 (fun model o => modelSummary model = Normal o)
      (take (List.length records) models) records /\
    match (pushModels models w).2 with
    | Normal _ => List.length records = List.length models
    | Throw e => exists model,
        models !! List.length records = Some model /\ modelSummary model = Throw e
    end.
Proof.
  induction models as [|model rest IH]; intros w; simpl.
  - exists []. by rewrite app_nil_r.
  - rewrite run_lift_bind. destruct (modelSummary model) as [o|e] eqn:Hs.
    + rewrite run_bind. simpl.
      destruct (IH (pushed o w)) as (records & Hd & Ht & HF & Hout).
      exists (o :: records). simpl. rewrite Hd. simpl. split; [by rewrite <- app_assoc|].
      split; [done|]. split; [by constructor|].
      destruct (pushModels rest (pushed o w)).2; [by rewrite Hout | done].
    + exists []. simpl. rewrite app_nil_r. repeat split; try done. by exists model.
Qed.

(** X21. [model]/[getAll] asks for the models at most once, and when it
    succeeds it has pushed one record per model of the answer, in the order of
    the answer, each the summary of its model. Whether it succeeds or fails it
    only appends to [returnData], and no record it appends has a binary part. *)
Theorem getAll_pushes_one_record_per_model (client : Client) (i : nat) (w : world) :
  exists calls records,
    trace (modelGetAll client i w).1 = trace w ++ calls /\
    (List.length calls <= 1)%nat /\ Forall is_models_call calls /\
    returnData (modelGetAll client i w).1 = returnData w ++ records /\
    ((modelGetAll client i w).2 = Normal tt ->
     exists args models,
       calls = [EvGetAvailableModels args] /\
       c_getAvailableModels client args = Normal (JArr models) /\
       Forall2 (fun model o => modelSummary model = Normal o) models records) /\
    (forall model, model ∈ records -> out_binary model = None).
Proof.
  unfold modelGetAll. rewrite run_lift_bind.
  destruct (getNodeParameterOr "options" i (JObj [])) as [options|e].
  2:{ exists [], []. rewrite !app_nil_r.
      repeat split; try done; try (simpl; lia); by intros model Hin%elem_of_nil. }
  rewrite run_lift_bind. destruct (get options "sortByWorkers") as [sortByWorkers|e].
  2:{ exists [], []. rewrite !app_nil_r.
      repeat split; try done; try (simpl; lia); by intros model Hin%elem_of_nil. }
  cbv zeta. rewrite emit_bind.
  match goal with |- context [EvGetAvailableModels ?a] => set (args := a) end.
  rewrite run_lift_bind.
  destruct (c_getAvailableModels client args) as [models|e] eqn:Hm.
  2:{ exists [EvGetAvailableModels args], []. rewrite !app_nil_r. simpl.
      repeat split; try done; try lia; try (by repeat constructor);
        by intros model Hin%elem_of_nil. }
  rewrite run_lift_bind. destruct (as_array models) as [l|e] eqn:Hl.
  2:{ exists [EvGetAvailableModels args], []. rewrite !app_nil_r. simpl.
      repeat split; try done; try lia; try (by repeat constructor);
        by intros model Hin%elem_of_nil. }
  destruct (pushModels_spec l (record (EvGetAvailableModels args) w))
    as (records & Hd & Ht & HF & Hout).
  exists [EvGetAvailableModels args], records.
  split; [by rewrite Ht|]. split; [simpl; lia|]. split; [by repeat constructor|].
  split; [by rewrite Hd|]. split.
  - intros Hn. rewrite Hn in Hout. exists args, l.
    split; [done|]. split.
    + destruct models; try done. by injection Hl as <-.
    + by rewrite Hout, firstn_all in HF.
  - intros o Hin. apply list_elem_of_lookup in Hin as [k Hk].
    destruct (Forall2_lookup_r _ _ _ _ _ HF Hk) as (model & _ & Hs).
    unfold modelSummary in Hs. apply cbind_Normal in Hs as (id & _ & Hs).
    by injection Hs as <-.
Qed.

Lemma optionalContextImage_normal (i : nat) (p : jsval) (image : option (list byte)) :
  optionalContextImage i p = Normal image -> sentIfFound i p image.
Proof.
  unfold optionalContextImage, sentIfFound. intros Ho.
  apply cbind_Normal in Ho as ([|] & Hn & Ho).
  - apply cbind_Normal in Ho as ([|] & Hg & Ho).
    + apply cbind_Normal in Ho as (b & Hb & [= <-]). done.
    + injection Ho as <-. by right.
  - injection Ho as <-. by left.
Qed.

Lemma requiredContextImage_normal (i : nat) (p : jsval) (first : list byte) :
  requiredContextImage i p = Normal first ->
  binaryDataOf i p = Normal true /\ getBinaryDataBuffer i p = Normal first.
Proof.
  unfold requiredContextImage. intros Hr.
  apply cbind_Normal in Hr as ([|] & Hg & Hr); [done|].
  by apply cbind_Normal in Hr as (name & _ & Hr).
Qed.

Lemma contextImagesOf_normal (i : nat) (p1 p2 p3 : jsval) (images : list (list byte)) :
  contextImagesOf i p1 p2 p3 = Normal images ->
  exists first second third,
    binaryDataOf i p1 = Normal true /\ getBinaryDataBuffer i p1 = Normal first /\
    sentIfFound i p2 second /\ sentIfFound i p3 third /\
    images = [first] ++ from_option (fun b => [b]) [] second
                     ++ from_option (fun b => [b]) [] third.
Proof.
  unfold contextImagesOf. intros Hc.
  apply cbind_Normal in Hc as (first & H1 & Hc).
  apply cbind_Normal in Hc as (b2 & H2 & Hc).
  apply cbind_Normal in Hc as (b3 & H3 & Hc). injection Hc as <-.
  apply requiredContextImage_normal in H1 as [Hg Hb].
  apply optionalContextImage_normal in H2, H3.
  by exists first, b2, b3.
Qed.

(** X22. A successful image edit sends between one and three context images,
    and the count the record reports is the number of images sent. The
    names are the values of the parameters [contextImage1Property],
    [contextImage2Property] and [contextImage3Property] (the last two
    defaulting to the empty string), used as they are. The first image is
    what the host's [getBinaryDataBuffer] returns for the first name, which
    the guard found on the item; the second and the third follow in this
    order, each sent exactly when its name is truthy and not blank and the
    guard found it, again as the helper returned it. For a first name that
    is a string and not inherited from [Object.prototype], the guard found
    it because the item's store has an entry for it. *)
Theorem edit_sends_one_to_three_context_images (client : Client) (i : nat)
    (w w' : world) (o : Output) :
  imageEdit client i w = (w', Normal o) ->
  exists config images first second third p1 p2 p3,
    getNodeParameter "contextImage1Property" i = Normal p1 /\
    getNodeParameterOr "contextImage2Property" i (JStr "") = Normal p2 /\
    getNodeParameterOr "contextImage3Property" i (JStr "") = Normal p3 /\
    EvCreateImageEditProject config ∈ trace w' /\
    prop config "contextImages" = JArr (JBuf <$> images) /\
    prop (out_json o) "contextImagesCount" = num (Z.of_nat (List.length images)) /\
    (1 <= List.length images <= 3)%nat /\
    images = [first] ++ from_option (fun b => [b]) [] second
                     ++ from_option (fun b => [b]) [] third /\
    binaryDataOf i p1 = Normal true /\ getBinaryDataBuffer i p1 = Normal first /\
    sentIfFound i p2 second /\ sentIfFound i p3 third /\
    (forall item name, getInputData !! i = Some item -> p1 = JStr name ->
       name ∉ inheritedNames -> is_Some (binaryOf i name)).
Proof.
  unfold imageEdit. intros Hr.
  apply lift_normal_inv in Hr as (modelId & _ & Hr).
  apply lift_normal_inv in Hr as (editPrompt & _ & Hr).
  apply lift_normal_inv in Hr as (p1 & Hp1 & Hr).
  apply lift_normal_inv in Hr as (p2 & Hp2 & Hr).
  apply lift_normal_inv in Hr as (p3 & Hp3 & Hr).
  apply lift_normal_inv in Hr as (network & _ & Hr).
  apply lift_normal_inv in Hr as (additional0 & _ & Hr).
  apply lift_normal_inv in Hr as (e & _ & Hr).
  apply lift_normal_inv in Hr as (images & Himages & Hr).
  cbv zeta in Hr. rewrite emit_bind in Hr.
  apply lift_normal_inv in Hr as (r & _ & Hr).
  apply lift_normal_inv in Hr as (projectId & _ & Hr).
  apply lift_normal_inv in Hr as (jobs & _ & Hr).
  apply bind_normal_inv in Hr as (binary & w1 & Hd & Hr).
  injection Hr as <- <-.
  match type of Hd with downloadAll ?k ?d ?p ?u ?w0 = _ =>
    destruct (downloads_downloadAll k d p u w0) as (l & Hl & HF); rewrite Hd in Hl end.
  simpl in Hl.
  apply contextImagesOf_normal in Himages
    as (first & second & third & Hg & Hb & H2 & H3 & Himages).
  eexists _, images, first, second, third, p1, p2, p3.
  split; [done|]. split; [done|]. split; [done|]. split.
  { rewrite Hl. simpl. apply elem_of_app. left. apply elem_of_app. right. constructor. }
  split; [reflexivity|]. split; [reflexivity|]. split.
  { rewrite Himages. destruct second, third; simpl; lia. }
  repeat (split; [done|]).
  intros item name Hi -> Hname.
  rewrite (binaryDataOf_plain i item name Hi Hname) in Hg.
  injection Hg as Hg. by apply bool_decide_eq_true_1 in Hg.
Qed.

Lemma bufferOrUndefined_flag (binding : option (list byte)) :
  let flag := JBool (bool_decide (is_Some binding)) in
  (flag = JBool true <-> exists bytes, bufferOrUndefined binding = JBuf bytes) /\
  (flag = JBool false <-> bufferOrUndefined binding = JUndefined).
Proof.
  destruct binding as [bytes|]; simpl; split; split; try done.
  - intros _. by exists bytes.
  - by intros [bytes ?].
Qed.

(** X26. The record of a successful video generation tells which assets were
    sent: for each of the four reference bindings the flag under
    [providedAssets] is [true] exactly when the configuration carries a buffer
    for it and [false] exactly when it carries none; the SAM2 count is the
    number of coordinates sent; and a ControlNet is reported exactly when one
    is sent, with the same type and strength. *)
Theorem video_output_reports_its_assets (client : Client) (i : nat)
    (w w' : world) (o : Output) :
  videoGenerate client i w = (w', Normal o) ->
  exists config,
    EvCreateVideoProject config ∈ trace w' /\
    Forall (fun k =>
              (providedAsset o k = JBool true <-> exists bytes, prop config k = JBuf bytes) /\
              (providedAsset o k = JBool false <-> prop config k = JUndefined))
      referenceNames /\
    providedAsset o "sam2Coordinates"
      = num (Z.of_nat (List.length (elementsOf (prop config "sam2Coordinates")))) /\
    (reported o "videoControlNet" = JUndefined /\ prop config "controlNet" = JUndefined \/
     exists type strength,
       reported o "videoControlNet" = JObj [("type", type); ("strength", strength)] /\
       prop config "controlNet" = JObj [("name", type); ("strength", strength)]).
Proof.
  unfold videoGenerate. intros Hr.
  apply lift_normal_inv in Hr as (request & Hreq & Hr).
  unfold videoSubmit in Hr. rewrite emit_bind in Hr.
  apply lift_normal_inv in Hr as (vr & _ & Hr).
  unfold videoFinish in Hr.
  apply lift_normal_inv in Hr as (projectId & _ & Hr).
  apply lift_normal_inv in Hr as (jobs & _ & Hr).
  cbv zeta in Hr.
  apply bind_normal_inv in Hr as (binary & w1 & Hd & Hr).
  injection Hr as <- <-.
  match type of Hd with downloadAll ?k ?d ?p ?u ?w0 = _ =>
    destruct (downloads_downloadAll k d p u w0) as (l & Hl & HF); rewrite Hd in Hl end.
  simpl in Hl. exists (vr_config request).
  split.
  { rewrite Hl. apply elem_of_app. left. apply elem_of_app. right. constructor. }
  unfold videoRequest in Hreq.
  apply cbind_Normal in Hreq as (videoModelId & _ & Hreq).
  apply cbind_Normal in Hreq as (videoPositivePrompt & _ & Hreq).
  apply cbind_Normal in Hreq as (videoNetwork & _ & Hreq).
  apply cbind_Normal in Hreq as (additional0 & _ & Hreq).
  apply cbind_Normal in Hreq as (v & _ & Hreq).
  apply cbind_Normal in Hreq as (p1 & _ & Hreq).
  apply cbind_Normal in Hreq as (p2 & _ & Hreq).
  apply cbind_Normal in Hreq as (p3 & _ & Hreq).
  apply cbind_Normal in Hreq as (p4 & _ & Hreq).
  apply cbind_Normal in Hreq as (a1 & _ & Hreq).
  apply cbind_Normal in Hreq as (a2 & _ & Hreq).
  apply cbind_Normal in Hreq as (a3 & _ & Hreq).
  apply cbind_Normal in Hreq as (a4 & _ & Hreq).
  apply cbind_Normal in Hreq as (text & _ & Hreq).
  apply cbind_Normal in Hreq as (coordinates & _ & Hreq).
  injection Hreq as <-.
  split; [|split].
  - unfold referenceNames. repeat constructor; apply bufferOrUndefined_flag.
  - reflexivity.
  - unfold reported. simpl.
    destruct (truthy _); [right | left]; [by eexists _, _ | done].
Qed.

End Branches.
(** X19, witness: the image edit of the sample host sends and reports 4 steps
    and the timeout of 60000 ms of the fast network. *)
Lemma outputs_report_the_request_witness :
  exists (o : Output) config downloads,
    trace (@imageEdit MoreSamples.decimalRuntime MoreSamples.studioHost MoreSamples.promptClient 0
             Samples.sampleWorld).1
      = [] ++ EvCreateImageEditProject config :: downloads /\
    reported o "steps" = prop config "steps" /\ prop config "steps" = num 4 /\
    reported o "timeoutMs" = prop config "timeout" /\ prop config "timeout" = num 60000.
Proof.
  destruct (@imageEdit MoreSamples.decimalRuntime MoreSamples.studioHost MoreSamples.promptClient 0
              Samples.sampleWorld) as [w' [o|e]] eqn:Hrun; [|discriminate Hrun].
  destruct (proj1 (proj2 (@outputs_report_the_request MoreSamples.decimalRuntime
                            MoreSamples.studioHost MoreSamples.promptClient 0
                            Samples.sampleWorld w' o)) Hrun)
    as (config & downloads & Ht & _ & Hs & Htime & _).
  exists o, config, downloads. split; [exact Ht|].
  inversion Hs as [|? ? Hsteps _]; subst.
  split; [exact Hsteps|].
  assert (Hw : w' = (@imageEdit MoreSamples.decimalRuntime MoreSamples.studioHost
                       MoreSamples.promptClient 0 Samples.sampleWorld).1) by (by rewrite Hrun).
  rewrite Hw in Ht. vm_compute in Ht. injection Ht as <- _.
  split; [reflexivity|]. split; [exact Htime | reflexivity].
Defined.


(** X21, witness: with the sample client one call is made and its three models
    give the records. *)
Lemma getAll_pushes_one_record_per_model_witness :
  exists calls records,
    trace (@modelGetAll MoreSamples.studioHost MoreSamples.promptClient 0 Samples.sampleWorld).1
      = [] ++ calls /\
    returnData (@modelGetAll MoreSamples.studioHost MoreSamples.promptClient 0
                  Samples.sampleWorld).1 = [] ++ records /\
    exists args models,
      calls = [EvGetAvailableModels args] /\
      c_getAvailableModels MoreSamples.promptClient args = Normal (JArr models) /\
      Forall2 (fun model o => modelSummary model = Normal o) models records.
Proof.
  destruct (@getAll_pushes_one_record_per_model MoreSamples.studioHost MoreSamples.promptClient 0
              Samples.sampleWorld) as (calls & records & Ht & _ & _ & Hd & Hok & _).
  exists calls, records. split; [exact Ht|]. split; [exact Hd|]. exact (Hok eq_refl).
Defined.

(** X22, witness: the sample item carries [data] but no [mask], so one image
    is sent and counted. *)
Lemma edit_sends_one_to_three_context_images_witness :
  exists (o : Output) (images : list (list byte)),
    (@imageEdit MoreSamples.decimalRuntime MoreSamples.studioHost MoreSamples.promptClient 0
       Samples.sampleWorld).2 = Normal o /\
    prop (out_json o) "contextImagesCount" = num (Z.of_nat (List.length images)) /\
    (1 <= List.length images <= 3)%nat.
Proof.
  destruct (@imageEdit MoreSamples.decimalRuntime MoreSamples.studioHost MoreSamples.promptClient 0
              Samples.sampleWorld) as [w' [o|e]] eqn:Hrun; [|discriminate Hrun].
  destruct (@edit_sends_one_to_three_context_images MoreSamples.decimalRuntime
              MoreSamples.studioHost MoreSamples.promptClient 0 Samples.sampleWorld w' o Hrun)
    as (config & images & first & second & third & p1 & p2 & p3
        & _ & _ & _ & _ & _ & Hcount & Hlen & _).
  by exists o, images.
Defined.

(** X26, witness: the sample video request has no reference image and one SAM2
    point, and its record says so. *)
Lemma video_output_reports_its_assets_witness :
  exists (o : Output) config,
    (@videoGenerate Samples.sampleRuntime Samples.videoHost Samples.hangingClient 0
       Samples.sampleWorld).2 = Normal o /\
    providedAsset o "referenceImage" = JBool false /\
    prop config "referenceImage" = JUndefined /\
    providedAsset o "sam2Coordinates" = num 1.
Proof.
  destruct (@videoGenerate Samples.sampleRuntime Samples.videoHost Samples.hangingClient 0
              Samples.sampleWorld) as [w' [o|e]] eqn:Hrun; [|discriminate Hrun].
  destruct (@video_output_reports_its_assets Samples.sampleRuntime Samples.videoHost
              Samples.hangingClient 0 Samples.sampleWorld w' o Hrun)
    as (config & _ & Hrefs & _).
  inversion Hrefs as [|? ? [_ Hfalse] _]; subst.
  assert (Ho : (@videoGenerate Samples.sampleRuntime Samples.videoHost Samples.hangingClient 0
                  Samples.sampleWorld).2 = Normal o) by (by rewrite Hrun).
  vm_compute in Ho. injection Ho as <-.
  eexists. exists config. split; [reflexivity|]. split; [reflexivity|].
  split; [by apply Hfalse | reflexivity].
Defined.

End BranchFacts.

(* ===================================================================== *)
(** ** The requests the generation branches submit *)
(* ===================================================================== *)

Module RequestFacts.
Import Session Identity Resolve Artifacts Execute LoadOptions Props Frames.
Import EffFacts SessionFacts AssetFacts ResolveFacts ArtifactFacts.
Import Observations DownloadFacts BranchFacts.

Lemma submitted_app (l1 l2 : list event) :
  submitted (l1 ++ l2) = submitted l1 ++ submitted l2.
Proof. apply omap_app. Qed.

Lemma submitted_downloads (l : list event) : Forall download_event l -> submitted l = [].
Proof.
  induction 1 as [|e l He _ IH]; [done|]. destruct e; try done; exact IH.
Qed.


Section Requests.
Context `{JsRuntime} `{Host}.

Lemma downloading_ret {A} (a : A) : downloading (mret a : M A).
Proof. intros w. exists []. by rewrite app_nil_r. Qed.

Lemma downloading_lift {A B} (c : completion A) (k : A -> M B) :
  (forall a, downloading (k a)) -> downloading (lift c ≫= k).
Proof.
  intros Hk w. rewrite run_lift_bind. destruct c as [a|e]; [apply Hk|].
  exists []. by rewrite app_nil_r.
Qed.

Lemma downloading_bind {A B} (m : M A) (k : A -> M B) :
  downloading m -> (forall a, downloading (k a)) -> downloading (m ≫= k).
Proof.
  intros Hm Hk w. rewrite run_bind. destruct (Hm w) as (l1 & Hl1 & HF1).
  destruct (m w) as [w1 [a|e]]; simpl in *.
  - destruct (Hk a w1) as (l2 & Hl2 & HF2). exists (l1 ++ l2).
    rewrite Hl2, Hl1, app_assoc. split; [done|]. by apply Forall_app.
  - by exists l1.
Qed.

Lemma downloading_downloadAll (kind : DownloadKind) (download projectId urls : jsval) :
  downloading (downloadAll kind download projectId urls).
Proof. intros w. apply downloads_downloadAll. Qed.

Ltac downloads_only :=
  repeat (cbv zeta;
          first [ apply downloading_ret
                | apply downloading_lift; intros ?
                | apply downloading_bind; [apply downloading_downloadAll | intros ?] ]).

Lemma submitted_then_downloads {A} (ev : event) (k : unit -> M A) (w : world) :
  (forall u, downloading (k u)) ->
  exists downloads,
    trace ((emit ev ≫= k) w).1 = trace w ++ ev :: downloads /\
    Forall download_event downloads.
Proof.
  intros Hrest. rewrite emit_bind. destruct (Hrest tt (record ev w)) as (l & Hl & HF).
  exists l. rewrite Hl. simpl. by rewrite <- app_assoc.
Qed.


(** The request of an image generation, once its parameters have been read
    and the ControlNet block has returned. *)
Lemma imageGenerate_request (client : Client) (i : nat) (w : world)
    (modelId positivePrompt additional0 networkTop : jsval)
    (controlNet : list (string * jsval)) :
  getNodeParameter "modelId" i = Normal modelId ->
  getNodeParameter "positivePrompt" i = Normal positivePrompt ->
  getNodeParameterOr "additionalFields" i (JObj []) = Normal additional0 ->
  getNodeParameter "network" i = Normal networkTop ->
  controlNetOf i (or_else additional0 (JObj [])) = Normal controlNet ->
  let g := resolveGenerate networkTop (or_else additional0 (JObj [])) in
  exists config downloads,
    trace (imageGenerate client i w).1
      = trace w ++ EvCreateImageProject config :: downloads /\
    Forall download_event downloads /\
    Forall (fun kv => prop config kv.1 = kv.2)
      [("steps", g_steps g); ("guidance", g_guidance g);
       ("numberOfMedia", g_numberOfMedia g); ("seed", g_seed g);
       ("width", g_width g); ("height", g_height g);
       ("network", g_network g); ("timeout", g_resolvedTimeoutMs g)].
Proof.
  intros Hm Hp Ha Hn Hcn g. unfold imageGenerate.
  rewrite run_lift_bind, Hm, run_lift_bind, Hp, run_lift_bind, Ha, run_lift_bind, Hn.
  cbv zeta. rewrite run_lift_bind, Hcn.
  match goal with |- context [(emit (EvCreateImageProject ?c) ≫= ?k) w] =>
    destruct (submitted_then_downloads (EvCreateImageProject c) k w) as (downloads & Ht & HF);
      [intros u; downloads_only | exists c, downloads]
  end.
  split; [exact Ht|]. split; [exact HF|]. by repeat constructor.
Qed.

(** The request of an image edit, once its parameters have been read and
    resolved and the context images have been collected. *)
Lemma imageEdit_request (client : Client) (i : nat) (w : world)
    (modelId editPrompt p1 p2 p3 network additional0 : jsval)
    (e : EditResolved) (images : list (list byte)) :
  getNodeParameter "imageEditModelId" i = Normal modelId ->
  getNodeParameter "imageEditPrompt" i = Normal editPrompt ->
  getNodeParameter "contextImage1Property" i = Normal p1 ->
  getNodeParameterOr "contextImage2Property" i (JStr "") = Normal p2 ->
  getNodeParameterOr "contextImage3Property" i (JStr "") = Normal p3 ->
  getNodeParameter "imageEditNetwork" i = Normal network ->
  getNodeParameterOr "imageEditAdditionalFields" i (JObj []) = Normal additional0 ->
  resolveEdit modelId network (or_else additional0 (JObj [])) = Normal e ->
  contextImagesOf i p1 p2 p3 = Normal images ->
  exists config downloads,
    trace (imageEdit client i w).1
      = trace w ++ EvCreateImageEditProject config :: downloads /\
    Forall download_event downloads /\
    Forall (fun kv => prop config kv.1 = kv.2)
      [("steps", e_steps e); ("guidance", e_guidance e);
       ("numberOfMedia", e_numberOfMedia e); ("seed", e_seed e);
       ("width", e_width e); ("height", e_height e);
       ("network", network); ("timeout", e_resolvedTimeoutMs e)].
Proof.
  intros Hm Hp H1 H2 H3 Hn Ha He Hc. unfold imageEdit.
  rewrite run_lift_bind, Hm, run_lift_bind, Hp, run_lift_bind, H1, run_lift_bind, H2,
    run_lift_bind, H3, run_lift_bind, Hn, run_lift_bind, Ha.
  cbv zeta. rewrite run_lift_bind, He, run_lift_bind, Hc.
  match goal with |- context [(emit (EvCreateImageEditProject ?c) ≫= ?k) w] =>
    destruct (submitted_then_downloads (EvCreateImageEditProject c) k w)
      as (downloads & Ht & HF);
      [intros u; downloads_only | exists c, downloads]
  end.
  split; [exact Ht|]. split; [exact HF|]. by repeat constructor.
Qed.

(** The request of a video generation is the one [videoRequest] built. *)
Lemma videoGenerate_request (client : Client) (i : nat) (w : world)
    (request : VideoRequest) :
  videoRequest i = Normal request ->
  exists downloads,
    trace (videoGenerate client i w).1
      = trace w ++ EvCreateVideoProject (vr_config request) :: downloads /\
    Forall download_event downloads.
Proof.
  intros Hr. unfold videoGenerate. rewrite run_lift_bind, Hr. unfold videoSubmit.
  apply submitted_then_downloads. intros u. unfold videoFinish. downloads_only.
Qed.

Lemma videoRequest_fields (i : nat) (request : VideoRequest) :
  videoRequest i = Normal request ->
  exists videoModelId videoNetwork additional0 v,
    getNodeParameter "videoModelId" i = Normal videoModelId /\
    getNodeParameter "videoNetwork" i = Normal videoNetwork /\
    getNodeParameterOr "videoAdditionalFields" i (JObj []) = Normal additional0 /\
    resolveVideo videoModelId (or_else additional0 (JObj [])) = Normal v /\
    Forall (fun kv => prop (vr_config request) kv.1 = kv.2)
      [("frames", v_frames v); ("duration", v_duration v); ("fps", v_fps v);
       ("steps", v_steps v); ("guidance", v_guidance v); ("shift", v_shift v);
       ("teacacheThreshold", v_teacacheThreshold v);
       ("numberOfMedia", v_numberOfMedia v); ("seed", v_seed v);
       ("width", v_width v); ("height", v_height v);
       ("network", videoNetwork);
       ("timeout", videoTimeout (v_timeoutInput v) videoNetwork)].
Proof.
  unfold videoRequest. intros Hr.
  apply cbind_Normal in Hr as (videoModelId & Hid & Hr).
  apply cbind_Normal in Hr as (videoPositivePrompt & _ & Hr).
  apply cbind_Normal in Hr as (videoNetwork & Hn & Hr).
  apply cbind_Normal in Hr as (additional0 & Hadd & Hr).
  apply cbind_Normal in Hr as (v & Hv & Hr).
  repeat (apply cbind_Normal in Hr as (? & _ & Hr)).
  injection Hr as <-.
  exists videoModelId, videoNetwork, additional0, v.
  repeat (split; [done|]). by repeat constructor.
Qed.

(** What [resolveVideo] makes of the fields that have one source. *)
Lemma resolveVideo_fields (videoModelId videoAdditional : jsval) (v : VideoResolved) :
  resolveVideo videoModelId videoAdditional = Normal v ->
  let videoSettings := group videoAdditional "videoSettings" in
  let videoOutput := group videoAdditional "output" in
  resolveFramesValue videoModelId (nullish (prop videoSettings "frames") (num 30))
    = Normal (v_frames v) /\
  v_duration v = prop videoSettings "duration" /\
  v_fps v = nullish (prop videoSettings "fps") (num 30) /\
  v_steps v = nullish (prop videoSettings "steps") (num 20) /\
  v_guidance v = nullish (prop videoSettings "guidance") (JNum (Finite (15 # 2))) /\
  v_shift v = prop videoSettings "shift" /\
  v_teacacheThreshold v = prop videoSettings "teacacheThreshold" /\
  v_numberOfMedia v = nullish (prop videoSettings "numberOfMedia") (num 1) /\
  v_seed v = prop videoSettings "seed" /\
  v_width v = nullish (prop videoOutput "width") (num 512) /\
  v_height v = nullish (prop videoOutput "height") (num 512).
Proof.
  unfold resolveVideo. intros Hv. cbv zeta in *.
  apply cbind_Normal in Hv as (frames & Hf & Hv). injection Hv as <-. by rewrite Hf.
Qed.

Lemma resolveFramesValue_NaN (videoModelId frames : jsval) :
  resolveFramesValue videoModelId (JNum NaN) = Normal frames -> frames = JNum NaN.
Proof.
  unfold resolveFramesValue. intros Hf.
  apply cbind_Normal in Hf as (lowered & _ & Hf).
  destruct (startsWith lowered "ltx2-"); by injection Hf as <-.
Qed.

Lemma resolveEdit_fields (modelId network additional : jsval) (e : EditResolved) :
  resolveEdit modelId network additional = Normal e ->
  e_numberOfMedia e = nullish (prop (group additional "generationSettings") "numberOfMedia")
                        (num 1) /\
  e_seed e = prop (group additional "generationSettings") "seed" /\
  e_width e = prop (group additional "output") "width" /\
  e_height e = prop (group additional "output") "height".
Proof.
  unfold resolveEdit. intros He.
  apply cbind_Normal in He as (lowered & _ & He). by injection He as <-.
Qed.

(** C3. For a request in which no parameter source defines a timeout, the
    timeout of the request that is submitted is the default of the chosen
    network tier: 60000 ms for [fast] and 600000 ms otherwise in the request
    of an image generation and of an image edit, 120000 ms for [fast] and
    1200000 ms otherwise in the request of a video generation; each video
    default is strictly larger than the image default of the same tier. In
    each branch the request is the one call recorded, followed by downloads
    only. *)
Theorem default_timeout_by_tier (client : Client) (i : nat) (w : world) :
  (forall modelId positivePrompt additional0 networkTop controlNet,
     let additional := or_else additional0 (JObj []) in
     getNodeParameter "modelId" i = Normal modelId ->
     getNodeParameter "positivePrompt" i = Normal positivePrompt ->
     getNodeParameterOr "additionalFields" i (JObj []) = Normal additional0 ->
     getNodeParameter "network" i = Normal networkTop ->
     controlNetOf i additional = Normal controlNet ->
     missing (prop (group additional "advanced") "timeout") ->
     missing (prop additional "timeout") ->
     exists config downloads,
       trace (imageGenerate client i w).1
         = trace w ++ EvCreateImageProject config :: downloads /\
       Forall download_event downloads /\
       prop config "network"
         = nullish networkTop (nullish (prop additional "network") (JStr "fast")) /\
       prop config "timeout"
         = if is_str (prop config "network") "fast" then num 60000 else num 600000) /\
  (forall modelId editPrompt p1 p2 p3 network additional0 e images,
     let additional := or_else additional0 (JObj []) in
     getNodeParameter "imageEditModelId" i = Normal modelId ->
     getNodeParameter "imageEditPrompt" i = Normal editPrompt ->
     getNodeParameter "contextImage1Property" i = Normal p1 ->
     getNodeParameterOr "contextImage2Property" i (JStr "") = Normal p2 ->
     getNodeParameterOr "contextImage3Property" i (JStr "") = Normal p3 ->
     getNodeParameter "imageEditNetwork" i = Normal network ->
     getNodeParameterOr "imageEditAdditionalFields" i (JObj []) = Normal additional0 ->
     resolveEdit modelId network additional = Normal e ->
     contextImagesOf i p1 p2 p3 = Normal images ->
     missing (prop (group additional "advanced") "timeout") ->
     exists config downloads,
       trace (imageEdit client i w).1
         = trace w ++ EvCreateImageEditProject config :: downloads /\
       Forall download_event downloads /\
       prop config "network" = network /\
       prop config "timeout"
         = if is_str network "fast" then num 60000 else num 600000) /\
  (forall request videoNetwork additional0,
     videoRequest i = Normal request ->
     getNodeParameter "videoNetwork" i = Normal videoNetwork ->
     getNodeParameterOr "videoAdditionalFields" i (JObj []) = Normal additional0 ->
     missing (prop (group (or_else additional0 (JObj [])) "advanced") "timeout") ->
     exists downloads,
       trace (videoGenerate client i w).1
         = trace w ++ EvCreateVideoProject (vr_config request) :: downloads /\
       Forall download_event downloads /\
       prop (vr_config request) "network" = videoNetwork /\
       prop (vr_config request) "timeout"
         = (if is_str videoNetwork "fast" then num 120000 else num 1200000) /\
       (videoNetwork = JStr "fast" -> prop (vr_config request) "timeout" = num 120000)) /\
  60000 < 120000 /\ 600000 < 1200000.
Proof.
  destruct resolved_timeout_defaults as (Hgen & Hedit & Hvideo & _).
  split; [|split; [|split; [|lia]]].
  - intros modelId positivePrompt additional0 networkTop controlNet additional
      Hm Hp Ha Hn Hcn Hadv Hlegacy.
    destruct (imageGenerate_request client i w _ _ _ _ _ Hm Hp Ha Hn Hcn)
      as (config & downloads & Ht & HF & Hfields).
    exists config, downloads. split; [done|]. split; [done|].
    rewrite !Forall_cons in Hfields.
    destruct Hfields as (_ & _ & _ & _ & _ & _ & Hnet & Htime & _). simpl in Hnet, Htime.
    split; [by rewrite Hnet|]. rewrite Htime, Hnet.
    by apply (Hgen networkTop additional).
  - intros modelId editPrompt p1 p2 p3 network additional0 e images additional
      Hm Hp H1 H2 H3 Hn Ha He Hc Hadv.
    destruct (imageEdit_request client i w _ _ _ _ _ _ _ _ _ Hm Hp H1 H2 H3 Hn Ha He Hc)
      as (config & downloads & Ht & HF & Hfields).
    exists config, downloads. split; [done|]. split; [done|].
    rewrite !Forall_cons in Hfields.
    destruct Hfields as (_ & _ & _ & _ & _ & _ & Hnet & Htime & _). simpl in Hnet, Htime.
    split; [done|]. rewrite Htime. by apply (Hedit modelId network additional).
  - intros request videoNetwork additional0 Hr Hn Ha Hadv.
    destruct (videoGenerate_request client i w request Hr) as (downloads & Ht & HF).
    destruct (videoRequest_fields i request Hr)
      as (videoModelId & videoNetwork' & additional0' & v & _ & Hn' & Ha' & Hv & Hfields).
    rewrite Hn in Hn'. injection Hn' as <-. rewrite Ha in Ha'. injection Ha' as <-.
    exists downloads. split; [done|]. split; [done|].
    rewrite !Forall_cons in Hfields.
    destruct Hfields as (_ & _ & _ & _ & _ & _ & _ & _ & _ & _ & _ & Hnet & Htime & _).
    simpl in Hnet, Htime. split; [done|].
    assert (Hdefault : prop (vr_config request) "timeout"
                       = if is_str videoNetwork "fast" then num 120000 else num 1200000).
    { rewrite Htime. by apply (Hvideo videoModelId videoNetwork (or_else additional0 (JObj [])) v). }
    split; [done|]. intros ->. by rewrite Hdefault.
Qed.

(** C5, as amended. In the request that is submitted, the timeout of an
    image generation, an image edit or a video generation, and the steps
    and the guidance of an image edit, are never [NaN]: where the input
    arrives as [NaN] the derived default takes its place, exactly as for an
    undefined input and without a later source being consulted (the
    network-tier timeout; 4 or 20 steps and guidance 1 or 4 by the model);
    and a [NaN] frame count is left out of the parameters of a video cost
    estimate. In every other numeric field of these requests ([steps],
    [guidance], [numberOfMedia], [seed], [width] and [height] of an image
    generation; [numberOfMedia], [seed], [width] and [height] of an image
    edit; [frames], [duration], [fps], [steps], [guidance], [shift],
    [teacacheThreshold], [numberOfMedia], [seed], [width] and [height] of a
    video generation) a [NaN] that arrives in the first source of the field
    is the value submitted. *)
Theorem nan_replaced_by_derived_default (client : Client) (i : nat) (w : world) :
  (forall modelId positivePrompt additional0 networkTop controlNet,
     let additional := or_else additional0 (JObj []) in
     let gen := group additional "generationSettings" in
     let out := group additional "output" in
     getNodeParameter "modelId" i = Normal modelId ->
     getNodeParameter "positivePrompt" i = Normal positivePrompt ->
     getNodeParameterOr "additionalFields" i (JObj []) = Normal additional0 ->
     getNodeParameter "network" i = Normal networkTop ->
     controlNetOf i additional = Normal controlNet ->
     exists config downloads,
       trace (imageGenerate client i w).1
         = trace w ++ EvCreateImageProject config :: downloads /\
       Forall download_event downloads /\
       prop config "timeout" <> JNum NaN /\
       (prop (group additional "advanced") "timeout" = JNum NaN ->
        prop config "timeout"
          = if is_str (prop config "network") "fast" then num 60000 else num 600000) /\
       Forall (fun kv => kv.2 = JNum NaN -> prop config kv.1 = JNum NaN)
         [("steps", prop gen "steps"); ("guidance", prop gen "guidance");
          ("numberOfMedia", prop gen "numberOfMedia"); ("seed", prop gen "seed");
          ("width", prop out "width"); ("height", prop out "height")]) /\
  (forall modelId editPrompt p1 p2 p3 network additional0 e images,
     let additional := or_else additional0 (JObj []) in
     let gen := group additional "generationSettings" in
     let out := group additional "output" in
     getNodeParameter "imageEditModelId" i = Normal modelId ->
     getNodeParameter "imageEditPrompt" i = Normal editPrompt ->
     getNodeParameter "contextImage1Property" i = Normal p1 ->
     getNodeParameterOr "contextImage2Property" i (JStr "") = Normal p2 ->
     getNodeParameterOr "contextImage3Property" i (JStr "") = Normal p3 ->
     getNodeParameter "imageEditNetwork" i = Normal network ->
     getNodeParameterOr "imageEditAdditionalFields" i (JObj []) = Normal additional0 ->
     resolveEdit modelId network additional = Normal e ->
     contextImagesOf i p1 p2 p3 = Normal images ->
     exists config downloads,
       trace (imageEdit client i w).1
         = trace w ++ EvCreateImageEditProject config :: downloads /\
       Forall download_event downloads /\
       prop config "steps" <> JNum NaN /\ prop config "guidance" <> JNum NaN /\
       prop config "timeout" <> JNum NaN /\
       (prop gen "steps" = JNum NaN ->
        prop config "steps" = if e_isLightningModel e then num 4 else num 20) /\
       (prop gen "guidance" = JNum NaN ->
        prop config "guidance" = if e_isLightningModel e then num 1 else num 4) /\
       (prop (group additional "advanced") "timeout" = JNum NaN ->
        prop config "timeout" = if is_str network "fast" then num 60000 else num 600000) /\
       Forall (fun kv => kv.2 = JNum NaN -> prop config kv.1 = JNum NaN)
         [("numberOfMedia", prop gen "numberOfMedia"); ("seed", prop gen "seed");
          ("width", prop out "width"); ("height", prop out "height")]) /\
  (forall request videoNetwork additional0,
     let additional := or_else additional0 (JObj []) in
     let videoSettings := group additional "videoSettings" in
     let videoOutput := group additional "output" in
     videoRequest i = Normal request ->
     getNodeParameter "videoNetwork" i = Normal videoNetwork ->
     getNodeParameterOr "videoAdditionalFields" i (JObj []) = Normal additional0 ->
     exists downloads,
       trace (videoGenerate client i w).1
         = trace w ++ EvCreateVideoProject (vr_config request) :: downloads /\
       Forall download_event downloads /\
       prop (vr_config request) "timeout" <> JNum NaN /\
       (prop (group additional "advanced") "timeout" = JNum NaN ->
        prop (vr_config request) "timeout"
          = if is_str videoNetwork "fast" then num 120000 else num 1200000) /\
       Forall (fun kv => kv.2 = JNum NaN -> prop (vr_config request) kv.1 = JNum NaN)
         [("frames", prop videoSettings "frames");
          ("duration", prop videoSettings "duration"); ("fps", prop videoSettings "fps");
          ("steps", prop videoSettings "steps");
          ("guidance", prop videoSettings "guidance");
          ("shift", prop videoSettings "shift");
          ("teacacheThreshold", prop videoSettings "teacacheThreshold");
          ("numberOfMedia", prop videoSettings "numberOfMedia");
          ("seed", prop videoSettings "seed");
          ("width", prop videoOutput "width"); ("height", prop videoOutput "height")]) /\
  (forall w' o,
     videoEstimateCost client i w = (w', Normal o) ->
     getNodeParameterOr "videoEstimateFrames" i JUndefined = Normal (JNum NaN) ->
     exists params,
       trace w' = trace w ++ [EvEstimateVideoCost params] /\
       prop params "frames" = JUndefined /\
       forall fields, params = JObj fields -> "frames" ∉ fields.*1).
Proof.
  destruct guarded_fields_drop_NaN as (Hgen & Hedit & Hvideo & _).
  split; [|split; [|split]].
  - intros modelId positivePrompt additional0 networkTop controlNet additional gen out
      Hm Hp Ha Hn Hcn.
    destruct (imageGenerate_request client i w _ _ _ _ _ Hm Hp Ha Hn Hcn)
      as (config & downloads & Ht & HF & Hfields).
    exists config, downloads. split; [done|]. split; [done|].
    rewrite !Forall_cons in Hfields.
    destruct Hfields as (Hs & Hg & Hnum & Hseed & Hw & Hh & Hnet & Htime & _).
    simpl in Hs, Hg, Hnum, Hseed, Hw, Hh, Hnet, Htime.
    destruct (Hgen networkTop additional) as [Hnot Hnan].
    split; [by rewrite Htime|]. split.
    + intros Hadv. rewrite Htime, Hnet. apply Hnan. simpl. fold additional. by rewrite Hadv.
    + rewrite !Forall_cons. simpl. fold additional gen out.
      rewrite Hs, Hg, Hnum, Hseed, Hw, Hh. simpl. fold additional gen out.
      repeat (split; [by intros ->|]). constructor.
  - intros modelId editPrompt p1 p2 p3 network additional0 e images additional gen out
      Hm Hp H1 H2 H3 Hn Ha He Hc.
    destruct (imageEdit_request client i w _ _ _ _ _ _ _ _ _ Hm Hp H1 H2 H3 Hn Ha He Hc)
      as (config & downloads & Ht & HF & Hfields).
    exists config, downloads. split; [done|]. split; [done|].
    rewrite !Forall_cons in Hfields.
    destruct Hfields as (Hs & Hg & Hnum & Hseed & Hw & Hh & Hnet & Htime & _).
    simpl in Hs, Hg, Hnum, Hseed, Hw, Hh, Hnet, Htime.
    destruct (Hedit modelId network additional e He)
      as (Hs1 & Hg1 & Ht1 & Hs2 & Hg2 & Ht2).
    destruct (resolveEdit_normal _ _ _ _ He) as (lowered & _ & _ & Hsi & Hti & _).
    destruct (resolveEdit_fields _ _ _ _ He) as (En & Eseed & Ew & Eh).
    rewrite Hs, Hg, Htime. repeat (split; [done|]).
    split; [intros Hnan; apply Hs2; by rewrite Hsi|].
    split; [done|].
    split; [intros Hnan; apply Ht2; by rewrite Hti|].
    rewrite !Forall_cons. simpl. rewrite Hnum, Hseed, Hw, Hh, En, Eseed, Ew, Eh.
    fold additional gen out.
    repeat (split; [by intros ->|]). constructor.
  - intros request videoNetwork additional0 additional videoSettings videoOutput Hr Hn Ha.
    destruct (videoGenerate_request client i w request Hr) as (downloads & Ht & HF).
    destruct (videoRequest_fields i request Hr)
      as (videoModelId & videoNetwork' & additional0' & v & _ & Hn' & Ha' & Hv & Hfields).
    rewrite Hn in Hn'. injection Hn' as <-. rewrite Ha in Ha'. injection Ha' as <-.
    exists downloads. split; [done|]. split; [done|].
    rewrite !Forall_cons in Hfields.
    destruct Hfields
      as (Hf & Hd & Hfps & Hs & Hg & Hsh & Htc & Hnum & Hseed & Hw & Hh & Hnet & Htime & _).
    simpl in Hf, Hd, Hfps, Hs, Hg, Hsh, Htc, Hnum, Hseed, Hw, Hh, Hnet, Htime.
    destruct (Hvideo (v_timeoutInput v) videoNetwork) as [Hnot Hnan].
    split; [by rewrite Htime|]. split.
    + intros Hadv. rewrite Htime. apply Hnan.
      by rewrite (resolveVideo_timeoutInput _ _ _ Hv).
    + destruct (resolveVideo_fields _ _ _ Hv)
        as (Ef & Ed & Efps & Es & Eg & Esh & Etc & Enum & Eseed & Ew & Eh).
      fold additional in Ef, Ed, Efps, Es, Eg, Esh, Etc, Enum, Eseed, Ew, Eh.
      cbv zeta in Ef, Ed, Efps, Es, Eg, Esh, Etc, Enum, Eseed, Ew, Eh.
      fold videoSettings videoOutput in Ef, Ed, Efps, Es, Eg, Esh, Etc, Enum, Eseed, Ew, Eh.
      rewrite !Forall_cons. simpl.
      rewrite Hf, Hd, Hfps, Hs, Hg, Hsh, Htc, Hnum, Hseed, Hw, Hh,
        Ed, Efps, Es, Eg, Esh, Etc, Enum, Eseed, Ew, Eh.
      split.
      { intros Hframes. rewrite Hframes in Ef. by apply resolveFramesValue_NaN in Ef. }
      repeat (split; [by intros ->|]). constructor.
  - unfold videoEstimateCost. intros w' o Hr Hframes.
    apply lift_normal_inv in Hr as (modelId & _ & Hr).
    apply lift_normal_inv in Hr as (width & _ & Hr).
    apply lift_normal_inv in Hr as (height & _ & Hr).
    apply lift_normal_inv in Hr as (fps & _ & Hr).
    apply lift_normal_inv in Hr as (steps & _ & Hr).
    apply lift_normal_inv in Hr as (duration & _ & Hr).
    apply lift_normal_inv in Hr as (framesInput & Hf & Hr).
    rewrite Hframes in Hf. injection Hf as <-.
    apply lift_normal_inv in Hr as (numberOfMedia & _ & Hr).
    apply lift_normal_inv in Hr as (tokenType & _ & Hr).
    cbv zeta in Hr. rewrite emit_bind in Hr.
    apply lift_normal_inv in Hr as (estimate & _ & Hr).
    injection Hr as <- _.
    eexists. split; [reflexivity|]. split; [reflexivity|].
    intros fields [= <-]. simpl.
    rewrite !not_elem_of_cons. repeat (split; [done|]). apply not_elem_of_nil.
Qed.





End Requests.

(** C3, witness: the video request of the sample host is on the fast tier
    and has no timeout in its advanced settings; the request submitted
    carries 120000 ms. *)
Lemma default_timeout_witness :
  (fun config => prop config "timeout")
    <$> submitted (trace (@videoGenerate Samples.sampleRuntime Samples.videoHost
                            Samples.hangingClient 0 Samples.sampleWorld).1)
  = [num 120000].
Proof.
  destruct (@videoRequest Samples.sampleRuntime Samples.videoHost 0) as [request|e] eqn:Hr;
    [|discriminate Hr].
  destruct (proj1 (proj2 (proj2 (@default_timeout_by_tier Samples.sampleRuntime
                                   Samples.videoHost Samples.hangingClient 0
                                   Samples.sampleWorld)))
              request (JStr "fast") _ Hr eq_refl eq_refl ltac:(by left))
    as (downloads & Ht & HF & _ & _ & Hfast).
  rewrite Ht. simpl. rewrite (submitted_downloads downloads HF). simpl.
  by rewrite (Hfast eq_refl).
Defined.

(** C5, witness: the image generation of the gallery host is on the relaxed
    tier and its advanced timeout arrives as [NaN]; the request submitted
    carries the relaxed default, 600000 ms, and the flat legacy timeout of
    30000 ms is not consulted. *)
Lemma nan_timeout_witness :
  (fun config => prop config "timeout")
    <$> submitted (trace (@imageGenerate MoreSamples.decimalRuntime MoreSamples.galleryHost
                            MoreSamples.galleryClient 0 Samples.sampleWorld).1)
  = [num 600000].
Proof.
  destruct (proj1 (@nan_replaced_by_derived_default MoreSamples.decimalRuntime
                     MoreSamples.galleryHost MoreSamples.galleryClient 0 Samples.sampleWorld)
              (JStr "flux1-schnell-fp8") (JStr "a lighthouse") MoreSamples.galleryFields
              (JStr "relaxed") [] eq_refl eq_refl eq_refl eq_refl eq_refl)
    as (config & downloads & Ht & HF & _ & Htime & _).
  rewrite Ht. simpl. rewrite (submitted_downloads downloads HF). simpl.
  rewrite (Htime eq_refl).
  injection Ht as Hc _. by rewrite <- Hc.
Defined.

(** C5, counterexample: in the same request the number of steps arrives as
    [NaN] in [generationSettings], the flat legacy field gives 30 and the
    default is 20; the request submitted carries [NaN] as its number of
    steps, and so does the record of the item. *)
Lemma nan_steps_used_literally :
  let run := @imageGenerate MoreSamples.decimalRuntime MoreSamples.galleryHost
               MoreSamples.galleryClient 0 Samples.sampleWorld in
  prop (prop MoreSamples.galleryFields "generationSettings") "steps" = JNum NaN /\
  prop MoreSamples.galleryFields "steps" = num 30 /\
  (fun config => prop config "steps") <$> submitted (trace run.1) = [JNum NaN] /\
  (o ← run.2; mret (reported o "steps")) = Normal (JNum NaN).
Proof. repeat split; by vm_compute. Qed.


(** The image generation of the gallery host, whose second result URL
    answers 404: the record comes back with the artifacts of the first and
    the third URL in [image] and [image_2], and nothing in [image_1]. *)
Example gallery_generation :
  let run := @imageGenerate MoreSamples.decimalRuntime MoreSamples.galleryHost
               MoreSamples.galleryClient 0 Samples.sampleWorld in
  let slots (o : Output) := dom (default ∅ (out_binary o)) in
  (o ← run.2; mret (slots o)) = Normal ({["image"; "image_2"]} : gset string) /\
  fetched (trace run.1) = [JStr "https://cdn.example/a.png"; JStr "https://cdn.example/b.png";
                           JStr "https://cdn.example/c.png"].
Proof. split; by vm_compute. Qed.

End RequestFacts.

(* ===================================================================== *)
(** ** Lookups against [execute] *)
(* ===================================================================== *)

Module CoherenceFacts.
Import Session Identity Resolve Artifacts Execute LoadOptions Props Frames.
Import EffFacts AssetFacts ResolveFacts LookupFacts.
Import Observations.

Section Coherence.
Context `{JsRuntime}.

(** X13. For a model whose worker count is a finite number, the option is
    marked as recommended exactly when the count is at least 5 and the model
    is not reported unhealthy ([health] or [status] is [healthy], or the flag
    [healthy] is not [false]); the mark is always defined, and the label of
    the option is the title (the name of the model, or its id when it has no
    name) and the worker badge, followed by [ (recommended)] when the mark is
    set and by nothing otherwise. *)
Theorem recommended_means_five_workers_and_not_unhealthy (model : jsval) (q : Q) :
  workersOf model = JNum (Finite q) ->
  (recommendedOf model (workersOf model) = Normal true <->
     (5 <= q)%Q /\ notUnhealthy model) /\
  (exists recommended, recommendedOf model (workersOf model) = Normal recommended) /\
  (forall option, optionOf model = Normal option ->
     exists recommended title badge,
       recommendedOf model (workersOf model) = Normal recommended /\
       ToString (or_else (prop model "name") (prop model "id")) = Normal title /\
       badgeOf (workersOf model) = Normal badge /\
       prop option "name"
         = JStr (title +:+ badge +:+ (if recommended : bool then " (recommended)" else ""))).
Proof.
  intros Hw.
  assert (Hrec : recommendedOf model (workersOf model) = Normal true <->
                 (5 <= q)%Q /\ notUnhealthy model).
  { unfold recommendedOf, healthyOf, notUnhealthy, ge_const, gt_const. rewrite Hw. simpl.
    destruct (is_str (prop model "health") "healthy") eqn:H1; simpl.
    { destruct (Qle_bool 5 q) eqn:E.
      - apply Qle_bool_iff in E. split; [intros _; split; auto | done].
      - split; [done|]. intros [Hq _]. apply Qle_bool_iff in Hq. congruence. }
    destruct (is_str (prop model "status") "healthy") eqn:H2; simpl.
    { destruct (Qle_bool 5 q) eqn:E.
      - apply Qle_bool_iff in E. split; [intros _; split; auto | done].
      - split; [done|]. intros [Hq _]. apply Qle_bool_iff in Hq. congruence. }
    destruct (prop model "healthy") as [| |[|]| | | | |] eqn:H3; simpl;
      try (destruct (Qle_bool q 0) eqn:E0; simpl);
      try (destruct (Qle_bool 5 q) eqn:E; simpl);
      try apply Qle_bool_iff in E0; try apply Qle_bool_iff in E;
      split; try done;
      try (by intros _; split; [done | right; right]);
      try (by intros [Hq _]; apply Qle_bool_iff in Hq; congruence);
      try (by intros [_ [?|[?|?]]]);
      try (intros [Hq _]; lra). }
  split; [done|]. split.
  { unfold recommendedOf, healthyOf, ge_const, gt_const. rewrite Hw. simpl.
    destruct (is_str _ _); simpl; [by eexists|].
    destruct (is_str _ _); simpl; [by eexists|].
    destruct (prop model "healthy") as [| |[|]| | | | |]; simpl;
      try destruct (negb _); by eexists. }
  intros option Ho. unfold optionOf in Ho.
  apply cbind_Normal in Ho as (? & _ & Ho).
  apply cbind_Normal in Ho as (recommended & Hr & Ho).
  apply cbind_Normal in Ho as (badge & Hb & Ho).
  apply cbind_Normal in Ho as (title & Ht & Ho).
  injection Ho as <-. by exists recommended, title, badge.
Qed.

(** X14. The lookups and [execute] read a model id the same way. A model whose
    id [execute] quantises frames for (lower-cased, it starts with [ltx2-]) is
    accepted by the filter of [getVideoModelOptions] whenever that filter
    returns. And the number of steps the label of an image edit option
    recommends (4 for a lightning model, 20 otherwise) is the number [execute]
    uses for that model when the request gives no usable step count. *)
Theorem lookups_agree_with_execute (model : jsval) (id : string) :
  prop model "id" = JStr id ->
  (forall listed, isVideoModel model = Normal listed ->
     isLtx2Model id = true -> listed = true) /\
  (forall option modelId network additional e,
     editOptionOf model = Normal option ->
     modelId = JStr id ->
     resolveEdit modelId network additional = Normal e ->
     is_real_number (e_stepsInput e) = false ->
     (recommendsSteps option "4" /\ e_steps e = num 4) \/
     (recommendsSteps option "20" /\ e_steps e = num 20)).
Proof.
  intros Hid. split.
  - intros listed Hv Hl. unfold isVideoModel in Hv.
    apply cbind_Normal in Hv as (? & _ & Hv). rewrite Hid in Hv.
    unfold isLtx2Model in Hl.
    assert (Hlow : call_toLowerCase (or_else (JStr id) (JStr "")) = Normal (toLowerCase id)).
    { unfold or_else. simpl. by destruct id. }
    rewrite Hlow in Hv. simpl in Hv.
    apply cbind_Normal in Hv as (name & _ & Hv).
    apply cbind_Normal in Hv as (description & _ & Hv).
    injection Hv as <-. by rewrite Hl, orb_true_r.
  - intros option modelId network additional e Ho -> He Hs.
    destruct (resolveEdit_normal _ _ _ _ He) as (lowered & Hlow & Hlight & _ & _ & Hsteps & _).
    injection Hlow as <-. rewrite Hs in Hsteps.
    unfold editOptionOf in Ho.
    apply cbind_Normal in Ho as (? & _ & Ho).
    apply cbind_Normal in Ho as (recommended & _ & Ho).
    apply cbind_Normal in Ho as (badge & _ & Ho).
    apply cbind_Normal in Ho as (lowered & Hlow & Ho).
    apply cbind_Normal in Ho as (title & _ & Ho).
    injection Ho as <-.
    rewrite Hid in Hlow.
    assert (lowered = toLowerCase id) as ->.
    { unfold or_else in Hlow. simpl in Hlow. destruct id; by injection Hlow as <-. }
    rewrite Hsteps, Hlight.
    destruct (includes (toLowerCase id) "lightning"); [left | right];
      (split; [|done]); exists title, badge, (if recommended then " â˜…" else ""); done.
Qed.

End Coherence.
(** X13, witness: a healthy model with 12 workers is recommended. *)
Lemma recommended_witness :
  @recommendedOf Samples.sampleRuntime MoreSamples.fluxModel (workersOf MoreSamples.fluxModel)
    = Normal true.
Proof.
  apply (proj1 (@recommended_means_five_workers_and_not_unhealthy Samples.sampleRuntime
                  MoreSamples.fluxModel (inject_Z 12) eq_refl)).
  split; [by vm_compute | by left].
Defined.

(** X14, witness: the sample LTX-2 model is listed as a video model. *)
Lemma lookups_agree_with_execute_witness :
  @isVideoModel MoreSamples.ltx2Model = Normal true.
Proof.
  destruct (@isVideoModel MoreSamples.ltx2Model) as [listed|e] eqn:Hv; [|discriminate Hv].
  by rewrite (proj1 (lookups_agree_with_execute (H := Samples.sampleRuntime)
                       MoreSamples.ltx2Model "ltx2-13b" eq_refl) listed Hv eq_refl).
Defined.

End CoherenceFacts.

(* ===================================================================== *)
(** ** The cost estimate and items without a branch *)
(* ===================================================================== *)

Module MoreBranchFacts.
Import Session Identity Resolve Artifacts Execute LoadOptions Props.
Import EffFacts SessionFacts AssetFacts LoopFacts ArtifactFacts LookupFacts.
Import Observations.
Import EmitFacts RunFacts ExecuteFacts BranchFacts.

Lemma estimateFrames_Some (framesInput frames : jsval) :
  estimateFrames framesInput = Some frames <->
  frames = framesInput /\ positiveNumber framesInput.
Proof.
  unfold estimateFrames, positiveNumber, is_real_number. split.
  - destruct framesInput as [| | |[|[|]|q]| | | |]; simpl; try done.
    + intros [= <-]. split; [done | by left].
    + destruct (Qle_bool q 0) eqn:E; [done|]. intros [= <-]. split; [done|].
      right. exists q. split; [done|].
      apply Qnot_le_lt. intros Hle. apply Qle_bool_iff in Hle. congruence.
  - intros [-> [-> | (q & -> & Hq)]]; simpl; [done|].
    destruct (Qle_bool q 0) eqn:E; [|done].
    apply Qle_bool_iff in E. apply Qlt_not_le in Hq. done.
Qed.

Section Branches.
Context `{JsRuntime} `{Host}.

(** X23. The cost estimate makes one call and returns its answer with the
    parameters it sent. The frame count is part of them only when it is a
    number above zero: for zero, a negative number, [NaN] or a value that is
    no number the key [frames] is absent. *)
Theorem estimate_sends_frames_only_when_positive (client : Client) (i : nat)
    (w w' : world) (o : Output) :
  videoEstimateCost client i w = (w', Normal o) ->
  exists params estimate framesInput,
    trace w' = trace w ++ [EvEstimateVideoCost params] /\
    c_estimateVideoCost client params = Normal estimate /\
    out_json o = JObj [("modelId", prop params "modelId"); ("parameters", params);
                       ("estimate", estimate)] /\
    out_binary o = None /\
    getNodeParameterOr "videoEstimateFrames" i JUndefined = Normal framesInput /\
    (positiveNumber framesInput -> prop params "frames" = framesInput) /\
    (~ positiveNumber framesInput ->
     prop params "frames" = JUndefined /\
     forall fields, params = JObj fields -> "frames" ∉ fields.*1).
Proof.
  unfold videoEstimateCost. intros Hr.
  apply lift_normal_inv in Hr as (modelId & _ & Hr).
  apply lift_normal_inv in Hr as (width & _ & Hr).
  apply lift_normal_inv in Hr as (height & _ & Hr).
  apply lift_normal_inv in Hr as (fps & _ & Hr).
  apply lift_normal_inv in Hr as (steps & _ & Hr).
  apply lift_normal_inv in Hr as (duration & _ & Hr).
  apply lift_normal_inv in Hr as (framesInput & Hframes & Hr).
  apply lift_normal_inv in Hr as (numberOfMedia & _ & Hr).
  apply lift_normal_inv in Hr as (tokenType & _ & Hr).
  cbv zeta in Hr. rewrite emit_bind in Hr.
  apply lift_normal_inv in Hr as (estimate & Hest & Hr).
  injection Hr as <- <-.
  eexists _, estimate, framesInput.
  split; [reflexivity|]. split; [exact Hest|]. split; [reflexivity|].
  split; [reflexivity|]. split; [exact Hframes|].
  destruct (estimateFrames framesInput) as [frames|] eqn:E.
  - apply estimateFrames_Some in E as [-> Hpos]. split; [done|]. by intros [].
  - split.
    + intros Hpos. assert (estimateFrames framesInput = Some framesInput) as Hs
        by (by apply estimateFrames_Some). congruence.
    + intros _. split; [done|]. intros fields [= <-]. simpl.
      rewrite !not_elem_of_cons. repeat (split; [done|]). apply not_elem_of_nil.
Qed.

(** X24. An item whose selectors name none of the seven branches is skipped
    without a sound: no call, no record, no error. And with no input item at
    all, [execute] still constructs its client, and what it returns is one
    empty list of records: it returns whenever the shutdown of the session
    does, as it must when every exception the wrapper raises is printable,
    and it throws what the shutdown throws otherwise. *)
Theorem nothing_to_do (client : Client) (i : nat) (w : world) :
  (forall resource operation,
     getNodeParameter "resource" i = Normal resource ->
     getNodeParameter "operation" i = Normal operation ->
     singleRecord resource operation = false ->
     selectsGetAll resource operation = false ->
     processItem client i w = (w, Normal tt)) /\
  (forall credentials,
     getCredentials = Normal credentials -> getInputData = [] ->
     let shutdown :=
       safeDisconnect (Some (executionClient credentials w))
         (executeContext (executionIdOf credentials w)) (loopStart credentials w) in
     (execute w).2 = match shutdown.2 with
                     | Normal _ => Normal [[]]
                     | Throw e => Throw e
                     end /\
     (printableErrors (executionClient credentials w) = true ->
      (execute w).2 = Normal [[]]) /\
     EvNewClient (executionIdOf credentials w) ∈ trace (execute w).1).
Proof.
  split.
  - intros resource operation Hr Ho Hs Hg. unfold processItem.
    rewrite run_lift_bind, Hr, run_lift_bind, Ho. unfold dispatch. rewrite Hg.
    unfold singleRecord in Hs. rewrite !orb_false_iff in Hs.
    destruct Hs as (((((-> & ->) & ->) & ->) & ->) & ->). done.
  - intros credentials Hc Hitems shutdown.
    assert (Hout : (execute w).2 = match shutdown.2 with
                                   | Normal _ => Normal [[]]
                                   | Throw e => Throw e
                                   end).
    { pose proof (execute_loop_outcome credentials w Hc) as Hout. cbv zeta in Hout.
      destruct (loopStart_spec credentials w) as (Hempty & _).
      rewrite Hout, Hitems.
      change (runItems (executionClient credentials w) (seq 0 (List.length []))
                (loopStart credentials w)) with (loopStart credentials w, Normal tt).
      cbn [fst snd]. fold shutdown. rewrite Hempty. by destruct shutdown.2. }
    split; [done|]. split.
    + intros Hp. rewrite Hout. unfold shutdown.
      by rewrite (safeDisconnect_returns (Some (executionClient credentials w)) _ _ Hp).
    + destruct (execute_after_start credentials w Hc) as (work & closing & -> & _).
      destruct (loopStart_spec credentials w) as (_ & _ & logs & -> & _).
      rewrite !elem_of_app. left. right. right. constructor.
Qed.

End Branches.
(** X23, witness: the sample host leaves the frame count undefined, and the
    parameters have no [frames]. *)
Lemma estimate_sends_frames_only_when_positive_witness :
  exists (o : Output) params,
    (@videoEstimateCost MoreSamples.studioHost MoreSamples.promptClient 0 Samples.sampleWorld).2
      = Normal o /\
    prop (out_json o) "parameters" = params /\ prop params "frames" = JUndefined.
Proof.
  destruct (@videoEstimateCost MoreSamples.studioHost MoreSamples.promptClient 0
              Samples.sampleWorld) as [w' [o|e]] eqn:Hrun; [|discriminate Hrun].
  destruct (@estimate_sends_frames_only_when_positive MoreSamples.studioHost
              MoreSamples.promptClient 0 Samples.sampleWorld w' o Hrun)
    as (params & estimate & framesInput & _ & _ & Hjson & _ & Hf & _ & Hnot).
  injection Hf as <-. exists o, params. split; [reflexivity|].
  split; [by rewrite Hjson|]. apply Hnot.
  intros [Hinf | (q & Hq & _)]; discriminate.
Defined.

(** X24, witness: the pair [image]/[estimateCost] names no branch; the idle
    host has no items and gets the empty result. *)
Lemma nothing_to_do_witness :
  @processItem Samples.sampleRuntime MoreSamples.idleHost MoreSamples.offlineClient 0
    Samples.sampleWorld = (Samples.sampleWorld, Normal tt) /\
  (@execute Samples.sampleRuntime MoreSamples.idleHost Samples.sampleWorld).2 = Normal [[]].
Proof.
  pose proof (@nothing_to_do Samples.sampleRuntime MoreSamples.idleHost MoreSamples.offlineClient 0
                Samples.sampleWorld) as [Hskip Hempty].
  split.
  - exact (Hskip (JStr "image") (JStr "estimateCost") eq_refl eq_refl eq_refl eq_refl).
  - exact (proj1 (proj2 (Hempty _ eq_refl eq_refl)) eq_refl).
Defined.

End MoreBranchFacts.

(* ===================================================================== *)
(** ** The model lookup of the earlier copy *)
(* ===================================================================== *)

Module LegacyFacts.
Import Session Identity LoadOptions Props EffFacts SessionFacts AssetFacts.
Import Observations LookupFacts.

Section Legacy.
Context `{JsRuntime} `{Host}.

Lemma lookupAppId_normal (credentials : jsval) (w : world) :
  exists appId, (LegacyLookup.lookupAppId credentials w).2 = Normal appId /\
                truthy appId = true /\
                (truthy (prop credentials "appId") = true ->
                 LegacyLookup.lookupAppId credentials w = (w, Normal (prop credentials "appId"))).
Proof.
  unfold LegacyLookup.lookupAppId.
  destruct (truthy (prop credentials "appId")) eqn:E.
  - by exists (prop credentials "appId").
  - eexists. split; [reflexivity|]. split; [|done]. done.
Qed.

(** The identity is the one [Legacy.appIdOf] gives for the text of the
    template literal. *)
Lemma lookupAppId_appIdOf (credentials : jsval) (w : world) :
  (LegacyLookup.lookupAppId credentials w).2
    = Normal (Legacy.appIdOf credentials
                ("n8n-model-picker-" +:+ show_Z (clock w) +:+ "-" +:+ entropy w (drawn w))).
Proof.
  unfold LegacyLookup.lookupAppId, Legacy.appIdOf, or_else.
  by destruct (truthy (prop credentials "appId")).
Qed.

Lemma lookupBody_outcome (client : Client) (w : world) :
  (LegacyLookup.lookupBody client w).2 =
    (models ← listed client "modelSearch";
     options ← mapM optionOf models;
     mret (JArr options)).
Proof.
  unfold LegacyLookup.lookupBody. rewrite run_bind.
  destruct (fetchModels_run client "modelSearch" w) as [w1 ->].
  destruct (listed _ _) as [models|e]; [|done]. simpl. rewrite run_lift_bind.
  by destruct (mapM optionOf models).
Qed.

(** X25. [getModelOptions] of the earlier copy of the node awaits
    [client.disconnect()] without a timer: when that promise never settles the
    lookup never returns, whatever the listing gave. In every other case it
    returns what the listing and the mapping give, which is the outcome of the
    current lookup whenever the two clients list the same models and the
    shutdown of the current lookup has only printable exceptions to report.
    It uses the raw [appId] of the credentials when that one is truthy. *)
Theorem earlier_lookup_has_no_time_bound (credentials : jsval) (w : world) :
  getCredentials = Normal credentials ->
  let client := LegacyLookup.lookupClientOf credentials w in
  (c_disconnect client = Normal (Function (Normal Pending)) ->
     LegacyLookup.getModelOptions w = None) /\
  (c_disconnect client <> Normal (Function (Normal Pending)) ->
     exists w', LegacyLookup.getModelOptions w
                = Some (w', (models ← listed client "modelSearch";
                             options ← mapM optionOf models;
                             mret (JArr options)))) /\
  (truthy (prop credentials "appId") = true ->
     LegacyLookup.lookupAppId credentials w = (w, Normal (prop credentials "appId"))) /\
  (listed client "modelSearch"
     = listed (lookupClient credentials w) "modelSearch" ->
   printableErrors (lookupClient credentials w) = true ->
   forall w' outcome,
     LegacyLookup.getModelOptions w = Some (w', outcome) ->
     outcome = (getModelOptions w).2).
Proof.
  intros Hc client.
  destruct (lookupAppId_normal credentials w) as (appId & Ha & _ & Hid).
  assert (Hrun : LegacyLookup.getModelOptions w =
                 let w1 := (LegacyLookup.lookupAppId credentials w).1 in
                 let body := LegacyLookup.lookupBody client w1 in
                 match LegacyLookup.disconnectQuietly client body.1 with
                 | Some (w3, _) => Some (w3, body.2)
                 | None => None
                 end).
  { unfold LegacyLookup.getModelOptions. rewrite Hc.
    subst client. unfold LegacyLookup.lookupClientOf.
    destruct (LegacyLookup.lookupAppId credentials w) as [w1 r]. simpl in Ha. subst r. simpl.
    destruct (LegacyLookup.lookupBody _ w1) as [w2 outcome]. simpl.
    unfold LegacyLookup.disconnectQuietly.
    destruct (c_disconnect _) as [[|[[after o|]|e]]|e]; done. }
  rewrite Hrun. cbv zeta. rewrite lookupBody_outcome.
  split; [|split; [|split]].
  - intros Hd. unfold LegacyLookup.disconnectQuietly. by rewrite Hd.
  - intros Hd. unfold LegacyLookup.disconnectQuietly.
    destruct (c_disconnect client) as [[|[[after o|]|e]]|e];
      first [by destruct Hd | by eexists].
  - exact Hid.
  - intros Hsame Hp w' outcome.
    rewrite (proj1 (getModelOptions_outcome credentials w Hc) Hp).
    unfold modelOptionsOf. rewrite <- Hsame.
    destruct (LegacyLookup.disconnectQuietly client _) as [[w3 r]|]; [|done].
    by intros [= _ <-].
Qed.

End Legacy.
(** X25, witness: with the sample client, whose [disconnect] hangs, the
    earlier lookup never returns. *)
Lemma earlier_lookup_has_no_time_bound_witness :
  @LegacyLookup.getModelOptions Samples.sampleRuntime Samples.sampleHost Samples.sampleWorld
    = None.
Proof.
  exact (proj1 (@earlier_lookup_has_no_time_bound Samples.sampleRuntime Samples.sampleHost
                  Samples.sampleCredentials Samples.sampleWorld eq_refl)
           eq_refl).
Defined.

End LegacyFacts.
